(** * Deltective: the statistics aggregator, the insight analyzer, the
      configuration extractor and the timeline analyzer, embedded from
      [src/deltective/inspector.py] and [src/deltective/insights.py].

    Python integers are [Z]; Python floats are IEEE-754 binary64 values
    (module [Float]); a raised exception is the [Raise] branch of [result];
    dictionaries with string keys are [gmap string _]; the analyzer's
    mutable [self.insights] list is threaded explicitly. *)

From Stdlib Require Import ZArith QArith Qabs Qreduction Qround Lia Lqa Bool List String Ascii.
From Stdlib Require Import Sorting.Sorted Permutation.
From stdpp Require Import gmap strings list sorting pretty.

Local Open Scope Z_scope.

(** ** Exceptions *)

Inductive exn : Type :=
| ZeroDivisionError
| OverflowError
| ValueError (literal : string)
| KeyError (key : string)
| IndexError
| TypeError.

Inductive result (A : Type) : Type :=
| Ok (a : A)
| Raise (e : exn).
Arguments Ok {A} a.
Arguments Raise {A} e.

Global Instance result_ret : MRet result := fun A a => Ok a.
Global Instance result_bind : MBind result := fun A B k r =>
  match r with
  | Ok a => k a
  | Raise e => Raise e
  end.

Global Instance result_fmap : FMap result := fun A B f r =>
  match r with
  | Ok a => Ok (f a)
  | Raise e => Raise e
  end.

Definition returns {A} (r : result A) : bool :=
  match r with Ok _ => true | Raise _ => false end.

(** ** IEEE-754 binary64 arithmetic, round to nearest, ties to even *)

Module Float.

(** A finite non-zero value carries its exact rational value in lowest
    terms; zeros and infinities carry their sign bit. *)
Inductive float : Type :=
| Fzero (neg : bool)
| Ffin (q : Q)
| Finf (neg : bool)
| Fnan.

(** [ilog2 a b] is the floor of the binary logarithm of [a/b], for
    positive [a] and [b]. *)
Definition ilog2 (a b : Z) : Z :=
  let d := Z.log2 a - Z.log2 b in
  if (if 0 <=? d then b * 2 ^ d <=? a else b <=? a * 2 ^ (- d))
  then d else d - 1.

(** Nearest integer to [a/b] ([0 <= a], [0 < b]), ties to even. *)
Definition rne (a b : Z) : Z :=
  let q := a / b in
  match 2 * (a mod b) ?= b with
  | Lt => q
  | Gt => q + 1
  | Eq => if Z.even q then q else q + 1
  end.

(** The exponent of the unit in the last place of [a/b]: 53 significant
    bits, and never below the subnormal exponent -1074. *)
Definition fexp (a b : Z) : Z := Z.max (ilog2 a b - 52) (-1074).

Definition scaled_rne (a b e : Z) : Z :=
  if 0 <=? e then rne a (b * 2 ^ e) else rne (a * 2 ^ (- e)) b.

Definition pow2 (e : Z) : Q :=
  if 0 <=? e then inject_Z (2 ^ e) else 1 # Z.to_pos (2 ^ (- e)).

(** The magnitude [a/b] rounded to the binary64 grid, the exponent range
    unbounded above. *)
Definition round_pos (a b : Z) : Q :=
  let e := fexp a b in (inject_Z (scaled_rne a b e) * pow2 e)%Q.

Definition max_pow : Q := inject_Z (2 ^ 1024).

Definition finish (neg : bool) (v : Q) : float :=
  if Qeq_bool v 0 then Fzero neg
  else if Qle_bool max_pow v then Finf neg
  else Ffin (Qred (if neg then - v else v)).

(** [round neg0 q] is the binary64 value nearest to the exact result [q];
    [neg0] is the sign given to an exact zero. *)
Definition round (neg0 : bool) (q : Q) : float :=
  match Qnum q with
  | Z0 => Fzero neg0
  | Zpos a => finish false (round_pos (Zpos a) (Zpos (Qden q)))
  | Zneg a => finish true (round_pos (Zpos a) (Zpos (Qden q)))
  end.

Definition fneg (x : float) : float :=
  match x with
  | Fzero s => Fzero (negb s)
  | Ffin q => Ffin (- q)
  | Finf s => Finf (negb s)
  | Fnan => Fnan
  end.

Definition fsign (x : float) : bool :=
  match x with
  | Fzero s | Finf s => s
  | Ffin q => Qnum q <? 0
  | Fnan => false
  end.

Definition fadd (x y : float) : float :=
  match x, y with
  | Fnan, _ | _, Fnan => Fnan
  | Finf s, Finf t => if Bool.eqb s t then Finf s else Fnan
  | Finf s, _ | _, Finf s => Finf s
  | Fzero s, Fzero t => Fzero (s && t)
  | Fzero _, Ffin q | Ffin q, Fzero _ => Ffin q
  | Ffin p, Ffin q => round false (p + q)
  end.

Definition fsub (x y : float) : float := fadd x (fneg y).

Definition fmul (x y : float) : float :=
  match x, y with
  | Fnan, _ | _, Fnan => Fnan
  | Finf _, Fzero _ | Fzero _, Finf _ => Fnan
  | Finf _, _ | _, Finf _ => Finf (xorb (fsign x) (fsign y))
  | Fzero _, _ | _, Fzero _ => Fzero (xorb (fsign x) (fsign y))
  | Ffin p, Ffin q => round false (p * q)
  end.

Definition fdiv (x y : float) : float :=
  match x, y with
  | Fnan, _ | _, Fnan => Fnan
  | Finf _, Finf _ | Fzero _, Fzero _ => Fnan
  | Finf _, _ | _, Fzero _ => Finf (xorb (fsign x) (fsign y))
  | Fzero _, _ | _, Finf _ => Fzero (xorb (fsign x) (fsign y))
  | Ffin p, Ffin q => round false (p / q)
  end.

(** The correctly rounded square root of a non-negative value: the
    integer root of the value scaled by an even power of two decides the
    rounding, an inexact root lies strictly inside a unit interval far
    below the precision. *)
Definition fsqrt (x : float) : float :=
  match x with
  | Fnan => Fnan
  | Fzero s => Fzero s
  | Finf s => if s then Fnan else Finf false
  | Ffin q =>
      if Qnum q <? 0 then Fnan
      else
        let k := Z.log2 (Zpos (Qden q)) + 128 in
        let n := Qnum q * 4 ^ k / Zpos (Qden q) in
        let s := Z.sqrt n in
        if (s * s =? n) && (Qnum q * 4 ^ k mod Zpos (Qden q) =? 0)
        then round false (inject_Z s * pow2 (- k))
        else round false (inject_Z (2 * s + 1) * pow2 (- k - 1))
  end.

(** Exact comparison of a float with a rational; [None] for a NaN. *)
Definition cmpQ (x : float) (q : Q) : option comparison :=
  match x with
  | Fnan => None
  | Finf s => Some (if s then Lt else Gt)
  | Fzero _ => Some (0 ?= q)%Q
  | Ffin v => Some (v ?= q)%Q
  end.

Definition ltQ (x : float) (q : Q) : bool :=
  match cmpQ x q with Some Lt => true | _ => false end.
Definition gtQ (x : float) (q : Q) : bool :=
  match cmpQ x q with Some Gt => true | _ => false end.
Definition is_zero (x : float) : bool :=
  match x with Fzero _ => true | _ => false end.

End Float.


(** ** Python numbers *)

Import Float.

(** int to float, as [float(n)] and every mixed int/float operation do
    it: correctly rounded, [OverflowError] beyond the finite range. *)
Definition float_of_int (n : Z) : result float :=
  match round false (inject_Z n) with
  | Finf _ => Raise OverflowError
  | x => Ok x
  end.

(** [a / b] on two ints: the correctly rounded quotient. *)
Definition int_truediv (a b : Z) : result float :=
  if b =? 0 then Raise ZeroDivisionError
  else if a =? 0 then Ok (Fzero (b <? 0))
  else
    match round false (a * Z.sgn b # Z.to_pos (Z.abs b)) with
    | Finf _ => Raise OverflowError
    | x => Ok x
    end.

(** [x / y] on two floats. *)
Definition float_truediv (x y : float) : result float :=
  if is_zero y then Raise ZeroDivisionError else Ok (fdiv x y).

(** [x / n], [x * n] and [n - x] for a float [x] and an int [n]. *)
Definition float_div_int (x : float) (n : Z) : result float :=
  y ← float_of_int n; float_truediv x y.
Definition float_mul_int (x : float) (n : Z) : result float :=
  y ← float_of_int n; Ok (fmul x y).
Definition int_sub_float (n : Z) (x : float) : result float :=
  y ← float_of_int n; Ok (fsub y x).

(** [x ** 2] on a float: the cases of CPython's [float_pow] for the
    exponent 2.0, the platform's [pow] taken correctly rounded; a result
    beyond the finite range raises. *)
Definition float_pow_2 (x : float) : result float :=
  match x with
  | Fnan => Ok Fnan
  | Finf _ => Ok (Finf false)
  | Fzero _ => Ok (Fzero false)
  | Ffin q =>
      match round false (q * q) with
      | Finf _ => Raise OverflowError
      | r => Ok r
      end
  end.

(** The outcome of [x ** 0.5]: a float, or a complex number for a
    negative finite base. *)
Inductive power : Type :=
| PFloat (x : float)
| PComplex.

Definition float_pow_half (x : float) : power :=
  match x with
  | Fnan => PFloat Fnan
  | Finf _ => PFloat (Finf false)
  | Fzero _ => PFloat (Fzero false)
  | Ffin q => if Qnum q <? 0 then PComplex else PFloat (fsqrt x)
  end.

(** [sum(xs)] over floats: the start value is the int 0, the additions
    run left to right, each one rounded.  An interpreter that carries a
    compensation term along (CPython from 3.12 on) returns the same float
    whenever the partial sums are exact. *)
Definition float_sum (xs : list float) : float :=
  fold_left fadd xs (Fzero false).

Definition int_sum (xs : list Z) : Z := fold_left Z.add xs 0.

(** [len(l)] *)
Definition len {A} (l : list A) : Z := Z.of_nat (length l).

(** ** Python strings

    A [str] is the string of its code points, for text within
    U+0000..U+00FF. *)

Local Open Scope string_scope.

Definition code (c : ascii) : N := N_of_ascii c.

(** [str.isspace] on one character. *)
Definition is_space (c : ascii) : bool :=
  let n := code c in
  ((9 <=? n) && (n <=? 13) || (28 <=? n) && (n <=? 32)
   || (n =? 133) || (n =? 160))%N.

(** The whitespace that [int()] skips: C's [isspace] below 127, the
    Unicode spaces above. *)
Definition is_int_space (c : ascii) : bool :=
  let n := code c in
  ((9 <=? n) && (n <=? 13) || (n =? 32) || (n =? 133) || (n =? 160))%N.

Fixpoint lstrip (s : string) : string :=
  match s with
  | String c s' => if is_space c then lstrip s' else s
  | EmptyString => EmptyString
  end.

Fixpoint rstrip (s : string) : string :=
  match s with
  | String c s' =>
      match rstrip s' with
      | EmptyString => if is_space c then EmptyString else String c EmptyString
      | r => String c r
      end
  | EmptyString => EmptyString
  end.

(** [s.strip()] *)
Definition strip (s : string) : string := rstrip (lstrip s).

(** [s.startswith(p)] *)
Definition startswith (s p : string) : bool := String.prefix p s.

(** [s.replace(old, new)]: the occurrences of [old] are found left to
    right and do not overlap; [skip] counts the characters of the
    occurrence being replaced that are still to pass. *)
Fixpoint replace_from (skip : nat) (old new s : string) : string :=
  match s with
  | EmptyString =>
      match skip, old with O, EmptyString => new | _, _ => EmptyString end
  | String c s' =>
      match skip with
      | S k => replace_from k old new s'
      | O =>
          match old with
          | EmptyString => new ++ String c (replace_from 0 old new s')
          | String _ old' =>
              if String.prefix old s
              then new ++ replace_from (String.length old') old new s'
              else String c (replace_from 0 old new s')
          end
      end
  end.

Definition replace (s old new : string) : string := replace_from 0 old new s.

(** The interpreter's default limit on the digits of a decimal literal
    given to [int()]. *)
Definition int_max_str_digits : nat := 4300.

Definition digit_value (c : ascii) : option Z :=
  let n := code c in
  if ((48 <=? n) && (n <=? 57))%N then Some (Z.of_N n - 48)%Z else None.

(** The digits of a literal after the sign: decimal digits, single
    underscores only between two digits.  [prev] tells whether the
    previous character was a digit; the result is the value and the
    number of digits. *)
Fixpoint int_digits (s : string) (prev : bool) (acc : Z) (n : nat)
  : option (Z * nat) :=
  match s with
  | EmptyString => if prev then Some (acc, n) else None
  | String c s' =>
      match digit_value c with
      | Some d => int_digits s' true (10 * acc + d)%Z (S n)
      | None =>
          if (code c =? 95)%N && prev then int_digits s' false acc n else None
      end
  end.

Fixpoint int_lstrip (s : string) : string :=
  match s with
  | String c s' => if is_int_space c then int_lstrip s' else s
  | EmptyString => EmptyString
  end.

Fixpoint int_rstrip (s : string) : string :=
  match s with
  | String c s' =>
      match int_rstrip s' with
      | EmptyString => if is_int_space c then EmptyString else String c EmptyString
      | r => String c r
      end
  | EmptyString => EmptyString
  end.

(** [int(s)] on a string: optional surrounding whitespace, an optional
    sign, then the digits; anything else raises [ValueError]. *)
Definition py_int (s : string) : result Z :=
  let body := int_rstrip (int_lstrip s) in
  let '(neg, ds) :=
    match body with
    | String c r =>
        if (code c =? 45)%N then (true, r)
        else if (code c =? 43)%N then (false, r)
        else (false, body)
    | EmptyString => (false, body)
    end in
  match int_digits ds false 0%Z 0%nat with
  | Some (v, n) =>
      if (int_max_str_digits <? n)%nat then Raise (ValueError s)
      else Ok (if neg then - v else v)%Z
  | None => Raise (ValueError s)
  end.

(** *** Number formatting *)

(** [f"{n}"] on an int *)
Definition format_int (n : Z) : string := pretty n.

Fixpoint commas_rev (ds : list ascii) (k : nat) : list ascii :=
  match ds with
  | [] => []
  | c :: r =>
      match k with
      | O => "," %char :: c :: commas_rev r 2
      | S k' => c :: commas_rev r k'
      end
  end.

(** [f"{n:,}"] on an int: the digits in groups of three from the right *)
Definition format_int_commas (n : Z) : string :=
  let ds := list_ascii_of_string (pretty (Z.abs n)) in
  (if n <? 0 then "-" else "")%Z
  ++ string_of_list_ascii (rev (commas_rev (rev ds) 3)).

Fixpoint zeros (n : nat) : string :=
  match n with O => "" | S k => String "0" (zeros k) end.

(** The decimal digits of [n / 10^d] with [d] places after the point. *)
Definition fixed_digits (d : nat) (n : Z) : string :=
  let ds := pretty n in
  let ds := zeros (S d - String.length ds) ++ ds in
  let k := (String.length ds - d)%nat in
  match d with
  | O => ds
  | _ => String.substring 0 k ds ++ "." ++ String.substring k d ds
  end.

(** [f"{x:.<d>f}"] on a float: the exact binary value correctly rounded
    to [d] decimals, ties to even. *)
Definition format_fixed (d : nat) (x : float) : string :=
  match x with
  | Fnan => "nan"
  | Finf s => if s then "-inf" else "inf"
  | Fzero s => (if s then "-" else "") ++ fixed_digits d 0
  | Ffin q =>
      (if Qnum q <? 0 then "-" else "")%Z
      ++ fixed_digits d (rne (Z.abs (Qnum q) * 10 ^ Z.of_nat d) (Zpos (Qden q)))
  end.

(** [f"{n:.<d>f}"] on an int goes through [float(n)]. *)
Definition format_fixed_int (d : nat) (n : Z) : result string :=
  x ← float_of_int n; Ok (format_fixed d x).

(** Comparison of two floats; [None] when either is a NaN. *)
Definition fcmp (x y : float) : option comparison :=
  match y with
  | Fnan => None
  | Finf t =>
      match x with
      | Fnan => None
      | Finf s => Some (if Bool.eqb s t then Eq else if s then Lt else Gt)
      | _ => Some (if t then Gt else Lt)
      end
  | Fzero _ => cmpQ x 0
  | Ffin q => cmpQ x q
  end.

Definition flt (x y : float) : bool :=
  match fcmp x y with Some Lt => true | _ => false end.
Definition fgt (x y : float) : bool :=
  match fcmp x y with Some Gt => true | _ => false end.

(** int against float, compared exactly *)
Definition flt_int (x : float) (n : Z) : bool := ltQ x (inject_Z n).
Definition fgt_int (x : float) (n : Z) : bool := gtQ x (inject_Z n).
Definition int_lt_float (n : Z) (y : float) : bool :=
  match y with
  | Fnan => false
  | Finf t => negb t
  | Fzero _ => n <? 0
  | Ffin q => match (inject_Z n ?= q)%Q with Lt => true | _ => false end
  end%Z.

(** ** Dates

    A naive [datetime] is its count of microseconds on the proleptic
    calendar; the difference of two is a [timedelta], whose [days] is the
    floor of the difference in days. *)

Definition datetime : Type := Z.

Definition timedelta_days (later earlier : datetime) : Z :=
  ((later - earlier) / 86400000000)%Z.

(** ** Data model ([inspector.py]) *)

Record FileInfo : Type := {
  path : string;
  size_bytes : Z;
  modification_time : datetime;
  partition_values : gmap string string;
}.

(** The [metadata] entry of the statistics: a dictionary with the four
    keys [id], [name], [description], [created_time]. *)
Record MetadataSummary : Type := {
  md_id : option string;
  md_name : option string;
  md_description : option string;
  md_created_time : option Z;
}.

(** The [last_operation] entry: a dictionary with the four keys
    [operation], [timestamp], [parameters], [metrics]. *)
Record LastOperation : Type := {
  lo_operation : option string;
  lo_timestamp : datetime;
  lo_parameters : option (gmap string string);
  lo_metrics : option (gmap string Z);
}.

Record TableStatistics : Type := {
  table_path : string;
  version : Z;
  num_files : Z;
  total_size_bytes : Z;
  schema : list (string * string);
  partition_columns : list string;
  num_rows : option Z;
  files : list FileInfo;
  metadata : MetadataSummary;
  total_versions : Z;
  oldest_version : Z;
  min_reader_version : Z;
  min_writer_version : Z;
  reader_features : list string;
  writer_features : list string;
  created_time : option datetime;
  last_operation : option LastOperation;
  last_vacuum : option datetime;
}.

(** ** The analyzer ([insights.py]) *)

Record Insight : Type := {
  severity : string;
  category : string;
  title : string;
  description : string;
  recommendation : string;
}.

Global Instance Insight_eq_dec : EqDecision Insight.
Proof. solve_decision. Defined.

Module DeltaTableAnalyzer.

Definition SMALL_FILE_THRESHOLD_MB : Z := 10.
Definition OPTIMAL_FILE_SIZE_MB : Z := 128.
Definition MAX_RECOMMENDED_FILES : Z := 1000.
Definition MIN_FILE_SIZE_VARIANCE : float := Ffin (1 # 2).
Definition VACUUM_RECOMMENDATION_DAYS : Z := 7.
Definition MANY_SMALL_WRITES_THRESHOLD : Z := 10.

(** [self.insights.append(i)] *)
Definition append (insights : list Insight) (i : Insight) : list Insight :=
  insights ++ [i].

(** [_format_bytes]: the value starts as an int and is a float after the
    first division by 1024.0. *)
Fixpoint format_bytes_float (units : list string) (v : float) : string :=
  match units with
  | [] => format_fixed 2 v ++ " PB"
  | unit :: rest =>
      if flt v (Ffin 1024) then format_fixed 2 v ++ " " ++ unit
      else format_bytes_float rest (fdiv v (Ffin 1024))
  end.

Definition _format_bytes (bytes_value : Z) : result string :=
  if int_lt_float bytes_value (Ffin 1024) then
    s ← format_fixed_int 2 bytes_value; Ok (s ++ " B")
  else
    v ← float_of_int bytes_value;
    v ← float_truediv v (Ffin 1024);
    Ok (format_bytes_float ["KB"; "MB"; "GB"; "TB"] v).

Definition small_files_critical (pct_small avg_size_mb : float)
    (n_small n_all : Z) : Insight :=
  {| severity := "critical";
     category := "performance";
     title := "Small Files Problem Detected";
     description :=
       format_fixed 1 pct_small ++ "% of files (" ++ format_int n_small
       ++ "/" ++ format_int n_all ++ ") "
       ++ "are smaller than " ++ format_int SMALL_FILE_THRESHOLD_MB ++ "MB. "
       ++ "Average file size: " ++ format_fixed 2 avg_size_mb ++ "MB. "
       ++ "Small files severely impact query performance.";
     recommendation :=
       "Run OPTIMIZE command to compact small files. "
       ++ "Target file size is ~" ++ format_int OPTIMAL_FILE_SIZE_MB ++ "MB. "
       ++ "Consider using Auto Optimize for future writes." |}.

Definition small_files_warning (pct_small avg_size_mb : float) : Insight :=
  {| severity := "warning";
     category := "performance";
     title := "Some Small Files Detected";
     description :=
       format_fixed 1 pct_small ++ "% of files are smaller than "
       ++ format_int SMALL_FILE_THRESHOLD_MB ++ "MB. "
       ++ "Average file size: " ++ format_fixed 2 avg_size_mb ++ "MB.";
     recommendation :=
       "Consider running OPTIMIZE to improve performance. "
       ++ "Monitor file sizes and run OPTIMIZE periodically." |}.

Definition suboptimal_size (avg_size_mb : float) : Insight :=
  {| severity := "warning";
     category := "performance";
     title := "Suboptimal Average File Size";
     description :=
       "Average file size (" ++ format_fixed 2 avg_size_mb
       ++ "MB) is much smaller than "
       ++ "optimal (" ++ format_int OPTIMAL_FILE_SIZE_MB ++ "MB).";
     recommendation :=
       "Run OPTIMIZE to compact files to optimal size. "
       ++ "Configure Auto Optimize for future writes." |}.

(** The three quantities [_analyze_file_sizes] computes when the file
    list is not empty. *)
Definition file_sizes_mb (stats : TableStatistics) : result (list float) :=
  mapM (fun f => int_truediv (size_bytes f) (1024 * 1024)) (files stats).

Definition small_files (sizes_mb : list float) : list float :=
  List.filter (fun s => flt_int s SMALL_FILE_THRESHOLD_MB) sizes_mb.

Definition avg_size_mb (sizes_mb : list float) : result float :=
  float_div_int (float_sum sizes_mb) (len sizes_mb).

Definition pct_small (sizes_mb : list float) : result float :=
  r ← int_truediv (len (small_files sizes_mb)) (len sizes_mb);
  float_mul_int r 100.

Definition _analyze_file_sizes (stats : TableStatistics)
    (insights : list Insight) : result (list Insight) :=
  match files stats with
  | [] => Ok insights
  | _ =>
      sizes_mb ← file_sizes_mb stats;
      avg ← avg_size_mb sizes_mb;
      insights ←
        match small_files sizes_mb with
        | [] => Ok insights
        | small =>
            pct ← pct_small sizes_mb;
            if fgt_int pct 50 then
              Ok (append insights
                    (small_files_critical pct avg (len small) (len sizes_mb)))
            else if fgt_int pct 20 then
              Ok (append insights (small_files_warning pct avg))
            else Ok insights
        end;
      half ← int_truediv OPTIMAL_FILE_SIZE_MB 2;
      if flt avg half then Ok (append insights (suboptimal_size avg))
      else Ok insights
  end.

Definition high_file_count (stats : TableStatistics) : Insight :=
  {| severity := "warning";
     category := "performance";
     title := "High File Count";
     description :=
       "Table has " ++ format_int_commas (num_files stats) ++ " files. "
       ++ "Recommended maximum is ~" ++ format_int_commas MAX_RECOMMENDED_FILES
       ++ " files. "
       ++ "High file count increases metadata overhead and slows queries.";
     recommendation :=
       "Run OPTIMIZE to reduce file count. "
       ++ "Consider using Auto Optimize and adjusting partition strategy." |}.

Definition _analyze_file_count (stats : TableStatistics)
    (insights : list Insight) : result (list Insight) :=
  if (MAX_RECOMMENDED_FILES <? num_files stats)%Z
  then Ok (append insights (high_file_count stats))
  else Ok insights.

Definition never_vacuumed (stats : TableStatistics) : Insight :=
  {| severity := "warning";
     category := "cost";
     title := "Table Has Never Been Vacuumed";
     description :=
       "Table has " ++ format_int (total_versions stats)
       ++ " versions but has never been vacuumed. "
       ++ "Old data files are accumulating, increasing storage costs.";
     recommendation :=
       "Run VACUUM command to remove old data files. "
       ++ "Set up periodic VACUUM jobs (weekly or monthly). "
       ++ "Note: VACUUM deletes old versions permanently." |}.

Definition vacuum_overdue (days_since_vacuum : Z) : Insight :=
  {| severity := "warning";
     category := "cost";
     title := "Vacuum Overdue";
     description :=
       "Last vacuum was " ++ format_int days_since_vacuum ++ " days ago. "
       ++ "Old data files may be accumulating.";
     recommendation :=
       "Run VACUUM to clean up old files. "
       ++ "Recommended vacuum frequency: every "
       ++ format_int VACUUM_RECOMMENDATION_DAYS ++ " days." |}.

(** [now] is the reading of the wall clock that [datetime.now()] takes
    inside the method. *)
Definition _analyze_vacuum_history (now : datetime) (stats : TableStatistics)
    (insights : list Insight) : result (list Insight) :=
  match last_vacuum stats with
  | None =>
      if (10 <? total_versions stats)%Z
      then Ok (append insights (never_vacuumed stats))
      else Ok insights
  | Some last =>
      let days_since_vacuum := timedelta_days now last in
      if (VACUUM_RECOMMENDATION_DAYS * 4 <? days_since_vacuum)%Z
      then Ok (append insights (vacuum_overdue days_since_vacuum))
      else Ok insights
  end.

(** A value that is an int on one branch and a float on the other. *)
Inductive number : Type :=
| NInt (n : Z)
| NFloat (x : float).

Definition num_lt_int (v : number) (n : Z) : bool :=
  match v with NInt m => (m <? n)%Z | NFloat x => flt_int x n end.
Definition num_gt_int (v : number) (n : Z) : bool :=
  match v with NInt m => (n <? m)%Z | NFloat x => fgt_int x n end.
Definition num_gt_float (v : number) (y : float) : bool :=
  match v with NInt m => flt_int y m | NFloat x => fgt x y end.
Definition num_format_fixed (d : nat) (v : number) : result string :=
  match v with
  | NInt m => format_fixed_int d m
  | NFloat x => Ok (format_fixed d x)
  end.

Definition not_partitioned (size : string) : Insight :=
  {| severity := "info";
     category := "performance";
     title := "Table Not Partitioned";
     description :=
       "Table is " ++ size ++ " "
       ++ "but has no partitioning. Partitioning can improve query performance "
       ++ "by enabling partition pruning.";
     recommendation :=
       "Consider partitioning by frequently filtered columns "
       ++ "(e.g., date, region, category). Avoid over-partitioning (too many partitions)." |}.

Definition over_partitioned (num_partitions : Z) (avg : string) : Insight :=
  {| severity := "warning";
     category := "performance";
     title := "Over-Partitioned Table";
     description :=
       "Table has " ++ format_int_commas num_partitions
       ++ " partitions with average "
       ++ avg ++ " files per partition. "
       ++ "Too many partitions creates excessive metadata overhead.";
     recommendation :=
       "Consider coarser partitioning strategy "
       ++ "(e.g., partition by month instead of day). "
       ++ "Alternatively, use Z-ordering instead of partitioning." |}.

Definition under_partitioned (num_partitions : Z) (avg : string) : Insight :=
  {| severity := "info";
     category := "performance";
     title := "Under-Partitioned Table";
     description :=
       "Table has only " ++ format_int num_partitions ++ " partition(s) with "
       ++ avg ++ " files per partition on average. "
       ++ "More granular partitioning could improve query performance.";
     recommendation :=
       "Consider finer-grained partitioning if queries "
       ++ "frequently filter on specific columns." |}.

(** The order of Python on [(key, value)] tuples of strings. *)
Definition item_leb (a b : string * string) : bool :=
  match String.compare a.1 b.1 with
  | Lt => true
  | Gt => false
  | Eq => String.leb a.2 b.2
  end.

(** [sorted(d.items())] *)
Definition sorted_items (d : gmap string string) : list (string * string) :=
  merge_sort (fun a b => Is_true (item_leb a b)) (map_to_list d).

(** The dictionary key of a file in [partition_counts]: the source takes
    the [str] of the sorted items, which determines them. *)
Definition partition_key (file : FileInfo) : list (string * string) :=
  sorted_items (partition_values file).

(** The loop that counts the files of each partition. *)
Definition partition_counts (fs : list FileInfo)
  : gmap (list (string * string)) Z :=
  foldl (fun counts file =>
           let key := partition_key file in
           <[key := (default 0 (counts !! key) + 1)%Z]> counts)
        ∅ fs.

Definition num_partitions (stats : TableStatistics) : Z :=
  Z.of_nat (size (partition_counts (files stats))).

Definition avg_files_per_partition (stats : TableStatistics) : result number :=
  if (0 <? num_partitions stats)%Z
  then NFloat <$> int_truediv (num_files stats) (num_partitions stats)
  else Ok (NInt 0).

Definition _analyze_partitioning (stats : TableStatistics)
    (insights : list Insight) : result (list Insight) :=
  match partition_columns stats with
  | [] =>
      if (1024 * 1024 * 1024 * 10 <? total_size_bytes stats)%Z then
        size ← _format_bytes (total_size_bytes stats);
        Ok (append insights (not_partitioned size))
      else Ok insights
  | _ =>
      match files stats with
      | [] => Ok insights
      | _ =>
          let n := num_partitions stats in
          avg ← avg_files_per_partition stats;
          if (1000 <? n)%Z && num_lt_int avg 5 then
            s ← num_format_fixed 1 avg;
            Ok (append insights (over_partitioned n s))
          else if (n <? 10)%Z && num_gt_int avg 100 then
            s ← num_format_fixed 0 avg;
            Ok (append insights (under_partitioned n s))
          else Ok insights
      end
  end.

Definition regular_optimization (stats : TableStatistics) : Insight :=
  {| severity := "info";
     category := "maintenance";
     title := "Consider Regular Optimization";
     description :=
       "Table has " ++ format_int (total_versions stats) ++ " versions and "
       ++ format_int_commas (num_files stats)
       ++ " files. Regular optimization can maintain performance.";
     recommendation :=
       "Set up periodic OPTIMIZE jobs (weekly or after major writes). "
       ++ "Enable Auto Optimize for automatic compaction." |}.

Definition _analyze_optimization_history (stats : TableStatistics)
    (insights : list Insight) : result (list Insight) :=
  if (20 <? total_versions stats)%Z then
    if (MAX_RECOMMENDED_FILES <? num_files stats)%Z
    then Ok (append insights (regular_optimization stats))
    else Ok insights
  else Ok insights.

Definition data_skew (cv min_size max_size : string) : Insight :=
  {| severity := "warning";
     category := "performance";
     title := "Data Skew Detected";
     description :=
       "High variance in file sizes detected (CV: " ++ cv ++ "). "
       ++ "File sizes range from " ++ min_size ++ " to " ++ max_size ++ ". "
       ++ "This indicates data skew which can cause uneven processing.";
     recommendation :=
       "Run OPTIMIZE to balance file sizes. "
       ++ "Consider using Z-ordering or different partitioning strategy. "
       ++ "Review data distribution in partition columns." |}.

Definition file_sizes (stats : TableStatistics) : list Z :=
  size_bytes <$> files stats.

Definition mean_size (stats : TableStatistics) : result float :=
  int_truediv (int_sum (file_sizes stats)) (len (file_sizes stats)).

Definition variance (stats : TableStatistics) (mean : float) : result float :=
  squares ← mapM (fun s => d ← int_sub_float s mean; float_pow_2 d)
                 (file_sizes stats);
  float_div_int (float_sum squares) (len (file_sizes stats)).

(** [std_dev / mean_size if mean_size > 0 else 0].  A complex standard
    deviation divides to a complex coefficient, whose comparison with the
    threshold raises [TypeError]. *)
Definition coef_variation (stats : TableStatistics) : result number :=
  mean ← mean_size stats;
  var ← variance stats mean;
  let std_dev := float_pow_half var in
  if fgt_int mean 0 then
    match std_dev with
    | PFloat s => NFloat <$> float_truediv s mean
    | PComplex => Raise TypeError
    end
  else Ok (NInt 0).

Definition list_min (l : list Z) : Z := foldr Z.min (hd 0%Z l) l.
Definition list_max (l : list Z) : Z := foldr Z.max (hd 0%Z l) l.

Definition _analyze_data_skew (stats : TableStatistics)
    (insights : list Insight) : result (list Insight) :=
  if (len (files stats) <? 2)%Z then Ok insights
  else
    cv ← coef_variation stats;
    if num_gt_float cv MIN_FILE_SIZE_VARIANCE then
      let min_size := list_min (file_sizes stats) in
      let max_size := list_max (file_sizes stats) in
      c ← num_format_fixed 2 cv;
      lo ← _format_bytes min_size;
      hi ← _format_bytes max_size;
      Ok (append insights (data_skew c lo hi))
    else Ok insights.

Definition many_small_writes (stats : TableStatistics)
    (files_per_version : float) : Insight :=
  {| severity := "info";
     category := "performance";
     title := "Many Small Writes Detected";
     description :=
       "Table has " ++ format_int (total_versions stats) ++ " versions with "
       ++ "~" ++ format_fixed 1 files_per_version
       ++ " files added per write on average. "
       ++ "Frequent small writes create many small files.";
     recommendation :=
       "Batch writes together when possible. "
       ++ "Enable Auto Optimize to automatically compact small files. "
       ++ "Consider using Delta's MERGE operation for incremental updates." |}.

Definition _analyze_write_patterns (stats : TableStatistics)
    (insights : list Insight) : result (list Insight) :=
  if (1 <? total_versions stats)%Z then
    files_per_version ← int_truediv (num_files stats) (total_versions stats);
    if flt_int files_per_version 5 && (10 <? total_versions stats)%Z
    then Ok (append insights (many_small_writes stats files_per_version))
    else Ok insights
  else Ok insights.

Definition looks_good : Insight :=
  {| severity := "good";
     category := "performance";
     title := "Table Configuration Looks Good";
     description := "No significant configuration issues detected.";
     recommendation := "Continue monitoring the table as data grows." |}.

Definition severity_order : gmap string Z :=
  {[ "critical" := 0%Z; "warning" := 1%Z; "info" := 2%Z; "good" := 3%Z ]}.

(** The sort key [severity_order.get(x.severity, 99)] *)
Definition severity_rank (i : Insight) : Z :=
  default 99%Z (severity_order !! severity i).

(** [list.sort(key=...)] is stable: an element goes in front of the
    sorted elements that followed it and whose key is not smaller. *)
Fixpoint insert_by {A} (key : A -> Z) (x : A) (l : list A) : list A :=
  match l with
  | [] => [x]
  | y :: l' => if (key x <=? key y)%Z then x :: l else y :: insert_by key x l'
  end.

Definition sort_by {A} (key : A -> Z) (l : list A) : list A :=
  foldr (insert_by key) [] l.

Definition has_issue (i : Insight) : bool :=
  bool_decide (severity i ∈ ["critical"; "warning"]).

(** The seven rules in the order of [analyze], from an empty list. *)
Definition run_rules (now : datetime) (stats : TableStatistics)
  : result (list Insight) :=
  insights ← _analyze_file_sizes stats [];
  insights ← _analyze_file_count stats insights;
  insights ← _analyze_vacuum_history now stats insights;
  insights ← _analyze_partitioning stats insights;
  insights ← _analyze_optimization_history stats insights;
  insights ← _analyze_data_skew stats insights;
  _analyze_write_patterns stats insights.

(** The list before the final sort: the rules, then the positive
    feedback when no rule found an issue. *)
Definition collect (now : datetime) (stats : TableStatistics)
  : result (list Insight) :=
  insights ← run_rules now stats;
  if negb (existsb has_issue insights)
  then Ok (append insights looks_good)
  else Ok insights.

Definition analyze (now : datetime) (stats : TableStatistics)
  : result (list Insight) :=
  insights ← collect now stats;
  Ok (sort_by severity_rank insights).

End DeltaTableAnalyzer.

(** ** The inspector ([inspector.py]) *)

(** One entry of [DeltaTable.history()]: a dictionary, each key of which
    may be missing. *)
Record CommitEntry : Type := {
  ce_version : option Z;
  ce_timestamp : option Z;
  ce_operation : option string;
  ce_operationParameters : option (gmap string string);
  ce_operationMetrics : option (gmap string Z);
}.

Record Metadata : Type := {
  meta_id : string;
  meta_name : option string;
  meta_description : option string;
  meta_created_time : option Z;
  meta_partition_columns : list string;
  meta_configuration : gmap string string;
}.

Record Protocol : Type := {
  proto_min_reader_version : Z;
  proto_min_writer_version : Z;
  proto_reader_features : option (list string);
  proto_writer_features : option (list string);
}.

(** A value of a partition column. *)
Inductive cell : Type :=
| CInt (n : Z)
| CStr (s : string).

Definition py_str (c : cell) : string :=
  match c with CInt n => pretty n | CStr s => s end.

(** The record batch of add actions as [to_pydict] returns it: the
    [path] column, the two numeric columns when the batch has them, and
    the other columns by name in the order of the batch.  [None] in a
    column is a null. *)
Record AddActions : Type := {
  aa_path : list string;
  aa_size_bytes : option (list (option Z));
  aa_modification_time : option (list (option Z));
  aa_columns : list (string * list (option cell));
}.

(** What the [DeltaTable] collaborator answers: [version()], the schema
    dictionary as [get_schema_dict] builds it, [metadata()],
    [get_add_actions(flatten=True)], [protocol()] and [history()]. *)
Record DeltaTable : Type := {
  dt_version : Z;
  dt_schema : list (string * string);
  dt_metadata : option Metadata;
  dt_add_actions : AddActions;
  dt_protocol : Protocol;
  dt_history : list CommitEntry;
}.

Module DeltaTableInspector.

(** [l[i]] *)
Definition index {A} (l : list A) (i : nat) : result A :=
  match l !! i with
  | Some x => Ok x
  | None => Raise IndexError
  end.

Fixpoint foldlM {A B} (f : B -> A -> result B) (b : B) (l : list A)
  : result B :=
  match l with
  | [] => Ok b
  | x :: l' => b' ← f b x; foldlM f b' l'
  end.

Section Statistics.

(** [datetime.fromtimestamp]: the platform's conversion of a POSIX
    timestamp in seconds to local time. *)
Variable fromtimestamp : float -> result datetime.

(** [datetime.fromtimestamp(ms / 1000)] *)
Definition of_millis (ms : Z) : result datetime :=
  x ← int_truediv ms 1000; fromtimestamp x.

(** The partition values of row [i]: the columns named [partition.*]
    that are not null there. *)
Definition row_partition_values (aa : AddActions) (i : nat)
  : result (gmap string string) :=
  foldlM (fun (pv : gmap string string) (kv : string * list (option cell)) =>
            if startswith kv.1 "partition." then
              let partition_col := replace kv.1 "partition." "" in
              partition_val ← index kv.2 i;
              match partition_val with
              | Some v => Ok (<[partition_col := py_str v]> pv)
              | None => Ok pv
              end
            else Ok pv)
         ∅ (aa_columns aa).

(** One round of the loop over the rows: the running [total_size] and
    [files_info]. *)
Definition add_file (aa : AddActions) (acc : Z * list FileInfo) (i : nat)
  : result (Z * list FileInfo) :=
  let '(total_size, files_info) := acc in
  c ← index (default [Some 0%Z] (aa_size_bytes aa)) i;
  let size := default 0%Z c in
  let total_size := (total_size + size)%Z in
  partition_values ← row_partition_values aa i;
  p ← index (aa_path aa) i;
  m ← index (default [Some 0%Z] (aa_modification_time aa)) i;
  mtime ← match m with
          | Some ms => of_millis ms
          | None => Raise TypeError
          end;
  Ok (total_size,
      (files_info ++ [ {| path := p; size_bytes := size;
                          modification_time := mtime;
                          partition_values := partition_values |} ])%list).

Definition entry_is_vacuum (entry : CommitEntry) : bool :=
  bool_decide (ce_operation entry = Some "VACUUM").

(** The first [VACUUM] entry of the history, newest first. *)
Definition find_last_vacuum (history : list CommitEntry)
  : result (option datetime) :=
  match List.find entry_is_vacuum history with
  | Some entry => Some <$> of_millis (default 0%Z (ce_timestamp entry))
  | None => Ok None
  end.

Definition get_statistics (self_table_path : string) (table : DeltaTable)
  : result TableStatistics :=
  let version := dt_version table in
  let schema := dt_schema table in
  let metadata := dt_metadata table in
  let partition_columns :=
    match metadata with Some m => meta_partition_columns m | None => [] end in
  let add_actions := dt_add_actions table in
  let num_files := length (aa_path add_actions) in
  '(total_size, files_info) ←
     foldlM (add_file add_actions) (0%Z, []) (seq 0 num_files);
  let num_rows : option Z := None in
  let protocol := dt_protocol table in
  let history := dt_history table in
  let total_versions := Z.of_nat (length history) in
  let reader_features := default [] (proto_reader_features protocol) in
  let writer_features := default [] (proto_writer_features protocol) in
  created_time ←
    match metadata with
    | Some m =>
        match meta_created_time m with
        | Some t => if (t =? 0)%Z then Ok None else Some <$> of_millis t
        | None => Ok None
        end
    | None => Ok None
    end;
  last_operation ←
    match history with
    | h :: _ =>
        t ← of_millis (default 0%Z (ce_timestamp h));
        Ok (Some {| lo_operation := ce_operation h;
                    lo_timestamp := t;
                    lo_parameters := ce_operationParameters h;
                    lo_metrics := ce_operationMetrics h |})
    | [] => Ok None
    end;
  last_vacuum ← find_last_vacuum history;
  let oldest_version :=
    match history with
    | [] => 0%Z
    | h :: rest =>
        foldl Z.min (default 0%Z (ce_version h))
              ((fun e => default 0%Z (ce_version e)) <$> rest)
    end in
  Ok {| table_path := self_table_path;
        version := version;
        num_files := Z.of_nat (length files_info);
        total_size_bytes := total_size;
        schema := schema;
        partition_columns := partition_columns;
        num_rows := num_rows;
        files := files_info;
        metadata :=
          {| md_id := meta_id <$> metadata;
             md_name := metadata ≫= meta_name;
             md_description := metadata ≫= meta_description;
             md_created_time := metadata ≫= meta_created_time |};
        total_versions := total_versions;
        oldest_version := oldest_version;
        min_reader_version := proto_min_reader_version protocol;
        min_writer_version := proto_min_writer_version protocol;
        reader_features := reader_features;
        writer_features := writer_features;
        created_time := created_time;
        last_operation := last_operation;
        last_vacuum := last_vacuum |}.

End Statistics.

(** [get_history] *)
Definition get_history (table : DeltaTable) (reverse : bool)
  : list CommitEntry :=
  if reverse then rev (dt_history table) else dt_history table.

(** *** The feature report *)

Record ColumnMapping : Type := { cm_enabled : bool; cm_mode : string }.
Record AutoOptimize : Type := {
  ao_enabled : bool;
  ao_auto_compact : bool;
  ao_optimize_write : bool;
}.
Record DataSkipping : Type := { ds_enabled : bool; ds_num_indexed_cols : Z }.

Record AdvancedFeatures : Type := {
  deletion_vectors : bool;
  column_mapping : ColumnMapping;
  liquid_clustering : bool;
  timestamp_ntz : bool;
  check_constraints : gmap string string;
  auto_optimize : AutoOptimize;
  data_skipping : DataSkipping;
  change_data_feed : bool;
  vacuum_retention_hours : Z;
}.

(** [config.get(key, default)] *)
Definition config_get (config : gmap string string) (key dflt : string)
  : string :=
  default dflt (config !! key).

Definition is_constraint (kv : string * string) : Prop :=
  Is_true (startswith kv.1 "delta.constraints.").

Global Instance is_constraint_dec kv : Decision (is_constraint kv).
Proof. unfold is_constraint. apply _. Defined.

Definition _detect_advanced_features (config : gmap string string)
    (protocol : Protocol) : result AdvancedFeatures :=
  let writer := default [] (proto_writer_features protocol) in
  let deletion_vectors := bool_decide ("deletionVectors" ∈ writer) in
  let column_mapping_mode := config_get config "delta.columnMapping.mode" "none" in
  let column_mapping :=
    {| cm_enabled := negb (String.eqb column_mapping_mode "none");
       cm_mode := column_mapping_mode |} in
  let liquid_clustering := bool_decide (is_Some (config !! "clustering")) in
  let timestamp_ntz := bool_decide ("timestampNtz" ∈ writer) in
  let check_constraints := filter is_constraint config in
  let auto_compact :=
    String.eqb (config_get config "delta.autoOptimize.autoCompact" "false") "true" in
  let optimize_write :=
    String.eqb (config_get config "delta.autoOptimize.optimizeWrite" "false") "true" in
  let auto_optimize :=
    {| ao_enabled := auto_compact || optimize_write;
       ao_auto_compact := auto_compact;
       ao_optimize_write := optimize_write |} in
  num_indexed_cols ←
    py_int (config_get config "delta.dataSkippingNumIndexedCols" "32");
  let data_skipping :=
    {| ds_enabled := true; ds_num_indexed_cols := num_indexed_cols |} in
  let change_data_feed :=
    String.eqb (config_get config "delta.enableChangeDataFeed" "false") "true" in
  vacuum_retention_hours ←
    py_int (strip (replace
                     (config_get config "delta.deletedFileRetentionDuration" "168")
                     "hours" ""));
  Ok {| deletion_vectors := deletion_vectors;
        column_mapping := column_mapping;
        liquid_clustering := liquid_clustering;
        timestamp_ntz := timestamp_ntz;
        check_constraints := check_constraints;
        auto_optimize := auto_optimize;
        data_skipping := data_skipping;
        change_data_feed := change_data_feed;
        vacuum_retention_hours := vacuum_retention_hours |}.

(** *** Write patterns of the timeline *)

Definition small_frequent_writes : string :=
  "Small frequent writes detected (avg < 1000 rows)".
Definition streaming_pattern : string :=
  "Streaming pattern: writes every few minutes".
Definition batch_pattern : string :=
  "Batch pattern: writes once per day or less".

Definition is_write (h : CommitEntry) : bool :=
  match ce_operation h with
  | Some op => bool_decide (op ∈ ["WRITE"; "MERGE"; "UPDATE"; "DELETE"])
  | None => false
  end.

Definition num_added_rows (h : CommitEntry) : Z :=
  default 0%Z (default ∅ (ce_operationMetrics h) !! "num_added_rows").

(** [[timestamps[i] - timestamps[i+1] for i in range(len(timestamps)-1)]] *)
Fixpoint time_diffs (timestamps : list Z) : list Z :=
  match timestamps with
  | t :: (t' :: _) as rest => (t - t')%Z :: time_diffs rest
  | _ => []
  end.

Definition writes_of (history : list CommitEntry) : list CommitEntry :=
  List.filter is_write history.

Definition avg_rows (writes : list CommitEntry) : result float :=
  int_truediv (int_sum (num_added_rows <$> writes)) (len writes).

(** The mean gap between consecutive writes, in seconds. *)
Definition avg_time_diff (timestamps : list Z) : result float :=
  let diffs := time_diffs timestamps in
  r ← int_truediv (int_sum diffs) (len diffs);
  float_div_int r 1000.

Definition _analyze_write_patterns (history : list CommitEntry)
  : result (list string) :=
  let patterns : list string := [] in
  let writes := writes_of history in
  match writes with
  | [] => Ok patterns
  | _ =>
      patterns ←
        (if (10 <? len writes)%Z then
           avg ← avg_rows writes;
           if flt_int avg 1000
           then Ok (patterns ++ [small_frequent_writes])%list
           else Ok patterns
         else Ok patterns);
      let timestamps := (fun h => default 0%Z (ce_timestamp h)) <$> writes in
      if (1 <? len timestamps)%Z then
        avg ← avg_time_diff timestamps;
        if flt_int avg 300
        then Ok (patterns ++ [streaming_pattern])%list
        else if fgt_int avg 86400
        then Ok (patterns ++ [batch_pattern])%list
        else Ok patterns
      else Ok patterns
  end.

End DeltaTableInspector.

(** * Statements

    The definitions that the theorems below are stated with, and the
    concrete inputs they are evaluated at. *)

Import DeltaTableInspector DeltaTableAnalyzer.
Local Open Scope Z_scope.

(** A rule appends: run on a list, it returns that list followed by what
    it returns on the empty list. *)
Definition appends (rule : list Insight -> result (list Insight)) : Prop :=
  forall insights, rule insights = (app insights) <$> rule [].

(** The seven rules, each run on its own from the empty list, in the
    order of [analyze]. *)
Definition rule_outputs (now : datetime) (stats : TableStatistics)
  : list (result (list Insight)) :=
  [ _analyze_file_sizes stats [];
    _analyze_file_count stats [];
    _analyze_vacuum_history now stats [];
    _analyze_partitioning stats [];
    _analyze_optimization_history stats [];
    _analyze_data_skew stats [];
    _analyze_write_patterns stats [] ].

Definition rank_le (a b : Insight) : Prop :=
  severity_rank a <= severity_rank b.

Definition named_ranks : list (string * Z) :=
  [ ("critical", 0); ("warning", 1); ("info", 2); ("good", 3) ]%string.

Definition of_rank (r : Z) (i : Insight) : bool := severity_rank i =? r.

Definition is_good (i : Insight) : bool := String.eqb (severity i) "good".

(** ** Sample inputs *)

Definition no_metadata : MetadataSummary :=
  {| md_id := None; md_name := None; md_description := None;
     md_created_time := None |}.

Definition sample_file (p : string) (size : Z) (pv : gmap string string)
  : FileInfo :=
  {| path := p; size_bytes := size; modification_time := 0;
     partition_values := pv |}.

(** Statistics as [get_statistics] shapes them, from a file list, the
    partition columns, the number of versions and the last vacuum. *)
Definition sample_stats (fs : list FileInfo) (pcols : list string)
    (versions : Z) (vacuum : option datetime) : TableStatistics :=
  {| table_path := "/data/table";
     version := versions - 1;
     num_files := len fs;
     total_size_bytes := int_sum (size_bytes <$> fs);
     schema := [];
     partition_columns := pcols;
     num_rows := None;
     files := fs;
     metadata := no_metadata;
     total_versions := versions;
     oldest_version := 0;
     min_reader_version := 1;
     min_writer_version := 2;
     reader_features := [];
     writer_features := [];
     created_time := None;
     last_operation := None;
     last_vacuum := vacuum |}.

(** Three files of 500 B, 700 B and 200 MB after eleven commits. *)
Definition mixed_stats : TableStatistics :=
  sample_stats
    [ sample_file "a.parquet" 500 ∅; sample_file "b.parquet" 700 ∅;
      sample_file "c.parquet" 200000000 ∅ ]
    [] 11 None.

(** The severities that the seven rules use. *)
Definition rule_severity (i : Insight) : Prop :=
  severity i ∈ ["critical"; "warning"; "info"]%string.

(** No insight of the list is critical or a warning. *)
Definition no_issue (rs : list Insight) : Prop :=
  Forall (fun i => severity i ∉ ["critical"; "warning"]%string) rs.

(** ** Bounded floats and 64-bit statistics *)

(** A finite float of magnitude at most [2^k]. *)
Definition fbound (k : Z) (x : float) : Prop :=
  match x with
  | Fzero _ => True
  | Ffin v => (Qabs v <= inject_Z (2 ^ k))%Q
  | _ => False
  end.

(** A float that is not below zero: no negative finite value and no
    negative infinity. *)
Definition fnonneg (x : float) : Prop :=
  match x with
  | Ffin v => (0 <= v)%Q
  | Finf s => s = false
  | _ => True
  end.

(** The range of a signed 64-bit integer. *)
Definition int64 (z : Z) : Prop := - 2 ^ 63 <= z < 2 ^ 63.

(** Statistics whose integers, and the length of whose file list, fit
    64 bits, as those that come out of an Arrow record batch do. *)
Definition storable (stats : TableStatistics) : Prop :=
  int64 (num_files stats)
  /\ int64 (total_size_bytes stats)
  /\ int64 (total_versions stats)
  /\ Forall (fun f => int64 (size_bytes f)) (files stats)
  /\ int64 (len (files stats)).

(** ** Emission *)

(** The list holds an insight of the given severity and title. *)
Definition emits (l : list Insight) (sev ttl : string) : Prop :=
  exists i, In i l /\ severity i = sev /\ title i = ttl.

Definition label (i : Insight) : string * string := (severity i, title i).

(** The severities and titles of each of the seven rules, in the order of
    [rule_outputs]. *)
Definition catalogs : list (list (string * string)) :=
  [ [ ("critical", "Small Files Problem Detected");
      ("warning", "Some Small Files Detected");
      ("warning", "Suboptimal Average File Size") ];
    [ ("warning", "High File Count") ];
    [ ("warning", "Table Has Never Been Vacuumed");
      ("warning", "Vacuum Overdue") ];
    [ ("info", "Table Not Partitioned");
      ("warning", "Over-Partitioned Table");
      ("info", "Under-Partitioned Table") ];
    [ ("info", "Consider Regular Optimization") ];
    [ ("warning", "Data Skew Detected") ];
    [ ("info", "Many Small Writes Detected") ] ]%string.

(** One file of 1 MiB among four of 100 MiB: exactly 20% of the files
    are smaller than 10 MB. *)
Definition one_in_five_stats : TableStatistics :=
  sample_stats
    [ sample_file "0.parquet" 1048576 ∅;
      sample_file "1.parquet" 104857600 ∅;
      sample_file "2.parquet" 104857600 ∅;
      sample_file "3.parquet" 104857600 ∅;
      sample_file "4.parquet" 104857600 ∅ ]
    [] 1 None.

(** ** Times *)

Definition microseconds_per_day : Z := 86400000000.

(** Statistics of an empty table vacuumed at the origin of time. *)
Definition vacuumed_stats : TableStatistics :=
  sample_stats [] [] 1 (Some 0).

(** 1500 files of 200 MB spread evenly over the three values of the
    partition column [region]. *)
Definition region_file (region : string) : FileInfo :=
  sample_file "part.parquet" 209715200 {[ "region" := region ]}.

Definition three_partition_stats : TableStatistics :=
  sample_stats
    (replicate 500 (region_file "eu") ++ replicate 500 (region_file "us")
     ++ replicate 500 (region_file "ap"))
    ["region"] 1 (Some 0).

(** Two empty files. *)
Definition empty_files_stats : TableStatistics :=
  sample_stats
    [ sample_file "0.parquet" 0 ∅; sample_file "1.parquet" 0 ∅ ] [] 1 None.

(** ** Configurations *)

Definition plain_protocol : Protocol :=
  {| proto_min_reader_version := 1;
     proto_min_writer_version := 2;
     proto_reader_features := None;
     proto_writer_features := None |}.

Definition indexed_cols_key : string := "delta.dataSkippingNumIndexedCols".
Definition retention_key : string := "delta.deletedFileRetentionDuration".

(** The two strings that [_detect_advanced_features] gives to [int()]. *)
Definition indexed_cols_text (config : gmap string string) : string :=
  config_get config indexed_cols_key "32".
Definition retention_text (config : gmap string string) : string :=
  strip (replace (config_get config retention_key "168") "hours" "").

(** ** Tables and histories *)

(** UTC as the local time zone: the timestamp in seconds, to the nearest
    microsecond. *)
Definition utc_fromtimestamp (x : float) : result datetime :=
  match x with
  | Fzero _ => Ok 0
  | Ffin q =>
      let us := rne (Z.abs (Qnum q) * 1000000) (Zpos (Qden q)) in
      Ok (if Qnum q <? 0 then - us else us)
  | _ => Raise OverflowError
  end.

Definition commit (v ts : Z) (op : string) (rows : Z) : CommitEntry :=
  {| ce_version := Some v;
     ce_timestamp := Some ts;
     ce_operation := Some op;
     ce_operationParameters := Some ∅;
     ce_operationMetrics := Some {[ "num_added_rows" := rows ]} |}.

(** Two files in the partitions [eu] and [us], written by one commit. *)
Definition sample_table : DeltaTable :=
  {| dt_version := 0;
     dt_schema := [("id", "int64"); ("region", "string")];
     dt_metadata := None;
     dt_add_actions :=
       {| aa_path := ["region=eu/0.parquet"; "region=us/1.parquet"];
          aa_size_bytes := Some [Some 1200; None];
          aa_modification_time := Some [Some 1700000000000; Some 1700000001000];
          aa_columns :=
            [ ("partition.region", [Some (CStr "eu"); Some (CStr "us")]);
              ("num_records", [Some (CInt 10); Some (CInt 20)]) ] |};
     dt_protocol := plain_protocol;
     dt_history := [commit 0 1700000002000 "WRITE" 30] |}.

(** An OPTIMIZE one minute after the only WRITE, newest first. *)
Definition optimize_after_write : list CommitEntry :=
  [ commit 1 60000 "OPTIMIZE" 0; commit 0 0 "WRITE" 100 ].

(** The gaps between all consecutive commits of a history, and the claim
    that their mean is below five minutes, the timestamps being in
    milliseconds. *)
Definition commit_gaps (history : list CommitEntry) : list Z :=
  DeltaTableInspector.time_diffs
    ((fun h => default 0 (ce_timestamp h)) <$> history).

Definition mean_commit_gap_below_5_minutes (history : list CommitEntry)
  : Prop :=
  commit_gaps history <> []
  /\ int_sum (commit_gaps history) < 300 * 1000 * len (commit_gaps history).

(** The timestamps of the write operations. *)
Definition write_timestamps (history : list CommitEntry) : list Z :=
  (fun h => default 0 (ce_timestamp h))
    <$> DeltaTableInspector.writes_of history.

(** A history whose timestamps, row counts and length fit 64 bits. *)
Definition storable_history (history : list CommitEntry) : Prop :=
  Forall (fun h => int64 (default 0 (ce_timestamp h))
                   /\ int64 (DeltaTableInspector.num_added_rows h)) history
  /\ int64 (len history).

(** Three writes a minute apart, newest first. *)
Definition minute_writes : list CommitEntry :=
  [ commit 2 120000 "WRITE" 10; commit 1 60000 "MERGE" 10;
    commit 0 0 "WRITE" 10 ].

(** ** Exact quantities *)

(** The binary64 rounding of a positive rational. *)
Definition round_pos_Q (q : Q) : Q := round_pos (Qnum q) (Zpos (Qden q)).

(** [dyadic x a k]: the float [x] is exactly [a / 2^k], for [0 <= a]. *)
Definition dyadic (x : float) (a k : Z) : Prop :=
  match x with
  | Fzero false => a = 0
  | Ffin p => 0 < a /\ p = Qred (a # Z.to_pos (2 ^ k))
  | _ => False
  end.

(** A file below 10 MB, and their number. *)
Definition small_file (f : FileInfo) : bool :=
  size_bytes f <? 10 * (1024 * 1024).
Definition num_small (stats : TableStatistics) : Z :=
  len (List.filter small_file (files stats)).

(** The gaps between consecutive write operations. *)
Definition write_gaps (history : list CommitEntry) : list Z :=
  DeltaTableInspector.time_diffs (write_timestamps history).

(** ** Well-formed tables *)

(** A finite float: a zero or a non-zero rational. *)
Definition finite (x : float) : Prop :=
  match x with Fzero _ | Ffin _ => True | _ => False end.

(** A column of [n] rows, or the default of a column that the batch does
    not have, which serves one row; [P] holds of its entries. *)
Definition column_ok {A} (P : option A -> Prop) (dflt : list (option A))
    (col : option (list (option A))) (n : nat) : Prop :=
  length (default dflt col) = n /\ Forall P (default dflt col).

(** A record batch whose columns all have the length of [path], with a
    modification time in every row, and 64-bit timestamps throughout. *)
Definition well_formed (table : DeltaTable) : Prop :=
  let aa := dt_add_actions table in
  let n := length (aa_path aa) in
  (n = 0%nat \/ column_ok (fun _ => True) [Some 0] (aa_size_bytes aa) n)
  /\ (n = 0%nat
      \/ column_ok (fun m => exists ms, m = Some ms /\ int64 ms) [Some 0]
           (aa_modification_time aa) n)
  /\ Forall (fun kv : string * list (option cell) => length kv.2 = n)
            (aa_columns aa)
  /\ match dt_metadata table ≫= meta_created_time with
     | Some t => int64 t
     | None => True
     end
  /\ Forall (fun e => int64 (default 0 (ce_timestamp e))) (dt_history table).

(** * More of the analyzer: what the seven rules give together *)

(** The titles that the rules and the fallback can give, in the order of
    the rules. *)
Definition all_titles : list string :=
  (snd <$> concat catalogs) ++ [title looks_good].

(** Three small files of uneven sizes in an unpartitioned table of 11
    GiB, which 300 commits left with 1001 files and no vacuum. *)
Definition busy_stats : TableStatistics :=
  {| table_path := "/data/busy";
     version := 299;
     num_files := 1001;
     total_size_bytes := 11 * 2 ^ 30;
     schema := [];
     partition_columns := [];
     num_rows := None;
     files := [ sample_file "0.parquet" 1 ∅; sample_file "1.parquet" 1 ∅;
                sample_file "2.parquet" 1000 ∅ ];
     metadata := no_metadata;
     total_versions := 300;
     oldest_version := 0;
     min_reader_version := 1;
     min_writer_version := 2;
     reader_features := [];
     writer_features := [];
     created_time := None;
     last_operation := None;
     last_vacuum := None |}.

(** One file of 200 MB that eleven commits left, vacuumed at the origin
    of time. *)
Definition rewritten_stats : TableStatistics :=
  sample_stats [ sample_file "0.parquet" 209715200 ∅ ] [] 11 (Some 0).


(** The unit that a byte count is shown in: how many times 1024 divides
    it before it is below 1024, five times at most. *)
Definition unit_index (b : Z) : nat :=
  if b <? 2 ^ 10 then 0
  else if b <? 2 ^ 20 then 1
  else if b <? 2 ^ 30 then 2
  else if b <? 2 ^ 40 then 3
  else if b <? 2 ^ 50 then 4
  else 5.

Definition unit_name (k : nat) : string :=
  nth k ["B"; "KB"; "MB"; "GB"; "TB"]%string "PB"%string.

(** * The account name of an Azure URL *)

(** [re.match] tries the alternatives of a pattern in order and gives the
    first match: a greedy repetition takes the longest run first and
    gives characters back one at a time while the rest of the pattern
    fails.  The matchers take the rest of the pattern as a
    continuation. *)
Module Re.

(** A literal text at the start of [s]: the rest of [s] behind it. *)
Fixpoint lit (l s : string) : option string :=
  match l, s with
  | EmptyString, _ => Some s
  | String a l', String b s' => if Ascii.eqb a b then lit l' s' else None
  | String _ _, EmptyString => None
  end.

Section Repetition.
Context {A : Type}.

(** [[^c]*] behind the text [acc] that the repetition has taken so far;
    [k] gets the text taken and the rest of the input. *)
Fixpoint star_not (c : ascii) (k : string -> string -> option A)
    (acc s : string) : option A :=
  match s with
  | String a s' =>
      if Ascii.eqb a c then k acc s
      else match star_not c k (acc ++ String a EmptyString)%string s' with
           | Some r => Some r
           | None => k acc s
           end
  | EmptyString => k acc s
  end.

(** [[^c]+] *)
Definition plus_not (c : ascii) (k : string -> string -> option A)
    (s : string) : option A :=
  match s with
  | String a s' =>
      if Ascii.eqb a c then None
      else star_not c k (String a EmptyString) s'
  | EmptyString => None
  end.

End Repetition.
End Re.

Module Azure.

(** [re.match(r"abfss://[^@]+@([^.]+)\.", s)]: the text of group 1. *)
Definition account_pattern (s : string) : option string :=
  s ← Re.lit "abfss://" s;
  Re.plus_not "@" (fun _ s =>
    s ← Re.lit "@" s;
    Re.plus_not "." (fun account s =>
      _ ← Re.lit "." s;
      Some account) s) s.

Definition _extract_azure_account_name (table_path : string)
  : option string :=
  if startswith table_path "abfss://" then
    match account_pattern table_path with
    | Some account => Some account
    | None => None
    end
  else None.

End Azure.

(** The characters of [s] before the first [c], and the rest. *)
Fixpoint span_not (c : ascii) (s : string) : string * string :=
  match s with
  | String a s' =>
      if Ascii.eqb a c then (EmptyString, s)
      else let '(run, rest) := span_not c s' in (String a run, rest)
  | EmptyString => (EmptyString, EmptyString)
  end.

Definition has_char (c : ascii) (s : string) : Prop :=
  In c (list_ascii_of_string s).

Definition stops_at (c : ascii) (s : string) : Prop :=
  s = EmptyString \/ exists s', s = String c s'.

(** * Paging through the history *)

(** [a // b] of two ints. *)
Definition floordiv (a b : Z) : result Z :=
  if b =? 0 then Raise ZeroDivisionError else Ok (a / b).

(** A bound of a slice of a list of [n] items: a negative one counts
    from the end, and both ends are clipped to the list. *)
Definition slice_bound (n i : Z) : Z :=
  if i <? 0 then Z.max (i + n) 0 else Z.min i n.

(** [l[start:stop]] *)
Definition slice {A} (l : list A) (start stop : Z) : list A :=
  let a := slice_bound (len l) start in
  let b := slice_bound (len l) stop in
  take (Z.to_nat (b - a)) (drop (Z.to_nat a) l).

(** [l[i]] *)
Definition getitem {A} (l : list A) (i : Z) : result A :=
  let j := if i <? 0 then i + len l else i in
  if j <? 0 then Raise IndexError else index l (Z.to_nat j).

(** The entries of a page, as [create_history_table] of the history
    viewer and [update_display] of the history tab cut them out. *)
Definition page_history {A} (history : list A) (page page_size : Z)
  : list A :=
  let start_idx := page * page_size in
  let end_idx := Z.min (start_idx + page_size) (len history) in
  slice history start_idx end_idx.

Module HistoryViewer.

(** The number of pages in the title of a page and in the viewer. *)
Definition total_pages {A} (history : list A) (page_size : Z) : result Z :=
  q ← floordiv (len history - 1) page_size; Ok (q + 1).

Record View : Type := { current_page : Z; reverse_mode : bool }.

(** One command of the prompt, which gives one of its choices, all in
    lower case; [None] leaves the loop.  The Enter that the viewer waits
    for when there is no next or previous page is no command. *)
Definition handle (total_pages : Z) (v : View) (command : string)
  : option View :=
  if bool_decide (command ∈ ["q"; "quit"]) then None
  else if bool_decide (command ∈ ["n"; "next"]) then
    if current_page v <? total_pages - 1
    then Some {| current_page := current_page v + 1;
                 reverse_mode := reverse_mode v |}
    else Some v
  else if bool_decide (command ∈ ["p"; "prev"]) then
    if 0 <? current_page v
    then Some {| current_page := current_page v - 1;
                 reverse_mode := reverse_mode v |}
    else Some v
  else if bool_decide (command ∈ ["r"; "reverse"]) then
    Some {| current_page := 0; reverse_mode := negb (reverse_mode v) |}
  else Some v.

(** The loop: the entries of the page shown at each turn, for the
    commands that the user gives one after the other. *)
Fixpoint turns {A} (history : list A) (page_size total_pages : Z)
    (v : View) (commands : list string) : list (list A) :=
  let current_history := if reverse_mode v then rev history else history in
  page_history current_history (current_page v) page_size ::
  match commands with
  | [] => []
  | command :: commands =>
      match handle total_pages v command with
      | None => []
      | Some v => turns history page_size total_pages v commands
      end
  end.

Definition display_history_interactive {A} (history : list A)
    (page_size : Z) (commands : list string) : result (list (list A)) :=
  match history with
  | [] => Ok []
  | _ =>
      let current_page := 0 in
      total_pages ← total_pages history page_size;
      let reverse_mode := false in
      Ok (turns history page_size total_pages
            {| current_page := current_page; reverse_mode := reverse_mode |}
            commands)
  end.

End HistoryViewer.

Module Tui.

Record HistoryTab : Type := {
  history : list CommitEntry;
  page : Z;
  page_size : Z;
  reverse : bool;
}.

(** [HistoryTab.__init__] *)
Definition new_history_tab (history : list CommitEntry) : HistoryTab :=
  {| history := history; page := 0; page_size := 10; reverse := false |}.

Definition total_pages (self : HistoryTab) : result Z :=
  q ← floordiv (len (history self) - 1) (page_size self);
  Ok (Z.max 1 (q + 1)).

(** The entries that [update_display] shows. *)
Definition shown (self : HistoryTab) : list CommitEntry :=
  let current_history :=
    if reverse self then rev (history self) else history self in
  page_history current_history (page self) (page_size self).

Definition next_page (self : HistoryTab) : result HistoryTab :=
  total_pages ← total_pages self;
  if page self <? total_pages - 1
  then Ok {| history := history self; page := page self + 1;
             page_size := page_size self; reverse := reverse self |}
  else Ok self.

Definition prev_page (self : HistoryTab) : HistoryTab :=
  if 0 <? page self
  then {| history := history self; page := page self - 1;
          page_size := page_size self; reverse := reverse self |}
  else self.

Definition toggle_reverse (self : HistoryTab) : HistoryTab :=
  {| history := history self; page := 0;
     page_size := page_size self; reverse := negb (reverse self) |}.

(** The application: the tab that is active and the history tab. *)
Record App : Type := { active : string; history_tab : HistoryTab }.

Definition tabs : list string :=
  ["overview-tab"; "history-tab"; "insights-tab"; "config-tab";
   "timeline-tab"].

(** [l.index(x)] *)
Fixpoint list_index (x : string) (l : list string) : result Z :=
  match l with
  | [] => Raise (ValueError x)
  | y :: l => if String.eqb y x then Ok 0 else i ← list_index x l; Ok (i + 1)
  end.

Definition current_index (active : string) : result Z :=
  if bool_decide (active ∈ tabs) then list_index active tabs else Ok 0.

Definition with_active (app : App) (active : string) : App :=
  {| active := active; history_tab := history_tab app |}.

Definition with_history_tab (app : App) (tab : HistoryTab) : App :=
  {| active := active app; history_tab := tab |}.

Definition action_next_page (app : App) : result App :=
  if String.eqb (active app) "history-tab"
  then with_history_tab app <$> next_page (history_tab app)
  else Ok app.

Definition action_prev_page (app : App) : result App :=
  if String.eqb (active app) "history-tab"
  then Ok (with_history_tab app (prev_page (history_tab app)))
  else Ok app.

Definition action_reverse (app : App) : result App :=
  if String.eqb (active app) "history-tab"
  then Ok (with_history_tab app (toggle_reverse (history_tab app)))
  else Ok app.

Definition action_next_tab (app : App) : result App :=
  current_index ← current_index (active app);
  let next_index := (current_index + 1) mod len tabs in
  with_active app <$> getitem tabs next_index.

Definition action_prev_tab (app : App) : result App :=
  current_index ← current_index (active app);
  let prev_index := (current_index - 1) mod len tabs in
  with_active app <$> getitem tabs prev_index.

(** The keys that the application binds to these actions. *)
Inductive key : Type := KeyLeft | KeyRight | KeyN | KeyP | KeyR.

Definition press (app : App) (k : key) : result App :=
  match k with
  | KeyLeft => action_prev_tab app
  | KeyRight => action_next_tab app
  | KeyN => action_next_page app
  | KeyP => action_prev_page app
  | KeyR => action_reverse app
  end.

End Tui.

(** The pages that hold an entry. *)
Definition in_range {A} (history : list A) (page_size : Z)
    (v : HistoryViewer.View) : Prop :=
  0 <= HistoryViewer.current_page v
  /\ HistoryViewer.current_page v * page_size < len history.



(** * The timeline of the operations *)

Module Timeline.

Record TimelineAnalysis : Type := {
  total_operations : Z;
  operations_by_type : gmap string Z;
  operations_by_day : gmap string (list CommitEntry);
  version_creation_rate : number;
  write_patterns : list string;
  (** The last two keys are absent for an empty history. *)
  first_operation : option CommitEntry;
  latest_operation : option CommitEntry;
}.

Definition timestamp_of (entry : CommitEntry) : Z :=
  default 0 (ce_timestamp entry).

Definition op_type_of (entry : CommitEntry) : string :=
  default "UNKNOWN" (ce_operation entry).

Definition count_operation (operations_by_type : gmap string Z)
    (entry : CommitEntry) : gmap string Z :=
  let op_type := op_type_of entry in
  <[op_type := default 0 (operations_by_type !! op_type) + 1]>
    operations_by_type.

(** [min(l, key=key)] and [max(l, key=key)] of a list [x :: l]: the
    first of the items with the least, or the greatest, key. *)
Definition min_by {A} (key : A -> Z) (x : A) (l : list A) : A :=
  foldl (fun best y => if key y <? key best then y else best) x l.
Definition max_by {A} (key : A -> Z) (x : A) (l : list A) : A :=
  foldl (fun best y => if key best <? key y then y else best) x l.

Section Analysis.

Variable fromtimestamp : float -> result datetime.

(** [timestamp.strftime("%Y-%m-%d")] *)
Variable strftime_day : datetime -> string.

Definition day_key_of (entry : CommitEntry) : result string :=
  timestamp ← of_millis fromtimestamp (timestamp_of entry);
  Ok (strftime_day timestamp).

Definition group_by_day (operations_by_day : gmap string (list CommitEntry))
    (entry : CommitEntry) : result (gmap string (list CommitEntry)) :=
  day_key ← day_key_of entry;
  let operations_by_day :=
    match operations_by_day !! day_key with
    | None => <[day_key := []]> operations_by_day
    | Some _ => operations_by_day
    end in
  Ok (alter (fun day => day ++ [entry])%list day_key operations_by_day).

Definition get_timeline_analysis (table : DeltaTable)
  : result TimelineAnalysis :=
  let history := dt_history table in
  match history with
  | [] =>
      Ok {| total_operations := 0;
            operations_by_type := ∅;
            operations_by_day := ∅;
            version_creation_rate := NInt 0;
            write_patterns := [];
            first_operation := None;
            latest_operation := None |}
  | latest :: older =>
      let operations_by_type := foldl count_operation ∅ history in
      operations_by_day ← foldlM group_by_day ∅ history;
      let first_op := min_by timestamp_of latest older in
      let last_op := max_by timestamp_of latest older in
      first_time ← of_millis fromtimestamp (timestamp_of first_op);
      last_time ← of_millis fromtimestamp (timestamp_of last_op);
      let days := timedelta_days last_time first_time in
      let days_elapsed := Z.max 1 (if days =? 0 then 1 else days) in
      version_creation_rate ← int_truediv (len history) days_elapsed;
      write_patterns ← DeltaTableInspector._analyze_write_patterns history;
      Ok {| total_operations := len history;
            operations_by_type := operations_by_type;
            operations_by_day := operations_by_day;
            version_creation_rate := NFloat version_creation_rate;
            write_patterns := write_patterns;
            first_operation := Some (List.last older latest);
            latest_operation := Some latest |}
  end.

End Analysis.
End Timeline.

(** The sum of the counts of a dict. *)
Definition map_sum (m : gmap string Z) : Z :=
  map_fold (fun _ count total => count + total) 0 m.

(** What a dict holds for a key whose items are [items]: nothing if there
    are none. *)
Definition group_of {A} (items : list A) : option (list A) :=
  match items with [] => None | _ => Some items end.

(** Whether [fromtimestamp] and [strftime] give [day] for the entry. *)
Definition on_day (fromtimestamp : float -> result datetime)
    (strftime_day : datetime -> string) (day : string)
    (entry : CommitEntry) : bool :=
  match Timeline.day_key_of fromtimestamp strftime_day entry with
  | Ok d => String.eqb d day
  | Raise _ => false
  end.

(** The summary of an empty history. *)
Definition empty_timeline : Timeline.TimelineAnalysis :=
  {| Timeline.total_operations := 0;
     Timeline.operations_by_type := ∅;
     Timeline.operations_by_day := ∅;
     Timeline.version_creation_rate := NInt 0;
     Timeline.write_patterns := [];
     Timeline.first_operation := None;
     Timeline.latest_operation := None |}.

(** The days since the epoch, as a text: a stand-in for the date. *)
Definition day_number (t : datetime) : string := pretty (t / 86400000000).

(** Three commits of two days, newest first. *)
Definition two_days_table : DeltaTable :=
  {| dt_version := 2;
     dt_schema := [];
     dt_metadata := None;
     dt_add_actions :=
       {| aa_path := []; aa_size_bytes := None;
          aa_modification_time := None; aa_columns := [] |};
     dt_protocol := plain_protocol;
     dt_history := [ commit 2 90000000 "OPTIMIZE" 0;
                     commit 1 3600000 "WRITE" 10;
                     commit 0 0 "WRITE" 100 ] |}.

(** * The table of the files *)

Module Display.

(** [s[start:]] of a string *)
Definition str_from (s : string) (start : Z) : string :=
  let n := Z.of_nat (String.length s) in
  let a := slice_bound n start in
  String.substring (Z.to_nat a) (Z.to_nat (n - a)) s.

(** The path of a row: a long one is cut to its end. *)
Definition row_path (path : string) : string :=
  if 60 <? Z.of_nat (String.length path)
  then "..." ++ str_from path (-57)
  else path.

(** [sorted(l, key=key, reverse=True)]: the greatest key first, items of
    one key in the order they had. *)
Definition sorted_reverse {A} (key : A -> Z) (l : list A) : list A :=
  sort_by (fun x => - key x) l.

(** The files of the rows of [create_files_table], and the number that
    its title gives for them. *)
Definition sorted_files (stats : TableStatistics) (limit : Z)
  : list FileInfo :=
  slice (sorted_reverse size_bytes (files stats)) 0 limit.

Definition title_showing (stats : TableStatistics) (limit : Z) : Z :=
  Z.min limit (len (files stats)).

End Display.

(** * Retention durations that are read *)

(** A text of decimal digits, and the number that it writes. *)
Fixpoint all_digits (s : string) : bool :=
  match s with
  | EmptyString => true
  | String c s' =>
      match digit_value c with Some _ => all_digits s' | None => false end
  end.

Fixpoint decimal_from (acc : Z) (s : string) : Z :=
  match s with
  | EmptyString => acc
  | String c s' => decimal_from (10 * acc + default 0 (digit_value c)) s'
  end.

Definition decimal_value (s : string) : Z := decimal_from 0 s.

Definition is_decimal (s : string) : Prop :=
  s <> EmptyString /\ all_digits s = true
  /\ (String.length s <= int_max_str_digits)%nat.

(** * The type names of the schema *)

Module SchemaDict.

(** [sub in s] *)
Fixpoint contains (s sub : string) : bool :=
  String.prefix sub s
  || match s with
     | String _ s' => contains s' sub
     | EmptyString => false
     end.

(** [s.endswith(c)] for one character [c] *)
Fixpoint endswith_char (s : string) (c : ascii) : bool :=
  match s with
  | EmptyString => false
  | String a EmptyString => Ascii.eqb a c
  | String _ s' => endswith_char s' c
  end.

(** [s.split(sep)] for a separator that is not empty: its occurrences
    are found left to right and do not overlap; [cur] is the part read so
    far, [skip] counts the characters of the occurrence that are still
    to pass. *)
Fixpoint split_from (skip : nat) (sep cur s : string) : list string :=
  match s with
  | EmptyString => [cur]
  | String c s' =>
      match skip with
      | S k => split_from k sep cur s'
      | O =>
          if String.prefix sep s
          then cur :: split_from (String.length sep - 1) sep EmptyString s'
          else split_from 0 sep (cur ++ String c EmptyString) s'
      end
  end.

Definition split (s sep : string) : list string :=
  split_from 0 sep EmptyString s.

(** [s[:stop]] of a string *)
Definition str_to (s : string) (stop : Z) : string :=
  let n := Z.of_nat (String.length s) in
  String.substring 0 (Z.to_nat (slice_bound n stop)) s.

(** The name that [get_schema_dict] gives to a type whose [str] is
    [type_str]. *)
Definition clean_type (type_str : string) : result string :=
  let type_str := strip type_str in
  if contains type_str "DataType<" && endswith_char type_str ">" then
    part ← getitem (split type_str "DataType<") 1;
    Ok (str_to part (-1))
  else Ok type_str.

(** The fields of the schema are given by their names and the [str] of
    their types. *)
Definition get_schema_dict (fields : list (string * string))
  : result (gmap string string) :=
  foldlM (fun (result : gmap string string) (field : string * string) =>
            type_str ← clean_type field.2;
            Ok (<[field.1 := type_str]> result))
         ∅ fields.

End SchemaDict.

(** * The insights tab *)

Module InsightsTab.

(** [[i for i in insights if i.severity == sev]] *)
Definition of_severity (sev : string) (insights : list Insight)
  : list Insight :=
  List.filter (fun i => String.eqb (severity i) sev) insights.

(** What [_create_insights] shows: nothing but a note while the list is
    empty, else the insights of the four groups, one group after the
    other, and the three counts of the summary. *)
Record Shown : Type := {
  sections : list (list Insight);
  summary : Z * Z * Z;
}.

Definition _create_insights (insights : list Insight) : option Shown :=
  match insights with
  | [] => None
  | _ =>
      let critical := of_severity "critical" insights in
      let warnings := of_severity "warning" insights in
      let info := of_severity "info" insights in
      let good := of_severity "good" insights in
      Some {| sections := [critical; warnings; info; good];
              summary := (len critical, len warnings, len info) |}
  end.

End InsightsTab.

(** * Sample inputs of the further properties *)

(** Three files of one size. *)
Definition equal_stats : TableStatistics :=
  sample_stats [ sample_file "0.parquet" 4096 ∅;
                 sample_file "1.parquet" 4096 ∅;
                 sample_file "2.parquet" 4096 ∅ ] [] 1 None.

(** Two files in a batch that has no [size_bytes] column. *)
Definition sizeless_table : DeltaTable :=
  {| dt_version := 0;
     dt_schema := [];
     dt_metadata := None;
     dt_add_actions :=
       {| aa_path := ["0.parquet"; "1.parquet"];
          aa_size_bytes := None;
          aa_modification_time := Some [Some 0; Some 0];
          aa_columns := [] |};
     dt_protocol := plain_protocol;
     dt_history := [commit 0 0 "WRITE" 2] |}.

(** Two vacuums among four commits, newest first. *)
Definition vacuumed_table : DeltaTable :=
  {| dt_version := 3;
     dt_schema := [];
     dt_metadata := None;
     dt_add_actions :=
       {| aa_path := []; aa_size_bytes := None;
          aa_modification_time := None; aa_columns := [] |};
     dt_protocol := plain_protocol;
     dt_history := [ commit 3 4000 "WRITE" 5; commit 2 3000 "VACUUM" 0;
                     commit 1 2000 "VACUUM" 0; commit 0 1000 "WRITE" 5 ] |}.

(** A path of 70 characters. *)
Definition long_path : string :=
  "warehouse/sales/region=eu/part-00000-0123456789abcdef0123456789.parquet".

(** * Proofs *)

#[local] Set Warnings "-clear-no-such-hyp".

(** ** Results *)

Lemma bind_Ok {A B} (c : result A) (k : A -> result B) (b : B) :
  (c ≫= k) = Ok b <-> exists a, c = Ok a /\ k a = Ok b.
Proof.
  destruct c as [a|e]; simpl; split.
  - intros H. exists a. auto.
  - intros (a' & Ha & Hk). congruence.
  - discriminate.
  - intros (a' & Ha & _). discriminate.
Qed.

Lemma fmap_Ok {A B} (f : A -> B) (c : result A) (b : B) :
  f <$> c = Ok b <-> exists a, c = Ok a /\ b = f a.
Proof.
  destruct c as [a|e]; simpl; split.
  - intros [= <-]. eauto.
  - intros (a' & [= <-] & ->). reflexivity.
  - discriminate.
  - intros (a' & Ha & _). discriminate.
Qed.

(** ** Bounds on rounding *)

Lemma ilog2_lower a b :
  0 < a -> 0 < b ->
  if 0 <=? ilog2 a b then b * 2 ^ ilog2 a b <= a
  else b <= a * 2 ^ (- ilog2 a b).
Proof.
  intros Ha Hb. unfold ilog2.
  pose proof (Z.log2_spec a Ha) as [La _].
  pose proof (Z.log2_spec b Hb) as [_ Ub].
  pose proof (Z.log2_nonneg a). pose proof (Z.log2_nonneg b).
  set (la := Z.log2 a) in *. set (lb := Z.log2 b) in *.
  destruct (Z.leb_spec 0 (la - lb)) as [Hd|Hd].
  - destruct (Z.leb_spec (b * 2 ^ (la - lb)) a) as [Ht|Ht].
    + destruct (Z.leb_spec 0 (la - lb)); [exact Ht | lia].
    + destruct (Z.leb_spec 0 (la - lb - 1)) as [Hd'|Hd'].
      * assert (2 ^ la = 2 ^ (lb + 1) * 2 ^ (la - lb - 1)) as E
          by (rewrite <- Z.pow_add_r by lia; f_equal; lia).
        assert (0 < 2 ^ (la - lb - 1)) by (apply Z.pow_pos_nonneg; lia).
        nia.
      * assert (la = lb) as E by lia. rewrite E in *.
        replace (- (lb - lb - 1)) with 1 by lia.
        replace (Z.succ lb) with (lb + 1) in Ub by lia.
        rewrite Z.pow_add_r in Ub by lia. change (2 ^ 1) with 2 in *. lia.
  - destruct (Z.leb_spec b (a * 2 ^ (- (la - lb)))) as [Ht|Ht].
    + destruct (Z.leb_spec 0 (la - lb)); [lia | exact Ht].
    + destruct (Z.leb_spec 0 (la - lb - 1)); [lia|].
      replace (Z.succ lb) with (la + (- (la - lb - 1))) in Ub by lia.
      rewrite Z.pow_add_r in Ub by lia.
      assert (0 < 2 ^ (- (la - lb - 1))) by (apply Z.pow_pos_nonneg; lia).
      nia.
Qed.

Lemma rne_nonneg a b : 0 <= a -> 0 < b -> 0 <= rne a b.
Proof.
  intros Ha Hb. unfold rne.
  pose proof (Z.div_pos a b Ha Hb).
  destruct (2 * (a mod b) ?= b); [destruct (Z.even _)| |]; lia.
Qed.

Lemma rne_le a b t : 0 <= a -> 0 < b -> a <= t * b -> rne a b <= t.
Proof.
  intros Ha Hb Hle. unfold rne.
  pose proof (Z.div_mod a b ltac:(lia)) as E.
  pose proof (Z.mod_pos_bound a b Hb) as [M0 M1].
  assert (a / b <= t) as Hq by (apply Z.div_le_upper_bound; lia).
  destruct (Z.eq_dec (a / b) t) as [Heq|Hne].
  - assert (a mod b = 0) as -> by nia.
    replace (2 * 0 ?= b) with Lt by (symmetry; apply Z.compare_lt_iff; lia). lia.
  - destruct (2 * (a mod b) ?= b); [destruct (Z.even _)| |]; lia.
Qed.

Lemma fexp_le a b k :
  0 < a -> 0 < b -> 0 <= k -> a <= 2 ^ k * b -> fexp a b <= k.
Proof.
  intros Ha Hb Hk Hle. unfold fexp.
  pose proof (ilog2_lower a b Ha Hb) as Hl.
  destruct (Z.leb_spec 0 (ilog2 a b)) as [Hi|Hi]; [|lia].
  assert (ilog2 a b <= k); [|lia].
  destruct (Z.le_gt_cases (ilog2 a b) k) as [|Hgt]; [assumption|].
  assert (2 ^ (k + 1) <= 2 ^ ilog2 a b) by (apply Z.pow_le_mono_r; lia).
  rewrite Z.pow_add_r in * by lia. change (2 ^ 1) with 2 in *.
  assert (0 < 2 ^ k) by (apply Z.pow_pos_nonneg; lia). nia.
Qed.

Lemma round_pos_bounds a b k :
  0 < a -> 0 < b -> 0 <= k -> a <= 2 ^ k * b ->
  (0 <= round_pos a b <= inject_Z (2 ^ k))%Q.
Proof.
  intros Ha Hb Hk Hle.
  pose proof (fexp_le a b k Ha Hb Hk Hle) as He.
  unfold round_pos, scaled_rne, pow2. set (e := fexp a b) in *.
  assert (0 < 2 ^ k) by (apply Z.pow_pos_nonneg; lia).
  destruct (Z.leb_spec 0 e) as [Hpos|Hneg].
  - assert (0 < 2 ^ e) by (apply Z.pow_pos_nonneg; lia).
    assert (2 ^ k = 2 ^ (k - e) * 2 ^ e) as E
      by (rewrite <- Z.pow_add_r by lia; f_equal; lia).
    pose proof (rne_nonneg a (b * 2 ^ e) ltac:(lia) ltac:(nia)).
    pose proof (rne_le a (b * 2 ^ e) (2 ^ (k - e)) ltac:(lia) ltac:(nia) ltac:(nia)).
    unfold Qle; simpl. nia.
  - assert (0 < 2 ^ (- e)) by (apply Z.pow_pos_nonneg; lia).
    assert (2 ^ (k - e) = 2 ^ k * 2 ^ (- e)) as E
      by (rewrite <- Z.pow_add_r by lia; f_equal; lia).
    pose proof (rne_nonneg (a * 2 ^ (- e)) b ltac:(nia) Hb).
    pose proof (rne_le (a * 2 ^ (- e)) b (2 ^ (k - e)) ltac:(nia) Hb ltac:(nia)).
    unfold Qle; simpl. rewrite Pos.mul_1_l, Z2Pos.id by lia. nia.
Qed.

Lemma rne_ge a b t : 0 <= a -> 0 < b -> t * b <= a -> t <= rne a b.
Proof.
  intros Ha Hb Hle. unfold rne.
  assert (t <= a / b) by (apply Z.div_le_lower_bound; lia).
  destruct (2 * (a mod b) ?= b); [destruct (Z.even _)| |]; lia.
Qed.

Lemma round_pos_ge_1 a b : 0 < b -> b <= a -> (1 <= round_pos a b)%Q.
Proof.
  intros Hb Hle. assert (0 < a) as Ha by lia.
  pose proof (ilog2_lower a b Ha Hb) as Hl.
  unfold round_pos, scaled_rne, pow2, fexp in *.
  set (il := ilog2 a b) in *.
  destruct (Z.leb_spec 0 (Z.max (il - 52) (-1074))) as [Hpos|Hneg].
  - assert (Z.max (il - 52) (-1074) = il - 52) as -> by lia.
    destruct (Z.leb_spec 0 il) as [_|]; [|lia].
    assert (0 < 2 ^ (il - 52)) by (apply Z.pow_pos_nonneg; lia).
    assert (2 ^ il = 2 ^ (il - 52) * 2 ^ 52) as E
      by (rewrite <- Z.pow_add_r by lia; f_equal; lia).
    assert (0 < 2 ^ 52) by (apply Z.pow_pos_nonneg; lia).
    pose proof (rne_ge a (b * 2 ^ (il - 52)) 1 ltac:(lia) ltac:(nia) ltac:(nia)).
    unfold Qle; simpl. nia.
  - set (e := Z.max (il - 52) (-1074)) in *.
    assert (0 < 2 ^ (- e)) by (apply Z.pow_pos_nonneg; lia).
    pose proof (rne_ge (a * 2 ^ (- e)) b (2 ^ (- e)) ltac:(nia) Hb ltac:(nia)).
    unfold Qle; simpl. rewrite Pos.mul_1_l, Z2Pos.id by lia. nia.
Qed.



Lemma max_pow_gt k : 0 <= k <= 1023 -> (inject_Z (2 ^ k) < max_pow)%Q.
Proof.
  intros Hk. unfold max_pow, Qlt; simpl. rewrite !Z.mul_1_r.
  apply Z.pow_lt_mono_r; lia.
Qed.

Lemma finish_bound neg v k :
  0 <= k <= 1023 -> (0 <= v <= inject_Z (2 ^ k))%Q -> fbound k (finish neg v).
Proof.
  intros Hk [Hv0 Hvk]. unfold finish.
  destruct (Qeq_bool v 0); [exact I|].
  destruct (Qle_bool max_pow v) eqn:E.
  - apply Qle_bool_iff in E. pose proof (max_pow_gt k Hk). lra.
  - simpl. rewrite Qred_correct.
    destruct neg; [rewrite Qabs_opp|]; rewrite Qabs_pos; assumption.
Qed.

Lemma Qabs_num_den q k :
  (Qabs q <= inject_Z (2 ^ k))%Q -> Z.abs (Qnum q) <= 2 ^ k * Zpos (Qden q).
Proof. destruct q as [n d]. unfold Qle; simpl. lia. Qed.

Lemma round_bound neg0 q k :
  0 <= k <= 1023 -> (Qabs q <= inject_Z (2 ^ k))%Q -> fbound k (round neg0 q).
Proof.
  intros Hk Hq. apply Qabs_num_den in Hq. unfold round.
  destruct (Qnum q) as [|a|a] eqn:E; [exact I| |];
    apply finish_bound; try assumption;
    apply round_pos_bounds; lia.
Qed.

Lemma finish_nonneg v : (0 <= v)%Q -> fnonneg (finish false v).
Proof.
  intros Hv. unfold finish.
  destruct (Qeq_bool v 0); [exact I|].
  destruct (Qle_bool max_pow v); [reflexivity|].
  simpl. now rewrite Qred_correct.
Qed.

Lemma round_pos_nonneg a b : 0 < a -> 0 < b -> (0 <= round_pos a b)%Q.
Proof.
  intros Ha Hb. unfold round_pos, scaled_rne, pow2.
  destruct (Z.leb_spec 0 (fexp a b)).
  - assert (0 < 2 ^ fexp a b) by (apply Z.pow_pos_nonneg; lia).
    pose proof (rne_nonneg a (b * 2 ^ fexp a b) ltac:(lia) ltac:(nia)).
    unfold Qle; simpl. nia.
  - assert (0 < 2 ^ (- fexp a b)) by (apply Z.pow_pos_nonneg; lia).
    pose proof (rne_nonneg (a * 2 ^ (- fexp a b)) b ltac:(nia) Hb).
    unfold Qle; simpl. lia.
Qed.

Lemma round_nonneg q : (0 <= q)%Q -> fnonneg (round false q).
Proof.
  intros Hq. unfold round.
  destruct q as [n d]. unfold Qle in Hq; simpl in *.
  destruct n as [|a|a]; [exact I | | lia].
  apply finish_nonneg, round_pos_nonneg; lia.
Qed.

Lemma finish_nonzero neg v : (1 <= v)%Q -> is_zero (finish neg v) = false.
Proof.
  intros Hv. unfold finish.
  destruct (Qeq_bool v 0) eqn:E.
  - apply Qeq_bool_iff in E. lra.
  - destruct (Qle_bool max_pow v); reflexivity.
Qed.

(** ** Python numbers within bounds *)

Lemma float_of_int_bound n k :
  0 <= k <= 1023 -> Z.abs n <= 2 ^ k ->
  exists x, float_of_int n = Ok x /\ fbound k x.
Proof.
  intros Hk Hn. unfold float_of_int.
  assert (fbound k (round false (inject_Z n))) as Hb
    by (apply round_bound; [exact Hk | unfold Qle; simpl; lia]).
  destruct (round false (inject_Z n)); try contradiction; eauto.
Qed.

Lemma float_of_int_nonzero n x :
  n <> 0 -> float_of_int n = Ok x -> is_zero x = false.
Proof.
  intros Hn. unfold float_of_int, round. simpl.
  destruct n as [|a|a]; [lia| |];
    match goal with
    | |- context [finish ?s ?v] =>
        pose proof (finish_nonzero s v
                      ltac:(apply round_pos_ge_1; lia)) as Hz;
        destruct (finish s v); try discriminate; intros [= <-]; exact Hz
    end.
Qed.

Lemma int_truediv_bound a b k :
  0 <= k <= 1023 -> Z.abs a <= 2 ^ k -> b <> 0 ->
  exists x, int_truediv a b = Ok x /\ fbound k x.
Proof.
  intros Hk Ha Hb. unfold int_truediv.
  destruct (Z.eqb_spec b 0) as [|_]; [contradiction|].
  destruct (Z.eqb_spec a 0) as [|_]; [eexists; split; [reflexivity | exact I]|].
  assert (0 < 2 ^ k) by (apply Z.pow_pos_nonneg; lia).
  assert (Z.abs (a * Z.sgn b) = Z.abs a) as Eabs
    by (rewrite Z.abs_mul; destruct b; simpl; lia).
  assert (fbound k (round false (a * Z.sgn b # Z.to_pos (Z.abs b)))) as Hr.
  { apply round_bound; [exact Hk|].
    unfold Qle; simpl. rewrite Z2Pos.id, Eabs by lia. nia. }
  destruct (round false _); try contradiction; eauto.
Qed.

Lemma pow2_succ k : 0 <= k -> (inject_Z (2 ^ (k + 1)) == 2 * inject_Z (2 ^ k))%Q.
Proof.
  intros Hk. rewrite Z.pow_add_r by lia. change (2 ^ 1) with 2.
  unfold Qeq; simpl. lia.
Qed.

Lemma pow2_double k : 0 <= k ->
  (inject_Z (2 ^ (2 * k)) == inject_Z (2 ^ k) * inject_Z (2 ^ k))%Q.
Proof.
  intros Hk. replace (2 * k) with (k + k) by lia.
  rewrite Z.pow_add_r by lia. unfold Qeq; simpl. lia.
Qed.

Lemma pow2_pos k : 0 <= k -> (0 < inject_Z (2 ^ k))%Q.
Proof.
  intros Hk. unfold Qlt; simpl.
  pose proof (Z.pow_pos_nonneg 2 k ltac:(lia) Hk). lia.
Qed.

Lemma fbound_mono k k' x : 0 <= k <= k' -> fbound k x -> fbound k' x.
Proof.
  intros Hk. destruct x; simpl; auto.
  intros H. eapply Qle_trans; [exact H|].
  unfold Qle; simpl. rewrite !Z.mul_1_r. apply Z.pow_le_mono_r; lia.
Qed.

Lemma fsub_bound k x y :
  0 <= k -> k + 1 <= 1023 -> fbound k x -> fbound k y ->
  fbound (k + 1) (fsub x y).
Proof.
  intros Hk Hk' Hx Hy. pose proof (pow2_succ k Hk) as E.
  pose proof (pow2_pos k Hk) as P.
  destruct x as [s|p|s|], y as [t|q|t|]; cbn [fbound] in Hx, Hy;
    try contradiction; unfold fsub; cbn [fneg fadd fbound]; try exact I.
  - rewrite Qabs_opp, E. lra.
  - rewrite E. lra.
  - apply round_bound; [lia|]. rewrite E.
    eapply Qle_trans; [apply Qabs_triangle|]. rewrite Qabs_opp. lra.
Qed.

Lemma float_pow_2_bound k x :
  0 <= k -> 2 * k <= 1023 -> fbound k x ->
  exists r, float_pow_2 x = Ok r /\ fnonneg r.
Proof.
  intros Hk Hk' Hx.
  destruct x as [s|q|s|]; cbn [fbound float_pow_2] in *; try contradiction.
  - eexists; split; [reflexivity | exact I].
  - assert (0 <= q * q)%Q as Hsq.
    { destruct (Qlt_le_dec q 0); nra. }
    assert (fbound (2 * k) (round false (q * q))) as Hb.
    { apply round_bound; [lia|]. rewrite Qabs_Qmult, pow2_double by lia.
      pose proof (Qabs_nonneg q). nra. }
    pose proof (round_nonneg (q * q) Hsq) as Hn.
    destruct (round false (q * q)); try contradiction; eauto.
Qed.

Lemma fadd_nonneg x y : fnonneg x -> fnonneg y -> fnonneg (fadd x y).
Proof.
  destruct x as [s|p|s|], y as [t|q|t|]; cbn [fnonneg fadd];
    intros Hx Hy; subst; try exact I; try reflexivity; try assumption.
  apply round_nonneg. lra.
Qed.

Lemma float_sum_nonneg l : Forall fnonneg l -> fnonneg (float_sum l).
Proof.
  unfold float_sum. generalize (Fzero false), (I : fnonneg (Fzero false)).
  induction l as [|x l IH]; intros acc Hacc Hl; simpl; [exact Hacc|].
  inversion Hl; subst. apply IH; [|assumption]. now apply fadd_nonneg.
Qed.

Lemma fdiv_nonneg x q : fnonneg x -> (0 < q)%Q -> fnonneg (fdiv x (Ffin q)).
Proof.
  intros Hx Hq.
  assert ((Qnum q <? 0) = false) as Hs.
  { apply Z.ltb_ge. destruct q as [n d]. unfold Qlt in Hq; simpl in *. lia. }
  destruct x as [s|p|s|]; cbn [fnonneg fdiv fsign xorb] in *; subst;
    try exact I.
  - apply round_nonneg. apply Qle_shift_div_l; [exact Hq | lra].
  - now rewrite Hs.
Qed.

Lemma finish_cases neg v :
  (1 <= v)%Q ->
  finish neg v = Finf neg
  \/ finish neg v = Ffin (Qred (if neg then - v else v)).
Proof.
  intros Hv. unfold finish.
  destruct (Qeq_bool v 0) eqn:E.
  - apply Qeq_bool_iff in E. lra.
  - destruct (Qle_bool max_pow v); auto.
Qed.

Lemma float_of_int_pos n y :
  0 < n -> float_of_int n = Ok y -> exists q, y = Ffin q /\ (0 < q)%Q.
Proof.
  intros Hn. destruct n as [|a|a]; try lia.
  unfold float_of_int.
  change (round false (inject_Z (Z.pos a)))
    with (finish false (round_pos (Z.pos a) 1)).
  assert (1 <= round_pos (Z.pos a) 1)%Q as Hv
    by (apply round_pos_ge_1; lia).
  destruct (finish_cases false _ Hv) as [-> | ->]; [discriminate|].
  intros [= <-]. eexists; split; [reflexivity|].
  rewrite Qred_correct. lra.
Qed.

Lemma float_div_int_ok x n k :
  0 <= k <= 1023 -> 0 < n <= 2 ^ k ->
  exists r, float_div_int x n = Ok r /\ (fnonneg x -> fnonneg r).
Proof.
  intros Hk Hn.
  destruct (float_of_int_bound n k Hk ltac:(lia)) as (y & Hy & _).
  destruct (float_of_int_pos n y ltac:(lia) Hy) as (q & -> & Hq).
  unfold float_div_int, float_truediv. rewrite Hy. simpl.
  eexists; split; [reflexivity|]. intros Hx. now apply fdiv_nonneg.
Qed.


(** ** Rounding is monotone *)

Lemma rne_spec a b :
  0 <= a -> 0 < b ->
  (2 * rne a b - 1) * b <= 2 * a <= (2 * rne a b + 1) * b
  /\ (2 * a = (2 * rne a b - 1) * b -> Z.even (rne a b) = true)
  /\ (2 * a = (2 * rne a b + 1) * b -> Z.even (rne a b) = true).
Proof.
  intros Ha Hb. unfold rne.
  pose proof (Z.div_mod a b ltac:(lia)) as E.
  pose proof (Z.mod_pos_bound a b Hb) as [M0 M1].
  set (q := a / b) in *. set (r := a mod b) in *.
  destruct (Z.compare_spec (2 * r) b) as [Heq|Hlt|Hgt].
  - destruct (Z.even q) eqn:Ev.
    + repeat split; try nia. intros _. exact Ev.
    + repeat split; try nia.
      intros _. rewrite Z.even_add, Ev. reflexivity.
  - repeat split; nia.
  - repeat split; nia.
Qed.

Lemma rne_mono a b c d :
  0 <= a -> 0 < b -> 0 <= c -> 0 < d -> a * d <= c * b ->
  rne a b <= rne c d.
Proof.
  intros Ha Hb Hc Hd Hle.
  destruct (rne_spec a b Ha Hb) as ([L1 U1] & T1 & _).
  destruct (rne_spec c d Hc Hd) as ([L2 U2] & _ & T2).
  set (m := rne a b) in *. set (n := rne c d) in *.
  destruct (Z.le_gt_cases m n) as [|Hgt]; [assumption|]. exfalso.
  assert ((2 * m - 1) * (b * d) <= (2 * n + 1) * (b * d)) as H1 by nia.
  assert (m = n + 1) as Hm by nia.
  assert (2 * a = (2 * m - 1) * b) as Ea by nia.
  assert (2 * c = (2 * n + 1) * d) as Ec by nia.
  specialize (T1 Ea). specialize (T2 Ec).
  rewrite Hm, Z.even_add, T2 in T1. discriminate.
Qed.

Lemma scaled_rne_mono a b c d e :
  0 <= a -> 0 < b -> 0 <= c -> 0 < d -> a * d <= c * b ->
  scaled_rne a b e <= scaled_rne c d e.
Proof.
  intros Ha Hb Hc Hd Hle. unfold scaled_rne.
  destruct (Z.leb_spec 0 e).
  - assert (0 < 2 ^ e) by (apply Z.pow_pos_nonneg; lia).
    apply rne_mono; nia.
  - assert (0 < 2 ^ (- e)) by (apply Z.pow_pos_nonneg; lia).
    apply rne_mono; nia.
Qed.

Lemma pow2_gt_0 k : (0 < pow2 k)%Q.
Proof.
  unfold pow2. destruct (Z.leb_spec 0 k).
  - unfold Qlt; simpl. pose proof (Z.pow_pos_nonneg 2 k). lia.
  - reflexivity.
Qed.

Lemma pow2_mono k k' : k <= k' -> (pow2 k <= pow2 k')%Q.
Proof.
  intros Hk. unfold pow2.
  destruct (Z.leb_spec 0 k), (Z.leb_spec 0 k'); try lia;
    unfold Qle; simpl.
  - rewrite !Z.mul_1_r. apply Z.pow_le_mono_r; lia.
  - assert (0 < 2 ^ k') by (apply Z.pow_pos_nonneg; lia).
    assert (0 < 2 ^ (- k)) by (apply Z.pow_pos_nonneg; lia).
    rewrite Z2Pos.id by lia. nia.
  - assert (0 < 2 ^ (- k)) by (apply Z.pow_pos_nonneg; lia).
    assert (0 < 2 ^ (- k')) by (apply Z.pow_pos_nonneg; lia).
    rewrite !Z2Pos.id by lia.
    assert (2 ^ (- k') <= 2 ^ (- k)) by (apply Z.pow_le_mono_r; lia). lia.
Qed.

(** [pow2 k] is [2^(k-e)] units of [pow2 e]. *)
Lemma pow2_split k e :
  e <= k -> (inject_Z (2 ^ (k - e)) * pow2 e == pow2 k)%Q.
Proof.
  intros He. unfold pow2.
  assert (0 < 2 ^ (k - e)) by (apply Z.pow_pos_nonneg; lia).
  destruct (Z.leb_spec 0 e), (Z.leb_spec 0 k); try lia;
    unfold Qeq; simpl.
  - rewrite <- Z.pow_add_r by lia. replace (k - e + e) with k by lia. lia.
  - assert (0 < 2 ^ (- e)) by (apply Z.pow_pos_nonneg; lia).
    rewrite Pos.mul_1_l, Z2Pos.id by lia.
    replace (k - e) with (k + - e) by lia.
    rewrite Z.pow_add_r by lia. lia.
  - assert (0 < 2 ^ (- e)) by (apply Z.pow_pos_nonneg; lia).
    assert (0 < 2 ^ (- k)) by (apply Z.pow_pos_nonneg; lia).
    rewrite Pos.mul_1_l, !Z2Pos.id by lia.
    replace (- e) with (k - e + - k) by lia.
    rewrite Z.pow_add_r by lia. lia.
Qed.

(** The ratio [a/b] against a power of two, on integers. *)
Lemma le_pow2_iff a (b : positive) k :
  (a # b <= pow2 k)%Q <->
  if 0 <=? k then a <= 2 ^ k * Zpos b else a * 2 ^ (- k) <= Zpos b.
Proof.
  unfold pow2. destruct (Z.leb_spec 0 k); unfold Qle; simpl.
  - lia.
  - assert (0 < 2 ^ (- k)) by (apply Z.pow_pos_nonneg; lia).
    rewrite Z2Pos.id by lia. lia.
Qed.

Lemma ge_pow2_iff a (b : positive) k :
  (pow2 k <= a # b)%Q <->
  if 0 <=? k then Zpos b * 2 ^ k <= a else Zpos b <= a * 2 ^ (- k).
Proof.
  unfold pow2. destruct (Z.leb_spec 0 k); unfold Qle; simpl.
  - lia.
  - assert (0 < 2 ^ (- k)) by (apply Z.pow_pos_nonneg; lia).
    rewrite Z2Pos.id by lia. lia.
Qed.

Lemma ilog2_upper a b :
  0 < a -> 0 < b ->
  if 0 <=? ilog2 a b + 1 then a < b * 2 ^ (ilog2 a b + 1)
  else a * 2 ^ (- (ilog2 a b + 1)) < b.
Proof.
  intros Ha Hb. unfold ilog2.
  pose proof (Z.log2_spec a Ha) as [La Ua].
  pose proof (Z.log2_spec b Hb) as [Lb Ub].
  pose proof (Z.log2_nonneg a). pose proof (Z.log2_nonneg b).
  set (la := Z.log2 a) in *. set (lb := Z.log2 b) in *.
  replace (Z.succ la) with (la + 1) in * by lia.
  replace (Z.succ lb) with (lb + 1) in * by lia.
  assert (0 < 2 ^ la) by (apply Z.pow_pos_nonneg; lia).
  assert (0 < 2 ^ lb) by (apply Z.pow_pos_nonneg; lia).
  rewrite Z.pow_add_r in Ua, Ub by lia. change (2 ^ 1) with 2 in *.
  destruct (Z.leb_spec 0 (la - lb)) as [Hd|Hd].
  - assert (2 ^ la = 2 ^ (la - lb) * 2 ^ lb) as E
      by (rewrite <- Z.pow_add_r by lia; f_equal; lia).
    assert (0 < 2 ^ (la - lb)) by (apply Z.pow_pos_nonneg; lia).
    destruct (Z.leb_spec (b * 2 ^ (la - lb)) a) as [Ht|Ht].
    + destruct (Z.leb_spec 0 (la - lb + 1)); [|lia].
      rewrite Z.pow_add_r by lia. change (2 ^ 1) with 2. nia.
    + replace (la - lb - 1 + 1) with (la - lb) by lia.
      destruct (Z.leb_spec 0 (la - lb)); [exact Ht | lia].
  - assert (2 ^ lb = 2 ^ (lb - la) * 2 ^ la) as E
      by (rewrite <- Z.pow_add_r by lia; f_equal; lia).
    assert (0 < 2 ^ (lb - la)) by (apply Z.pow_pos_nonneg; lia).
    replace (- (la - lb)) with (lb - la) by lia.
    destruct (Z.leb_spec b (a * 2 ^ (lb - la))) as [Ht|Ht].
    + destruct (Z.leb_spec 0 (la - lb + 1)) as [Hs|Hs].
      * assert (la - lb + 1 = 0) as -> by lia.
        assert (lb - la = 1) as E1 by lia. rewrite E1 in *.
        change (2 ^ 1) with 2 in *. change (2 ^ 0) with 1. nia.
      * replace (- (la - lb + 1)) with (lb - la - 1) by lia.
        assert (2 ^ (lb - la) = 2 ^ (lb - la - 1) * 2) as E2.
        { replace (lb - la) with (lb - la - 1 + 1) at 1 by lia.
          rewrite Z.pow_add_r by lia. reflexivity. }
        assert (0 < 2 ^ (lb - la - 1)) by (apply Z.pow_pos_nonneg; lia).
        nia.
    + replace (la - lb - 1 + 1) with (la - lb) by lia.
      destruct (Z.leb_spec 0 (la - lb)); [lia|].
      replace (- (la - lb)) with (lb - la) by lia. exact Ht.
Qed.

(** [2^ilog2 <= a/b < 2^(ilog2+1)] *)
Lemma ilog2_bounds a (b : positive) :
  0 < a ->
  (pow2 (ilog2 a (Zpos b)) <= a # b)%Q
  /\ (a # b < pow2 (ilog2 a (Zpos b) + 1))%Q.
Proof.
  intros Ha. split.
  - apply ge_pow2_iff. apply ilog2_lower; lia.
  - apply Qnot_le_lt. intros Hle. apply ge_pow2_iff in Hle.
    pose proof (ilog2_upper a (Zpos b) Ha ltac:(lia)) as Hu.
    destruct (0 <=? ilog2 a (Z.pos b) + 1); lia.
Qed.

Lemma ilog2_mono a (b : positive) c (d : positive) :
  0 < a -> 0 < c -> (a # b <= c # d)%Q ->
  ilog2 a (Zpos b) <= ilog2 c (Zpos d).
Proof.
  intros Ha Hc Hle.
  destruct (ilog2_bounds a b Ha) as [La _].
  destruct (ilog2_bounds c d Hc) as [_ Uc].
  destruct (Z.le_gt_cases (ilog2 a (Zpos b)) (ilog2 c (Zpos d)));
    [assumption|]. exfalso.
  pose proof (pow2_mono (ilog2 c (Zpos d) + 1) (ilog2 a (Zpos b))
                ltac:(lia)) as Hm.
  lra.
Qed.

Lemma scaled_rne_nonneg a b e : 0 <= a -> 0 < b -> 0 <= scaled_rne a b e.
Proof.
  intros Ha Hb. unfold scaled_rne. destruct (Z.leb_spec 0 e).
  - assert (0 < 2 ^ e) by (apply Z.pow_pos_nonneg; lia).
    apply rne_nonneg; nia.
  - assert (0 < 2 ^ (- e)) by (apply Z.pow_pos_nonneg; lia).
    apply rne_nonneg; nia.
Qed.

(** A power of two on the grid bounds the rounded value as it bounds the
    exact one. *)
Lemma round_pos_le_pow2 a (b : positive) k :
  0 < a -> fexp a (Zpos b) <= k -> (a # b <= pow2 k)%Q ->
  (round_pos a (Zpos b) <= pow2 k)%Q.
Proof.
  intros Ha He Hle. unfold round_pos. set (e := fexp a (Zpos b)) in *.
  assert (scaled_rne a (Zpos b) e <= 2 ^ (k - e)) as Hm.
  { apply le_pow2_iff in Hle. unfold scaled_rne.
    assert (0 < 2 ^ (k - e)) by (apply Z.pow_pos_nonneg; lia).
    destruct (Z.leb_spec 0 e) as [H0|H0].
    - assert (0 < 2 ^ e) by (apply Z.pow_pos_nonneg; lia).
      destruct (Z.leb_spec 0 k); [|lia].
      apply rne_le; [lia | nia |].
      replace (2 ^ (k - e) * (Zpos b * 2 ^ e))
        with (2 ^ (k - e + e) * Zpos b)
        by (rewrite Z.pow_add_r by lia; ring).
      replace (k - e + e) with k by lia. exact Hle.
    - assert (0 < 2 ^ (- e)) by (apply Z.pow_pos_nonneg; lia).
      apply rne_le; [nia | lia |].
      destruct (Z.leb_spec 0 k).
      + replace (k - e) with (k + - e) by lia.
        rewrite Z.pow_add_r by lia. nia.
      + assert (0 < 2 ^ (- k)) by (apply Z.pow_pos_nonneg; lia).
        replace (- e) with (- k + (k - e)) by lia.
        rewrite Z.pow_add_r by lia. nia. }
  rewrite <- (pow2_split k e He).
  apply Qmult_le_compat_r; [|apply Qlt_le_weak, pow2_gt_0].
  unfold Qle; simpl. lia.
Qed.

Lemma round_pos_ge_pow2 a (b : positive) k :
  0 < a -> fexp a (Zpos b) <= k -> (pow2 k <= a # b)%Q ->
  (pow2 k <= round_pos a (Zpos b))%Q.
Proof.
  intros Ha He Hle. unfold round_pos. set (e := fexp a (Zpos b)) in *.
  assert (2 ^ (k - e) <= scaled_rne a (Zpos b) e) as Hm.
  { apply ge_pow2_iff in Hle. unfold scaled_rne.
    assert (0 < 2 ^ (k - e)) by (apply Z.pow_pos_nonneg; lia).
    destruct (Z.leb_spec 0 e) as [H0|H0].
    - assert (0 < 2 ^ e) by (apply Z.pow_pos_nonneg; lia).
      destruct (Z.leb_spec 0 k); [|lia].
      apply rne_ge; [lia | nia |].
      replace (2 ^ (k - e) * (Zpos b * 2 ^ e))
        with (Zpos b * 2 ^ (k - e + e))
        by (rewrite Z.pow_add_r by lia; ring).
      replace (k - e + e) with k by lia. exact Hle.
    - assert (0 < 2 ^ (- e)) by (apply Z.pow_pos_nonneg; lia).
      apply rne_ge; [nia | lia |].
      destruct (Z.leb_spec 0 k).
      + replace (k - e) with (k + - e) by lia.
        rewrite Z.pow_add_r by lia. nia.
      + assert (0 < 2 ^ (- k)) by (apply Z.pow_pos_nonneg; lia).
        replace (- e) with (- k + (k - e)) in * by lia.
        rewrite Z.pow_add_r by lia. nia. }
  rewrite <- (pow2_split k e He).
  apply Qmult_le_compat_r; [|apply Qlt_le_weak, pow2_gt_0].
  unfold Qle; simpl. lia.
Qed.

(** Rounding to nearest is monotone. *)
Lemma round_pos_mono a (b : positive) c (d : positive) :
  0 < a -> 0 < c -> (a # b <= c # d)%Q ->
  (round_pos a (Zpos b) <= round_pos c (Zpos d))%Q.
Proof.
  intros Ha Hc Hle.
  pose proof (ilog2_mono a b c d Ha Hc Hle) as Hil.
  destruct (ilog2_bounds a b Ha) as [La Ua].
  destruct (ilog2_bounds c d Hc) as [Lc Uc].
  destruct (Z.eq_dec (fexp a (Zpos b)) (fexp c (Zpos d))) as [Heq|Hne].
  - unfold round_pos. rewrite Heq.
    apply Qmult_le_compat_r; [|apply Qlt_le_weak, pow2_gt_0].
    unfold Qle; simpl. rewrite !Z.mul_1_r.
    apply scaled_rne_mono; try lia. exact Hle.
  - unfold fexp in Hne.
    apply Qle_trans with (pow2 (ilog2 c (Zpos d))).
    + apply round_pos_le_pow2; [exact Ha | unfold fexp; lia |].
      pose proof (pow2_mono (ilog2 a (Zpos b) + 1) (ilog2 c (Zpos d))
                    ltac:(lia)).
      lra.
    + apply round_pos_ge_pow2; [exact Hc | unfold fexp; lia | exact Lc].
Qed.

(** ** Float comparisons as integer comparisons *)

(** A finite rounded magnitude compares as the value it carries. *)
Lemma cmpQ_finish v q x :
  finish false v = x -> (forall s, x <> Finf s) ->
  cmpQ x q = Some (v ?= q)%Q.
Proof.
  unfold finish. intros <- Hfin.
  destruct (Qeq_bool v 0) eqn:E.
  - apply Qeq_bool_iff in E. cbn [cmpQ]. rewrite E. reflexivity.
  - destruct (Qle_bool max_pow v).
    + exfalso. apply (Hfin false). reflexivity.
    + cbn [cmpQ]. rewrite Qred_correct. reflexivity.
Qed.

Lemma cmpQ_finish_neg v q x :
  (0 <= v)%Q -> (0 < q)%Q -> finish true v = x -> (forall s, x <> Finf s) ->
  cmpQ x q = Some Lt.
Proof.
  unfold finish. intros Hv Hq <- Hfin.
  destruct (Qeq_bool v 0) eqn:E.
  - cbn [cmpQ]. f_equal. apply Qlt_alt. exact Hq.
  - destruct (Qle_bool max_pow v).
    + exfalso. apply (Hfin true). reflexivity.
    + cbn [cmpQ]. f_equal. rewrite Qred_correct, <- Qlt_alt. lra.
Qed.

Lemma int_truediv_pos a b x q :
  0 < a -> 0 < b -> int_truediv a b = Ok x ->
  cmpQ x q = Some (round_pos a b ?= q)%Q.
Proof.
  intros Ha Hb. destruct a as [|a|a]; try lia. destruct b as [|b|b]; try lia.
  unfold int_truediv. cbn [Z.eqb Z.sgn Z.abs Z.to_pos].
  rewrite Z.mul_1_r. change (Z.to_pos (Z.abs (Z.pos b))) with b.
  change (round false (Z.pos a # b))
    with (finish false (round_pos (Z.pos a) (Z.pos b))).
  destruct (finish false (round_pos (Z.pos a) (Z.pos b))) eqn:E; intros [= <-];
    (eapply cmpQ_finish; [exact E | discriminate]).
Qed.

Lemma int_truediv_nonpos a b x q :
  a <= 0 -> 0 < b -> (0 < q)%Q -> int_truediv a b = Ok x ->
  cmpQ x q = Some Lt.
Proof.
  intros Ha Hb Hq. destruct b as [|b|b]; try lia.
  destruct a as [|a|a]; try lia; unfold int_truediv;
    cbn [Z.eqb Z.sgn Z.abs Z.to_pos Z.ltb Z.compare].
  - intros [= <-]. cbn [cmpQ]. f_equal. apply Qlt_alt. exact Hq.
  - rewrite Z.mul_1_r. change (Z.to_pos (Z.abs (Z.pos b))) with b.
    change (round false (Z.neg a # b))
      with (finish true (round_pos (Z.pos a) (Z.pos b))).
    destruct (finish true (round_pos (Z.pos a) (Z.pos b))) eqn:E; intros [= <-];
      (apply (cmpQ_finish_neg (round_pos (Z.pos a) (Z.pos b)));
       [apply round_pos_nonneg; lia | exact Hq | exact E | discriminate]).
Qed.

(** [round_pos] on integer pairs, ordered as the fractions are. *)
Lemma round_pos_le a b c d :
  0 < a -> 0 < b -> 0 < c -> 0 < d -> a * d <= c * b ->
  (round_pos a b <= round_pos c d)%Q.
Proof.
  intros Ha Hb Hc Hd Hle.
  destruct b as [|b|b]; try lia. destruct d as [|d|d]; try lia.
  apply round_pos_mono; try lia. exact Hle.
Qed.

(** A quotient of two ints against an integer threshold [t]: the float
    comparison is the exact one, as long as the divisor is at most [B], a
    bound below which the neighbours of [t] are told apart. *)
Lemma truediv_lt_int a b t B x :
  0 < b <= B -> 0 < t ->
  (round_pos (t * B - 1) B < inject_Z t)%Q ->
  (inject_Z t <= round_pos t 1)%Q ->
  int_truediv a b = Ok x ->
  flt_int x t = true <-> a < t * b.
Proof.
  intros Hb Ht Hbelow Hat Hx. unfold flt_int, ltQ.
  destruct (Z.le_gt_cases a 0) as [Ha|Ha].
  - assert (0 < inject_Z t)%Q as Hq by (unfold Qlt; simpl; lia).
    rewrite (int_truediv_nonpos a b x (inject_Z t) Ha (proj1 Hb) Hq Hx).
    split; [nia | reflexivity].
  - rewrite (int_truediv_pos a b x (inject_Z t) Ha (proj1 Hb) Hx).
    destruct (Z.lt_ge_cases a (t * b)) as [Hlt|Hge].
    + assert (round_pos a b <= round_pos (t * B - 1) B)%Q as Hm
        by (apply round_pos_le; nia).
      assert (round_pos a b < inject_Z t)%Q as Hl by lra.
      rewrite Qlt_alt in Hl. rewrite Hl. split; auto.
    + assert (round_pos t 1 <= round_pos a b)%Q as Hm
        by (apply round_pos_le; nia).
      assert (inject_Z t <= round_pos a b)%Q as Hl by lra.
      split; [|lia].
      destruct (round_pos a b ?= inject_Z t)%Q eqn:E; try discriminate.
      rewrite <- Qlt_alt in E. lra.
Qed.

Lemma truediv_gt_int a b t B x :
  0 < b <= B -> 0 < t ->
  (inject_Z t < round_pos (t * B + 1) B)%Q ->
  (round_pos t 1 <= inject_Z t)%Q ->
  int_truediv a b = Ok x ->
  fgt_int x t = true <-> t * b < a.
Proof.
  intros Hb Ht Habove Hat Hx. unfold fgt_int, gtQ.
  destruct (Z.le_gt_cases a 0) as [Ha|Ha].
  - assert (0 < inject_Z t)%Q as Hq by (unfold Qlt; simpl; lia).
    rewrite (int_truediv_nonpos a b x (inject_Z t) Ha (proj1 Hb) Hq Hx).
    split; [discriminate | nia].
  - rewrite (int_truediv_pos a b x (inject_Z t) Ha (proj1 Hb) Hx).
    destruct (Z.lt_ge_cases (t * b) a) as [Hlt|Hge].
    + assert (round_pos (t * B + 1) B <= round_pos a b)%Q as Hm
        by (apply round_pos_le; nia).
      assert (inject_Z t < round_pos a b)%Q as Hl by lra.
      rewrite Qgt_alt in Hl. rewrite Hl. split; auto.
    + assert (round_pos a b <= round_pos t 1)%Q as Hm
        by (apply round_pos_le; nia).
      assert (round_pos a b <= inject_Z t)%Q as Hl by lra.
      split; [|lia].
      destruct (round_pos a b ?= inject_Z t)%Q eqn:E; try discriminate.
      rewrite <- Qgt_alt in E. lra.
Qed.

(** The thresholds of the rules. *)
Lemma round_pos_eval a b v :
  Qeq_bool (round_pos a b) v = true -> (round_pos a b == v)%Q.
Proof. apply Qeq_bool_iff. Qed.

Lemma size_mb_lt_10 size s :
  int_truediv size (1024 * 1024) = Ok s ->
  flt_int s 10 = true <-> size < 10 * (1024 * 1024).
Proof.
  intros Hs.
  apply (truediv_lt_int size (1024 * 1024) 10 (1024 * 1024) s);
    [lia | lia | | | exact Hs].
  - rewrite (round_pos_eval _ _ (10485759 # 1048576)) by (vm_compute; reflexivity).
    reflexivity.
  - rewrite (round_pos_eval _ _ 10) by (vm_compute; reflexivity).
    unfold Qle; simpl; lia.
Qed.

(** ** Two roundings in a row *)

Lemma Qnum_pos q : (0 < q)%Q -> 0 < Qnum q.
Proof. unfold Qlt; simpl. lia. Qed.

Lemma round_pos_Q_mono p q :
  (0 < p)%Q -> (p <= q)%Q -> (round_pos_Q p <= round_pos_Q q)%Q.
Proof.
  intros Hp Hle. unfold round_pos_Q.
  assert (0 < q)%Q as Hq by lra.
  apply Qnum_pos in Hp, Hq.
  apply round_pos_mono; assumption.
Qed.

Lemma round_pos_Q_nonneg q : (0 < q)%Q -> (0 <= round_pos_Q q)%Q.
Proof.
  intros Hq. apply round_pos_nonneg; [now apply Qnum_pos | lia].
Qed.

Lemma round_pos_Q_frac a b :
  0 < a -> 0 < b -> round_pos_Q (a # Z.to_pos b) = round_pos a b.
Proof.
  intros Ha Hb. unfold round_pos_Q. cbn [Qnum Qden].
  rewrite Z2Pos.id by lia. reflexivity.
Qed.

(** The float a positive exact result rounds to compares as the rounded
    value, unless it overflowed. *)
Lemma cmpQ_round q c x :
  (0 < q)%Q -> round false q = x -> (forall s, x <> Finf s) ->
  cmpQ x c = Some (round_pos_Q q ?= c)%Q.
Proof.
  intros Hq Hx Hfin. apply Qnum_pos in Hq.
  unfold round in Hx. unfold round_pos_Q.
  destruct (Qnum q) as [|a|a]; try lia.
  now apply cmpQ_finish.
Qed.

Lemma cmpQ_round_nonpos q c :
  (q <= 0)%Q -> (0 < c)%Q -> cmpQ (round false q) c = Some Lt.
Proof.
  intros Hq Hc. unfold round.
  destruct (Qnum q) as [|a|a] eqn:E.
  - cbn [cmpQ]. f_equal. rewrite <- Qlt_alt. exact Hc.
  - exfalso. unfold Qle in Hq; simpl in Hq. lia.
  - destruct (finish true (round_pos (Z.pos a) (Z.pos (Qden q)))) eqn:F.
    + cbn [cmpQ]. f_equal. rewrite <- Qlt_alt. exact Hc.
    + eapply cmpQ_finish_neg; [| exact Hc | exact F | discriminate].
      apply round_pos_nonneg; lia.
    + unfold finish in F.
      destruct (Qeq_bool _ _); [discriminate|].
      destruct (Qle_bool _ _); [|discriminate].
      injection F as <-. reflexivity.
    + unfold finish in F.
      destruct (Qeq_bool _ _); [discriminate|].
      destruct (Qle_bool _ _); discriminate.
Qed.

Lemma finish_finite v : (v < max_pow)%Q -> forall s, finish false v <> Finf s.
Proof.
  intros Hv s. unfold finish.
  destruct (Qeq_bool v 0); [discriminate|].
  destruct (Qle_bool max_pow v) eqn:E; [|discriminate].
  apply Qle_bool_iff in E. lra.
Qed.

Lemma round_finite q k :
  0 <= k <= 1023 -> (0 < q <= inject_Z (2 ^ k))%Q ->
  forall s, round false q <> Finf s.
Proof.
  intros Hk [Hq Hle]. pose proof (Qnum_pos q Hq) as Hn.
  unfold round. destruct (Qnum q) as [|a|a] eqn:E; try lia.
  apply finish_finite.
  apply Qle_lt_trans with (inject_Z (2 ^ k)); [|now apply max_pow_gt].
  apply round_pos_bounds; try lia.
  rewrite <- E. destruct q as [n d]. unfold Qle in Hle; simpl in *. lia.
Qed.

(** The value of a quotient of positive ints that did not underflow. *)
Lemma int_truediv_val a b x :
  0 < a -> 0 < b -> (0 < round_pos a b)%Q -> int_truediv a b = Ok x ->
  x = Ffin (Qred (round_pos a b)) /\ (round_pos a b < max_pow)%Q.
Proof.
  intros Ha Hb Hv. destruct a as [|a|a]; try lia. destruct b as [|b|b]; try lia.
  unfold int_truediv. cbn [Z.eqb Z.sgn].
  rewrite Z.mul_1_r. change (Z.to_pos (Z.abs (Z.pos b))) with b.
  change (round false (Z.pos a # b))
    with (finish false (round_pos (Z.pos a) (Z.pos b))).
  unfold finish.
  destruct (Qeq_bool _ 0) eqn:E; [apply Qeq_bool_iff in E; lra|].
  destruct (Qle_bool max_pow _) eqn:F; [discriminate|].
  intros [= <-]. split; [reflexivity|].
  apply Qnot_le_lt. intros H. apply Qle_bool_iff in H. congruence.
Qed.

Lemma int_truediv_nonpos_val a b x :
  a <= 0 -> 0 < b -> int_truediv a b = Ok x ->
  (exists s, x = Fzero s) \/ (exists p, x = Ffin p /\ (p <= 0)%Q).
Proof.
  intros Ha Hb. destruct b as [|b|b]; try lia.
  destruct a as [|a|a]; try lia; unfold int_truediv; cbn [Z.eqb Z.sgn].
  - intros [= <-]. left. eauto.
  - rewrite Z.mul_1_r. change (Z.to_pos (Z.abs (Z.pos b))) with b.
    change (round false (Z.neg a # b))
      with (finish true (round_pos (Z.pos a) (Z.pos b))).
    pose proof (round_pos_nonneg (Z.pos a) (Z.pos b) ltac:(lia) ltac:(lia)).
    unfold finish.
    destruct (Qeq_bool _ 0); [intros [= <-]; left; eauto|].
    destruct (Qle_bool max_pow _); [discriminate|].
    intros [= <-]. right. eexists; split; [reflexivity|].
    rewrite Qred_correct. lra.
Qed.

(** [(k / n) * 100] against a percentage [t] = 100 p / q, for a count [k]
    out of [n <= B]. *)
Lemma pct_gt_int k n p q t B r x :
  0 < n <= B -> 0 <= k <= n -> 0 < p -> 0 < q -> 0 < t ->
  (0 < round_pos 1 B)%Q ->
  (round_pos 1 1 <= 1)%Q ->
  (0 < round_pos (p * B + 1) (q * B))%Q ->
  (inject_Z t < round_pos_Q (round_pos (p * B + 1) (q * B) * 100))%Q ->
  (round_pos_Q (round_pos p q * 100) <= inject_Z t)%Q ->
  int_truediv k n = Ok r -> float_mul_int r 100 = Ok x ->
  fgt_int x t = true <-> p * n < q * k.
Proof.
  intros Hn Hk Hp Hq Ht Hunder Hone Hpos Habove Hbelow Hr Hx.
  unfold float_mul_int in Hx.
  change (float_of_int 100) with (Ok (Ffin 100)) in Hx.
  cbn [mbind result_bind] in Hx. injection Hx as <-.
  unfold fgt_int, gtQ.
  destruct (Z.eq_dec k 0) as [->|Hk0].
  - unfold int_truediv in Hr.
    destruct (Z.eqb_spec n 0) as [|_]; [lia|].
    cbn [Z.eqb] in Hr. injection Hr as <-.
    destruct (Z.ltb_spec n 0); [lia|].
    cbn [fmul fsign xorb cmpQ].
    replace (0 ?= inject_Z t)%Q with Lt
      by (symmetry; rewrite <- Qlt_alt; unfold Qlt; simpl; lia).
    split; [discriminate | lia].
  - assert (round_pos 1 B <= round_pos k n)%Q as Hlow
      by (apply round_pos_le; nia).
    assert (round_pos k n <= round_pos 1 1)%Q as Hhigh
      by (apply round_pos_le; nia).
    destruct (int_truediv_val k n r ltac:(lia) ltac:(lia) ltac:(lra) Hr)
      as [-> _].
    set (v := round_pos k n) in *.
    pose proof (Qred_correct v) as Ev.
    cbn [fmul].
    rewrite (cmpQ_round (Qred v * 100) (inject_Z t) _ ltac:(lra) eq_refl).
    2:{ apply (round_finite _ 7); [lia|]. split; [lra|].
        change (inject_Z (2 ^ 7)) with 128%Q. lra. }
    destruct (Z.lt_ge_cases (p * n) (q * k)) as [Hlt|Hge].
    + assert (round_pos (p * B + 1) (q * B) <= v)%Q as Hm
        by (apply round_pos_le; nia).
      assert (round_pos_Q (round_pos (p * B + 1) (q * B) * 100)
              <= round_pos_Q (Qred v * 100))%Q as Hm2
        by (apply round_pos_Q_mono; lra).
      assert (inject_Z t < round_pos_Q (Qred v * 100))%Q as Hl by lra.
      rewrite Qgt_alt in Hl. rewrite Hl. split; auto.
    + assert (v <= round_pos p q)%Q as Hm by (apply round_pos_le; nia).
      assert (round_pos_Q (Qred v * 100)
              <= round_pos_Q (round_pos p q * 100))%Q as Hm2
        by (apply round_pos_Q_mono; lra).
      split; [|lia].
      destruct (round_pos_Q (Qred v * 100) ?= inject_Z t)%Q eqn:E;
        try discriminate.
      rewrite <- Qgt_alt in E. lra.
Qed.

Lemma Qlt_eval p q : Qle_bool q p = false -> (p < q)%Q.
Proof.
  intros H. apply Qnot_le_lt. intros Hle. apply Qle_bool_iff in Hle. congruence.
Qed.

Lemma Qle_eval p q : Qle_bool p q = true -> (p <= q)%Q.
Proof. apply Qle_bool_iff. Qed.

Ltac eval_Q := (apply Qlt_eval || apply Qle_eval); vm_compute; reflexivity.

Lemma pct_gt_50 k n r x :
  0 < n <= 2 ^ 52 -> 0 <= k <= n ->
  int_truediv k n = Ok r -> float_mul_int r 100 = Ok x ->
  fgt_int x 50 = true <-> n < 2 * k.
Proof.
  intros Hn Hk Hr Hx.
  rewrite (pct_gt_int k n 1 2 50 (2 ^ 52) r x); try eassumption;
    try lia; eval_Q.
Qed.

Lemma pct_gt_20 k n r x :
  0 < n <= 2 ^ 52 -> 0 <= k <= n ->
  int_truediv k n = Ok r -> float_mul_int r 100 = Ok x ->
  fgt_int x 20 = true <-> n < 5 * k.
Proof.
  intros Hn Hk Hr Hx.
  rewrite (pct_gt_int k n 1 5 20 (2 ^ 52) r x); try eassumption;
    try lia; eval_Q.
Qed.

(** [(s / m) / 1000] against a threshold [t], for a sum [s] of [m <= B]
    terms. *)
Lemma round_div_1000_finite v :
  (0 < v)%Q -> (v < max_pow)%Q -> forall s, round false (v / 1000) <> Finf s.
Proof.
  intros Hv Hmax. apply (round_finite _ 1023); [lia|].
  change (v / 1000)%Q with (v * (1 # 1000))%Q.
  split; [lra|].
  assert (max_pow == 2 * inject_Z (2 ^ 1023))%Q as E.
    by (vm_compute; reflexivity).
  lra.
Qed.

Lemma float_div_1000 r x :
  float_div_int r 1000 = Ok x -> x = fdiv r (Ffin 1000).
Proof.
  unfold float_div_int. change (float_of_int 1000) with (Ok (Ffin 1000)).
  cbn [mbind result_bind]. unfold float_truediv. cbn [is_zero].
  now intros [= <-].
Qed.

Lemma mean_div_1000_nonpos s m r x c :
  s <= 0 -> 0 < m -> (0 < c)%Q ->
  int_truediv s m = Ok r -> float_div_int r 1000 = Ok x ->
  cmpQ x c = Some Lt.
Proof.
  intros Hs Hm Hc Hr Hx. apply float_div_1000 in Hx. subst x.
  destruct (int_truediv_nonpos_val s m r Hs Hm Hr) as [[z ->] | (p & -> & Hp)].
  - cbn [fdiv cmpQ]. f_equal. rewrite <- Qlt_alt. exact Hc.
  - cbn [fdiv]. apply cmpQ_round_nonpos; [|exact Hc].
    change (p / 1000)%Q with (p * (1 # 1000))%Q. lra.
Qed.

Lemma mean_div_1000_pos s m r x c B :
  0 < s -> 0 < m <= B -> (0 < round_pos 1 B)%Q ->
  int_truediv s m = Ok r -> float_div_int r 1000 = Ok x ->
  (0 < round_pos s m)%Q
  /\ cmpQ x c = Some (round_pos_Q (Qred (round_pos s m) / 1000) ?= c)%Q.
Proof.
  intros Hs Hm Hunder Hr Hx. apply float_div_1000 in Hx. subst x.
  assert (round_pos 1 B <= round_pos s m)%Q as Hlow
    by (apply round_pos_le; nia).
  destruct (int_truediv_val s m r ltac:(lia) ltac:(lia) ltac:(lra) Hr)
    as [-> Hmax].
  split; [lra|].
  set (v := round_pos s m) in *.
  pose proof (Qred_correct v) as Ev.
  cbn [fdiv].
  assert (0 < Qred v)%Q as Hpos by lra.
  apply cmpQ_round.
  - change (Qred v / 1000)%Q with (Qred v * (1 # 1000))%Q. lra.
  - reflexivity.
  - apply round_div_1000_finite; lra.
Qed.

Lemma mean_div_1000_lt s m t B r x :
  0 < m <= B -> 0 < t ->
  (0 < round_pos 1 B)%Q ->
  (round_pos_Q (round_pos (1000 * t * B - 1) B / 1000) < inject_Z t)%Q ->
  (inject_Z t <= round_pos_Q (round_pos (1000 * t) 1 / 1000))%Q ->
  (0 < round_pos (1000 * t) 1)%Q ->
  int_truediv s m = Ok r -> float_div_int r 1000 = Ok x ->
  flt_int x t = true <-> s < 1000 * t * m.
Proof.
  intros Hm Ht Hunder Hbelow Hat Hpos Hr Hx. unfold flt_int, ltQ.
  assert (0 < inject_Z t)%Q as Hq by (unfold Qlt; simpl; lia).
  destruct (Z.le_gt_cases s 0) as [Hs|Hs].
  - rewrite (mean_div_1000_nonpos s m r x (inject_Z t) Hs (proj1 Hm) Hq Hr Hx).
    split; [nia | reflexivity].
  - destruct (mean_div_1000_pos s m r x (inject_Z t) B Hs Hm Hunder Hr Hx)
      as [Hv ->].
    set (v := round_pos s m) in *.
    pose proof (Qred_correct v) as Ev.
    destruct (Z.lt_ge_cases s (1000 * t * m)) as [Hlt|Hge].
    + assert (v <= round_pos (1000 * t * B - 1) B)%Q as Hle
        by (apply round_pos_le; nia).
      assert (round_pos_Q (Qred v / 1000)
              <= round_pos_Q (round_pos (1000 * t * B - 1) B / 1000))%Q as Hm2.
      { apply round_pos_Q_mono.
        - change (Qred v / 1000)%Q with (Qred v * (1 # 1000))%Q. lra.
        - change (Qred v / 1000)%Q with (Qred v * (1 # 1000))%Q.
          change (round_pos (1000 * t * B - 1) B / 1000)%Q
            with (round_pos (1000 * t * B - 1) B * (1 # 1000))%Q. lra. }
      assert (round_pos_Q (Qred v / 1000) < inject_Z t)%Q as Hl by lra.
      rewrite Qlt_alt in Hl. rewrite Hl. split; auto.
    + assert (round_pos (1000 * t) 1 <= v)%Q as Hle
        by (apply round_pos_le; nia).
      assert (round_pos_Q (round_pos (1000 * t) 1 / 1000)
              <= round_pos_Q (Qred v / 1000))%Q as Hm2.
      { apply round_pos_Q_mono.
        - change (round_pos (1000 * t) 1 / 1000)%Q
            with (round_pos (1000 * t) 1 * (1 # 1000))%Q. lra.
        - change (Qred v / 1000)%Q with (Qred v * (1 # 1000))%Q.
          change (round_pos (1000 * t) 1 / 1000)%Q
            with (round_pos (1000 * t) 1 * (1 # 1000))%Q. lra. }
      split; [|lia].
      destruct (round_pos_Q (Qred v / 1000) ?= inject_Z t)%Q eqn:E;
        try discriminate.
      rewrite <- Qlt_alt in E. lra.
Qed.

Lemma mean_div_1000_gt s m t B r x :
  0 < m <= B -> 0 < t ->
  (0 < round_pos 1 B)%Q ->
  (inject_Z t < round_pos_Q (round_pos (1000 * t * B + 1) B / 1000))%Q ->
  (round_pos_Q (round_pos (1000 * t) 1 / 1000) <= inject_Z t)%Q ->
  (0 < round_pos (1000 * t * B + 1) B)%Q ->
  int_truediv s m = Ok r -> float_div_int r 1000 = Ok x ->
  fgt_int x t = true <-> 1000 * t * m < s.
Proof.
  intros Hm Ht Hunder Habove Hat Hpos Hr Hx. unfold fgt_int, gtQ.
  assert (0 < inject_Z t)%Q as Hq by (unfold Qlt; simpl; lia).
  destruct (Z.le_gt_cases s 0) as [Hs|Hs].
  - rewrite (mean_div_1000_nonpos s m r x (inject_Z t) Hs (proj1 Hm) Hq Hr Hx).
    split; [discriminate | nia].
  - destruct (mean_div_1000_pos s m r x (inject_Z t) B Hs Hm Hunder Hr Hx)
      as [Hv ->].
    set (v := round_pos s m) in *.
    pose proof (Qred_correct v) as Ev.
    destruct (Z.lt_ge_cases (1000 * t * m) s) as [Hlt|Hge].
    + assert (round_pos (1000 * t * B + 1) B <= v)%Q as Hle
        by (apply round_pos_le; nia).
      assert (round_pos_Q (round_pos (1000 * t * B + 1) B / 1000)
              <= round_pos_Q (Qred v / 1000))%Q as Hm2.
      { apply round_pos_Q_mono.
        - change (round_pos (1000 * t * B + 1) B / 1000)%Q
            with (round_pos (1000 * t * B + 1) B * (1 # 1000))%Q. lra.
        - change (Qred v / 1000)%Q with (Qred v * (1 # 1000))%Q.
          change (round_pos (1000 * t * B + 1) B / 1000)%Q
            with (round_pos (1000 * t * B + 1) B * (1 # 1000))%Q. lra. }
      assert (inject_Z t < round_pos_Q (Qred v / 1000))%Q as Hl by lra.
      rewrite Qgt_alt in Hl. rewrite Hl. split; auto.
    + assert (v <= round_pos (1000 * t) 1)%Q as Hle
        by (apply round_pos_le; nia).
      assert (round_pos_Q (Qred v / 1000)
              <= round_pos_Q (round_pos (1000 * t) 1 / 1000))%Q as Hm2.
      { apply round_pos_Q_mono.
        - change (Qred v / 1000)%Q with (Qred v * (1 # 1000))%Q. lra.
        - change (Qred v / 1000)%Q with (Qred v * (1 # 1000))%Q.
          change (round_pos (1000 * t) 1 / 1000)%Q
            with (round_pos (1000 * t) 1 * (1 # 1000))%Q. lra. }
      split; [|lia].
      destruct (round_pos_Q (Qred v / 1000) ?= inject_Z t)%Q eqn:E;
        try discriminate.
      rewrite <- Qgt_alt in E. lra.
Qed.

(** Gaps in milliseconds against 5 minutes and 1 day. *)
Lemma mean_gap_lt_300 s m r x :
  0 < m <= 2 ^ 34 ->
  int_truediv s m = Ok r -> float_div_int r 1000 = Ok x ->
  flt_int x 300 = true <-> s < 300000 * m.
Proof.
  intros Hm Hr Hx.
  rewrite (mean_div_1000_lt s m 300 (2 ^ 34) r x); try eassumption;
    try lia; eval_Q.
Qed.

Lemma mean_gap_gt_86400 s m r x :
  0 < m <= 2 ^ 26 ->
  int_truediv s m = Ok r -> float_div_int r 1000 = Ok x ->
  fgt_int x 86400 = true <-> 86400000 * m < s.
Proof.
  intros Hm Hr Hx.
  rewrite (mean_div_1000_gt s m 86400 (2 ^ 26) r x); try eassumption;
    try lia; eval_Q.
Qed.

(** ** The averages of the rules against their thresholds *)

Lemma truediv_lt_5 a b x :
  0 < b <= 2 ^ 50 -> int_truediv a b = Ok x ->
  flt_int x 5 = true <-> a < 5 * b.
Proof.
  intros Hb Hx.
  apply (truediv_lt_int a b 5 (2 ^ 50) x); try assumption; try lia; eval_Q.
Qed.

Lemma truediv_gt_100 a b x :
  0 < b <= 2 ^ 46 -> int_truediv a b = Ok x ->
  fgt_int x 100 = true <-> 100 * b < a.
Proof.
  intros Hb Hx.
  apply (truediv_gt_int a b 100 (2 ^ 46) x); try assumption; try lia; eval_Q.
Qed.

Lemma truediv_lt_1000 a b x :
  0 < b <= 2 ^ 43 -> int_truediv a b = Ok x ->
  flt_int x 1000 = true <-> a < 1000 * b.
Proof.
  intros Hb Hx.
  apply (truediv_lt_int a b 1000 (2 ^ 43) x); try assumption; try lia; eval_Q.
Qed.

(** ** Sums that are exact *)

Lemma rne_exact m b : 0 <= m -> 0 < b -> rne (m * b) b = m.
Proof.
  intros Hm Hb. apply Z.le_antisymm.
  - apply rne_le; nia.
  - apply rne_ge; nia.
Qed.

(** A dyadic value of at most 53 bits is on the grid. *)
Lemma round_pos_exact a k :
  0 < a < 2 ^ 53 -> 0 <= k <= 1000 ->
  (round_pos a (2 ^ k) == a # Z.to_pos (2 ^ k))%Q.
Proof.
  intros Ha Hk.
  assert (0 < 2 ^ k) as Hpk by (apply Z.pow_pos_nonneg; lia).
  assert (fexp a (2 ^ k) <= - k) as He.
  { unfold fexp. apply Z.max_lub; [|lia].
    assert (2 ^ k = Zpos (Z.to_pos (2 ^ k))) as Eb by (rewrite Z2Pos.id; lia).
    rewrite Eb.
    destruct (ilog2_bounds a (Z.to_pos (2 ^ k)) ltac:(lia)) as [Hl _].
    set (il := ilog2 a (Z.pos (Z.to_pos (2 ^ k)))) in *.
    destruct (Z.le_gt_cases (il - 52) (- k)) as [|Hgt]; [assumption|].
    exfalso.
    pose proof (pow2_mono (53 - k) il ltac:(lia)) as Hm.
    assert (a # Z.to_pos (2 ^ k) < pow2 (53 - k))%Q as Hu.
    { apply Qnot_le_lt. intros Hle. apply ge_pow2_iff in Hle.
      rewrite <- Eb in Hle.
      destruct (Z.leb_spec 0 (53 - k)).
      - assert (2 ^ 53 = 2 ^ k * 2 ^ (53 - k)) as E
          by (rewrite <- Z.pow_add_r by lia; f_equal; lia).
        lia.
      - assert (2 ^ k = 2 ^ 53 * 2 ^ (- (53 - k))) as E
          by (rewrite <- Z.pow_add_r by lia; f_equal; lia).
        assert (0 < 2 ^ (- (53 - k))) by (apply Z.pow_pos_nonneg; lia).
        nia. }
    lra. }
  unfold round_pos. set (e := fexp a (2 ^ k)) in *.
  assert (-1074 <= e) as Hmin by (unfold e, fexp; lia).
  unfold scaled_rne, pow2.
  destruct (Z.leb_spec 0 e) as [H0|H0].
  - assert (e = 0) as -> by lia. assert (k = 0) as -> by lia.
    change (2 ^ 0) with 1. rewrite Z.mul_1_r.
    replace a with (a * 1) at 1 by lia.
    rewrite rne_exact by lia. unfold Qeq; simpl. lia.
  - assert (2 ^ (- e) = 2 ^ (- e - k) * 2 ^ k) as E
      by (rewrite <- Z.pow_add_r by lia; f_equal; lia).
    assert (0 < 2 ^ (- e - k)) by (apply Z.pow_pos_nonneg; lia).
    rewrite E, Z.mul_assoc, rne_exact by nia.
    unfold Qeq; simpl. rewrite !Z2Pos.id by nia. nia.
Qed.

Lemma round_pos_Q_eq p q :
  (0 < p)%Q -> (p == q)%Q -> (round_pos_Q p == round_pos_Q q)%Q.
Proof.
  intros Hp E. apply Qle_antisym; apply round_pos_Q_mono; lra.
Qed.

Lemma finish_exact v c :
  (v == c)%Q -> (0 < c)%Q -> (c < max_pow)%Q ->
  finish false v = Ffin (Qred c).
Proof.
  intros E Hc Hmax. unfold finish.
  destruct (Qeq_bool v 0) eqn:E0; [apply Qeq_bool_iff in E0; lra|].
  destruct (Qle_bool max_pow v) eqn:E1; [apply Qle_bool_iff in E1; lra|].
  f_equal. apply Qred_complete. exact E.
Qed.

Lemma round_exact q a k :
  0 < a < 2 ^ 53 -> 0 <= k <= 1000 -> (q == a # Z.to_pos (2 ^ k))%Q ->
  round false q = Ffin (Qred (a # Z.to_pos (2 ^ k))).
Proof.
  intros Ha Hk E.
  assert (0 < 2 ^ k) as Hpk by (apply Z.pow_pos_nonneg; lia).
  assert (0 < a # Z.to_pos (2 ^ k))%Q as Hpos by (unfold Qlt; simpl; lia).
  assert (0 < q)%Q as Hq by lra.
  pose proof (Qnum_pos q Hq) as Hn.
  unfold round. destruct (Qnum q) as [|n|n] eqn:En; try lia.
  rewrite <- En. change (round_pos (Qnum q) (Z.pos (Qden q))) with (round_pos_Q q).
  apply finish_exact; [| exact Hpos |].
  - rewrite (round_pos_Q_eq q _ Hq E).
    rewrite round_pos_Q_frac by lia. now apply round_pos_exact.
  - apply Qle_lt_trans with (inject_Z (2 ^ 53)); [|apply max_pow_gt; lia].
    unfold Qle; simpl. nia.
Qed.

Lemma int_truediv_dyadic a k x :
  0 <= a < 2 ^ 53 -> 0 <= k <= 1000 ->
  int_truediv a (2 ^ k) = Ok x -> dyadic x a k.
Proof.
  intros Ha Hk.
  assert (0 < 2 ^ k) as Hpk by (apply Z.pow_pos_nonneg; lia).
  unfold int_truediv.
  destruct (Z.eqb_spec (2 ^ k) 0) as [|_]; [lia|].
  destruct (Z.eqb_spec a 0) as [->|Hne].
  - destruct (Z.ltb_spec (2 ^ k) 0); [lia|]. intros [= <-]. reflexivity.
  - rewrite Z.sgn_pos, Z.mul_1_r, Z.abs_eq by lia.
    rewrite (round_exact _ a k) by (lia || reflexivity).
    intros [= <-]. split; [lia | reflexivity].
Qed.

Lemma fadd_dyadic x y a b k :
  0 <= k <= 1000 -> a + b < 2 ^ 53 ->
  dyadic x a k -> dyadic y b k -> dyadic (fadd x y) (a + b) k.
Proof.
  intros Hk Hsum Hx Hy.
  assert (0 < 2 ^ k) as Hpk by (apply Z.pow_pos_nonneg; lia).
  destruct x as [[|]|p| |], y as [[|]|q| |]; cbn [dyadic fadd andb] in *;
    try contradiction.
  - lia.
  - destruct Hy as [Hb ->]. subst a. split; [lia | reflexivity].
  - destruct Hx as [Ha ->]. subst b. rewrite Z.add_0_r.
    split; [lia | reflexivity].
  - destruct Hx as [Ha ->], Hy as [Hb ->].
    rewrite (round_exact _ (a + b) k); [split; [lia | reflexivity] | lia | lia |].
    rewrite !Qred_correct. unfold Qeq, Qplus; simpl. nia.
Qed.

Lemma fold_left_add_ge l a : Forall (fun s => 0 <= s) l -> a <= fold_left Z.add l a.
Proof.
  intros Hl. revert a. induction Hl as [|s l Hs _ IH]; intros a; simpl; [lia|].
  specialize (IH (a + s)). lia.
Qed.

Lemma float_sum_dyadic k sizes xs :
  0 <= k <= 1000 ->
  Forall (fun s => 0 <= s) sizes -> int_sum sizes < 2 ^ 53 ->
  Forall2 (fun s x => dyadic x s k) sizes xs ->
  dyadic (float_sum xs) (int_sum sizes) k.
Proof.
  intros Hk Hpos Hsum Hxs. unfold float_sum, int_sum in *.
  assert (dyadic (Fzero false) 0 k) as Hacc by reflexivity.
  assert (0 <= 0) as Ha by lia.
  revert Hacc Ha Hsum. generalize (Fzero false) as acc, 0 as a.
  induction Hxs as [|s x sizes xs Hx _ IH]; intros acc a Hacc Ha Hsum;
    cbn [fold_left] in *; [exact Hacc|].
  inversion Hpos as [|? ? Hs Hpos']; subst.
  pose proof (fold_left_add_ge sizes (a + s) Hpos').
  apply IH; [assumption | | lia | assumption].
  apply fadd_dyadic; [exact Hk | lia | exact Hacc | exact Hx].
Qed.

Lemma float_of_int_exact n :
  0 < n < 2 ^ 53 -> float_of_int n = Ok (Ffin (Qred (inject_Z n))).
Proof.
  intros Hn. unfold float_of_int.
  rewrite (round_exact _ n 0) by (lia || reflexivity). reflexivity.
Qed.

(** The mean of dyadic sizes in MB against 64, for at most [2^27] files. *)
Lemma mean_mb_lt_64 total n sum avg :
  0 < n <= 2 ^ 27 -> total < 2 ^ 53 ->
  dyadic sum total 20 -> float_div_int sum n = Ok avg ->
  flt avg (Ffin 64) = true <-> total < 64 * 2 ^ 20 * n.
Proof.
  intros Hn Htot Hsum Havg.
  unfold float_div_int in Havg.
  rewrite float_of_int_exact in Havg by lia.
  cbn [mbind result_bind] in Havg. unfold float_truediv in Havg.
  cbn [is_zero] in Havg. injection Havg as <-.
  unfold flt. cbn [fcmp].
  set (d := Qred (inject_Z n)).
  assert (d == inject_Z n)%Q as Ed by apply Qred_correct.
  assert (0 < d)%Q as Hd by (rewrite Ed; unfold Qlt; simpl; lia).
  assert (1 <= d)%Q as Hd1 by (rewrite Ed; unfold Qle; simpl; lia).
  destruct sum as [[|]|p| |]; cbn [dyadic] in Hsum; try contradiction.
  - subst total. cbn [fdiv fsign xorb cmpQ].
    destruct (Z.ltb_spec (Qnum d) 0) as [Hneg|_];
      [apply Qnum_pos in Hd; lia|].
    cbn [xorb cmpQ]. split; [lia | reflexivity].
  - destruct Hsum as [Hpos ->]. cbn [fdiv].
    set (p := Qred (total # Z.to_pos (2 ^ 20))).
    assert (p == total # Z.to_pos (2 ^ 20))%Q as Ep by apply Qred_correct.
    assert (0 < p)%Q as Hp by (rewrite Ep; unfold Qlt; simpl; lia).
    assert (p <= inject_Z (2 ^ 53))%Q as Hp53
      by (rewrite Ep; unfold Qle; simpl; lia).
    assert (0 < p / d)%Q as Hq by (apply Qlt_shift_div_l; lra).
    assert (p / d <= inject_Z (2 ^ 53))%Q as Hq53.
    { apply Qle_shift_div_r; [exact Hd|].
      assert (0 < inject_Z (2 ^ 53))%Q by reflexivity. nra. }
    rewrite (cmpQ_round (p / d) 64 _ Hq eq_refl)
      by (apply (round_finite _ 53); [lia | split; assumption]).
    destruct (Z.lt_ge_cases total (64 * 2 ^ 20 * n)) as [Hlt|Hge].
    + assert (round_pos_Q (p / d)
              <= round_pos_Q (2 ^ 53 - 1 # Z.to_pos (2 ^ 47)))%Q as Hm.
      { apply round_pos_Q_mono; [exact Hq|].
        apply Qle_shift_div_r; [exact Hd|].
        rewrite Ep, Ed. unfold Qle; simpl. lia. }
      assert (round_pos_Q (2 ^ 53 - 1 # Z.to_pos (2 ^ 47)) < 64)%Q as Hc
        by eval_Q.
      assert (round_pos_Q (p / d) < 64)%Q as Hl by lra.
      rewrite Qlt_alt in Hl. rewrite Hl. split; auto.
    + assert (round_pos_Q 64 <= round_pos_Q (p / d))%Q as Hm.
      { apply round_pos_Q_mono; [reflexivity|].
        apply Qle_shift_div_l; [exact Hd|].
        rewrite Ep, Ed. unfold Qle; simpl. lia. }
      assert (64 <= round_pos_Q 64)%Q as Hc by eval_Q.
      split; [|lia].
      destruct (round_pos_Q (p / d) ?= 64)%Q eqn:E;
        try discriminate.
      rewrite <- Qlt_alt in E. lra.
Qed.

(** ** The stable sort *)

Section Sort.
Context {A : Type} (key : A -> Z).

Let key_le (x y : A) : Prop := key x <= key y.

Lemma insert_by_perm x l : Permutation (x :: l) (insert_by key x l).
Proof.
  induction l as [|y l IH]; simpl; [reflexivity|].
  destruct (key x <=? key y); [reflexivity|].
  rewrite perm_swap. now apply perm_skip.
Qed.

Lemma sort_by_perm l : Permutation l (sort_by key l).
Proof.
  induction l as [|x l IH]; simpl; [constructor|].
  etransitivity; [apply perm_skip, IH | apply insert_by_perm].
Qed.

Lemma insert_by_hdrel x y l :
  key y <= key x -> HdRel key_le y l -> HdRel key_le y (insert_by key x l).
Proof.
  intros Hyx Hl. destruct l as [|z l]; simpl.
  - constructor. exact Hyx.
  - destruct (key x <=? key z); constructor; [exact Hyx|].
    now inversion Hl.
Qed.

Lemma insert_by_sorted x l :
  Sorted key_le l -> Sorted key_le (insert_by key x l).
Proof.
  induction l as [|y l IH]; simpl; intros Hs.
  - repeat constructor.
  - destruct (Z.leb_spec (key x) (key y)) as [Hle|Hgt].
    + constructor; [exact Hs | constructor; exact Hle].
    + inversion Hs as [|? ? Hs' Hhd]; subst.
      constructor; [now apply IH|].
      apply insert_by_hdrel; [unfold key_le in *; lia | exact Hhd].
Qed.

Lemma sort_by_sorted l : Sorted key_le (sort_by key l).
Proof.
  induction l as [|x l IH]; simpl; [constructor | now apply insert_by_sorted].
Qed.

(** Stability: the elements of one key keep their order. *)
Lemma insert_by_filter (P : A -> bool) x l :
  (forall y, In y l -> P x = true -> P y = true -> key x <= key y) ->
  List.filter P (insert_by key x l) = List.filter P (x :: l).
Proof.
  induction l as [|y l IH]; intros Hk; [reflexivity|].
  simpl insert_by.
  destruct (Z.leb_spec (key x) (key y)) as [Hle|Hgt]; [reflexivity|].
  simpl. rewrite IH by (intros z Hz; apply Hk; now right).
  simpl. destruct (P x) eqn:Px; [|reflexivity].
  destruct (P y) eqn:Py; [|reflexivity].
  specialize (Hk y (or_introl eq_refl) eq_refl Py). lia.
Qed.

Lemma sort_by_stable (r : Z) l :
  List.filter (fun x => key x =? r) (sort_by key l)
  = List.filter (fun x => key x =? r) l.
Proof.
  induction l as [|x l IH]; [reflexivity|].
  simpl sort_by. rewrite insert_by_filter.
  - simpl. now rewrite IH.
  - intros y _ Hx Hy. apply Z.eqb_eq in Hx, Hy. lia.
Qed.

End Sort.

(** ** Every rule appends to the list it is given *)

Ltac atomic c :=
  lazymatch c with
  | context [mbind _ _] => fail
  | context [match _ with _ => _ end] => fail
  | _ => idtac
  end.

Ltac rule_cases :=
  repeat match goal with
    | |- context [mbind _ ?c] => atomic c; destruct c eqn:?; simpl
    | |- context [match ?c with _ => _ end] => atomic c; destruct c eqn:?; simpl
    end.

Ltac appends_tac :=
  rule_cases; unfold append; simpl;
  rewrite ?app_nil_r, <- ?app_assoc; try reflexivity.

Lemma file_sizes_appends stats : appends (_analyze_file_sizes stats).
Proof. intros ins. unfold _analyze_file_sizes. appends_tac. Qed.

Lemma file_count_appends stats : appends (_analyze_file_count stats).
Proof. intros ins. unfold _analyze_file_count. appends_tac. Qed.

Lemma vacuum_history_appends now stats :
  appends (_analyze_vacuum_history now stats).
Proof. intros ins. unfold _analyze_vacuum_history. appends_tac. Qed.

Lemma partitioning_appends stats : appends (_analyze_partitioning stats).
Proof. intros ins. unfold _analyze_partitioning. appends_tac. Qed.

Lemma optimization_history_appends stats :
  appends (_analyze_optimization_history stats).
Proof. intros ins. unfold _analyze_optimization_history. appends_tac. Qed.

Lemma data_skew_appends stats : appends (_analyze_data_skew stats).
Proof. intros ins. unfold _analyze_data_skew. appends_tac. Qed.

Lemma write_patterns_appends stats : appends (_analyze_write_patterns stats).
Proof. intros ins. unfold _analyze_write_patterns. appends_tac. Qed.

Lemma appends_Ok rule ins l :
  appends rule -> rule ins = Ok l ->
  exists out, rule [] = Ok out /\ l = (ins ++ out)%list.
Proof. intros Ha H. rewrite Ha in H. now apply fmap_Ok in H. Qed.

Lemma appends_Raise rule ins e :
  appends rule -> rule [] = Raise e -> rule ins = Raise e.
Proof. intros Ha H. rewrite Ha, H. reflexivity. Qed.

(** The list after the seven rules is the concatenation of what each
    rule returns on its own. *)
Lemma run_rules_outputs now stats rs :
  run_rules now stats = Ok rs <->
  exists outs,
    Forall2 (fun r out => r = Ok out) (rule_outputs now stats) outs
    /\ rs = concat outs.
Proof.
  unfold run_rules, rule_outputs. split.
  - intros H.
    apply bind_Ok in H as (i1 & H1 & H).
    apply bind_Ok in H as (i2 & H2 & H).
    apply bind_Ok in H as (i3 & H3 & H).
    apply bind_Ok in H as (i4 & H4 & H).
    apply bind_Ok in H as (i5 & H5 & H).
    apply bind_Ok in H as (i6 & H6 & H).
    apply (appends_Ok _ _ _ (file_count_appends stats)) in H2 as (o2 & H2 & ->).
    apply (appends_Ok _ _ _ (vacuum_history_appends now stats)) in H3 as (o3 & H3 & ->).
    apply (appends_Ok _ _ _ (partitioning_appends stats)) in H4 as (o4 & H4 & ->).
    apply (appends_Ok _ _ _ (optimization_history_appends stats)) in H5 as (o5 & H5 & ->).
    apply (appends_Ok _ _ _ (data_skew_appends stats)) in H6 as (o6 & H6 & ->).
    apply (appends_Ok _ _ _ (write_patterns_appends stats)) in H as (o7 & H7 & ->).
    exists [i1; o2; o3; o4; o5; o6; o7]. split.
    + repeat constructor; assumption.
    + simpl. rewrite app_nil_r, <- !app_assoc. reflexivity.
  - intros (outs & HF & ->).
    apply Forall2_cons_inv_l in HF as (o1 & t & H1 & HF & ->).
    apply Forall2_cons_inv_l in HF as (o2 & t' & H2 & HF & ->).
    apply Forall2_cons_inv_l in HF as (o3 & t & H3 & HF & ->).
    apply Forall2_cons_inv_l in HF as (o4 & t' & H4 & HF & ->).
    apply Forall2_cons_inv_l in HF as (o5 & t & H5 & HF & ->).
    apply Forall2_cons_inv_l in HF as (o6 & t' & H6 & HF & ->).
    apply Forall2_cons_inv_l in HF as (o7 & t & H7 & HF & ->).
    apply Forall2_nil_inv_l in HF as ->.
    rewrite H1. simpl mbind.
    rewrite file_count_appends, H2. simpl mbind.
    rewrite vacuum_history_appends, H3. simpl mbind.
    rewrite partitioning_appends, H4. simpl mbind.
    rewrite optimization_history_appends, H5. simpl mbind.
    rewrite data_skew_appends, H6. simpl mbind.
    rewrite write_patterns_appends, H7. simpl.
    rewrite app_nil_r, <- !app_assoc. reflexivity.
Qed.

(** ** The severities of the rules *)

Ltac severities_tac :=
  intros out; rule_cases; intros [= <-]; unfold append; simpl;
  repeat constructor; unfold rule_severity; simpl; set_solver.

Lemma file_sizes_severity stats :
  forall out, _analyze_file_sizes stats [] = Ok out -> Forall rule_severity out.
Proof. unfold _analyze_file_sizes. severities_tac. Qed.

Lemma file_count_severity stats :
  forall out, _analyze_file_count stats [] = Ok out -> Forall rule_severity out.
Proof. unfold _analyze_file_count. severities_tac. Qed.

Lemma vacuum_history_severity now stats :
  forall out, _analyze_vacuum_history now stats [] = Ok out ->
  Forall rule_severity out.
Proof. unfold _analyze_vacuum_history. severities_tac. Qed.

Lemma partitioning_severity stats :
  forall out, _analyze_partitioning stats [] = Ok out -> Forall rule_severity out.
Proof. unfold _analyze_partitioning. severities_tac. Qed.

Lemma optimization_history_severity stats :
  forall out, _analyze_optimization_history stats [] = Ok out ->
  Forall rule_severity out.
Proof. unfold _analyze_optimization_history. severities_tac. Qed.

Lemma data_skew_severity stats :
  forall out, _analyze_data_skew stats [] = Ok out -> Forall rule_severity out.
Proof. unfold _analyze_data_skew. severities_tac. Qed.

Lemma write_patterns_severity stats :
  forall out, _analyze_write_patterns stats [] = Ok out ->
  Forall rule_severity out.
Proof. unfold _analyze_write_patterns. severities_tac. Qed.

Lemma run_rules_severity now stats rs :
  run_rules now stats = Ok rs -> Forall rule_severity rs.
Proof.
  intros H. apply run_rules_outputs in H as (outs & HF & ->).
  unfold rule_outputs in HF.
  repeat match goal with
         | H : Forall2 _ (_ :: _) _ |- _ =>
             let E := fresh "E" in
             apply Forall2_cons_inv_l in H as (? & ? & E & H & ->)
         | H : Forall2 _ [] _ |- _ => apply Forall2_nil_inv_l in H as ->
         end.
  simpl. rewrite app_nil_r, !Forall_app.
  repeat split;
    eauto using file_sizes_severity, file_count_severity,
      vacuum_history_severity, partitioning_severity,
      optimization_history_severity, data_skew_severity,
      write_patterns_severity.
Qed.

Lemma rule_severity_rank i :
  rule_severity i -> (severity i, severity_rank i) ∈ named_ranks.
Proof.
  unfold rule_severity, severity_rank, named_ranks.
  rewrite !elem_of_cons, elem_of_nil.
  intros [-> | [-> | [-> | []]]]; vm_compute; auto.
Qed.

Lemma rule_severity_not_good i : rule_severity i -> is_good i = false.
Proof.
  unfold rule_severity, is_good. rewrite !elem_of_cons, elem_of_nil.
  intros [-> | [-> | [-> | []]]]; reflexivity.
Qed.

(** ** The final sort and the fallback *)

Lemma filter_perm {A} (P : A -> bool) (l l' : list A) :
  Permutation l l' -> Permutation (List.filter P l) (List.filter P l').
Proof.
  induction 1 as [|x l l' _ IH|x y l|l l' l'' _ IH1 _ IH2]; simpl.
  - constructor.
  - destruct (P x); [now constructor | exact IH].
  - destruct (P x), (P y); try reflexivity. apply perm_swap.
  - now transitivity (List.filter P l').
Qed.

Lemma existsb_has_issue rs : existsb has_issue rs = false <-> no_issue rs.
Proof.
  unfold no_issue. induction rs as [|i rs IH]; simpl.
  - split; [constructor | reflexivity].
  - rewrite orb_false_iff, IH, Forall_cons. unfold has_issue.
    rewrite bool_decide_eq_false. reflexivity.
Qed.

Lemma collect_Ok now stats pre :
  collect now stats = Ok pre <->
  exists rs, run_rules now stats = Ok rs
    /\ pre = (rs ++ if existsb has_issue rs then [] else [looks_good])%list.
Proof.
  unfold collect. rewrite bind_Ok. split.
  - intros (rs & Hrs & H). exists rs. split; [exact Hrs|].
    destruct (existsb has_issue rs); simpl in H; injection H as <-;
      [now rewrite app_nil_r | reflexivity].
  - intros (rs & Hrs & ->). exists rs. split; [exact Hrs|].
    destruct (existsb has_issue rs); simpl; [now rewrite app_nil_r | reflexivity].
Qed.

Lemma analyze_Ok now stats l :
  analyze now stats = Ok l <->
  exists pre, collect now stats = Ok pre /\ l = sort_by severity_rank pre.
Proof.
  unfold analyze. rewrite bind_Ok. split.
  - intros (pre & Hpre & [= <-]). eauto.
  - intros (pre & Hpre & ->). eauto.
Qed.

(** ** The analyzer returns on 64-bit statistics *)




Lemma int64_abs z : int64 z -> Z.abs z <= 2 ^ 63.
Proof. unfold int64. lia. Qed.

Lemma mapM_Ok {A B} (f : A -> result B) (P : B -> Prop) (l : list A) :
  Forall (fun x => exists y, f x = Ok y /\ P y) l ->
  exists ys, mapM f l = Ok ys /\ Forall P ys /\ length ys = length l.
Proof.
  induction 1 as [|x l (y & Hy & Py) _ (ys & Hys & Pys & Hlen)].
  - exists []. repeat split; constructor.
  - exists (y :: ys). cbn [mapM]. fold (mapM f l). rewrite Hy, Hys.
    repeat split; [now constructor | simpl; now rewrite Hlen].
Qed.

Lemma format_bytes_ok b : int64 b -> exists s, _format_bytes b = Ok s.
Proof.
  intros Hb. apply int64_abs in Hb.
  destruct (float_of_int_bound b 63 ltac:(lia) Hb) as (v & Hv & _).
  unfold _format_bytes, format_fixed_int, float_truediv.
  rewrite Hv. cbn [mbind result_bind is_zero].
  destruct (int_lt_float b (Ffin 1024)); eauto.
Qed.

Lemma num_format_fixed_ok d v :
  (forall n, v = NInt n -> int64 n) -> exists s, num_format_fixed d v = Ok s.
Proof.
  intros Hv. destruct v as [n|x]; [|simpl; eauto].
  specialize (Hv n eq_refl). apply int64_abs in Hv.
  destruct (float_of_int_bound n 63 ltac:(lia) Hv) as (y & Hy & _).
  unfold num_format_fixed, format_fixed_int. rewrite Hy. simpl. eauto.
Qed.

Lemma len_pos {A} (l : list A) : l <> [] -> 0 < len l.
Proof. destruct l; [congruence | unfold len; simpl; lia]. Qed.

Lemma file_sizes_returns stats :
  storable stats -> exists out, _analyze_file_sizes stats [] = Ok out.
Proof.
  intros (_ & _ & _ & Hsizes & Hlen).
  unfold _analyze_file_sizes.
  destruct (files stats) as [|f fs] eqn:Efiles; [eauto|].
  rewrite <- Efiles in *.
  assert (files stats <> []) as Hne by (rewrite Efiles; discriminate).
  destruct (mapM_Ok (fun f => int_truediv (size_bytes f) (1024 * 1024))
              (fun _ => True) (files stats)) as (sizes & Hs & _ & Hl).
  { eapply Forall_impl; [exact Hsizes|]. intros g Hg.
    destruct (int_truediv_bound (size_bytes g) (1024 * 1024) 63)
      as (x & Hx & _); [lia | now apply int64_abs | lia | eauto]. }
  unfold file_sizes_mb. rewrite Hs. cbn [mbind result_bind].
  assert (len sizes = len (files stats)) as Hlen' by (unfold len; now rewrite Hl).
  pose proof (len_pos _ Hne) as Hpos.
  destruct (float_div_int_ok (float_sum sizes) (len sizes) 63)
    as (avg & Havg & _); [lia | unfold int64 in Hlen; lia |].
  unfold avg_size_mb. rewrite Havg. cbn [mbind result_bind].
  assert (exists ins, match small_files sizes with
            | [] => Ok []
            | _ :: _ =>
                pct_small sizes ≫= (fun pct =>
                 if fgt_int pct 50
                 then Ok (append [] (small_files_critical pct avg
                                       (len (small_files sizes)) (len sizes)))
                 else if fgt_int pct 20
                      then Ok (append [] (small_files_warning pct avg))
                      else Ok [])
            end = Ok ins) as (ins & Hins).
  { destruct (small_files sizes) eqn:Esmall; [eauto|].
    rewrite <- Esmall.
    assert (Z.abs (len (small_files sizes)) <= 2 ^ 63) as Hsm.
    { unfold small_files, len in *.
      pose proof (filter_length_le
                    (fun s => flt_int s SMALL_FILE_THRESHOLD_MB) sizes).
      unfold int64 in Hlen. lia. }
    destruct (int_truediv_bound (len (small_files sizes)) (len sizes) 63)
      as (r & Hr & _); [lia | exact Hsm | lia |].
    unfold pct_small, float_mul_int. rewrite Hr.
    change (float_of_int 100) with (Ok (Ffin 100)).
    cbn [mbind result_bind].
    repeat destruct (fgt_int _ _); eauto. }
  destruct (small_files sizes) eqn:Esmall.
  - cbn [mbind result_bind]. 
    destruct (int_truediv OPTIMAL_FILE_SIZE_MB 2) eqn:Ehalf; [|discriminate Ehalf].
    cbn [mbind result_bind]. destruct (flt avg a); eauto.
  - rewrite Hins. cbn [mbind result_bind].
    destruct (int_truediv OPTIMAL_FILE_SIZE_MB 2) eqn:Ehalf; [|discriminate Ehalf].
    cbn [mbind result_bind]. destruct (flt avg a); eauto.
Qed.

Lemma partitioning_returns stats :
  storable stats -> exists out, _analyze_partitioning stats [] = Ok out.
Proof.
  intros (Hnum & Htotal & _).
  unfold _analyze_partitioning.
  destruct (partition_columns stats).
  - destruct (_ <? total_size_bytes stats); [|eauto].
    destruct (format_bytes_ok _ Htotal) as (s & ->).
    cbn [mbind result_bind]. eauto.
  - destruct (files stats) eqn:Efiles; [eauto|].
    assert (exists avg, avg_files_per_partition stats = Ok avg
                        /\ forall n, avg = NInt n -> int64 n)
      as (avg & -> & Havg).
    { unfold avg_files_per_partition.
      destruct (Z.ltb_spec 0 (num_partitions stats)).
      - destruct (int_truediv_bound (num_files stats) (num_partitions stats) 63)
          as (x & -> & _); [lia | now apply int64_abs | lia |].
        cbn [fmap result_fmap]. eexists; split; [reflexivity | discriminate].
      - eexists; split; [reflexivity|]. intros n [= <-]. unfold int64. lia. }
    cbn [mbind result_bind].
    destruct (num_format_fixed_ok 1 avg Havg) as (s1 & ->).
    destruct (num_format_fixed_ok 0 avg Havg) as (s0 & ->).
    cbn [mbind result_bind].
    repeat destruct (_ && _); eauto.
Qed.

Lemma write_patterns_returns stats :
  storable stats -> exists out, _analyze_write_patterns stats [] = Ok out.
Proof.
  intros (Hnum & _). unfold _analyze_write_patterns.
  destruct (Z.ltb_spec 1 (total_versions stats)); [|eauto].
  destruct (int_truediv_bound (num_files stats) (total_versions stats) 63)
    as (x & -> & _); [lia | now apply int64_abs | lia |].
  cbn [mbind result_bind]. destruct (_ && _); eauto.
Qed.

Lemma int_sum_bound (l : list Z) (B : Z) :
  Forall (fun x => Z.abs x <= B) l ->
  Z.abs (int_sum l) <= Z.of_nat (length l) * B.
Proof.
  unfold int_sum. intros H.
  assert (forall acc, Z.abs (fold_left Z.add l acc)
                      <= Z.abs acc + Z.of_nat (length l) * B) as G.
  { induction H as [|x l Hx _ IH]; intros acc; simpl fold_left.
    - simpl. lia.
    - specialize (IH (acc + x)). rewrite length_cons, Nat2Z.inj_succ. lia. }
  specialize (G 0). simpl in G. lia.
Qed.

Lemma foldr_min_in (l : list Z) x :
  foldr Z.min x l = x \/ In (foldr Z.min x l) l.
Proof.
  induction l as [|y l IH]; simpl; [auto|].
  destruct (Z.min_spec y (foldr Z.min x l)) as [[_ ->] | [_ ->]]; [auto|].
  destruct IH as [-> | H]; auto.
Qed.

Lemma foldr_max_in (l : list Z) x :
  foldr Z.max x l = x \/ In (foldr Z.max x l) l.
Proof.
  induction l as [|y l IH]; simpl; [auto|].
  destruct (Z.max_spec y (foldr Z.max x l)) as [[_ ->] | [_ ->]]; [|auto].
  destruct IH as [-> | H]; auto.
Qed.

Lemma list_min_in l : l <> [] -> In (list_min l) l.
Proof.
  unfold list_min. destruct l as [|x l]; [congruence|]. intros _.
  destruct (foldr_min_in (x :: l) x) as [H | H]; simpl hd; [|exact H].
  rewrite H. now left.
Qed.

Lemma list_max_in l : l <> [] -> In (list_max l) l.
Proof.
  unfold list_max. destruct l as [|x l]; [congruence|]. intros _.
  destruct (foldr_max_in (x :: l) x) as [H | H]; simpl hd; [|exact H].
  rewrite H. now left.
Qed.

Lemma file_sizes_int64 stats :
  storable stats -> Forall int64 (file_sizes stats).
Proof.
  intros (_ & _ & _ & H & _). unfold file_sizes.
  induction H; simpl; constructor; auto.
Qed.

Lemma coef_variation_returns stats :
  storable stats -> files stats <> [] ->
  exists cv, coef_variation stats = Ok cv /\ forall n, cv = NInt n -> n = 0.
Proof.
  intros Hst Hne. pose proof (file_sizes_int64 stats Hst) as Hsizes.
  destruct Hst as (_ & _ & _ & _ & Hlen).
  assert (length (file_sizes stats) = length (files stats)) as Hl
    by (unfold file_sizes; apply length_fmap).
  assert (0 < len (file_sizes stats) <= 2 ^ 63) as Hn.
  { pose proof (len_pos _ Hne). unfold len, int64 in *. rewrite Hl. lia. }
  (* the mean *)
  assert (Z.abs (int_sum (file_sizes stats)) <= 2 ^ 126) as Hsum.
  { etransitivity; [apply (int_sum_bound _ (2 ^ 63))|].
    - eapply Forall_impl; [exact Hsizes|]. intros; now apply int64_abs.
    - unfold len in Hn. change (2 ^ 126) with (2 ^ 63 * 2 ^ 63). nia. }
  destruct (int_truediv_bound (int_sum (file_sizes stats))
              (len (file_sizes stats)) 126 ltac:(lia) Hsum ltac:(lia))
    as (mean & Hmean & Bmean).
  unfold coef_variation, mean_size. rewrite Hmean. cbn [mbind result_bind].
  (* the squares *)
  destruct (mapM_Ok (fun s => d ← int_sub_float s mean; float_pow_2 d) fnonneg
              (file_sizes stats)) as (squares & Hsq & Nsq & _).
  { eapply Forall_impl; [exact Hsizes|]. intros s Hs.
    destruct (float_of_int_bound s 126 ltac:(lia)) as (y & Hy & By).
    { apply int64_abs in Hs.
      assert (2 ^ 63 <= 2 ^ 126) by (apply Z.pow_le_mono_r; lia). lia. }
    unfold int_sub_float. rewrite Hy. cbn [mbind result_bind].
    apply (float_pow_2_bound 127); [lia | lia |].
    apply (fsub_bound 126); [lia | lia | exact By | exact Bmean]. }
  unfold variance. rewrite Hsq. cbn [mbind result_bind].
  destruct (float_div_int_ok (float_sum squares) (len (file_sizes stats)) 63
              ltac:(lia) Hn) as (var & Hvar & Nvar).
  rewrite Hvar. cbn [mbind result_bind].
  specialize (Nvar (float_sum_nonneg _ Nsq)).
  destruct (fgt_int mean 0) eqn:Egt.
  - assert (exists s, float_pow_half var = PFloat s) as (s & ->).
    { destruct var as [z|v|z|]; cbn [float_pow_half fnonneg] in *; eauto.
      destruct (Z.ltb_spec (Qnum v) 0) as [Hneg|]; [|eauto].
      exfalso. destruct v as [n d]. unfold Qle in Nvar; simpl in *. lia. }
    unfold float_truediv.
    destruct mean as [z|v|z|]; try discriminate Egt;
      cbn [is_zero fmap result_fmap]; eexists; split; try reflexivity;
      discriminate.
  - eexists; split; [reflexivity|]. now intros n [= <-].
Qed.

Lemma data_skew_returns stats :
  storable stats -> exists out, _analyze_data_skew stats [] = Ok out.
Proof.
  intros Hst. unfold _analyze_data_skew.
  destruct (Z.ltb_spec (len (files stats)) 2) as [|Hlen]; [eauto|].
  assert (files stats <> []) as Hne
    by (destruct (files stats); [unfold len in Hlen; simpl in Hlen; lia | discriminate]).
  destruct (coef_variation_returns stats Hst Hne) as (cv & -> & Hcv).
  cbn [mbind result_bind].
  destruct (num_gt_float cv MIN_FILE_SIZE_VARIANCE); [|eauto].
  destruct (num_format_fixed_ok 2 cv) as (c & ->).
  { intros n Hn. rewrite (Hcv n Hn). unfold int64. lia. }
  pose proof (file_sizes_int64 stats Hst) as Hsizes.
  rewrite Forall_forall in Hsizes.
  assert (file_sizes stats <> []) as Hne'
    by (unfold file_sizes; destruct (files stats); [congruence | discriminate]).
  destruct (format_bytes_ok (list_min (file_sizes stats))) as (lo & ->).
  { apply Hsizes, list_elem_of_In, list_min_in, Hne'. }
  destruct (format_bytes_ok (list_max (file_sizes stats))) as (hi & ->).
  { apply Hsizes, list_elem_of_In, list_max_in, Hne'. }
  cbn [mbind result_bind]. eauto.
Qed.

(** Every rule returns, so does [analyze]. *)
Lemma analyze_returns now stats :
  storable stats -> exists l, analyze now stats = Ok l.
Proof.
  intros Hst.
  destruct (file_sizes_returns stats Hst) as (o1 & H1).
  destruct (partitioning_returns stats Hst) as (o4 & H4).
  destruct (data_skew_returns stats Hst) as (o6 & H6).
  destruct (write_patterns_returns stats Hst) as (o7 & H7).
  assert (exists o2, _analyze_file_count stats [] = Ok o2) as (o2 & H2)
    by (unfold _analyze_file_count; destruct (_ <? _); eauto).
  assert (exists o3, _analyze_vacuum_history now stats [] = Ok o3) as (o3 & H3)
    by (unfold _analyze_vacuum_history;
        destruct (last_vacuum stats); destruct (_ <? _); eauto).
  assert (exists o5, _analyze_optimization_history stats [] = Ok o5)
    as (o5 & H5)
    by (unfold _analyze_optimization_history; repeat destruct (_ <? _); eauto).
  assert (exists rs, run_rules now stats = Ok rs) as (rs & Hrs).
  { eexists. apply run_rules_outputs. exists [o1; o2; o3; o4; o5; o6; o7].
    split; [|reflexivity]. unfold rule_outputs. repeat constructor; assumption. }
  eexists. apply analyze_Ok. eexists. split; [|reflexivity].
  apply collect_Ok. eauto.
Qed.

(** ** What each rule can emit *)

Lemma rule_outputs_inv now stats outs :
  Forall2 (fun r out => r = Ok out) (rule_outputs now stats) outs ->
  exists o1 o2 o3 o4 o5 o6 o7,
    outs = [o1; o2; o3; o4; o5; o6; o7]
    /\ _analyze_file_sizes stats [] = Ok o1
    /\ _analyze_file_count stats [] = Ok o2
    /\ _analyze_vacuum_history now stats [] = Ok o3
    /\ _analyze_partitioning stats [] = Ok o4
    /\ _analyze_optimization_history stats [] = Ok o5
    /\ _analyze_data_skew stats [] = Ok o6
    /\ _analyze_write_patterns stats [] = Ok o7.
Proof.
  unfold rule_outputs. intros HF.
  apply Forall2_cons_inv_l in HF as (o1 & t1 & H1 & HF & ->).
  apply Forall2_cons_inv_l in HF as (o2 & t2 & H2 & HF & ->).
  apply Forall2_cons_inv_l in HF as (o3 & t3 & H3 & HF & ->).
  apply Forall2_cons_inv_l in HF as (o4 & t4 & H4 & HF & ->).
  apply Forall2_cons_inv_l in HF as (o5 & t5 & H5 & HF & ->).
  apply Forall2_cons_inv_l in HF as (o6 & t6 & H6 & HF & ->).
  apply Forall2_cons_inv_l in HF as (o7 & t7 & H7 & HF & ->).
  apply Forall2_nil_inv_l in HF as ->.
  exists o1, o2, o3, o4, o5, o6, o7. auto 10.
Qed.

Ltac labels_tac :=
  intros out; rule_cases; intros [= <-]; unfold append; simpl;
  repeat constructor; unfold label; simpl; set_solver.

Lemma outputs_labels now stats outs :
  Forall2 (fun r out => r = Ok out) (rule_outputs now stats) outs ->
  Forall2 (fun out cat => Forall (fun i => label i ∈ cat) out) outs catalogs.
Proof.
  intros HF.
  apply rule_outputs_inv in HF
    as (o1 & o2 & o3 & o4 & o5 & o6 & o7 & -> & H1 & H2 & H3 & H4 & H5 & H6 & H7).
  unfold catalogs. repeat constructor.
  - revert H1. generalize o1. unfold _analyze_file_sizes. labels_tac.
  - revert H2. generalize o2. unfold _analyze_file_count. labels_tac.
  - revert H3. generalize o3. unfold _analyze_vacuum_history. labels_tac.
  - revert H4. generalize o4. unfold _analyze_partitioning. labels_tac.
  - revert H5. generalize o5. unfold _analyze_optimization_history. labels_tac.
  - revert H6. generalize o6. unfold _analyze_data_skew. labels_tac.
  - revert H7. generalize o7. unfold _analyze_write_patterns. labels_tac.
Qed.

Lemma emits_app l1 l2 sev ttl :
  emits (l1 ++ l2) sev ttl <-> emits l1 sev ttl \/ emits l2 sev ttl.
Proof.
  unfold emits. split.
  - intros (i & Hi & H). apply in_app_or in Hi as [Hi|Hi]; eauto.
  - intros [(i & Hi & H) | (i & Hi & H)]; exists i; split; auto;
      apply in_or_app; auto.
Qed.

Lemma emits_perm l l' sev ttl :
  Permutation l l' -> emits l sev ttl -> emits l' sev ttl.
Proof.
  intros Hp (i & Hi & H). exists i. split; [|exact H].
  eapply Permutation_in; eauto.
Qed.

Lemma emits_labels l (cat : list (string * string)) sev ttl :
  Forall (fun i => label i ∈ cat) l -> emits l sev ttl -> (sev, ttl) ∈ cat.
Proof.
  intros HF (i & Hi & <- & <-). rewrite Forall_forall in HF.
  apply HF. apply list_elem_of_In, Hi.
Qed.

Ltac label_solver :=
  repeat match goal with
    | H : _ ∈ _ :: _ |- _ => apply elem_of_cons in H as [H|H]
    | H : _ ∈ [] |- _ => apply elem_of_nil in H; contradiction
    | H : (_, _) = (_, _) |- _ => injection H as ? ?; subst; try discriminate
    | H : label _ = (_, _) |- _ => unfold label in H; simpl in H
    end.

Lemma emits_nil sev ttl : ~ emits [] sev ttl.
Proof. intros (i & [] & _). Qed.

(** An insight labelled in the catalog of the [k]-th rule is in the
    list that [analyze] returns exactly if that rule returned it. *)
Lemma analyze_emits now stats l k (cat : list (string * string)) sev ttl :
  analyze now stats = Ok l ->
  catalogs !! k = Some cat -> (sev, ttl) ∈ cat ->
  exists out, rule_outputs now stats !! k = Some (Ok out)
              /\ (emits l sev ttl <-> emits out sev ttl).
Proof.
  intros H Hk Hin.
  apply analyze_Ok in H as (pre & Hpre & ->).
  apply collect_Ok in Hpre as (rs & Hrs & ->).
  apply run_rules_outputs in Hrs as (outs & HF & ->).
  pose proof (outputs_labels _ _ _ HF) as HL.
  apply rule_outputs_inv in HF
    as (o1 & o2 & o3 & o4 & o5 & o6 & o7 & -> & H1 & H2 & H3 & H4 & H5 & H6 & H7).
  assert (forall l', emits (sort_by severity_rank l') sev ttl <-> emits l' sev ttl)
    as Hsort.
  { intros l'. split; apply emits_perm; [symmetry|]; apply sort_by_perm. }
  setoid_rewrite Hsort. unfold rule_outputs. rewrite H1, H2, H3, H4, H5, H6, H7.
  assert (~ emits (if existsb has_issue (concat [o1; o2; o3; o4; o5; o6; o7])
                   then [] else [looks_good]) sev ttl) as Hfb.
  { destruct (existsb _ _); [apply emits_nil|].
    intros (i & [<- | []] & <- & <-). simpl in Hin.
    unfold catalogs in Hk.
    do 7 (destruct k as [|k]; [injection Hk as <-; unfold label in Hin; simpl in Hin; label_solver|]).
    discriminate. }
  unfold catalogs in Hk, HL. simpl concat in *. rewrite app_nil_r in *.
  repeat match goal with
         | H : Forall2 _ (_ :: _) _ |- _ =>
             let F := fresh "F" in
             apply Forall2_cons_1 in H as [F H]
         end.
  repeat setoid_rewrite emits_app.
  do 7 (destruct k as [|k];
        [ injection Hk as <-; eexists; split; [reflexivity|];
          split; [|tauto];
          intros [[?|[?|[?|[?|[?|[?|?]]]]]]|?]; try assumption; try tauto;
          exfalso;
          match goal with
          | E : emits ?o _ _, F : Forall _ ?o |- _ =>
              pose proof (emits_labels _ _ _ _ F E); label_solver
          end
        | ]).
  discriminate.
Qed.

(** ** The file-size rule *)

Lemma pct_small_none sizes :
  sizes <> [] -> small_files sizes = [] ->
  exists s, pct_small sizes = Ok (Fzero s).
Proof.
  intros Hne Hs. unfold pct_small. rewrite Hs.
  pose proof (len_pos _ Hne) as Hpos. unfold int_truediv.
  destruct (Z.eqb_spec (len sizes) 0); [lia|].
  change (len [] =? 0) with true. cbn [mbind result_bind].
  unfold float_mul_int. change (float_of_int 100) with (Ok (Ffin 100)).
  cbn [mbind result_bind fmul fsign]. eauto.
Qed.

Lemma file_sizes_out stats out :
  files stats <> [] ->
  _analyze_file_sizes stats [] = Ok out ->
  exists sizes pct avg,
    file_sizes_mb stats = Ok sizes
    /\ pct_small sizes = Ok pct
    /\ avg_size_mb sizes = Ok avg
    /\ out = ((if fgt_int pct 50
               then [small_files_critical pct avg
                       (len (small_files sizes)) (len sizes)]
               else if fgt_int pct 20
                    then [small_files_warning pct avg]
                    else [])
              ++ (if flt_int avg 64 then [suboptimal_size avg] else []))%list.
Proof.
  intros Hne. unfold _analyze_file_sizes.
  destruct (files stats) as [|f fs] eqn:Efiles; [congruence|].
  intros H.
  apply bind_Ok in H as (sizes & Hsizes & H).
  apply bind_Ok in H as (avg & Havg & H).
  apply bind_Ok in H as (ins & Hins & H).
  change (int_truediv OPTIMAL_FILE_SIZE_MB 2) with (Ok (Ffin 64)) in H.
  cbn [mbind result_bind] in H.
  change (flt avg (Ffin 64)) with (flt_int avg 64) in H.
  assert (sizes <> []) as Hsne.
  { unfold file_sizes_mb in Hsizes. rewrite Efiles in Hsizes.
    cbn [mapM] in Hsizes. apply bind_Ok in Hsizes as (y & _ & Hs).
    apply bind_Ok in Hs as (ys & _ & [= <-]). discriminate. }
  exists sizes.
  assert (exists pct, pct_small sizes = Ok pct
            /\ ins = if fgt_int pct 50
                     then [small_files_critical pct avg
                             (len (small_files sizes)) (len sizes)]
                     else if fgt_int pct 20
                          then [small_files_warning pct avg] else [])
    as (pct & Hpct & ->).
  { destruct (small_files sizes) as [|s ss] eqn:Esmall.
    - destruct (pct_small_none sizes Hsne Esmall) as (z & Hz).
      exists (Fzero z). split; [exact Hz|]. injection Hins as <-. reflexivity.
    - apply bind_Ok in Hins as (pct & Hpct & Hins).
      exists pct. split; [exact Hpct|].
      destruct (fgt_int pct 50); [|destruct (fgt_int pct 20)];
        injection Hins as <-; reflexivity. }
  exists pct, avg. repeat split; try assumption.
  destruct (flt_int avg 64); injection H as <-;
    unfold append; rewrite ?app_nil_r; reflexivity.
Qed.

Lemma emits_singleton i sev ttl :
  emits [i] sev ttl <-> severity i = sev /\ title i = ttl.
Proof.
  unfold emits. split.
  - intros (j & [<- | []] & H). exact H.
  - intros H. exists i. split; [now left | exact H].
Qed.

Ltac in_catalog := rewrite !elem_of_cons; auto 10.

Lemma emits_nil_iff sev ttl : emits [] sev ttl <-> False.
Proof. split; [apply emits_nil | contradiction]. Qed.

Ltac emits_solver :=
  rewrite ?emits_app;
  repeat match goal with
    | |- context [if ?b then _ else _] => destruct b eqn:?
    end;
  rewrite ?emits_singleton, ?emits_nil_iff; simpl;
  intuition (try discriminate; try congruence).


(** ** The partitions of the file list *)

Lemma sorted_items_inj : Inj (=) (=) sorted_items.
Proof.
  intros d1 d2 H. apply map_to_list_inj.
  unfold sorted_items in H.
  rewrite <- (merge_sort_Permutation (fun a b => Is_true (item_leb a b))
                (map_to_list d1)), H.
  apply merge_sort_Permutation.
Qed.

Lemma partition_counts_dom (fs : list FileInfo) :
  dom (partition_counts fs) = list_to_set (partition_key <$> fs).
Proof.
  unfold partition_counts.
  assert (forall m : gmap (list (string * string)) Z,
            dom (foldl (fun counts file =>
                          <[partition_key file :=
                              default 0 (counts !! partition_key file) + 1]>
                            counts) m fs)
            = dom m ∪ list_to_set (partition_key <$> fs)) as G.
  { induction fs as [|f fs IH]; intros m; simpl.
    - set_solver.
    - rewrite IH, dom_insert_L. set_solver. }
  rewrite G, dom_empty_L. set_solver.
Qed.

Lemma remove_dups_fmap_inj {A B} `{EqDecision A, EqDecision B}
    (g : A -> B) (l : list A) :
  Inj (=) (=) g -> remove_dups (g <$> l) = g <$> remove_dups l.
Proof.
  intros Hg. induction l as [|x l IH]; [reflexivity|].
  rewrite fmap_cons. cbn [remove_dups].
  destruct (decide_rel elem_of (g x) (g <$> l)) as [Hin|Hin];
    destruct (decide_rel elem_of x l) as [Hin'|Hin'];
    rewrite ?fmap_cons, IH; try reflexivity.
  - apply list_elem_of_fmap in Hin as (y & Hy & Hin).
    apply Hg in Hy as ->. contradiction.
  - exfalso. apply Hin, list_elem_of_fmap. eauto.
Qed.

(** The number of partitions is the number of distinct partition-value
    dictionaries among the files. *)
Lemma num_partitions_distinct stats :
  num_partitions stats
  = len (remove_dups (partition_values <$> files stats)).
Proof.
  unfold num_partitions, len. f_equal.
  rewrite <- size_dom, partition_counts_dom.
  assert (list_to_set (partition_key <$> files stats)
          =@{gset (list (string * string))}
          list_to_set (remove_dups (partition_key <$> files stats))) as ->.
  { apply set_eq. intros x.
    rewrite !elem_of_list_to_set, elem_of_remove_dups. reflexivity. }
  rewrite size_list_to_set by apply NoDup_remove_dups.
  unfold partition_key.
  rewrite (list_fmap_compose partition_values sorted_items).
  rewrite remove_dups_fmap_inj by apply sorted_items_inj.
  apply length_fmap.
Qed.

(** ** The outputs of the other rules *)

Lemma file_count_out stats :
  _analyze_file_count stats []
  = Ok (if 1000 <? num_files stats then [high_file_count stats] else []).
Proof. unfold _analyze_file_count. now destruct (_ <? _). Qed.

Lemma vacuum_history_out now stats :
  _analyze_vacuum_history now stats []
  = Ok match last_vacuum stats with
       | None =>
           if 10 <? total_versions stats then [never_vacuumed stats] else []
       | Some last =>
           if 28 <? timedelta_days now last
           then [vacuum_overdue (timedelta_days now last)] else []
       end.
Proof.
  unfold _analyze_vacuum_history.
  destruct (last_vacuum stats); now destruct (_ <? _).
Qed.

Lemma avg_files_empty stats :
  files stats = [] -> avg_files_per_partition stats = Ok (NInt 0).
Proof.
  intros H. unfold avg_files_per_partition, num_partitions. now rewrite H.
Qed.

Lemma partitioning_out stats out :
  _analyze_partitioning stats [] = Ok out ->
  match partition_columns stats with
  | [] =>
      if 10 * 2 ^ 30 <? total_size_bytes stats
      then exists size, _format_bytes (total_size_bytes stats) = Ok size
                        /\ out = [not_partitioned size]
      else out = []
  | _ =>
      exists avg s,
        avg_files_per_partition stats = Ok avg
        /\ out = if (1000 <? num_partitions stats) && num_lt_int avg 5
                 then [over_partitioned (num_partitions stats) s]
                 else if (num_partitions stats <? 10) && num_gt_int avg 100
                      then [under_partitioned (num_partitions stats) s]
                      else []
  end.
Proof.
  unfold _analyze_partitioning.
  destruct (partition_columns stats) as [|c cs].
  - change (1024 * 1024 * 1024 * 10) with (10 * 2 ^ 30).
    destruct (_ <? _).
    + intros H. apply bind_Ok in H as (size & Hs & [= <-]). eauto.
    + now intros [= <-].
  - destruct (files stats) as [|f fs] eqn:Efiles.
    + intros [= <-]. exists (NInt 0), "".
      split; [now apply avg_files_empty|].
      unfold num_partitions. rewrite Efiles. reflexivity.
    + intros H. apply bind_Ok in H as (avg & Havg & H).
      exists avg.
      destruct ((1000 <? num_partitions stats) && num_lt_int avg 5).
      * apply bind_Ok in H as (s & _ & [= <-]). eauto.
      * destruct ((num_partitions stats <? 10) && num_gt_int avg 100).
        -- apply bind_Ok in H as (s & _ & [= <-]). eauto.
        -- injection H as <-. exists "". auto.
Qed.

Lemma analyze_In now stats l k out i :
  analyze now stats = Ok l ->
  rule_outputs now stats !! k = Some (Ok out) ->
  In i out -> In i l.
Proof.
  intros H Hk Hi.
  apply analyze_Ok in H as (pre & Hpre & ->).
  apply collect_Ok in Hpre as (rs & Hrs & ->).
  apply run_rules_outputs in Hrs as (outs & HF & ->).
  eapply Permutation_in; [apply sort_by_perm|].
  apply in_or_app. left. apply in_concat. exists out. split; [|exact Hi].
  apply list_elem_of_In. 
  rewrite Forall2_lookup in HF. specialize (HF k). rewrite Hk in HF.
  inversion HF as [r o Hr Ek Eo|]; subst.
  injection Hr as <-. apply list_elem_of_lookup. eauto.
Qed.

(** ** The statistics *)

Lemma get_statistics_inv fromtimestamp p table stats :
  get_statistics fromtimestamp p table = Ok stats ->
  exists total_size files_info,
    foldlM (add_file fromtimestamp (dt_add_actions table)) (0, [])
           (seq 0 (length (aa_path (dt_add_actions table))))
    = Ok (total_size, files_info)
    /\ find_last_vacuum fromtimestamp (dt_history table)
       = Ok (last_vacuum stats)
    /\ files stats = files_info
    /\ num_files stats = Z.of_nat (length files_info)
    /\ total_size_bytes stats = total_size
    /\ total_versions stats = Z.of_nat (length (dt_history table)).
Proof.
  unfold get_statistics. intros H.
  apply bind_Ok in H as ([total_size files_info] & Hloop & H).
  apply bind_Ok in H as (ct & _ & H).
  apply bind_Ok in H as (lo & _ & H).
  apply bind_Ok in H as (lv & Hlv & H).
  injection H as <-. exists total_size, files_info.
  repeat split; try reflexivity; assumption.
Qed.

Lemma find_last_vacuum_none fromtimestamp history :
  Forall (fun e => ce_operation e <> Some "VACUUM"%string) history ->
  find_last_vacuum fromtimestamp history = Ok None.
Proof.
  intros H. unfold find_last_vacuum.
  assert (List.find entry_is_vacuum history = None) as ->; [|reflexivity].
  induction H as [|e h He _ IH]; [reflexivity|].
  simpl. unfold entry_is_vacuum at 1.
  rewrite bool_decide_eq_false_2 by exact He. exact IH.
Qed.

(** ** The only exception of the analyzer *)

Lemma bind_Raise {A B} (c : result A) (k : A -> result B) (e : exn) :
  (c ≫= k) = Raise e <->
  c = Raise e \/ exists a, c = Ok a /\ k a = Raise e.
Proof.
  destruct c as [a|e']; simpl; split.
  - intros H. right. eauto.
  - intros [H | (a' & [= <-] & H)]; [discriminate | exact H].
  - intros [= <-]. now left.
  - intros [[= <-] | (a' & H & _)]; [reflexivity | discriminate].
Qed.

Lemma mapM_Raise {A B} (f : A -> result B) (l : list A) (e : exn) :
  mapM f l = Raise e -> exists x, In x l /\ f x = Raise e.
Proof.
  induction l as [|x l IH]; [discriminate|].
  cbn [mapM]. fold (mapM f l). intros H.
  apply bind_Raise in H as [H | (y & Hy & H)]; [exists x; simpl; auto|].
  apply bind_Raise in H as [H | (ys & Hys & H)]; [|discriminate].
  destruct (IH H) as (x' & Hin & Hx'). exists x'. simpl. auto.
Qed.

Lemma mapM_Ok_inv {A B} (f : A -> result B) (P : B -> Prop) (l : list A) ys :
  (forall x y, f x = Ok y -> P y) -> mapM f l = Ok ys ->
  Forall P ys /\ length ys = length l.
Proof.
  intros Hf. revert ys. induction l as [|x l IH]; intros ys.
  - intros [= <-]. split; [constructor | reflexivity].
  - cbn [mapM]. fold (mapM f l). intros H.
    apply bind_Ok in H as (y & Hy & H).
    apply bind_Ok in H as (ys' & Hys & [= <-]).
    destruct (IH ys' Hys) as [HF Hl].
    split; [constructor; eauto | simpl; now rewrite Hl].
Qed.

Lemma float_of_int_raise n e : float_of_int n = Raise e -> e = OverflowError.
Proof.
  unfold float_of_int. destruct (round false (inject_Z n)); congruence.
Qed.

Lemma int_truediv_raise a b e :
  b <> 0 -> int_truediv a b = Raise e -> e = OverflowError.
Proof.
  intros Hb. unfold int_truediv.
  destruct (Z.eqb_spec b 0); [contradiction|].
  destruct (a =? 0); [discriminate|].
  destruct (round false _); congruence.
Qed.

Lemma float_div_int_raise x n e :
  0 < n -> float_div_int x n = Raise e -> e = OverflowError.
Proof.
  intros Hn. unfold float_div_int. intros H.
  apply bind_Raise in H as [H | (y & Hy & H)];
    [now apply float_of_int_raise in H|].
  unfold float_truediv in H.
  rewrite (float_of_int_nonzero n y ltac:(lia) Hy) in H. discriminate.
Qed.

Lemma float_div_int_nonneg x n r :
  0 < n -> float_div_int x n = Ok r -> fnonneg x -> fnonneg r.
Proof.
  intros Hn H Hx. unfold float_div_int in H.
  apply bind_Ok in H as (y & Hy & H).
  destruct (float_of_int_pos n y Hn Hy) as (q & -> & Hq).
  unfold float_truediv in H. cbn [is_zero] in H. injection H as <-.
  now apply fdiv_nonneg.
Qed.

Lemma float_pow_2_nonneg x r : float_pow_2 x = Ok r -> fnonneg r.
Proof.
  destruct x as [s|q|s|]; cbn [float_pow_2]; try (intros [= <-]; exact I);
    try (intros [= <-]; reflexivity).
  assert (0 <= q * q)%Q as Hsq by (destruct (Qlt_le_dec q 0); nra).
  pose proof (round_nonneg (q * q) Hsq) as Hn.
  destruct (round false (q * q)); intros [= <-]; exact Hn.
Qed.

Lemma float_pow_2_raise x e : float_pow_2 x = Raise e -> e = OverflowError.
Proof.
  destruct x as [s|q|s|]; cbn [float_pow_2]; try discriminate.
  destruct (round false (q * q)); congruence.
Qed.

Lemma format_bytes_raise b e : _format_bytes b = Raise e -> e = OverflowError.
Proof.
  unfold _format_bytes, format_fixed_int, float_truediv. cbn [is_zero].
  destruct (int_lt_float b (Ffin 1024)); intros H;
    apply bind_Raise in H as [H | (y & Hy & H)];
    try discriminate;
    try (apply bind_Raise in H as [H | (y' & Hy' & H)];
         [now apply float_of_int_raise in H | discriminate]);
    try (apply bind_Raise in H as [H | (y' & Hy' & H)]; discriminate).
  now apply float_of_int_raise in H.
Qed.

Lemma num_format_fixed_raise d v e :
  num_format_fixed d v = Raise e -> e = OverflowError.
Proof.
  destruct v as [n|x]; cbn [num_format_fixed]; [|discriminate].
  unfold format_fixed_int. intros H.
  apply bind_Raise in H as [H | (y & _ & H)];
    [now apply float_of_int_raise in H | discriminate].
Qed.

Ltac raise_step H :=
  let y := fresh "y" in
  let Hy := fresh "Hy" in
  apply bind_Raise in H as [H | (y & Hy & H)].

Lemma file_sizes_raise stats e :
  _analyze_file_sizes stats [] = Raise e -> e = OverflowError.
Proof.
  unfold _analyze_file_sizes.
  destruct (files stats) as [|f fs] eqn:Efiles; [discriminate|]. intros H.
  raise_step H.
  { unfold file_sizes_mb in H. apply mapM_Raise in H as (x & _ & H).
    now apply int_truediv_raise in H. }
  assert (0 < len y) as Hlen.
  { unfold file_sizes_mb in Hy.
    destruct (mapM_Ok_inv _ (fun _ => True) _ _ (fun _ _ _ => I) Hy)
      as [_ Hl].
    unfold len. rewrite Hl, Efiles. simpl. lia. }
  raise_step H; [now apply float_div_int_raise in H|].
  raise_step H.
  { destruct (small_files y); [discriminate|].
    raise_step H.
    - unfold pct_small in H. raise_step H.
      + apply int_truediv_raise in H; [exact H | lia].
      + unfold float_mul_int in H. raise_step H;
          [now apply float_of_int_raise in H | discriminate].
    - repeat destruct (fgt_int _ _); discriminate. }
  change (int_truediv OPTIMAL_FILE_SIZE_MB 2) with (Ok (Ffin 64)) in H.
  cbn [mbind result_bind] in H. destruct (flt _ _); discriminate.
Qed.

Lemma partitioning_raise stats e :
  _analyze_partitioning stats [] = Raise e -> e = OverflowError.
Proof.
  unfold _analyze_partitioning.
  destruct (partition_columns stats).
  - destruct (_ <? _); [|discriminate]. intros H.
    raise_step H; [now apply format_bytes_raise in H | discriminate].
  - destruct (files stats); [discriminate|]. intros H.
    raise_step H.
    { unfold avg_files_per_partition in H.
      destruct (Z.ltb_spec 0 (num_partitions stats)) as [Hpos|]; [|discriminate].
      destruct (int_truediv _ _) eqn:E; [discriminate|].
      injection H as <-. apply int_truediv_raise in E; [exact E | lia]. }
    destruct (_ && _).
    + raise_step H; [now apply num_format_fixed_raise in H | discriminate].
    + destruct (_ && _); [|discriminate].
      raise_step H; [now apply num_format_fixed_raise in H | discriminate].
Qed.

Lemma coef_variation_raise stats e :
  2 <= len (files stats) -> coef_variation stats = Raise e ->
  e = OverflowError.
Proof.
  intros Hlen.
  assert (len (file_sizes stats) = len (files stats)) as Hl
    by (unfold len, file_sizes; now rewrite length_fmap).
  unfold coef_variation, mean_size, variance. intros H.
  raise_step H; [apply int_truediv_raise in H; [exact H | lia]|].
  raise_step H.
  { raise_step H.
    - apply mapM_Raise in H as (x & _ & H).
      raise_step H; [|now apply float_pow_2_raise in H].
      unfold int_sub_float in H.
      raise_step H; [now apply float_of_int_raise in H | discriminate].
    - apply float_div_int_raise in H; [exact H | lia]. }
  apply bind_Ok in Hy0 as (squares & Hsq & Hvar).
  assert (fnonneg y0) as Hnn.
  { eapply float_div_int_nonneg; [|exact Hvar|]; [lia|].
    apply float_sum_nonneg.
    apply (mapM_Ok_inv _ fnonneg _ _) in Hsq as [Hsq _]; [exact Hsq|].
    intros x r Hr. apply bind_Ok in Hr as (d & _ & Hr).
    now apply float_pow_2_nonneg in Hr. }
  destruct (fgt_int y 0) eqn:Egt; [|discriminate].
  destruct y0 as [z|v|z|]; cbn [float_pow_half fnonneg] in *.
  - unfold float_truediv in H. destruct y; discriminate.
  - destruct (Z.ltb_spec (Qnum v) 0) as [Hneg|].
    + exfalso. destruct v as [n d]. unfold Qle in Hnn. simpl in *. lia.
    + unfold float_truediv in H. destruct y; discriminate.
  - unfold float_truediv in H. destruct y; discriminate.
  - unfold float_truediv in H. destruct y; discriminate.
Qed.

Lemma data_skew_raise stats e :
  _analyze_data_skew stats [] = Raise e -> e = OverflowError.
Proof.
  unfold _analyze_data_skew.
  destruct (Z.ltb_spec (len (files stats)) 2) as [|Hge]; [discriminate|].
  intros H.
  raise_step H; [now apply coef_variation_raise in H|].
  destruct (num_gt_float _ _); [|discriminate].
  raise_step H; [now apply num_format_fixed_raise in H|].
  raise_step H; [now apply format_bytes_raise in H|].
  raise_step H; [now apply format_bytes_raise in H | discriminate].
Qed.

Lemma write_patterns_raise stats e :
  _analyze_write_patterns stats [] = Raise e -> e = OverflowError.
Proof.
  unfold _analyze_write_patterns.
  destruct (Z.ltb_spec 1 (total_versions stats)) as [Hgt|]; [|discriminate].
  intros H.
  raise_step H; [apply int_truediv_raise in H; [exact H | lia]|].
  destruct (_ && _); discriminate.
Qed.

(** [analyze] raises nothing but [OverflowError]: no division by zero
    and no type error. *)
Lemma analyze_raise now stats e :
  analyze now stats = Raise e -> e = OverflowError.
Proof.
  unfold analyze, collect, run_rules. intros H.
  raise_step H; [|discriminate].
  raise_step H; [|destruct (negb _); discriminate].
  raise_step H; [now apply file_sizes_raise in H|].
  rewrite file_count_appends, file_count_out in H. cbn [fmap result_fmap] in H.
  raise_step H; [discriminate|]. injection Hy0 as <-.
  rewrite vacuum_history_appends, vacuum_history_out in H.
  cbn [fmap result_fmap] in H.
  raise_step H; [discriminate|]. injection Hy0 as <-.
  rewrite partitioning_appends in H.
  raise_step H.
  { destruct (_analyze_partitioning stats []) eqn:E; [discriminate|].
    injection H as <-. now apply partitioning_raise in E. }
  rewrite optimization_history_appends in H.
  raise_step H.
  { unfold _analyze_optimization_history in H.
    repeat destruct (_ <? _); discriminate. }
  rewrite data_skew_appends in H.
  raise_step H.
  { destruct (_analyze_data_skew stats []) eqn:E; [discriminate|].
    injection H as <-. now apply data_skew_raise in E. }
  rewrite write_patterns_appends in H.
  destruct (_analyze_write_patterns stats []) eqn:E; [discriminate|].
  injection H as <-. now apply write_patterns_raise in E.
Qed.

(** ** Files of size zero *)

Lemma int_sum_zeros l : Forall (fun x => x = 0) l -> int_sum l = 0.
Proof.
  unfold int_sum. induction 1 as [|x l -> _ IH]; [reflexivity | exact IH].
Qed.

Lemma mapM_const {A B} (f : A -> result B) (c : B) (l : list A) :
  Forall (fun x => f x = Ok c) l -> mapM f l = Ok (replicate (length l) c).
Proof.
  induction 1 as [|x l Hx _ IH]; [reflexivity|].
  cbn [mapM]. fold (mapM f l). now rewrite Hx, IH.
Qed.

Lemma float_sum_zeros n : float_sum (replicate n (Fzero false)) = Fzero false.
Proof.
  unfold float_sum. induction n as [|n IH]; [reflexivity | exact IH].
Qed.

Lemma coef_variation_zeros stats :
  0 < len (files stats) < 2 ^ 63 ->
  Forall (fun f => size_bytes f = 0) (files stats) ->
  mean_size stats = Ok (Fzero false)
  /\ coef_variation stats = Ok (NInt 0).
Proof.
  intros Hlen Hz.
  assert (Forall (fun x => x = 0) (file_sizes stats)) as Hz'.
  { unfold file_sizes. apply Forall_fmap. exact Hz. }
  assert (len (file_sizes stats) = len (files stats)) as Hl
    by (unfold len, file_sizes; now rewrite length_fmap).
  assert (mean_size stats = Ok (Fzero false)) as Hmean.
  { unfold mean_size, int_truediv. rewrite int_sum_zeros, Hl by exact Hz'.
    destruct (Z.eqb_spec (len (files stats)) 0); [lia|].
    destruct (Z.ltb_spec (len (files stats)) 0); [lia | reflexivity]. }
  split; [exact Hmean|].
  unfold coef_variation, variance. rewrite Hmean. cbn [mbind result_bind].
  rewrite (mapM_const _ (Fzero false)).
  - cbn [mbind result_bind]. rewrite float_sum_zeros, Hl.
    destruct (float_of_int_bound (len (files stats)) 63) as (y & Hy & _);
      [lia | lia |].
    destruct (float_of_int_pos (len (files stats)) y) as (q & -> & Hq);
      [lia | exact Hy |].
    unfold float_div_int, float_truediv. rewrite Hy. reflexivity.
  - eapply Forall_impl; [exact Hz'|]. intros x ->. reflexivity.
Qed.

(** ** The loop of [get_statistics] *)

Lemma int_sum_snoc l x : int_sum (l ++ [x]) = int_sum l + x.
Proof. unfold int_sum. now rewrite fold_left_app. Qed.

Lemma add_file_inv fromtimestamp aa total fs i total' fs' :
  add_file fromtimestamp aa (total, fs) i = Ok (total', fs') ->
  exists f, fs' = (fs ++ [f])%list /\ total' = total + size_bytes f.
Proof.
  unfold add_file. intros H.
  apply bind_Ok in H as (c & _ & H).
  apply bind_Ok in H as (pv & _ & H).
  apply bind_Ok in H as (p & _ & H).
  apply bind_Ok in H as (m & _ & H).
  apply bind_Ok in H as (mtime & _ & H).
  injection H as <- <-. eexists. split; reflexivity.
Qed.

Lemma add_files_total fromtimestamp aa idxs total fs total' fs' :
  foldlM (add_file fromtimestamp aa) (total, fs) idxs = Ok (total', fs') ->
  total = int_sum (size_bytes <$> fs) ->
  total' = int_sum (size_bytes <$> fs').
Proof.
  revert total fs. induction idxs as [|i idxs IH]; intros total fs.
  - intros [= <- <-]. auto.
  - cbn [foldlM]. intros H Ht.
    apply bind_Ok in H as ([t1 fs1] & H1 & H).
    apply add_file_inv in H1 as (f & -> & ->).
    apply (IH _ _ H). rewrite fmap_app.
    change (size_bytes <$> [f]) with [size_bytes f].
    rewrite int_sum_snoc. lia.
Qed.

(** ** The write patterns of the timeline *)

Lemma write_patterns_out history patterns :
  DeltaTableInspector._analyze_write_patterns history = Ok patterns ->
  exists small gap,
    patterns = (small ++ gap)%list
    /\ (if 10 <? len (writes_of history)
        then exists avg, avg_rows (writes_of history) = Ok avg
               /\ small = if flt_int avg 1000
                          then [small_frequent_writes] else []
        else small = [])
    /\ (if 1 <? len (writes_of history)
        then exists avg, avg_time_diff (write_timestamps history) = Ok avg
               /\ gap = if flt_int avg 300 then [streaming_pattern]
                        else if fgt_int avg 86400 then [batch_pattern]
                             else []
        else gap = []).
Proof.
  unfold DeltaTableInspector._analyze_write_patterns, write_timestamps.
  intros H. set (writes := writes_of history) in *.
  destruct writes as [|w ws] eqn:Ew.
  { injection H as <-. exists [], []. repeat split. }
  rewrite <- Ew in *. clear Ew.
  apply bind_Ok in H as (small & Hsmall & H).
  assert (if 10 <? len writes
          then exists avg, avg_rows writes = Ok avg
                 /\ small = if flt_int avg 1000
                            then [small_frequent_writes] else []
          else small = []) as Hs.
  { destruct (10 <? len writes).
    - apply bind_Ok in Hsmall as (avg & Havg & Hsmall). exists avg.
      split; [exact Havg|]. destruct (flt_int avg 1000);
        injection Hsmall as <-; reflexivity.
    - injection Hsmall as <-. reflexivity. }
  assert (len ((fun h => default 0 (ce_timestamp h)) <$> writes) = len writes)
    as El by (unfold len; now rewrite length_fmap).
  rewrite El in H.
  destruct (1 <? len writes) eqn:E1.
  - apply bind_Ok in H as (avg & Havg & H).
    exists small, (if flt_int avg 300 then [streaming_pattern]
                   else if fgt_int avg 86400 then [batch_pattern] else []).
    split; [|split; [exact Hs | eauto]].
    destruct (flt_int avg 300); [|destruct (fgt_int avg 86400)];
      injection H as <-; rewrite ?app_nil_r; reflexivity.
  - injection H as <-.
    exists small, []. rewrite app_nil_r. auto.
Qed.

Lemma time_diffs_bound (ts : list Z) (B : Z) :
  Forall (fun t => Z.abs t <= B) ts ->
  Forall (fun d => Z.abs d <= 2 * B) (time_diffs ts)
  /\ length (time_diffs ts) = (length ts - 1)%nat.
Proof.
  induction 1 as [|t ts Ht Hts [IH1 IH2]]; [split; [constructor | reflexivity]|].
  destruct ts as [|t' ts]; [split; [constructor | reflexivity]|].
  cbn [time_diffs]. inversion Hts; subst. split.
  - constructor; [lia | exact IH1].
  - simpl in *. lia.
Qed.

Lemma gt_day_not_lt_5_minutes (avg : float) :
  fgt_int avg 86400 = true -> flt_int avg 300 = false.
Proof.
  unfold fgt_int, flt_int, gtQ, ltQ.
  destruct avg as [s|v|s|]; cbn [cmpQ]; try discriminate.
  - destruct (v ?= inject_Z 86400)%Q eqn:E; try discriminate. intros _.
    apply Qgt_alt in E.
    destruct (v ?= inject_Z 300)%Q eqn:E'; try reflexivity.
    apply Qlt_alt in E'.
    assert (inject_Z 300 < inject_Z 86400)%Q by reflexivity. lra.
  - destruct s; [discriminate | reflexivity].
Qed.

Lemma write_patterns_returns_on history :
  storable_history history ->
  exists patterns,
    DeltaTableInspector._analyze_write_patterns history = Ok patterns.
Proof.
  intros [Hall Hlen].
  unfold DeltaTableInspector._analyze_write_patterns.
  set (writes := writes_of history).
  assert (Forall (fun h => int64 (default 0 (ce_timestamp h))
                           /\ int64 (num_added_rows h)) writes) as Hw.
  { unfold writes, writes_of. rewrite Forall_forall in *.
    intros h Hh. apply Hall. apply list_elem_of_In in Hh.
    apply filter_In in Hh as [Hh _]. now apply list_elem_of_In. }
  assert (len writes <= len history) as Hlw.
  { unfold len, writes, writes_of.
    pose proof (filter_length_le is_write history). lia. }
  destruct writes as [|w ws] eqn:Ew; [eauto|]. rewrite <- Ew in *. clear Ew.
  assert (0 <= len writes < 2 ^ 63) as Hn
    by (unfold int64, len in *; lia).
  assert (exists small,
            (if 10 <? len writes
             then avg_rows writes ≫= (fun avg =>
                    if flt_int avg 1000
                    then Ok ([] ++ [small_frequent_writes])%list else Ok [])
             else Ok []) = Ok small) as (small & ->).
  { destruct (Z.ltb_spec 10 (len writes)); [|eauto].
    destruct (int_truediv_bound (int_sum (num_added_rows <$> writes))
                (len writes) 126) as (avg & Havg & _); [lia | | lia |].
    - etransitivity; [apply (int_sum_bound _ (2 ^ 63))|].
      + apply Forall_fmap. eapply Forall_impl; [exact Hw|].
        intros h [_ Hh]. now apply int64_abs.
      + rewrite length_fmap. unfold len in Hn.
        change (2 ^ 126) with (2 ^ 63 * 2 ^ 63). nia.
    - unfold avg_rows. rewrite Havg. cbn [mbind result_bind].
      destruct (flt_int avg 1000); eauto. }
  cbn [mbind result_bind].
  assert (len ((fun h => default 0 (ce_timestamp h)) <$> writes) = len writes)
    as El by (unfold len; now rewrite length_fmap).
  rewrite El.
  destruct (Z.ltb_spec 1 (len writes)); [|eauto].
  destruct (time_diffs_bound
              ((fun h => default 0 (ce_timestamp h)) <$> writes) (2 ^ 63))
    as [Hd Hdl].
  { apply Forall_fmap. eapply Forall_impl; [exact Hw|].
    intros h [Hh _]. now apply int64_abs. }
  rewrite length_fmap in Hdl.
  set (diffs := time_diffs _) in *.
  destruct (int_truediv_bound (int_sum diffs) (len diffs) 127)
    as (r & Hr & _); [lia | | unfold len in *; lia |].
  { etransitivity; [apply (int_sum_bound _ (2 * 2 ^ 63)); exact Hd|].
    rewrite Hdl. unfold len in Hn.
    change (2 ^ 127) with (2 ^ 63 * (2 * 2 ^ 63)). nia. }
  destruct (float_div_int_ok r 1000 10) as (avg & Havg & _); [lia | lia |].
  unfold avg_time_diff. fold diffs. rewrite Hr. cbn [mbind result_bind].
  rewrite Havg. cbn [mbind result_bind].
  destruct (flt_int avg 300); [eauto|]. destruct (fgt_int avg 86400); eauto.
Qed.

(** ** The file-size rule on integers *)

Lemma mapM_Forall2 {A B} (f : A -> result B) (l : list A) ys :
  mapM f l = Ok ys -> Forall2 (fun x y => f x = Ok y) l ys.
Proof.
  revert ys. induction l as [|x l IH]; intros ys.
  - intros [= <-]. constructor.
  - cbn [mapM]. fold (mapM f l). intros H.
    apply bind_Ok in H as (y & Hy & H).
    apply bind_Ok in H as (ys' & Hys & [= <-]).
    constructor; [exact Hy | now apply IH].
Qed.

Lemma filter_length_Forall2 {A B} (R : A -> B -> Prop) p q l l' :
  (forall x y, R x y -> p x = q y) -> Forall2 R l l' ->
  length (List.filter p l) = length (List.filter q l').
Proof.
  intros Hpq. induction 1 as [|x y l l' Hxy _ IH]; [reflexivity|].
  cbn [List.filter]. rewrite (Hpq x y Hxy).
  destruct (q y); simpl; now rewrite IH.
Qed.

Lemma small_files_count stats sizes :
  file_sizes_mb stats = Ok sizes ->
  len (small_files sizes) = num_small stats /\ len sizes = len (files stats).
Proof.
  intros Hs. apply mapM_Forall2 in Hs. split.
  - unfold num_small, small_files, len. f_equal. symmetry.
    eapply filter_length_Forall2; [|exact Hs].
    intros f s Hfs. cbv beta in Hfs. unfold small_file.
    pose proof (size_mb_lt_10 (size_bytes f) s Hfs) as Hiff.
    change SMALL_FILE_THRESHOLD_MB with 10.
    destruct (flt_int s 10), (Z.ltb_spec (size_bytes f) (10 * (1024 * 1024)));
      try reflexivity; lia || (exfalso; intuition congruence).
  - unfold len. f_equal. symmetry. eapply Forall2_length. exact Hs.
Qed.

(** The percentage of small files against 50 and 20, on the counts. *)
Lemma pct_small_exact stats sizes pct :
  0 < len (files stats) <= 2 ^ 52 ->
  file_sizes_mb stats = Ok sizes -> pct_small sizes = Ok pct ->
  (fgt_int pct 50 = true <-> len (files stats) < 2 * num_small stats)
  /\ (fgt_int pct 20 = true <-> len (files stats) < 5 * num_small stats).
Proof.
  intros Hn Hs Hp.
  destruct (small_files_count stats sizes Hs) as [Ek En].
  unfold pct_small in Hp. apply bind_Ok in Hp as (r & Hr & Hx).
  rewrite Ek, En in Hr.
  assert (0 <= num_small stats <= len (files stats)) as Hk.
  { unfold num_small, len.
    pose proof (filter_length_le small_file (files stats)). lia. }
  split.
  - exact (pct_gt_50 _ _ r pct Hn Hk Hr Hx).
  - exact (pct_gt_20 _ _ r pct Hn Hk Hr Hx).
Qed.

Lemma int_sum_ge l x :
  Forall (fun s => 0 <= s) l -> In x l -> x <= int_sum l.
Proof.
  unfold int_sum. intros Hl.
  assert (forall a, 0 <= a -> In x l -> x <= fold_left Z.add l a) as H;
    [|apply H; lia].
  induction Hl as [|s l Hs Hl IH]; intros a Ha Hin; [destruct Hin|].
  cbn [fold_left]. destruct Hin as [->|Hin].
  - pose proof (fold_left_add_ge l (a + x) Hl). lia.
  - apply IH; [lia | exact Hin].
Qed.

Lemma Forall2_Forall_impl {A B} (P : A -> Prop) (R R' : A -> B -> Prop) l l' :
  (forall x y, P x -> R x y -> R' x y) ->
  Forall P l -> Forall2 R l l' -> Forall2 R' l l'.
Proof.
  intros HR HP H. induction H as [|x y l l' Hxy _ IH]; [constructor|].
  inversion HP; subst. constructor; auto.
Qed.

(** The mean file size against 64 MB, on the bytes. *)
Lemma avg_size_exact stats sizes avg :
  Forall (fun f => 0 <= size_bytes f) (files stats) ->
  int_sum (file_sizes stats) < 2 ^ 53 ->
  0 < len (files stats) <= 2 ^ 27 ->
  file_sizes_mb stats = Ok sizes -> avg_size_mb sizes = Ok avg ->
  flt_int avg 64 = true
  <-> int_sum (file_sizes stats) < 64 * (1024 * 1024) * len (files stats).
Proof.
  intros Hpos Hsum Hn Hs Ha.
  destruct (small_files_count stats sizes Hs) as [_ En].
  unfold avg_size_mb in Ha. rewrite En in Ha.
  change (flt_int avg 64) with (flt avg (Ffin 64)).
  change (1024 * 1024) with (2 ^ 20).
  assert (Forall (fun s => 0 <= s) (file_sizes stats)) as Hpos'
    by (unfold file_sizes; now apply Forall_fmap).
  assert (Forall (fun f => 0 <= size_bytes f < 2 ^ 53) (files stats)) as Hb.
  { apply Forall_forall. intros f Hf. split.
    - rewrite Forall_forall in Hpos. now apply Hpos.
    - apply Z.le_lt_trans with (int_sum (file_sizes stats)); [|exact Hsum].
      apply int_sum_ge; [exact Hpos'|].
      unfold file_sizes. apply in_map. now apply list_elem_of_In. }
  apply (mean_mb_lt_64 _ _ (float_sum sizes) avg Hn Hsum); [|exact Ha].
  apply float_sum_dyadic; [lia | exact Hpos' | exact Hsum |].
  apply mapM_Forall2 in Hs. unfold file_sizes.
  apply Forall2_fmap_l.
  eapply Forall2_Forall_impl; [|exact Hb|exact Hs].
  intros f s Hf Hfs. cbv beta in Hfs.
  change (1024 * 1024) with (2 ^ 20) in Hfs.
  apply int_truediv_dyadic in Hfs; [exact Hfs | exact Hf | lia].
Qed.

(** ** The averages of the partition rule and of the timeline on integers *)

Lemma avg_files_exact stats avg :
  avg_files_per_partition stats = Ok avg ->
  (num_partitions stats <= 2 ^ 50 ->
   num_lt_int avg 5 = true
   <-> num_partitions stats <= 0
       \/ num_files stats < 5 * num_partitions stats)
  /\ (num_partitions stats <= 2 ^ 46 ->
      num_gt_int avg 100 = true
      <-> 0 < num_partitions stats
          /\ 100 * num_partitions stats < num_files stats).
Proof.
  unfold avg_files_per_partition.
  destruct (Z.ltb_spec 0 (num_partitions stats)) as [Hp|Hp].
  - intros H. apply fmap_Ok in H as (x & Hx & ->). cbn [num_lt_int num_gt_int].
    split; intros Hb.
    + rewrite (truediv_lt_5 (num_files stats) (num_partitions stats) x
                 ltac:(lia) Hx). lia.
    + rewrite (truediv_gt_100 (num_files stats) (num_partitions stats) x
                 ltac:(lia) Hx). lia.
  - intros [= <-]. cbn [num_lt_int num_gt_int]. split; intros _.
    + split; [lia | reflexivity].
    + split; [discriminate | lia].
Qed.

Lemma time_diffs_length (ts : list Z) :
  length (time_diffs ts) = (length ts - 1)%nat.
Proof.
  induction ts as [|t ts IH]; [reflexivity|].
  destruct ts as [|t' ts]; [reflexivity|].
  cbn [time_diffs length] in *. lia.
Qed.

Lemma write_gaps_length history :
  len (write_gaps history) = Z.max 0 (len (writes_of history) - 1).
Proof.
  unfold write_gaps, write_timestamps, len.
  rewrite time_diffs_length, length_fmap. lia.
Qed.

(** The labels on the sums: on at most [2^26] writes the means compare
    with their thresholds as the exact quotients do. *)
Lemma write_patterns_exact history patterns :
  len (writes_of history) <= 2 ^ 26 ->
  DeltaTableInspector._analyze_write_patterns history = Ok patterns ->
  (In small_frequent_writes patterns
   <-> 10 < len (writes_of history)
       /\ int_sum (num_added_rows <$> writes_of history)
          < 1000 * len (writes_of history))
  /\ (In streaming_pattern patterns
      <-> write_gaps history <> []
          /\ int_sum (write_gaps history)
             < 300 * 1000 * len (write_gaps history))
  /\ (In batch_pattern patterns
      <-> write_gaps history <> []
          /\ 86400 * 1000 * len (write_gaps history)
             < int_sum (write_gaps history)).
Proof.
  intros Hn H.
  pose proof (write_gaps_length history) as Hlen.
  assert (write_gaps history <> [] <-> 1 < len (writes_of history)) as Hne.
  { destruct (write_gaps history) eqn:E; unfold len in *; simpl in *.
    - split; [congruence | lia].
    - split; [lia | discriminate]. }
  apply write_patterns_out in H as (small & gap & -> & Hs & Hg).
  assert (In small_frequent_writes gap -> False) as N1.
  { destruct (1 <? _); [destruct Hg as (avg & _ & ->)|subst gap];
      repeat destruct (_ : bool); simpl; intuition discriminate. }
  assert (In streaming_pattern small -> False) as N2.
  { destruct (10 <? _); [destruct Hs as (avg & _ & ->)|subst small];
      repeat destruct (_ : bool); simpl; intuition discriminate. }
  assert (In batch_pattern small -> False) as N3.
  { destruct (10 <? _); [destruct Hs as (avg & _ & ->)|subst small];
      repeat destruct (_ : bool); simpl; intuition discriminate. }
  rewrite !in_app_iff, !Hne. split; [|split].
  - destruct (Z.ltb_spec 10 (len (writes_of history))) as [H10|H10].
    + destruct Hs as (avg & Havg & ->). unfold avg_rows in Havg.
      assert (0 < len (writes_of history) <= 2 ^ 43) as Hb by lia.
      pose proof (truediv_lt_1000 _ _ avg Hb Havg) as Hiff.
      destruct (flt_int avg 1000); simpl; intuition (try lia; discriminate).
    + subst small. simpl. intuition lia.
  - destruct (Z.ltb_spec 1 (len (writes_of history))) as [H1|H1].
    + destruct Hg as (avg & Havg & ->).
      unfold avg_time_diff in Havg. fold (write_gaps history) in Havg.
      apply bind_Ok in Havg as (r & Hr & Hx).
      assert (0 < len (write_gaps history) <= 2 ^ 34) as Hb by lia.
      pose proof (mean_gap_lt_300 _ _ r avg Hb Hr Hx) as Hiff.
      destruct (flt_int avg 300); [|destruct (fgt_int avg 86400)]; simpl;
        intuition (try lia; try discriminate).
    + subst gap. simpl. intuition lia.
  - destruct (Z.ltb_spec 1 (len (writes_of history))) as [H1|H1].
    + destruct Hg as (avg & Havg & ->).
      pose proof (gt_day_not_lt_5_minutes avg) as Hex.
      unfold avg_time_diff in Havg. fold (write_gaps history) in Havg.
      apply bind_Ok in Havg as (r & Hr & Hx).
      assert (0 < len (write_gaps history) <= 2 ^ 26) as Hb by lia.
      pose proof (mean_gap_gt_86400 _ _ r avg Hb Hr Hx) as Hiff.
      destruct (flt_int avg 300); [|destruct (fgt_int avg 86400)]; simpl;
        intuition (try lia; try discriminate).
    + subst gap. simpl. intuition lia.
Qed.

(** ** [get_statistics] returns on a well-formed table *)

Lemma foldlM_returns {A B} (f : B -> A -> result B) (l : list A) (b : B) :
  (forall b x, In x l -> exists b', f b x = Ok b') ->
  exists r, foldlM f b l = Ok r.
Proof.
  revert b. induction l as [|x l IH]; intros b Hf; [simpl; eauto|].
  cbn [foldlM]. destruct (Hf b x ltac:(now left)) as (b' & ->).
  cbn [mbind result_bind]. apply IH. intros b0 x0 Hin. apply Hf. now right.
Qed.

Lemma index_returns {A} (l : list A) (i : nat) :
  (i < length l)%nat -> exists x, index l i = Ok x /\ In x l.
Proof.
  intros Hi. unfold index.
  destruct (lookup_lt_is_Some_2 l i Hi) as (x & Hx). rewrite Hx.
  exists x. split; [reflexivity|].
  apply list_elem_of_In. eapply list_elem_of_lookup_2. exact Hx.
Qed.

Lemma round_finite_or_inf neg0 q :
  finite (round neg0 q) \/ exists s, round neg0 q = Finf s.
Proof.
  unfold round.
  destruct (Qnum q); [left; exact I| |]; unfold finish;
    destruct (Qeq_bool _ _); try (left; exact I);
    destruct (Qle_bool _ _); (left; exact I) || (right; eauto).
Qed.

Lemma int_truediv_finite a b x : int_truediv a b = Ok x -> finite x.
Proof.
  unfold int_truediv.
  destruct (b =? 0); [discriminate|].
  destruct (a =? 0); [intros [= <-]; exact I|].
  destruct (round_finite_or_inf false (a * Z.sgn b # Z.to_pos (Z.abs b)))
    as [Hf | (s & Hs)].
  - destruct (round false _); try contradiction; now intros [= <-].
  - rewrite Hs. discriminate.
Qed.

Section Returns.

Variable fromtimestamp : float -> result datetime.
Hypothesis fromtimestamp_returns :
  forall x, finite x -> exists d, fromtimestamp x = Ok d.

Lemma of_millis_returns ms :
  int64 ms -> exists d, of_millis fromtimestamp ms = Ok d.
Proof.
  intros Hms. unfold of_millis.
  destruct (int_truediv_bound ms 1000 63 ltac:(lia) (int64_abs _ Hms)
              ltac:(lia)) as (x & Hx & _).
  rewrite Hx. cbn [mbind result_bind].
  apply fromtimestamp_returns. eapply int_truediv_finite. exact Hx.
Qed.

Lemma row_partition_values_returns aa i :
  Forall (fun kv : string * list (option cell) => (i < length kv.2)%nat)
         (aa_columns aa) ->
  exists pv, row_partition_values aa i = Ok pv.
Proof.
  intros Hcols. unfold row_partition_values.
  apply foldlM_returns. intros pv kv Hin.
  rewrite Forall_forall in Hcols.
  specialize (Hcols kv ltac:(now apply list_elem_of_In)).
  destruct (startswith kv.1 "partition."); [|eauto].
  destruct (index_returns kv.2 i Hcols) as (c & -> & _).
  cbn [mbind result_bind]. destruct c; eauto.
Qed.

Lemma add_file_returns aa acc i :
  let n := length (aa_path aa) in
  (i < n)%nat ->
  column_ok (fun _ => True) [Some 0] (aa_size_bytes aa) n ->
  column_ok (fun m => exists ms, m = Some ms /\ int64 ms) [Some 0]
    (aa_modification_time aa) n ->
  Forall (fun kv : string * list (option cell) => length kv.2 = n)
         (aa_columns aa) ->
  exists acc', add_file fromtimestamp aa acc i = Ok acc'.
Proof.
  intros n Hi [Hsz _] [Hmt Hms] Hcols. destruct acc as [total fs].
  unfold add_file.
  destruct (index_returns (default [Some 0] (aa_size_bytes aa)) i
              ltac:(lia)) as (c & -> & _).
  cbn [mbind result_bind].
  destruct (row_partition_values_returns aa i) as (pv & ->).
  { eapply Forall_impl; [exact Hcols|]. intros kv Hk. simpl in Hk. lia. }
  cbn [mbind result_bind].
  destruct (index_returns (aa_path aa) i Hi) as (p & -> & _).
  cbn [mbind result_bind].
  destruct (index_returns (default [Some 0] (aa_modification_time aa)) i
              ltac:(lia)) as (m & -> & Hin).
  cbn [mbind result_bind].
  rewrite Forall_forall in Hms.
  destruct (Hms m ltac:(now apply list_elem_of_In)) as (ms & -> & Hint).
  destruct (of_millis_returns ms Hint) as (d & ->).
  cbn [mbind result_bind]. eauto.
Qed.

Lemma get_statistics_returns p table :
  well_formed table -> exists stats, get_statistics fromtimestamp p table = Ok stats.
Proof.
  intros (Hsz & Hmt & Hcols & Hct & Hh). unfold get_statistics.
  destruct (foldlM_returns (add_file fromtimestamp (dt_add_actions table))
              (seq 0 (length (aa_path (dt_add_actions table)))) (0, []))
    as ([total fs] & ->).
  { intros acc i Hin. apply in_seq in Hin.
    destruct Hsz as [H0|Hsz]; [lia|]. destruct Hmt as [H0|Hmt]; [lia|].
    apply add_file_returns; [lia | assumption..]. }
  cbn [mbind result_bind].
  assert (exists ct,
            match dt_metadata table with
            | Some m =>
                match meta_created_time m with
                | Some t => if t =? 0 then Ok None
                            else Some <$> of_millis fromtimestamp t
                | None => Ok None
                end
            | None => Ok None
            end = Ok ct) as (ct & ->).
  { destruct (dt_metadata table) as [m|]; [|eauto]. cbn in Hct.
    destruct (meta_created_time m) as [t|]; [|eauto].
    destruct (t =? 0); [eauto|].
    destruct (of_millis_returns t Hct) as (d & ->). cbn. eauto. }
  cbn [mbind result_bind].
  assert (exists lo,
            match dt_history table with
            | [] => Ok None
            | h :: _ =>
                t ← of_millis fromtimestamp (default 0 (ce_timestamp h));
                Ok (Some {| lo_operation := ce_operation h;
                            lo_timestamp := t;
                            lo_parameters := ce_operationParameters h;
                            lo_metrics := ce_operationMetrics h |})
            end = Ok lo) as (lo & ->).
  { destruct (dt_history table) as [|h hs]; [eauto|].
    inversion Hh; subst.
    destruct (of_millis_returns (default 0 (ce_timestamp h)))
      as (d & ->); [assumption|]. cbn. eauto. }
  cbn [mbind result_bind].
  assert (exists lv, find_last_vacuum fromtimestamp (dt_history table) = Ok lv)
    as (lv & ->).
  { unfold find_last_vacuum.
    destruct (List.find entry_is_vacuum (dt_history table)) as [e|] eqn:E;
      [|eauto].
    apply find_some in E as [Hin _].
    rewrite Forall_forall in Hh.
    destruct (of_millis_returns (default 0 (ce_timestamp e)))
      as (d & ->); [apply Hh; now apply list_elem_of_In|]. cbn. eauto. }
  cbn [mbind result_bind]. eauto.
Qed.

End Returns.

(** * The claims *)

(** C3: the list that [analyze] returns is in non-decreasing order of
    severity rank, with critical = 0, warning = 1, info = 2 and good = 3
    the only ranks that occur; it is a rearrangement of what the seven
    rules returned, one after the other, followed by the fallback if there
    is one, so nothing is dropped and duplicates stay; and the insights of
    one rank are in the order in which the rules produced them.
    Statistics that fit 64 bits always get a list. *)
Theorem analyze_sorted_stable_complete now stats :
  (forall l, analyze now stats = Ok l ->
     exists outs fallback,
       Forall2 (fun r out => r = Ok out) (rule_outputs now stats) outs
       /\ (fallback = [] \/ fallback = [looks_good])
       /\ Permutation (concat outs ++ fallback) l
       /\ Sorted rank_le l
       /\ Forall (fun i => (severity i, severity_rank i) ∈ named_ranks) l
       /\ forall r, List.filter (of_rank r) l
                    = List.filter (of_rank r) (concat outs ++ fallback))
  /\ (storable stats -> exists l, analyze now stats = Ok l).
Proof.
  split; [|apply analyze_returns].
  intros l H. apply analyze_Ok in H as (pre & Hpre & ->).
  apply collect_Ok in Hpre as (rs & Hrs & ->).
  pose proof (run_rules_severity _ _ _ Hrs) as Hsev.
  apply run_rules_outputs in Hrs as (outs & HF & ->).
  exists outs, (if existsb has_issue (concat outs) then [] else [looks_good]).
  split; [exact HF|]. split; [destruct (existsb _ _); auto|].
  split; [apply sort_by_perm|]. split; [apply sort_by_sorted|].
  split; [|intros r; apply sort_by_stable].
  eapply Permutation_Forall; [apply sort_by_perm|].
  apply Forall_app. split.
  - eapply Forall_impl; [exact Hsev | apply rule_severity_rank].
  - destruct (existsb _ _); [constructor|].
    constructor; [|constructor].
    change (severity_rank looks_good) with 3. unfold named_ranks. set_solver.
Qed.

Lemma analyze_sorted_stable_complete_witness :
  exists l, analyze 0 mixed_stats = Ok l /\ Sorted rank_le l.
Proof.
  eexists. split; [vm_compute; reflexivity|].
  destruct (analyze_sorted_stable_complete 0 mixed_stats) as [H _].
  destruct (H _ ltac:(vm_compute; reflexivity))
    as (outs & fallback & _ & _ & _ & Hsorted & _).
  exact Hsorted.
Defined.

(** C4: when [analyze] returns a list, that list contains the good
    insight "Table Configuration Looks Good" exactly if none of the
    insights of the rules is critical or a warning; it is then the only
    good insight, it occurs once, and it was appended after all the rules
    had run.  When a rule raises, [analyze] raises the same exception and
    returns no list.  Statistics that fit 64 bits always get a list. *)
Theorem analyze_fallback now stats :
  (forall l, analyze now stats = Ok l ->
     exists rs, run_rules now stats = Ok rs
       /\ (In looks_good l <-> no_issue rs)
       /\ (no_issue rs ->
             l = sort_by severity_rank (rs ++ [looks_good])
             /\ List.filter is_good l = [looks_good])
       /\ (~ no_issue rs ->
             l = sort_by severity_rank rs /\ List.filter is_good l = []))
  /\ (forall e, run_rules now stats = Raise e -> analyze now stats = Raise e)
  /\ (storable stats -> exists l, analyze now stats = Ok l).
Proof.
  split; [|split; [|apply analyze_returns]].
  - intros l H. apply analyze_Ok in H as (pre & Hpre & ->).
    apply collect_Ok in Hpre as (rs & Hrs & ->).
    exists rs. split; [exact Hrs|].
    pose proof (run_rules_severity _ _ _ Hrs) as Hsev.
    assert (Hrules : List.filter is_good rs = []).
    { clear Hrs. induction Hsev as [|i rs Hi _ IH]; simpl; [reflexivity|].
      now rewrite (rule_severity_not_good _ Hi). }
    rewrite <- existsb_has_issue.
    destruct (existsb has_issue rs) eqn:E.
    + rewrite app_nil_r.
      assert (Hnone : List.filter is_good (sort_by severity_rank rs) = []).
      { apply Permutation_nil. rewrite <- Hrules.
        apply filter_perm, sort_by_perm. }
      split; [|split; [discriminate | auto]].
      split; [|discriminate]. intros Hin.
      assert (In looks_good (List.filter is_good (sort_by severity_rank rs)))
        as Hin' by (apply filter_In; auto).
      rewrite Hnone in Hin'. destruct Hin'.
    + assert (Hone : List.filter is_good
                       (sort_by severity_rank (rs ++ [looks_good]))
                     = [looks_good]).
      { apply Permutation_length_1_inv.
        transitivity (List.filter is_good (rs ++ [looks_good])).
        - rewrite List.filter_app, Hrules. reflexivity.
        - apply filter_perm, sort_by_perm. }
      split; [|split; [auto | intros Hn; now destruct Hn]].
      split; [reflexivity|]. intros _.
      eapply Permutation_in; [apply sort_by_perm|].
      apply in_or_app. right. now left.
  - intros e He. unfold analyze, collect. rewrite He. reflexivity.
Qed.

Lemma analyze_fallback_witness :
  exists l rs,
    analyze 0 vacuumed_stats = Ok l
    /\ run_rules 0 vacuumed_stats = Ok rs
    /\ (In looks_good l <-> no_issue rs).
Proof.
  destruct (analyze_fallback 0 vacuumed_stats) as [H _].
  destruct (H [looks_good] ltac:(vm_compute; reflexivity))
    as (rs & Hrs & Hiff & _).
  exists [looks_good], rs. split; [vm_compute; reflexivity|].
  split; [exact Hrs | exact Hiff].
Defined.

(** C5 fails as stated: with one file in five below 10 MB the percentage
    of small files is exactly 20, inside the range 20-50%, and no "Some
    Small Files Detected" is in the list. *)
Lemma small_files_20_percent_counterexample :
  len (files one_in_five_stats) = 5
  /\ num_small one_in_five_stats = 1
  /\ (exists sizes,
        file_sizes_mb one_in_five_stats = Ok sizes
        /\ pct_small sizes = Ok (Ffin 20))
  /\ analyze 0 one_in_five_stats = Ok [looks_good]
  /\ ~ emits [looks_good] "warning" "Some Small Files Detected".
Proof.
  split; [reflexivity|]. split; [reflexivity|]. split; [|split].
  - eexists. split; [vm_compute; reflexivity|]. vm_compute. reflexivity.
  - vm_compute. reflexivity.
  - rewrite emits_singleton. intros [H _]. discriminate H.
Qed.

(** C5, as the code has it: with a non-empty file list, [pct] the
    percentage that the rule computes of the files below 10 MB and [avg]
    the mean file size in MB that it computes, the returned list holds
    the critical "Small Files Problem Detected" exactly if [pct > 50], the
    warning "Some Small Files Detected" exactly if [20 < pct <= 50], and
    the warning "Suboptimal Average File Size" exactly if [avg < 64],
    whatever the other two do.  The two are binary64 values, and they
    compare with the thresholds as the exact quotients do: up to 2^52
    files, the critical insight is there exactly if more than half of the
    files are below 10 MB and the warning exactly if more than a fifth
    and at most half of them are; up to 2^27 files of non-negative sizes
    that sum to less than 2^53 bytes, the average is suboptimal exactly
    if the bytes are fewer than 64 MB per file.  Statistics that fit 64
    bits always get a list. *)
Theorem file_size_insights now stats :
  files stats <> [] ->
  (forall l, analyze now stats = Ok l ->
     (exists sizes pct avg,
        file_sizes_mb stats = Ok sizes
        /\ pct_small sizes = Ok pct
        /\ avg_size_mb sizes = Ok avg
        /\ (emits l "critical" "Small Files Problem Detected"
            <-> fgt_int pct 50 = true)
        /\ (emits l "warning" "Some Small Files Detected"
            <-> fgt_int pct 20 = true /\ fgt_int pct 50 = false)
        /\ (emits l "warning" "Suboptimal Average File Size"
            <-> flt_int avg 64 = true))
     /\ (len (files stats) <= 2 ^ 52 ->
         (emits l "critical" "Small Files Problem Detected"
          <-> len (files stats) < 2 * num_small stats)
         /\ (emits l "warning" "Some Small Files Detected"
             <-> len (files stats) < 5 * num_small stats
                 /\ 2 * num_small stats <= len (files stats)))
     /\ (Forall (fun f => 0 <= size_bytes f) (files stats) ->
         int_sum (file_sizes stats) < 2 ^ 53 ->
         len (files stats) <= 2 ^ 27 ->
         emits l "warning" "Suboptimal Average File Size"
         <-> int_sum (file_sizes stats)
             < 64 * (1024 * 1024) * len (files stats)))
  /\ (storable stats -> exists l, analyze now stats = Ok l).
Proof.
  intros Hne. split; [|apply analyze_returns].
  intros l Hl.
  destruct (analyze_emits now stats l 0 _ "critical"
              "Small Files Problem Detected" Hl eq_refl ltac:(in_catalog))
    as (out & Hout & E1).
  destruct (analyze_emits now stats l 0 _ "warning"
              "Some Small Files Detected" Hl eq_refl ltac:(in_catalog))
    as (out' & Hout' & E2).
  destruct (analyze_emits now stats l 0 _ "warning"
              "Suboptimal Average File Size" Hl eq_refl ltac:(in_catalog))
    as (out'' & Hout'' & E3).
  change (rule_outputs now stats !! 0%nat)
    with (Some (_analyze_file_sizes stats [])) in *.
  injection Hout as Hout. rewrite Hout in Hout', Hout''.
  injection Hout' as <-. injection Hout'' as <-.
  destruct (file_sizes_out stats out Hne Hout)
    as (sizes & pct & avg & Hs & Hp & Ha & ->).
  pose proof (len_pos _ Hne) as Hpos.
  assert ((emits l "critical" "Small Files Problem Detected"
           <-> fgt_int pct 50 = true)
          /\ (emits l "warning" "Some Small Files Detected"
              <-> fgt_int pct 20 = true /\ fgt_int pct 50 = false)
          /\ (emits l "warning" "Suboptimal Average File Size"
              <-> flt_int avg 64 = true)) as (F1 & F2 & F3).
  { rewrite E1, E2, E3. split; [|split]; emits_solver. }
  split; [|split].
  - exists sizes, pct, avg.
    exact (conj Hs (conj Hp (conj Ha (conj F1 (conj F2 F3))))).
  - intros Hn.
    destruct (pct_small_exact stats sizes pct ltac:(lia) Hs Hp) as [P50 P20].
    rewrite F1, F2, P20. split; [exact P50|].
    destruct (fgt_int pct 50).
    + assert (len (files stats) < 2 * num_small stats) as Hhalf
        by now apply P50.
      split; [intros [_ [=]] | lia].
    + assert (~ len (files stats) < 2 * num_small stats) as Hhalf
        by (intros Hlt; apply P50 in Hlt; discriminate).
      split; [intros [Hfifth _]; lia | intros [Hfifth _]; auto].
  - intros Hnonneg Hsum Hn.
    rewrite F3.
    apply (avg_size_exact stats sizes avg Hnonneg Hsum ltac:(lia) Hs Ha).
Qed.

Lemma file_size_insights_witness :
  exists l,
    analyze 0 mixed_stats = Ok l
    /\ emits l "critical" "Small Files Problem Detected".
Proof.
  destruct (file_size_insights 0 mixed_stats ltac:(discriminate)) as [H _].
  eexists. split; [vm_compute; reflexivity|].
  destruct (H _ ltac:(vm_compute; reflexivity)) as (_ & Hexact & _).
  apply Hexact; vm_compute; [discriminate | reflexivity].
Defined.

(** C6: the partition count is the number of distinct partition-value
    dictionaries of the files.  In the list that [analyze] returns, an
    unpartitioned table gets "Table Not Partitioned" exactly if its total
    size exceeds 10 GiB; a partitioned one gets "Over-Partitioned Table"
    exactly if it has more than 1000 partitions and fewer than 5 files per
    partition on average, and "Under-Partitioned Table" exactly if it has
    fewer than 10 partitions and more than 100 files per partition on
    average, the average being the binary64 [num_files / num_partitions];
    up to 2^50 partitions it is below 5 exactly if [num_files] is below 5
    times the partitions, and above 100 exactly if [num_files] is above
    100 times the partitions.  With 1500 files in 3 partitions the
    over-partition rule stays silent and "High File Count" is there.
    Statistics that fit 64 bits always get a list. *)
Theorem partitioning_insights now stats :
  num_partitions stats = len (remove_dups (partition_values <$> files stats))
  /\ (forall l, analyze now stats = Ok l ->
        (partition_columns stats = [] ->
           (emits l "info" "Table Not Partitioned"
            <-> 10 * 2 ^ 30 < total_size_bytes stats))
        /\ (partition_columns stats <> [] ->
              exists avg,
                avg_files_per_partition stats = Ok avg
                /\ (emits l "warning" "Over-Partitioned Table"
                    <-> 1000 < num_partitions stats
                        /\ num_lt_int avg 5 = true)
                /\ (emits l "info" "Under-Partitioned Table"
                    <-> num_partitions stats < 10
                        /\ num_gt_int avg 100 = true))
        /\ (partition_columns stats <> [] ->
            num_partitions stats <= 2 ^ 50 ->
              (emits l "warning" "Over-Partitioned Table"
               <-> 1000 < num_partitions stats
                   /\ num_files stats < 5 * num_partitions stats)
              /\ (emits l "info" "Under-Partitioned Table"
                  <-> 0 < num_partitions stats < 10
                      /\ 100 * num_partitions stats < num_files stats))
        /\ (num_files stats = 1500 -> num_partitions stats = 3 ->
              ~ emits l "warning" "Over-Partitioned Table"
              /\ emits l "warning" "High File Count"))
  /\ (storable stats -> exists l, analyze now stats = Ok l).
Proof.
  split; [apply num_partitions_distinct|].
  split; [|apply analyze_returns].
  intros l Hl.
  destruct (analyze_emits now stats l 3 _ "info" "Table Not Partitioned"
              Hl eq_refl ltac:(in_catalog)) as (out & Hout & E1).
  destruct (analyze_emits now stats l 3 _ "warning" "Over-Partitioned Table"
              Hl eq_refl ltac:(in_catalog)) as (out' & Hout' & E2).
  destruct (analyze_emits now stats l 3 _ "info" "Under-Partitioned Table"
              Hl eq_refl ltac:(in_catalog)) as (out'' & Hout'' & E3).
  destruct (analyze_emits now stats l 1 _ "warning" "High File Count"
              Hl eq_refl ltac:(in_catalog)) as (o2 & Ho2 & E4).
  change (rule_outputs now stats !! 3%nat)
    with (Some (_analyze_partitioning stats [])) in *.
  change (rule_outputs now stats !! 1%nat)
    with (Some (_analyze_file_count stats [])) in *.
  injection Hout as Hout. rewrite Hout in Hout', Hout''.
  injection Hout' as <-. injection Hout'' as <-.
  rewrite file_count_out in Ho2. injection Ho2 as <-.
  setoid_rewrite E1. setoid_rewrite E2. setoid_rewrite E3.
  setoid_rewrite E4. clear E1 E2 E3 E4.
  apply partitioning_out in Hout.
  destruct (partition_columns stats) as [|c cs].
  - split; [intros _|split; [congruence|split; [congruence|]]].
    + destruct (Z.ltb_spec (10 * 2 ^ 30) (total_size_bytes stats)).
      * destruct Hout as (size & _ & ->). emits_solver.
      * subst out. emits_solver. lia.
    + intros Hn Hp. rewrite Hn.
      assert (exists o, out = o /\ forall i, In i o ->
                title i = "Table Not Partitioned"%string) as (o & -> & Ho).
      { destruct (_ <? _); [destruct Hout as (s & _ & ->)|subst out];
          eexists; (split; [reflexivity|]); simpl; intuition (subst; auto). }
      split; [|emits_solver].
      intros (i & Hi & _ & Ht). apply Ho in Hi. congruence.
  - destruct Hout as (avg & s & Havg & ->).
    assert ((emits
               (if (1000 <? num_partitions stats) && num_lt_int avg 5
                then [over_partitioned (num_partitions stats) s]
                else if (num_partitions stats <? 10) && num_gt_int avg 100
                     then [under_partitioned (num_partitions stats) s]
                     else []) "warning" "Over-Partitioned Table"
             <-> 1000 < num_partitions stats /\ num_lt_int avg 5 = true)
            /\ (emits
                  (if (1000 <? num_partitions stats) && num_lt_int avg 5
                   then [over_partitioned (num_partitions stats) s]
                   else if (num_partitions stats <? 10) && num_gt_int avg 100
                        then [under_partitioned (num_partitions stats) s]
                        else []) "info" "Under-Partitioned Table"
                <-> num_partitions stats < 10 /\ num_gt_int avg 100 = true))
      as [F1 F2].
    { split; emits_solver;
        repeat match goal with
               | H : _ && _ = true |- _ => apply andb_prop in H as [? ?]
               | H : _ && _ = false |- _ => apply andb_false_iff in H
               | H : (_ <? _) = true |- _ => apply Z.ltb_lt in H
               | H : (_ <? _) = false |- _ => apply Z.ltb_ge in H
               end; try lia; intuition (try congruence; try lia). }
    split; [congruence|]. split; [|split].
    + intros _. exists avg. split; [exact Havg|]. split; assumption.
    + intros _ Hb. rewrite F1, F2.
      destruct (avg_files_exact stats avg Havg) as [L5 G100].
      split.
      * rewrite (L5 Hb). lia.
      * split.
        -- intros [Hlt Hgt]. apply G100 in Hgt; lia.
        -- intros [Hlt Hgt]. split; [lia|]. apply G100; lia.
    + intros Hn Hp. rewrite Hn, Hp. simpl andb. split; emits_solver.
Qed.

Lemma partitioning_insights_witness :
  exists l,
    analyze 0 three_partition_stats = Ok l
    /\ ~ emits l "warning" "Over-Partitioned Table"
    /\ emits l "warning" "High File Count".
Proof.
  destruct (partitioning_insights 0 three_partition_stats) as (_ & H & _).
  eexists. split; [vm_compute; reflexivity|].
  destruct (H _ ltac:(vm_compute; reflexivity)) as (_ & _ & _ & Hd).
  apply Hd; vm_compute; reflexivity.
Defined.

(** C7, as the code has it: in the list that [analyze] returns, a table
    never vacuumed gets "Table Has Never Been Vacuumed" exactly if it has
    more than 10 versions; a table vacuumed at [last] gets "Vacuum
    Overdue" exactly if the whole days from [last] to the clock reading
    exceed 28, that is if at least 29 days passed.  Statistics that fit 64
    bits always get a list.  Statistics that [get_statistics] builds from
    a history of 11 entries, none of them a VACUUM, have no last vacuum
    and 11 versions, and get the never-vacuumed warning. *)
Theorem vacuum_insights now stats :
  (forall l, analyze now stats = Ok l ->
     match last_vacuum stats with
     | None =>
         (emits l "warning" "Table Has Never Been Vacuumed"
          <-> 10 < total_versions stats)
         /\ (10 < total_versions stats -> In (never_vacuumed stats) l)
         /\ ~ emits l "warning" "Vacuum Overdue"
     | Some last =>
         (emits l "warning" "Vacuum Overdue"
          <-> 29 * microseconds_per_day <= now - last)
         /\ (29 * microseconds_per_day <= now - last ->
             In (vacuum_overdue (timedelta_days now last)) l)
         /\ ~ emits l "warning" "Table Has Never Been Vacuumed"
     end)
  /\ (storable stats -> exists l, analyze now stats = Ok l)
  /\ (forall fromtimestamp p table,
        get_statistics fromtimestamp p table = Ok stats ->
        length (dt_history table) = 11%nat ->
        Forall (fun e => ce_operation e <> Some "VACUUM"%string)
               (dt_history table) ->
        last_vacuum stats = None /\ total_versions stats = 11
        /\ forall l, analyze now stats = Ok l -> In (never_vacuumed stats) l).
Proof.
  assert (forall l, analyze now stats = Ok l ->
     match last_vacuum stats with
     | None =>
         (emits l "warning" "Table Has Never Been Vacuumed"
          <-> 10 < total_versions stats)
         /\ (10 < total_versions stats -> In (never_vacuumed stats) l)
         /\ ~ emits l "warning" "Vacuum Overdue"
     | Some last =>
         (emits l "warning" "Vacuum Overdue"
          <-> 29 * microseconds_per_day <= now - last)
         /\ (29 * microseconds_per_day <= now - last ->
             In (vacuum_overdue (timedelta_days now last)) l)
         /\ ~ emits l "warning" "Table Has Never Been Vacuumed"
     end) as Main.
  { intros l Hl.
    destruct (analyze_emits now stats l 2 _ "warning"
                "Table Has Never Been Vacuumed" Hl eq_refl ltac:(in_catalog))
      as (out & Hout & E1).
    destruct (analyze_emits now stats l 2 _ "warning" "Vacuum Overdue"
                Hl eq_refl ltac:(in_catalog)) as (out' & Hout' & E2).
    pose proof (fun i => analyze_In now stats l 2 out i Hl Hout) as HIn.
    change (rule_outputs now stats !! 2%nat)
      with (Some (_analyze_vacuum_history now stats [])) in *.
    rewrite vacuum_history_out in Hout, Hout'.
    injection Hout as <-. injection Hout' as <-.
    destruct (last_vacuum stats) as [last|]; rewrite E1, E2; clear E1 E2.
    - assert (28 < timedelta_days now last
              <-> 29 * microseconds_per_day <= now - last) as Hdays.
      { unfold timedelta_days, microseconds_per_day.
        pose proof (Z.div_mod (now - last) 86400000000 ltac:(lia)).
        pose proof (Z.mod_pos_bound (now - last) 86400000000 ltac:(lia)).
        lia. }
      rewrite <- Hdays.
      destruct (Z.ltb_spec 28 (timedelta_days now last)).
      + split; [emits_solver|]. split; [|emits_solver].
        intros _. apply HIn. now left.
      + split; [emits_solver; lia|]. split; [lia | emits_solver].
    - destruct (Z.ltb_spec 10 (total_versions stats)).
      + split; [emits_solver|]. split; [|emits_solver].
        intros _. apply HIn. now left.
      + split; [emits_solver; lia|]. split; [lia | emits_solver]. }
  split; [exact Main|]. split; [apply analyze_returns|].
  intros fromtimestamp p table Hst Hlen Hnv.
  apply get_statistics_inv in Hst
    as (total & fs & _ & Hlv & _ & _ & _ & Htv).
  rewrite find_last_vacuum_none in Hlv by exact Hnv.
  injection Hlv as Hlv. rewrite Hlen in Htv.
  split; [auto|]. split; [exact Htv|].
  intros l Hl. specialize (Main l Hl). rewrite <- Hlv in Main.
  apply Main. lia.
Qed.

Lemma vacuum_insights_witness :
  exists l,
    analyze 0 mixed_stats = Ok l /\ In (never_vacuumed mixed_stats) l.
Proof.
  destruct (vacuum_insights 0 mixed_stats) as (H & _).
  eexists. split; [vm_compute; reflexivity|].
  destruct (H _ ltac:(vm_compute; reflexivity)) as (_ & Hin & _).
  apply Hin. vm_compute. reflexivity.
Defined.

(** C7 fails as stated: a vacuum 28 days and 12 hours before the clock
    reading lies more than 28 days back, and the list has no "Vacuum
    Overdue". *)
Lemma vacuum_overdue_counterexample :
  let now := 28 * microseconds_per_day + 43200000000 in
  last_vacuum vacuumed_stats = Some 0
  /\ 28 * microseconds_per_day < now - 0
  /\ analyze now vacuumed_stats = Ok [looks_good]
  /\ ~ emits [looks_good] "warning" "Vacuum Overdue".
Proof.
  split; [reflexivity|]. split; [reflexivity|]. split; [reflexivity|].
  rewrite emits_singleton. intros [H _]. discriminate H.
Qed.

(** C1 fails as stated: the same statistics analysed at two readings of
    the clock give two different lists. *)
Lemma analyze_clock_counterexample :
  analyze (29 * microseconds_per_day) vacuumed_stats
    = Ok [vacuum_overdue 29]
  /\ analyze (1 * microseconds_per_day) vacuumed_stats = Ok [looks_good]
  /\ analyze (29 * microseconds_per_day) vacuumed_stats
     <> analyze (1 * microseconds_per_day) vacuumed_stats.
Proof.
  assert (analyze (29 * microseconds_per_day) vacuumed_stats
          = Ok [vacuum_overdue 29]) as E1 by reflexivity.
  assert (analyze (1 * microseconds_per_day) vacuumed_stats
          = Ok [looks_good]) as E2 by reflexivity.
  rewrite E1, E2. repeat split. discriminate.
Qed.

(** C1, as the code has it: [analyze] is a function of the statistics
    and of the wall clock that [_analyze_vacuum_history] reads, and of the
    clock only through the whole days since the last vacuum.  Two runs
    whose clock readings give the same number of days, and any two runs
    on statistics without a last vacuum, return the same list or raise
    the same exception. *)
Theorem analyze_clock now1 now2 stats :
  (forall last, last_vacuum stats = Some last ->
                timedelta_days now1 last = timedelta_days now2 last) ->
  analyze now1 stats = analyze now2 stats.
Proof.
  intros Hdays.
  assert (forall ins, _analyze_vacuum_history now1 stats ins
                      = _analyze_vacuum_history now2 stats ins) as Hv.
  { intros ins. unfold _analyze_vacuum_history.
    destruct (last_vacuum stats) as [last|]; [|reflexivity].
    now rewrite (Hdays last eq_refl). }
  unfold analyze, collect, run_rules.
  destruct (_analyze_file_sizes stats []) as [i1|]; [|reflexivity].
  cbn [mbind result_bind].
  destruct (_analyze_file_count stats i1) as [i2|]; [|reflexivity].
  cbn [mbind result_bind]. now rewrite Hv.
Qed.

Lemma analyze_clock_witness :
  analyze (30 * microseconds_per_day) vacuumed_stats
  = analyze (30 * microseconds_per_day + 1) vacuumed_stats.
Proof.
  apply analyze_clock. intros last [= <-]. reflexivity.
Defined.

(** C10: when the file list has at least two entries, all of size 0,
    the mean size is 0.0, the guard on the mean makes the coefficient of
    variation the integer 0 without dividing, the data-skew rule returns
    nothing, and the list that [analyze] returns has no "Data Skew
    Detected".  For every statistics value [analyze] raises no
    [ZeroDivisionError]: every division is guarded.  Statistics that fit
    64 bits always get a list. *)
Theorem zero_sizes_no_skew now stats :
  2 <= len (files stats) < 2 ^ 63 ->
  Forall (fun f => size_bytes f = 0) (files stats) ->
  mean_size stats = Ok (Fzero false)
  /\ coef_variation stats = Ok (NInt 0)
  /\ _analyze_data_skew stats [] = Ok []
  /\ (forall l, analyze now stats = Ok l ->
                ~ emits l "warning" "Data Skew Detected")
  /\ (forall now' stats', analyze now' stats' <> Raise ZeroDivisionError)
  /\ (storable stats -> exists l, analyze now stats = Ok l).
Proof.
  intros Hlen Hz.
  destruct (coef_variation_zeros stats ltac:(lia) Hz) as [Hmean Hcv].
  assert (_analyze_data_skew stats [] = Ok []) as Hskew.
  { unfold _analyze_data_skew.
    destruct (Z.ltb_spec (len (files stats)) 2); [lia|].
    rewrite Hcv. reflexivity. }
  repeat split; try assumption.
  - intros l Hl.
    destruct (analyze_emits now stats l 5 _ "warning" "Data Skew Detected"
                Hl eq_refl ltac:(in_catalog)) as (out & Hout & ->).
    change (rule_outputs now stats !! 5%nat)
      with (Some (_analyze_data_skew stats [])) in Hout.
    rewrite Hskew in Hout. injection Hout as <-. apply emits_nil.
  - intros now' stats' H. apply analyze_raise in H. discriminate.
  - apply analyze_returns.
Qed.

Lemma zero_sizes_no_skew_witness :
  coef_variation empty_files_stats = Ok (NInt 0).
Proof.
  apply (zero_sizes_no_skew 0 empty_files_stats).
  - unfold len. simpl. lia.
  - repeat constructor.
Defined.

(** C2 fails as stated: a value that [int()] does not parse makes the
    extractor raise [ValueError], for the indexed-column count and for
    the retention duration alike. *)
Lemma unparseable_config_counterexample :
  _detect_advanced_features {[ indexed_cols_key := "all"%string ]}
                            plain_protocol
    = Raise (ValueError "all")
  /\ _detect_advanced_features
       {[ retention_key := "interval 1 week"%string ]} plain_protocol
     = Raise (ValueError "interval 1 week").
Proof. split; reflexivity. Qed.

(** C2, as the code has it: the extractor returns a report exactly when
    [int()] parses both the indexed-column text and the retention text
    (the value with every "hours" removed and the whitespace stripped),
    and the report then carries the two parsed numbers; a text that does
    not parse raises [ValueError], the indexed-column one first.  The
    defaults 32 and 168 are those of a key that is absent. *)
Theorem detect_advanced_features_parsing config protocol :
  match py_int (indexed_cols_text config), py_int (retention_text config) with
  | Ok cols, Ok hours =>
      exists report,
        _detect_advanced_features config protocol = Ok report
        /\ ds_num_indexed_cols (data_skipping report) = cols
        /\ vacuum_retention_hours report = hours
  | Ok _, Raise e => _detect_advanced_features config protocol = Raise e
  | Raise e, _ => _detect_advanced_features config protocol = Raise e
  end
  /\ (config !! indexed_cols_key = None ->
      py_int (indexed_cols_text config) = Ok 32)
  /\ (config !! retention_key = None ->
      py_int (retention_text config) = Ok 168).
Proof.
  split; [|split].
  - unfold _detect_advanced_features.
    fold indexed_cols_key retention_key.
    fold (indexed_cols_text config). fold (retention_text config).
    destruct (py_int (indexed_cols_text config)) as [cols|e];
      [|reflexivity].
    cbn [mbind result_bind].
    destruct (py_int (retention_text config)) as [hours|e]; [|reflexivity].
    cbn [mbind result_bind]. eexists. split; [reflexivity|]. split; reflexivity.
  - intros H. unfold indexed_cols_text, config_get. rewrite H. reflexivity.
  - intros H. unfold retention_text, config_get. rewrite H. reflexivity.
Qed.

Lemma detect_advanced_features_parsing_witness :
  py_int (indexed_cols_text ∅) = Ok 32
  /\ py_int (retention_text ∅) = Ok 168.
Proof.
  destruct (detect_advanced_features_parsing ∅ plain_protocol)
    as (_ & Hcols & Hhours).
  split; [apply Hcols | apply Hhours]; reflexivity.
Defined.

(** C8: in statistics that [get_statistics] returns, the total size is
    the sum of the sizes of the files of the list, and the number of
    files is the length of the list.  It returns statistics for every
    well-formed table, if the platform's [fromtimestamp] converts every
    finite timestamp. *)
Theorem get_statistics_totals fromtimestamp p table :
  (forall stats,
     get_statistics fromtimestamp p table = Ok stats ->
     total_size_bytes stats = int_sum (size_bytes <$> files stats)
     /\ num_files stats = len (files stats))
  /\ ((forall x, finite x -> exists d, fromtimestamp x = Ok d) ->
      well_formed table ->
      exists stats, get_statistics fromtimestamp p table = Ok stats).
Proof.
  split.
  - intros stats H.
    apply get_statistics_inv in H
      as (total & fs & Hloop & _ & -> & -> & -> & _).
    split; [|reflexivity].
    apply (add_files_total _ _ _ _ _ _ _ Hloop). reflexivity.
  - intros Hfrom Hwf. now apply get_statistics_returns.
Qed.

Lemma get_statistics_totals_witness :
  exists stats,
    get_statistics utc_fromtimestamp "/data/table" sample_table = Ok stats
    /\ total_size_bytes stats = 1200
    /\ num_files stats = 2.
Proof.
  eexists. split; [vm_compute; reflexivity|].
  destruct (get_statistics_totals utc_fromtimestamp "/data/table"
              sample_table) as [H _].
  destruct (H _ eq_refl) as [Ht Hn].
  split; [exact Ht | exact Hn].
Defined.

(** C9 fails as stated: an OPTIMIZE one minute after the only WRITE gives
    a mean gap between commits of one minute, and no pattern is
    reported. *)
Lemma commit_gap_counterexample :
  mean_commit_gap_below_5_minutes optimize_after_write
  /\ DeltaTableInspector._analyze_write_patterns optimize_after_write = Ok [].
Proof.
  split; [|reflexivity]. split; [discriminate | reflexivity].
Qed.

(** C9, as the code has it: among the WRITE, MERGE, UPDATE and DELETE
    operations of the history, "small frequent writes" is reported
    exactly if there are more than 10 of them and the mean of their added
    rows is below 1000; "streaming pattern" exactly if there are at least
    two of them and the mean gap between consecutive ones is below 5
    minutes; "batch pattern" exactly if there are at least two and that
    mean gap exceeds 1 day.  The means are binary64 values; up to 2^26
    writes they compare with the thresholds as the exact quotients do:
    the rows sum to less than 1000 per write, the gaps in milliseconds to
    less than 300000 per gap, or to more than 86400000 per gap.  A
    history that fits 64 bits always gets an answer. *)
Theorem write_pattern_labels history :
  (forall patterns,
     DeltaTableInspector._analyze_write_patterns history = Ok patterns ->
     (In small_frequent_writes patterns
      <-> 10 < len (writes_of history)
          /\ exists avg, avg_rows (writes_of history) = Ok avg
                         /\ flt_int avg 1000 = true)
     /\ (In streaming_pattern patterns
         <-> 1 < len (writes_of history)
             /\ exists avg,
                  avg_time_diff (write_timestamps history) = Ok avg
                  /\ flt_int avg 300 = true)
     /\ (In batch_pattern patterns
         <-> 1 < len (writes_of history)
             /\ exists avg,
                  avg_time_diff (write_timestamps history) = Ok avg
                  /\ fgt_int avg 86400 = true))
  /\ (forall patterns,
        DeltaTableInspector._analyze_write_patterns history = Ok patterns ->
        len (writes_of history) <= 2 ^ 26 ->
        (In small_frequent_writes patterns
         <-> 10 < len (writes_of history)
             /\ int_sum (num_added_rows <$> writes_of history)
                < 1000 * len (writes_of history))
        /\ (In streaming_pattern patterns
            <-> write_gaps history <> []
                /\ int_sum (write_gaps history)
                   < 300 * 1000 * len (write_gaps history))
        /\ (In batch_pattern patterns
            <-> write_gaps history <> []
                /\ 86400 * 1000 * len (write_gaps history)
                   < int_sum (write_gaps history)))
  /\ (storable_history history ->
      exists patterns,
        DeltaTableInspector._analyze_write_patterns history = Ok patterns).
Proof.
  split; [|split; [|apply write_patterns_returns_on]].
  2:{ intros patterns H Hn. now apply write_patterns_exact. }
  intros patterns H.
  apply write_patterns_out in H as (small & gap & -> & Hs & Hg).
  assert (In small_frequent_writes gap -> False) as N1.
  { destruct (1 <? _); [destruct Hg as (avg & _ & ->)|subst gap];
      repeat destruct (_ : bool); simpl; intuition discriminate. }
  assert (In streaming_pattern small -> False) as N2.
  { destruct (10 <? _); [destruct Hs as (avg & _ & ->)|subst small];
      repeat destruct (_ : bool); simpl; intuition discriminate. }
  assert (In batch_pattern small -> False) as N3.
  { destruct (10 <? _); [destruct Hs as (avg & _ & ->)|subst small];
      repeat destruct (_ : bool); simpl; intuition discriminate. }
  rewrite !in_app_iff. split; [|split].
  - destruct (Z.ltb_spec 10 (len (writes_of history))).
    + destruct Hs as (avg & Havg & ->). split.
      * intros [Hin | Hin]; [|contradiction]. split; [assumption|].
        exists avg. split; [exact Havg|].
        destruct (flt_int avg 1000); [reflexivity | destruct Hin].
      * intros (_ & avg' & Havg' & Hlt). left.
        rewrite Havg in Havg'. injection Havg' as <-. rewrite Hlt. now left.
    + subst small. split; [intros [[] | Hin]; contradiction | lia].
  - destruct (Z.ltb_spec 1 (len (writes_of history))).
    + destruct Hg as (avg & Havg & ->). split.
      * intros [Hin | Hin]; [contradiction|]. split; [assumption|].
        exists avg. split; [exact Havg|].
        destruct (flt_int avg 300); [reflexivity|].
        destruct (fgt_int avg 86400); simpl in Hin;
          intuition discriminate.
      * intros (_ & avg' & Havg' & Hlt). right.
        rewrite Havg in Havg'. injection Havg' as <-. rewrite Hlt. now left.
    + subst gap. split; [intros [Hin | []]; contradiction | lia].
  - destruct (Z.ltb_spec 1 (len (writes_of history))).
    + destruct Hg as (avg & Havg & ->). split.
      * intros [Hin | Hin]; [contradiction|]. split; [assumption|].
        exists avg. split; [exact Havg|].
        destruct (flt_int avg 300); [simpl in Hin; intuition discriminate|].
        destruct (fgt_int avg 86400); [reflexivity | destruct Hin].
      * intros (_ & avg' & Havg' & Hgt). right.
        rewrite Havg in Havg'. injection Havg' as <-.
        rewrite (gt_day_not_lt_5_minutes _ Hgt), Hgt. now left.
    + subst gap. split; [intros [Hin | []]; contradiction | lia].
Qed.

Lemma write_pattern_labels_witness :
  exists patterns,
    DeltaTableInspector._analyze_write_patterns minute_writes = Ok patterns
    /\ In streaming_pattern patterns.
Proof.
  destruct (write_pattern_labels minute_writes) as [H _].
  eexists. split; [vm_compute; reflexivity|].
  destruct (H _ ltac:(vm_compute; reflexivity)) as (_ & Hstream & _).
  apply Hstream. split; [vm_compute; reflexivity|].
  eexists. split; vm_compute; reflexivity.
Defined.

(** * Further properties of the analyzer *)

(** ** The outputs of the remaining rules *)

Lemma optimization_history_out stats :
  _analyze_optimization_history stats []
  = Ok (if (20 <? total_versions stats) && (1000 <? num_files stats)
        then [regular_optimization stats] else []).
Proof.
  unfold _analyze_optimization_history.
  change MAX_RECOMMENDED_FILES with 1000.
  destruct (20 <? total_versions stats), (1000 <? num_files stats);
    reflexivity.
Qed.

Lemma write_patterns_rule_out stats out :
  _analyze_write_patterns stats [] = Ok out ->
  if 1 <? total_versions stats
  then exists fpv,
         int_truediv (num_files stats) (total_versions stats) = Ok fpv
         /\ out = if flt_int fpv 5 && (10 <? total_versions stats)
                  then [many_small_writes stats fpv] else []
  else out = [].
Proof.
  unfold _analyze_write_patterns.
  destruct (1 <? total_versions stats); [|now intros [= <-]].
  intros H. apply bind_Ok in H as (fpv & Hf & H). exists fpv.
  split; [exact Hf|].
  destruct (flt_int fpv 5 && (10 <? total_versions stats));
    now injection H as <-.
Qed.

Lemma data_skew_out stats out :
  _analyze_data_skew stats [] = Ok out ->
  if len (files stats) <? 2 then out = []
  else exists cv,
         coef_variation stats = Ok cv
         /\ if num_gt_float cv MIN_FILE_SIZE_VARIANCE
            then exists c lo hi, out = [data_skew c lo hi]
            else out = [].
Proof.
  unfold _analyze_data_skew.
  destruct (len (files stats) <? 2); [now intros [= <-]|].
  intros H. apply bind_Ok in H as (cv & Hcv & H). exists cv.
  split; [exact Hcv|].
  destruct (num_gt_float cv MIN_FILE_SIZE_VARIANCE); [|now injection H as <-].
  apply bind_Ok in H as (c & _ & H).
  apply bind_Ok in H as (lo & _ & H).
  apply bind_Ok in H as (hi & _ & H).
  injection H as <-. eauto.
Qed.

Lemma file_sizes_empty stats :
  files stats = [] -> _analyze_file_sizes stats [] = Ok [].
Proof. intros H. unfold _analyze_file_sizes. now rewrite H. Qed.

(** ** How many insights *)

Lemma rule_lengths now stats outs :
  Forall2 (fun r out => r = Ok out) (rule_outputs now stats) outs ->
  (length (concat outs) <= 8)%nat
  /\ (length (concat outs) = 8%nat ->
      existsb has_issue (concat outs) = true).
Proof.
  intros H.
  apply rule_outputs_inv in H
    as (o1 & o2 & o3 & o4 & o5 & o6 & o7 & -> & H1 & H2 & H3 & H4 & H5
        & H6 & H7).
  assert (length o1 <= 2)%nat.
  { destruct (files stats) as [|f fs] eqn:Ef.
    - rewrite file_sizes_empty in H1 by exact Ef. injection H1 as <-.
      simpl; lia.
    - apply file_sizes_out in H1 as (sz & pct & avg & _ & _ & _ & ->);
        [|rewrite Ef; discriminate].
      rewrite length_app.
      destruct (fgt_int pct 50), (fgt_int pct 20), (flt_int avg 64);
        simpl; lia. }
  assert ((length o2 <= 1)%nat
          /\ (length o2 = 1%nat -> existsb has_issue o2 = true)) as [? Ho2].
  { rewrite file_count_out in H2. injection H2 as <-.
    destruct (_ <? _); simpl; split; try lia; auto. }
  assert (length o3 <= 1)%nat.
  { rewrite vacuum_history_out in H3. injection H3 as <-.
    destruct (last_vacuum stats); destruct (_ <? _); simpl; lia. }
  assert (length o4 <= 1)%nat.
  { apply partitioning_out in H4.
    destruct (partition_columns stats) as [|col cols].
    - destruct (_ <? _); [destruct H4 as (sz & _ & ->)|subst o4]; simpl; lia.
    - destruct H4 as (avg & sz & _ & ->).
      destruct (_ && _); [|destruct (_ && _)]; simpl; lia. }
  assert (length o5 <= 1)%nat.
  { rewrite optimization_history_out in H5. injection H5 as <-.
    destruct (_ && _); simpl; lia. }
  assert (length o6 <= 1)%nat.
  { apply data_skew_out in H6.
    destruct (_ <? _); [subst o6; simpl; lia|].
    destruct H6 as (cv & _ & H6).
    destruct (num_gt_float _ _); [destruct H6 as (c & lo & hi & ->)|subst o6];
      simpl; lia. }
  assert (length o7 <= 1)%nat.
  { apply write_patterns_rule_out in H7.
    destruct (_ <? _); [destruct H7 as (fpv & _ & ->)|subst o7];
      [destruct (_ && _)|]; simpl; lia. }
  cbn [concat]. rewrite !length_app. simpl length. split; [lia|].
  intros Hall. rewrite !existsb_app, Ho2 by lia.
  now rewrite orb_true_r.
Qed.

Lemma has_issue_not_good i : has_issue i = true -> is_good i = false.
Proof.
  unfold has_issue, is_good. intros H. apply bool_decide_eq_true in H.
  apply String.eqb_neq. intros E. rewrite E in H. set_solver.
Qed.

(** X1: [analyze] never returns an empty list, and never more than eight
    insights: the file-size rule gives at most two, each other rule at
    most one, and the positive feedback comes only when the four rules
    that give nothing but warnings gave nothing. *)
Theorem analyze_between_1_and_8 now stats l :
  analyze now stats = Ok l -> (1 <= length l <= 8)%nat.
Proof.
  intros H. apply analyze_Ok in H as (pre & Hpre & ->).
  rewrite <- (Permutation_length (sort_by_perm severity_rank pre)).
  apply collect_Ok in Hpre as (rs & Hrs & ->).
  apply run_rules_outputs in Hrs as (outs & HF & ->).
  pose proof (rule_lengths now stats outs HF) as Hlen.
  rewrite length_app.
  destruct (existsb has_issue (concat outs)) eqn:E.
  - simpl. rewrite Nat.add_0_r. split; [|exact (proj1 Hlen)].
    apply existsb_exists in E as (i & Hi & _).
    destruct (concat outs); [destruct Hi | simpl; lia].
  - destruct Hlen as [Hle Hfull]. simpl. split; [lia|].
    destruct (Nat.eq_dec (length (concat outs)) 8%nat) as [E8|]; [|lia].
    discriminate (Hfull E8).
Qed.

(** ** The positive feedback *)

Lemma insert_by_front {A} (key : A -> Z) x l :
  Forall (fun y => key x <= key y) l -> insert_by key x l = x :: l.
Proof.
  intros H. destruct H as [|y l Hy _]; [reflexivity|].
  cbn [insert_by]. destruct (Z.leb_spec (key x) (key y)); [reflexivity | lia].
Qed.

(** A list whose keys do not decrease is left as it is. *)
Lemma sort_by_sorted_id {A} (key : A -> Z) (l : list A) :
  StronglySorted (fun x y => key x <= key y) l -> sort_by key l = l.
Proof.
  induction 1 as [|x l Hl IH Hx]; [reflexivity|].
  unfold sort_by in *. cbn [foldr]. rewrite IH.
  now apply insert_by_front.
Qed.

Lemma no_issue_info rs :
  Forall rule_severity rs -> existsb has_issue rs = false ->
  Forall (fun i => severity i = "info"%string) rs.
Proof.
  intros Hsev Hno. rewrite Forall_forall in *. intros i Hi.
  specialize (Hsev i Hi). unfold rule_severity in Hsev.
  assert (has_issue i = false) as Hn.
  { destruct (has_issue i) eqn:E; [|reflexivity].
    rewrite <- Hno. symmetry. apply existsb_exists. exists i.
    split; [now apply list_elem_of_In | exact E]. }
  unfold has_issue in Hn. apply bool_decide_eq_false in Hn. set_solver.
Qed.

(** X2: when the positive feedback is in the list that [analyze] returns,
    it is the last entry, and every entry before it is an info, in the
    order in which the rules gave them. *)
Theorem looks_good_comes_last now stats l :
  analyze now stats = Ok l -> In looks_good l ->
  exists rs,
    run_rules now stats = Ok rs
    /\ l = (rs ++ [looks_good])%list
    /\ Forall (fun i => severity i = "info"%string) rs.
Proof.
  intros H Hin. apply analyze_Ok in H as (pre & Hpre & ->).
  apply collect_Ok in Hpre as (rs & Hrs & ->).
  pose proof (run_rules_severity _ _ _ Hrs) as Hsev.
  exists rs. split; [exact Hrs|].
  destruct (existsb has_issue rs) eqn:E.
  - exfalso. rewrite app_nil_r in Hin.
    apply (Permutation_in _ (Permutation_sym (sort_by_perm severity_rank rs)))
      in Hin.
    rewrite Forall_forall in Hsev.
    assert (looks_good ∈ rs) as Hel by now apply list_elem_of_In.
    specialize (Hsev _ Hel).
    apply rule_severity_not_good in Hsev. discriminate Hsev.
  - pose proof (no_issue_info rs Hsev E) as Hinfo.
    split; [|exact Hinfo].
    apply sort_by_sorted_id.
    clear -Hinfo. induction Hinfo as [|i rs Hi Hrest IH].
    + repeat constructor.
    + cbn [app]. constructor; [exact IH|].
      apply Forall_app. split.
      * eapply Forall_impl; [exact Hrest|]. intros j Hj. cbv beta in Hj.
        unfold severity_rank. rewrite Hi, Hj. reflexivity.
      * constructor; [|constructor].
        unfold severity_rank. rewrite Hi. vm_compute. discriminate.
Qed.

(** ** The optimization-history rule and the write-pattern rule *)

(** X3: "Consider Regular Optimization" is in the list exactly if the
    table has more than 20 versions and more than 1000 files; "High File
    Count" is then in the list too. *)
Theorem regular_optimization_rule now stats l :
  analyze now stats = Ok l ->
  (emits l "info" "Consider Regular Optimization"
   <-> 20 < total_versions stats /\ 1000 < num_files stats)
  /\ (emits l "info" "Consider Regular Optimization" ->
      emits l "warning" "High File Count").
Proof.
  intros Hl.
  destruct (analyze_emits now stats l 4 _ "info"
              "Consider Regular Optimization" Hl eq_refl ltac:(in_catalog))
    as (out & Hout & E1).
  destruct (analyze_emits now stats l 1 _ "warning" "High File Count"
              Hl eq_refl ltac:(in_catalog)) as (o2 & Ho2 & E2).
  change (rule_outputs now stats !! 4%nat)
    with (Some (_analyze_optimization_history stats [])) in Hout.
  change (rule_outputs now stats !! 1%nat)
    with (Some (_analyze_file_count stats [])) in Ho2.
  rewrite optimization_history_out in Hout. injection Hout as <-.
  rewrite file_count_out in Ho2. injection Ho2 as <-.
  rewrite E1, E2. clear E1 E2.
  destruct (Z.ltb_spec 20 (total_versions stats)),
           (Z.ltb_spec 1000 (num_files stats)); cbn [andb];
    rewrite ?emits_singleton, ?emits_nil_iff; simpl; intuition lia.
Qed.

(** X4: "Many Small Writes Detected" is in the list exactly if the table
    has more than 10 versions and fewer than 5 files per version, the
    quotient [num_files / total_versions] being a binary64 value that up
    to 2^50 versions is below 5 exactly if [num_files] is below 5 times
    the versions. *)
Theorem many_small_writes_rule now stats l :
  analyze now stats = Ok l -> total_versions stats <= 2 ^ 50 ->
  emits l "info" "Many Small Writes Detected"
  <-> 10 < total_versions stats
      /\ num_files stats < 5 * total_versions stats.
Proof.
  intros Hl Hb.
  destruct (analyze_emits now stats l 6 _ "info"
              "Many Small Writes Detected" Hl eq_refl ltac:(in_catalog))
    as (out & Hout & ->).
  change (rule_outputs now stats !! 6%nat)
    with (Some (_analyze_write_patterns stats [])) in Hout.
  injection Hout as Hout. apply write_patterns_rule_out in Hout.
  destruct (Z.ltb_spec 1 (total_versions stats)) as [H1|H1].
  - destruct Hout as (fpv & Hf & ->).
    assert (0 < total_versions stats <= 2 ^ 50) as Hv by lia.
    pose proof (truediv_lt_5 _ _ fpv Hv Hf) as Hiff.
    destruct (Z.ltb_spec 10 (total_versions stats)),
             (flt_int fpv 5); cbn [andb];
      rewrite ?emits_singleton, ?emits_nil_iff; simpl;
      intuition (try lia; try discriminate).
  - subst out. rewrite emits_nil_iff. lia.
Qed.

(** ** Every finding once *)

Ltac sublist_cases :=
  repeat match goal with
    | |- context [if ?b then _ else _] => destruct b
    end;
  simpl;
  repeat first [ apply sublist_nil_l
               | apply sublist_skip
               | apply sublist_cons ].

Lemma rule_titles now stats outs :
  Forall2 (fun r out => r = Ok out) (rule_outputs now stats) outs ->
  (title <$> concat outs) `sublist_of` (snd <$> concat catalogs).
Proof.
  intros H.
  apply rule_outputs_inv in H
    as (o1 & o2 & o3 & o4 & o5 & o6 & o7 & -> & H1 & H2 & H3 & H4 & H5
        & H6 & H7).
  assert ((title <$> o1) `sublist_of`
          ["Small Files Problem Detected"; "Some Small Files Detected";
           "Suboptimal Average File Size"]%string) as S1.
  { destruct (files stats) as [|f fs] eqn:Ef.
    - rewrite file_sizes_empty in H1 by exact Ef. injection H1 as <-.
      apply sublist_nil_l.
    - apply file_sizes_out in H1 as (sz & pct & avg & _ & _ & _ & ->);
        [|rewrite Ef; discriminate].
      sublist_cases. }
  assert ((title <$> o2) `sublist_of` ["High File Count"%string]) as S2.
  { rewrite file_count_out in H2. injection H2 as <-. sublist_cases. }
  assert ((title <$> o3) `sublist_of`
          ["Table Has Never Been Vacuumed"; "Vacuum Overdue"]%string) as S3.
  { rewrite vacuum_history_out in H3. injection H3 as <-.
    destruct (last_vacuum stats); sublist_cases. }
  assert ((title <$> o4) `sublist_of`
          ["Table Not Partitioned"; "Over-Partitioned Table";
           "Under-Partitioned Table"]%string) as S4.
  { apply partitioning_out in H4.
    destruct (partition_columns stats) as [|col cols].
    - destruct (_ <? _); [destruct H4 as (sz & _ & ->)|subst o4];
        sublist_cases.
    - destruct H4 as (avg & sz & _ & ->). sublist_cases. }
  assert ((title <$> o5) `sublist_of`
          ["Consider Regular Optimization"%string]) as S5.
  { rewrite optimization_history_out in H5. injection H5 as <-.
    sublist_cases. }
  assert ((title <$> o6) `sublist_of` ["Data Skew Detected"%string]) as S6.
  { apply data_skew_out in H6.
    destruct (_ <? _); [subst o6; apply sublist_nil_l|].
    destruct H6 as (cv & _ & H6).
    destruct (num_gt_float _ _); [destruct H6 as (c & lo & hi & ->)|subst o6];
      sublist_cases. }
  assert ((title <$> o7) `sublist_of`
          ["Many Small Writes Detected"%string]) as S7.
  { apply write_patterns_rule_out in H7.
    destruct (_ <? _); [destruct H7 as (fpv & _ & ->)|subst o7];
      sublist_cases. }
  cbn [concat]. rewrite !fmap_app. rewrite app_nil_r.
  change (snd <$> concat catalogs)
    with (["Small Files Problem Detected"; "Some Small Files Detected";
           "Suboptimal Average File Size"]%string
          ++ ["High File Count"%string]
          ++ ["Table Has Never Been Vacuumed"; "Vacuum Overdue"]%string
          ++ ["Table Not Partitioned"; "Over-Partitioned Table";
              "Under-Partitioned Table"]%string
          ++ ["Consider Regular Optimization"%string]
          ++ ["Data Skew Detected"%string]
          ++ ["Many Small Writes Detected"%string])%list.
  repeat (apply sublist_app; [assumption|]). assumption.
Qed.

Lemma all_titles_NoDup : NoDup all_titles.
Proof. apply (bool_decide_unpack (NoDup all_titles)). vm_compute. exact I. Qed.

(** X5: no two insights of the list that [analyze] returns have the same
    title: every finding is reported once. *)
Theorem analyze_titles_unique now stats l :
  analyze now stats = Ok l -> NoDup (title <$> l).
Proof.
  intros H. apply analyze_Ok in H as (pre & Hpre & ->).
  rewrite <- (sort_by_perm severity_rank pre).
  apply collect_Ok in Hpre as (rs & Hrs & ->).
  apply run_rules_outputs in Hrs as (outs & HF & ->).
  apply (sublist_NoDup _ all_titles); [apply all_titles_NoDup|].
  rewrite fmap_app. unfold all_titles.
  apply sublist_app; [now apply (rule_titles now stats)|].
  destruct (existsb _ _); [apply sublist_nil_l | reflexivity].
Qed.

(** ** Findings that exclude each other *)

(** X6: the list never holds both small-file findings, never both vacuum
    findings, and at most one of the three partitioning findings. *)
Theorem analyze_exclusive_findings now stats l :
  analyze now stats = Ok l ->
  ~ (emits l "critical" "Small Files Problem Detected"
     /\ emits l "warning" "Some Small Files Detected")
  /\ ~ (emits l "warning" "Table Has Never Been Vacuumed"
        /\ emits l "warning" "Vacuum Overdue")
  /\ ~ (emits l "info" "Table Not Partitioned"
        /\ emits l "warning" "Over-Partitioned Table")
  /\ ~ (emits l "info" "Table Not Partitioned"
        /\ emits l "info" "Under-Partitioned Table")
  /\ ~ (emits l "warning" "Over-Partitioned Table"
        /\ emits l "info" "Under-Partitioned Table").
Proof.
  intros Hl.
  destruct (analyze_emits now stats l 0 _ "critical"
              "Small Files Problem Detected" Hl eq_refl ltac:(in_catalog))
    as (o1 & Ho1 & ->).
  destruct (analyze_emits now stats l 0 _ "warning"
              "Some Small Files Detected" Hl eq_refl ltac:(in_catalog))
    as (o1' & Ho1' & ->).
  destruct (analyze_emits now stats l 2 _ "warning"
              "Table Has Never Been Vacuumed" Hl eq_refl ltac:(in_catalog))
    as (o3 & Ho3 & ->).
  destruct (analyze_emits now stats l 2 _ "warning" "Vacuum Overdue"
              Hl eq_refl ltac:(in_catalog)) as (o3' & Ho3' & ->).
  destruct (analyze_emits now stats l 3 _ "info" "Table Not Partitioned"
              Hl eq_refl ltac:(in_catalog)) as (o4 & Ho4 & ->).
  destruct (analyze_emits now stats l 3 _ "warning" "Over-Partitioned Table"
              Hl eq_refl ltac:(in_catalog)) as (o4' & Ho4' & ->).
  destruct (analyze_emits now stats l 3 _ "info" "Under-Partitioned Table"
              Hl eq_refl ltac:(in_catalog)) as (o4'' & Ho4'' & ->).
  change (rule_outputs now stats !! 0%nat)
    with (Some (_analyze_file_sizes stats [])) in *.
  change (rule_outputs now stats !! 2%nat)
    with (Some (_analyze_vacuum_history now stats [])) in *.
  change (rule_outputs now stats !! 3%nat)
    with (Some (_analyze_partitioning stats [])) in *.
  injection Ho1 as Ho1. rewrite Ho1 in Ho1'. injection Ho1' as <-.
  injection Ho3 as Ho3. rewrite Ho3 in Ho3'. injection Ho3' as <-.
  injection Ho4 as Ho4. rewrite Ho4 in Ho4', Ho4''.
  injection Ho4' as <-. injection Ho4'' as <-.
  split; [|split].
  - destruct (files stats) as [|f fs] eqn:Ef.
    + rewrite file_sizes_empty in Ho1 by exact Ef. injection Ho1 as <-.
      intros [H _]. now apply emits_nil in H.
    + apply file_sizes_out in Ho1 as (sz & pct & avg & _ & _ & _ & ->);
        [|rewrite Ef; discriminate].
      emits_solver.
  - rewrite vacuum_history_out in Ho3. injection Ho3 as <-.
    destruct (last_vacuum stats); emits_solver.
  - apply partitioning_out in Ho4.
    destruct (partition_columns stats) as [|col cols].
    + destruct (_ <? _); [destruct Ho4 as (sz & _ & ->)|subst o4];
        repeat split; emits_solver.
    + destruct Ho4 as (avg & sz & _ & ->). repeat split; emits_solver.
Qed.

(** ** The exceptions of [analyze] *)


(** ** Rounding depends on the value only *)

Lemma finish_Qeq neg v v' : (v == v')%Q -> finish neg v = finish neg v'.
Proof.
  intros E. unfold finish.
  assert (Qeq_bool v 0 = Qeq_bool v' 0) as ->.
  { destruct (Qeq_bool v 0) eqn:E1, (Qeq_bool v' 0) eqn:E2; try reflexivity.
    - apply Qeq_bool_iff in E1. apply Qeq_bool_neq in E2. lra.
    - apply Qeq_bool_iff in E2. apply Qeq_bool_neq in E1. lra. }
  assert (Qle_bool max_pow v = Qle_bool max_pow v') as ->.
  { destruct (Qle_bool max_pow v) eqn:E1, (Qle_bool max_pow v') eqn:E2;
      try reflexivity.
    - apply Qle_bool_iff in E1.
      assert (~ (max_pow <= v')%Q) by (rewrite <- Qle_bool_iff; congruence).
      lra.
    - apply Qle_bool_iff in E2.
      assert (~ (max_pow <= v)%Q) by (rewrite <- Qle_bool_iff; congruence).
      lra. }
  destruct (Qeq_bool v' 0); [reflexivity|].
  destruct (Qle_bool max_pow v'); [reflexivity|].
  f_equal. apply Qred_complete. destruct neg; lra.
Qed.

Lemma round_Qeq neg0 p q : (p == q)%Q -> round neg0 p = round neg0 q.
Proof.
  intros E. unfold round.
  destruct (Qnum p) as [|a|a] eqn:Ep, (Qnum q) as [|b|b] eqn:Eq;
    try reflexivity;
    try (exfalso; unfold Qeq in E; rewrite Ep, Eq in E; simpl in E; lia).
  - apply finish_Qeq. rewrite <- Ep, <- Eq.
    apply (round_pos_Q_eq p q); [|exact E].
    unfold Qlt; simpl. rewrite Ep. lia.
  - apply finish_Qeq.
    change (round_pos (Z.pos a) (Z.pos (Qden p)))
      with (round_pos_Q (Z.pos a # Qden p)).
    change (round_pos (Z.pos b) (Z.pos (Qden q)))
      with (round_pos_Q (Z.pos b # Qden q)).
    apply round_pos_Q_eq; [reflexivity|].
    unfold Qeq in *. rewrite Ep, Eq in E. simpl in *. lia.
Qed.

(** ** Files of one size *)

Lemma int_truediv_mul n s x :
  0 < n -> int_truediv (n * s) n = Ok x -> float_of_int s = Ok x.
Proof.
  intros Hn. unfold int_truediv, float_of_int.
  destruct (Z.eqb_spec n 0) as [|_]; [lia|].
  destruct (Z.eqb_spec (n * s) 0) as [E0|Hne].
  - assert (s = 0) as -> by nia.
    destruct (Z.ltb_spec n 0); [lia|]. now intros [= <-].
  - rewrite (round_Qeq false (n * s * Z.sgn n # Z.to_pos (Z.abs n))
               (inject_Z s)); [auto|].
    unfold Qeq; simpl. rewrite Z2Pos.id by lia.
    rewrite Z.sgn_pos, Z.abs_eq by lia. ring.
Qed.

Lemma float_of_int_finite n x : float_of_int n = Ok x -> finite x.
Proof.
  unfold float_of_int.
  destruct (round_finite_or_inf false (inject_Z n)) as [Hf | (s & Hs)].
  - destruct (round false _); try contradiction; now intros [= <-].
  - rewrite Hs. discriminate.
Qed.

Lemma fsub_self x : finite x -> fsub x x = Fzero false.
Proof.
  destruct x as [[|]|q| |]; try contradiction; intros _; try reflexivity.
  unfold fsub. cbn [fneg fadd]. unfold round.
  replace (Qnum (q + - q)) with 0; [reflexivity|].
  destruct q as [a d]. simpl. ring.
Qed.

Lemma int_sum_replicate n s : int_sum (replicate n s) = Z.of_nat n * s.
Proof.
  induction n as [|n IH]; [reflexivity|].
  change (replicate (S n) s) with ([s] ++ replicate n s)%list.
  unfold int_sum in *. rewrite fold_left_app. cbn [fold_left].
  assert (forall l a, fold_left Z.add l a = a + fold_left Z.add l 0) as Hshift.
  { clear. induction l as [|y l IH]; intros a; cbn [fold_left]; [lia|].
    rewrite (IH (a + y)), (IH (0 + y)). lia. }
  rewrite Hshift, IH. lia.
Qed.

Lemma Forall_eq_replicate {A} (l : list A) (c : A) :
  Forall (fun x => x = c) l -> l = replicate (length l) c.
Proof. induction 1 as [|x l -> _ IH]; simpl; congruence. Qed.

(** The coefficient of variation of files of one size is zero. *)
Lemma coef_variation_equal stats s cv :
  files stats <> [] ->
  Forall (fun f => size_bytes f = s) (files stats) ->
  coef_variation stats = Ok cv ->
  cv = NInt 0 \/ cv = NFloat (Fzero false).
Proof.
  intros Hne Hall Hcv.
  pose proof (len_pos _ Hne) as Hn.
  assert (file_sizes stats = replicate (length (files stats)) s) as Es.
  { unfold file_sizes. rewrite <- (length_fmap size_bytes).
    apply Forall_eq_replicate. now apply Forall_fmap. }
  assert (len (file_sizes stats) = len (files stats)) as El
    by (unfold len, file_sizes; now rewrite length_fmap).
  unfold coef_variation in Hcv.
  apply bind_Ok in Hcv as (mean & Hmean & Hcv).
  apply bind_Ok in Hcv as (var & Hvar & Hcv).
  unfold mean_size in Hmean. rewrite El in Hmean.
  rewrite Es, int_sum_replicate in Hmean. fold (len (files stats)) in Hmean.
  apply int_truediv_mul in Hmean; [|exact Hn].
  pose proof (float_of_int_finite _ _ Hmean) as Hfin.
  assert (var = Fzero false) as ->.
  { unfold variance in Hvar.
    rewrite (mapM_const _ (Fzero false)) in Hvar.
    - cbn [mbind result_bind] in Hvar. rewrite float_sum_zeros in Hvar.
      rewrite El in Hvar. unfold float_div_int in Hvar.
      apply bind_Ok in Hvar as (y & Hy & Hvar).
      destruct (float_of_int_pos _ _ Hn Hy) as (q & -> & Hq).
      unfold float_truediv in Hvar. cbn [is_zero fdiv fsign xorb] in Hvar.
      destruct (Z.ltb_spec (Qnum q) 0) as [Hneg|_].
      + apply Qnum_pos in Hq. lia.
      + now injection Hvar as <-.
    - rewrite Es. apply Forall_forall. intros x Hx.
      apply elem_of_replicate in Hx as [-> _].
      unfold int_sub_float. rewrite Hmean. cbn [mbind result_bind].
      rewrite (fsub_self mean Hfin). reflexivity. }
  cbn [float_pow_half] in Hcv.
  destruct (fgt_int mean 0) eqn:Hpos; [|left; now injection Hcv as <-].
  right. apply fmap_Ok in Hcv as (r & Hr & ->).
  unfold float_truediv in Hr.
  destruct mean as [z|q| |]; try contradiction.
  - unfold fgt_int, gtQ in Hpos. cbn [cmpQ] in Hpos. discriminate.
  - cbn [is_zero fdiv fsign xorb] in Hr.
    destruct (Z.ltb_spec (Qnum q) 0) as [Hneg|_].
    + exfalso. unfold fgt_int, gtQ in Hpos. cbn [cmpQ] in Hpos.
      destruct (q ?= inject_Z 0)%Q eqn:E; try discriminate.
      rewrite <- Qgt_alt in E. apply Qnum_pos in E. lia.
    + now injection Hr as <-.
Qed.

(** X8: when all the files have the same size, whatever it is, the list
    that [analyze] returns has no "Data Skew Detected". *)
Theorem equal_sizes_no_skew now stats s l :
  Forall (fun f => size_bytes f = s) (files stats) ->
  analyze now stats = Ok l ->
  ~ emits l "warning" "Data Skew Detected".
Proof.
  intros Hall Hl.
  destruct (analyze_emits now stats l 5 _ "warning" "Data Skew Detected"
              Hl eq_refl ltac:(in_catalog)) as (out & Hout & ->).
  change (rule_outputs now stats !! 5%nat)
    with (Some (_analyze_data_skew stats [])) in Hout.
  injection Hout as Hout. apply data_skew_out in Hout.
  destruct (Z.ltb_spec (len (files stats)) 2) as [|H2];
    [subst out; apply emits_nil|].
  destruct Hout as (cv & Hcv & Hout).
  assert (files stats <> []) as Hne
    by (intros E; rewrite E in H2; unfold len in H2; simpl in H2; lia).
  destruct (coef_variation_equal stats s cv Hne Hall Hcv) as [-> | ->].
  - change (num_gt_float (NInt 0) MIN_FILE_SIZE_VARIANCE) with false in Hout.
    cbv iota in Hout. subst out. apply emits_nil.
  - change (num_gt_float (NFloat (Fzero false)) MIN_FILE_SIZE_VARIANCE)
      with false in Hout.
    cbv iota in Hout. subst out. apply emits_nil.
Qed.

(** ** The units of [_format_bytes] *)

Lemma dyadic_div_1024 x b k :
  0 < b < 2 ^ 53 -> 0 <= k <= 900 ->
  dyadic x b k -> dyadic (fdiv x (Ffin 1024)) b (k + 10).
Proof.
  intros Hb Hk Hx.
  destruct x as [[|]|p| |]; cbn [dyadic] in Hx; try contradiction; [lia|].
  destruct Hx as [_ ->]. cbn [fdiv].
  assert (0 < 2 ^ k) by (apply Z.pow_pos_nonneg; lia).
  rewrite (round_exact _ b (k + 10));
    [split; [lia | reflexivity] | lia | lia |].
  rewrite Qred_correct.
  rewrite Z.pow_add_r by lia.
  unfold Qeq, Qdiv, Qmult, Qinv; simpl.
  rewrite Pos2Z.inj_mul, !Z2Pos.id by nia. change (2 ^ 10) with 1024. ring.
Qed.

Lemma dyadic_lt_1024 x b k :
  0 < b -> 0 <= k -> dyadic x b k ->
  flt x (Ffin 1024) = true <-> b < 2 ^ (k + 10).
Proof.
  intros Hb Hk Hx.
  destruct x as [[|]|p| |]; cbn [dyadic] in Hx; try contradiction; [lia|].
  destruct Hx as [_ ->]. unfold flt. cbn [fcmp cmpQ].
  assert (0 < 2 ^ k) by (apply Z.pow_pos_nonneg; lia).
  rewrite Z.pow_add_r by lia. change (2 ^ 10) with 1024.
  destruct (Qred (b # Z.to_pos (2 ^ k)) ?= 1024)%Q eqn:E.
  - split; [discriminate|]. intros Hlt. exfalso.
    rewrite <- Qeq_alt, Qred_correct in E.
    unfold Qeq in E; simpl in E. rewrite Z2Pos.id in E by lia. lia.
  - split; [|reflexivity]. intros _.
    rewrite <- Qlt_alt, Qred_correct in E.
    unfold Qlt in E; simpl in E. rewrite Z2Pos.id in E by lia. lia.
  - split; [discriminate|]. intros Hlt. exfalso.
    rewrite <- Qgt_alt, Qred_correct in E.
    unfold Qlt in E; simpl in E. rewrite Z2Pos.id in E by lia. lia.
Qed.

Lemma float_of_int_dyadic b x :
  0 <= b < 2 ^ 53 -> float_of_int b = Ok x -> dyadic x b 0.
Proof.
  intros Hb. destruct (Z.eq_dec b 0) as [->|Hne].
  - now intros [= <-].
  - rewrite float_of_int_exact by lia. intros [= <-].
    split; [lia|]. change (Z.to_pos (2 ^ 0)) with 1%positive. reflexivity.
Qed.

Lemma int_lt_float_1024 b : int_lt_float b (Ffin 1024) = (b <? 1024).
Proof.
  unfold int_lt_float.
  destruct (Z.ltb_spec b 1024) as [H|H];
    destruct (inject_Z b ?= 1024)%Q eqn:E; try reflexivity; exfalso.
  - rewrite <- Qeq_alt in E. unfold Qeq in E; simpl in E. lia.
  - rewrite <- Qgt_alt in E. unfold Qlt in E; simpl in E. lia.
  - rewrite <- Qlt_alt in E. unfold Qlt in E; simpl in E. lia.
Qed.

Lemma bool_iff_false (c : bool) (P : Prop) :
  (c = true <-> P) -> ~ P -> c = false.
Proof. destruct c; intuition. Qed.

(** X9: for a count below 2^53, [_format_bytes] shows the count divided by
    1024 as many times as it takes to get below 1024, five times at
    most, that quotient being exact before it is rounded to two
    decimals, and names the unit after the number of divisions: B, KB,
    MB, GB, TB or PB. *)
Theorem format_bytes_units b :
  0 <= b < 2 ^ 53 ->
  exists v,
    dyadic v b (10 * Z.of_nat (unit_index b))
    /\ _format_bytes b
       = Ok (format_fixed 2 v ++ " " ++ unit_name (unit_index b))%string.
Proof.
  intros Hb. unfold _format_bytes, unit_index.
  rewrite int_lt_float_1024. change (2 ^ 10) with 1024.
  assert (Z.abs b <= 2 ^ 53) as Habs by lia.
  destruct (float_of_int_bound b 53 ltac:(lia) Habs) as (x & Hx & _).
  pose proof (float_of_int_dyadic b x Hb Hx) as D0.
  destruct (Z.ltb_spec b 1024) as [H0|H0].
  - unfold format_fixed_int. rewrite Hx. cbn [mbind result_bind].
    exists x. split; [exact D0 | reflexivity].
  - rewrite Hx. cbn [mbind result_bind].
    unfold float_truediv. cbn [is_zero mbind result_bind].
    assert (0 < b < 2 ^ 53) as Hb' by lia.
    assert (0 < b) as Hpos by lia.
    set (v1 := fdiv x (Ffin 1024)).
    set (v2 := fdiv v1 (Ffin 1024)).
    set (v3 := fdiv v2 (Ffin 1024)).
    set (v4 := fdiv v3 (Ffin 1024)).
    set (v5 := fdiv v4 (Ffin 1024)).
    assert (dyadic v1 b 10) as D1
      by (apply (dyadic_div_1024 x b 0 Hb'); [lia | exact D0]).
    assert (dyadic v2 b 20) as D2
      by (apply (dyadic_div_1024 v1 b 10 Hb'); [lia | exact D1]).
    assert (dyadic v3 b 30) as D3
      by (apply (dyadic_div_1024 v2 b 20 Hb'); [lia | exact D2]).
    assert (dyadic v4 b 40) as D4
      by (apply (dyadic_div_1024 v3 b 30 Hb'); [lia | exact D3]).
    assert (dyadic v5 b 50) as D5
      by (apply (dyadic_div_1024 v4 b 40 Hb'); [lia | exact D4]).
    assert (flt v1 (Ffin 1024) = true <-> b < 2 ^ 20) as L1
      by (apply (dyadic_lt_1024 v1 b 10 Hpos); [lia | exact D1]).
    assert (flt v2 (Ffin 1024) = true <-> b < 2 ^ 30) as L2
      by (apply (dyadic_lt_1024 v2 b 20 Hpos); [lia | exact D2]).
    assert (flt v3 (Ffin 1024) = true <-> b < 2 ^ 40) as L3
      by (apply (dyadic_lt_1024 v3 b 30 Hpos); [lia | exact D3]).
    assert (flt v4 (Ffin 1024) = true <-> b < 2 ^ 50) as L4
      by (apply (dyadic_lt_1024 v4 b 40 Hpos); [lia | exact D4]).
    cbn [format_bytes_float]. fold v2 v3 v4 v5.
    destruct (Z.ltb_spec b (2 ^ 20)) as [H1|H1].
    { exists v1. split; [exact D1|]. rewrite (proj2 L1 H1). reflexivity. }
    rewrite (bool_iff_false _ _ L1) by lia.
    destruct (Z.ltb_spec b (2 ^ 30)) as [H2|H2].
    { exists v2. split; [exact D2|]. rewrite (proj2 L2 H2). reflexivity. }
    rewrite (bool_iff_false _ _ L2) by lia.
    destruct (Z.ltb_spec b (2 ^ 40)) as [H3|H3].
    { exists v3. split; [exact D3|]. rewrite (proj2 L3 H3). reflexivity. }
    rewrite (bool_iff_false _ _ L3) by lia.
    destruct (Z.ltb_spec b (2 ^ 50)) as [H4|H4].
    { exists v4. split; [exact D4|]. rewrite (proj2 L4 H4). reflexivity. }
    rewrite (bool_iff_false _ _ L4) by lia.
    exists v5. split; [exact D5 | reflexivity].
Qed.

(** * Further properties of [get_statistics] *)

Section MoreStatistics.

Variable fromtimestamp : float -> result datetime.

(** ** The rows of the batch *)

Lemma add_file_row aa total fs i total' fs' :
  add_file fromtimestamp aa (total, fs) i = Ok (total', fs') ->
  exists f c,
    fs' = (fs ++ [f])%list
    /\ aa_path aa !! i = Some (path f)
    /\ default [Some 0] (aa_size_bytes aa) !! i = Some c
    /\ size_bytes f = default 0 c.
Proof.
  unfold add_file, index. intros H.
  apply bind_Ok in H as (c & Hc & H).
  apply bind_Ok in H as (pv & _ & H).
  apply bind_Ok in H as (p & Hp & H).
  apply bind_Ok in H as (m & _ & H).
  apply bind_Ok in H as (mtime & _ & H).
  injection H as <- <-.
  destruct (default [Some 0] (aa_size_bytes aa) !! i) as [c'|] eqn:Ec;
    [|discriminate]. injection Hc as ->.
  destruct (aa_path aa !! i) as [p'|] eqn:Ep; [|discriminate].
  injection Hp as ->.
  eexists _, c. repeat split; reflexivity || assumption.
Qed.

Lemma add_files_rows aa idxs total fs total' fs' :
  foldlM (add_file fromtimestamp aa) (total, fs) idxs = Ok (total', fs') ->
  exists new,
    fs' = (fs ++ new)%list
    /\ Forall2 (fun i f =>
                  aa_path aa !! i = Some (path f)
                  /\ exists c, default [Some 0] (aa_size_bytes aa) !! i = Some c
                               /\ size_bytes f = default 0 c)
               idxs new.
Proof.
  revert total fs. induction idxs as [|i idxs IH]; intros total fs H.
  - injection H as <- <-. exists [].
    split; [now rewrite app_nil_r | constructor].
  - cbn [foldlM] in H. apply bind_Ok in H as ([t1 f1] & H1 & H).
    apply add_file_row in H1 as (f & c & -> & Hp & Hc & Hs).
    apply IH in H as (new & -> & HF).
    exists (f :: new). split; [now rewrite <- app_assoc|].
    constructor; [|exact HF]. split; [exact Hp|]. eauto.
Qed.

Lemma lookups_take {A B C} (g : B -> C) (h : A -> C) (l : list A)
    (a n : nat) (xs : list B) :
  Forall2 (fun i x => exists c, l !! i = Some c /\ g x = h c) (seq a n) xs ->
  g <$> xs = h <$> take n (drop a l) /\ (a + n <= length l \/ n = 0)%nat.
Proof.
  revert a xs. induction n as [|n IH]; intros a xs H.
  - inversion H; subst. split; [now rewrite take_0 | now right].
  - cbn [seq] in H. inversion H as [|i x is' xs' (c & Hc & Hx) Hrest]; subst.
    apply IH in Hrest as [E Hlen].
    pose proof (lookup_lt_Some _ _ _ Hc) as Hlt.
    split.
    + rewrite fmap_cons, E, Hx.
      rewrite (drop_S l c a Hc). cbn [take]. reflexivity.
    + left. lia.
Qed.

Lemma get_statistics_rows p table stats :
  get_statistics fromtimestamp p table = Ok stats ->
  Forall2 (fun i f =>
             aa_path (dt_add_actions table) !! i = Some (path f)
             /\ exists c,
                  default [Some 0] (aa_size_bytes (dt_add_actions table)) !! i
                  = Some c
                  /\ size_bytes f = default 0 c)
          (seq 0 (length (aa_path (dt_add_actions table)))) (files stats).
Proof.
  intros H. apply get_statistics_inv in H as (total & fs & Hloop & _ & -> & _).
  apply add_files_rows in Hloop as (new & -> & HF). exact HF.
Qed.

(** X10: the files of the statistics are the rows of the batch, in order:
    the paths are the [path] column, and the sizes are the [size_bytes]
    column with 0 for a null. *)
Theorem get_statistics_mirrors_batch p table stats :
  get_statistics fromtimestamp p table = Ok stats ->
  let aa := dt_add_actions table in
  path <$> files stats = aa_path aa
  /\ size_bytes <$> files stats
     = default 0 <$> take (length (aa_path aa))
                          (default [Some 0] (aa_size_bytes aa)).
Proof.
  intros H aa. apply get_statistics_rows in H. fold aa in H.
  split.
  - destruct (lookups_take path id (aa_path aa) 0 (length (aa_path aa))
                (files stats)) as [E _].
    { eapply Forall2_impl; [exact H|]. intros i f [Hp _]. eauto. }
    rewrite E, drop_0, list_fmap_id. apply firstn_all.
  - destruct (lookups_take size_bytes (default 0)
                (default [Some 0] (aa_size_bytes aa))
                0 (length (aa_path aa)) (files stats)) as [E _].
    { eapply Forall2_impl; [exact H|]. intros i f (_ & c & Hc & Hs). eauto. }
    rewrite E, drop_0. reflexivity.
Qed.

(** X11: a batch that has no [size_bytes] column serves one row: statistics
    come back only if it has at most one file, and the total size is then
    0; with two files or more [get_statistics] raises. *)
Theorem get_statistics_without_sizes p table :
  aa_size_bytes (dt_add_actions table) = None ->
  (forall stats,
     get_statistics fromtimestamp p table = Ok stats ->
     (length (aa_path (dt_add_actions table)) <= 1)%nat
     /\ total_size_bytes stats = 0)
  /\ ((2 <= length (aa_path (dt_add_actions table)))%nat ->
      exists e, get_statistics fromtimestamp p table = Raise e).
Proof.
  intros Hnone.
  assert (forall stats,
     get_statistics fromtimestamp p table = Ok stats ->
     (length (aa_path (dt_add_actions table)) <= 1)%nat
     /\ total_size_bytes stats = 0) as Main.
  { intros stats H.
    pose proof (get_statistics_rows p table stats H) as Hrows.
    rewrite Hnone in Hrows. cbn [default] in Hrows.
    destruct (lookups_take size_bytes (default 0) [Some 0] 0
                (length (aa_path (dt_add_actions table))) (files stats))
      as [E Hlen].
    { eapply Forall2_impl; [exact Hrows|]. intros i f (_ & c & Hc & Hs).
      eauto. }
    split; [simpl in Hlen; lia|].
    apply get_statistics_inv in H as (total & fs & Hloop & _ & Ef & _ & -> & _).
    rewrite (add_files_total _ _ _ _ _ _ _ Hloop eq_refl).
    apply int_sum_zeros. rewrite <- Ef, E, drop_0.
    destruct (length (aa_path (dt_add_actions table))) as [|n];
      [constructor|].
    cbn [take]. rewrite take_nil. repeat constructor. }
  split; [exact Main|].
  intros H2. destruct (get_statistics fromtimestamp p table) as [stats|e] eqn:E;
    [|eauto].
  destruct (Main stats eq_refl). lia.
Qed.

(** ** The summary of the history *)

Lemma get_statistics_history p table stats :
  get_statistics fromtimestamp p table = Ok stats ->
  find_last_vacuum fromtimestamp (dt_history table) = Ok (last_vacuum stats)
  /\ oldest_version stats
     = match dt_history table with
       | [] => 0
       | h :: rest =>
           foldl Z.min (default 0 (ce_version h))
                 ((fun e => default 0 (ce_version e)) <$> rest)
       end.
Proof.
  unfold get_statistics. intros H.
  apply bind_Ok in H as ([total_size files_info] & _ & H).
  apply bind_Ok in H as (ct & _ & H).
  apply bind_Ok in H as (lo & _ & H).
  apply bind_Ok in H as (lv & Hlv & H).
  injection H as <-. split; [exact Hlv | reflexivity].
Qed.

Lemma foldl_min_spec (vs : list Z) (v0 : Z) :
  Forall (fun v => foldl Z.min v0 vs <= v) (v0 :: vs)
  /\ foldl Z.min v0 vs ∈ v0 :: vs.
Proof.
  revert v0. induction vs as [|v vs IH]; intros v0.
  - cbn. split; [repeat constructor; lia | left].
  - cbn [foldl]. destruct (IH (Z.min v0 v)) as [Hle Hin].
    inversion Hle as [|? ? H0 Hrest]; subst. split.
    + constructor; [lia|]. constructor; [lia | exact Hrest].
    + apply elem_of_cons in Hin as [Hin|Hin].
      * rewrite Hin. destruct (Z.min_spec v0 v) as [[_ ->]|[_ ->]];
          set_solver.
      * set_solver.
Qed.

(** X12: [oldest_version] is the least of the versions of the history, an
    entry without a version counting as 0; it is 0 for an empty
    history. *)
Theorem oldest_version_is_minimum p table stats :
  get_statistics fromtimestamp p table = Ok stats ->
  let versions :=
    (fun e => default 0 (ce_version e)) <$> dt_history table in
  Forall (fun v => oldest_version stats <= v) versions
  /\ (versions <> [] -> oldest_version stats ∈ versions)
  /\ (versions = [] -> oldest_version stats = 0).
Proof.
  intros H versions. apply get_statistics_history in H as [_ ->].
  subst versions. destruct (dt_history table) as [|h rest].
  - split; [constructor|]. split; [intros Hne; now destruct Hne | reflexivity].
  - rewrite fmap_cons.
    destruct (foldl_min_spec ((fun e => default 0 (ce_version e)) <$> rest)
                (default 0 (ce_version h))) as [Hle Hin].
    split; [exact Hle|]. split; [intros _; exact Hin | discriminate].
Qed.

Lemma find_split {A} (P : A -> bool) (l : list A) x :
  List.find P l = Some x ->
  exists pre post,
    l = (pre ++ x :: post)%list /\ Forall (fun y => P y = false) pre
    /\ P x = true.
Proof.
  induction l as [|y l IH]; [discriminate|].
  cbn [List.find]. destruct (P y) eqn:E.
  - intros [= <-]. exists [], l. repeat split; [constructor | exact E].
  - intros H. apply IH in H as (pre & post & -> & Hpre & Hx).
    exists (y :: pre), post. repeat split; [constructor; assumption | exact Hx].
Qed.

(** X13: [last_vacuum] is the time of the first VACUUM entry of the
    history, which lists the newest operation first, so of the most
    recent vacuum; it is absent exactly if the history has no VACUUM
    entry. *)
Theorem last_vacuum_is_most_recent p table stats :
  get_statistics fromtimestamp p table = Ok stats ->
  match last_vacuum stats with
  | Some t =>
      exists newer e older,
        dt_history table = (newer ++ e :: older)%list
        /\ Forall (fun e' => ce_operation e' <> Some "VACUUM"%string) newer
        /\ ce_operation e = Some "VACUUM"%string
        /\ of_millis fromtimestamp (default 0 (ce_timestamp e)) = Ok t
  | None =>
      Forall (fun e => ce_operation e <> Some "VACUUM"%string)
             (dt_history table)
  end.
Proof.
  intros H. apply get_statistics_history in H as [Hlv _].
  unfold find_last_vacuum in Hlv.
  destruct (List.find entry_is_vacuum (dt_history table)) as [e|] eqn:E.
  - apply fmap_Ok in Hlv as (t & Ht & Hsome). rewrite Hsome.
    apply find_split in E as (pre & post & -> & Hpre & He).
    exists pre, e, post. split; [reflexivity|].
    split; [|split; [|exact Ht]].
    + eapply Forall_impl; [exact Hpre|]. intros e' He'.
      unfold entry_is_vacuum in He'. now apply bool_decide_eq_false in He'.
    + unfold entry_is_vacuum in He. now apply bool_decide_eq_true in He.
  - injection Hlv as <-.
    apply Forall_forall. intros e He Hop.
    assert (Hf : entry_is_vacuum e = false)
      by (apply (find_none _ _ E e); now apply list_elem_of_In).
    unfold entry_is_vacuum in Hf. now apply bool_decide_eq_false in Hf.
Qed.

End MoreStatistics.

(** * The account name of an Azure URL *)

Import Azure.

Lemma str_app_cons (x : ascii) (a b : string) :
  (String x a ++ b)%string = String x (a ++ b).
Proof. reflexivity. Qed.

Lemma str_app_nil_l (b : string) : ("" ++ b)%string = b.
Proof. reflexivity. Qed.

Ltac str_simpl :=
  simpl; rewrite ?str_app_cons, ?str_app_nil_l; simpl.

Lemma str_app_assoc (a b c : string) :
  ((a ++ b) ++ c = a ++ (b ++ c))%string.
Proof.
  induction a as [|x a IH]; str_simpl; [reflexivity | now f_equal].
Qed.

Lemma str_app_nil_r (a : string) : (a ++ "")%string = a.
Proof.
  induction a as [|x a IH]; str_simpl; [reflexivity | now f_equal].
Qed.

Lemma span_not_app c run rest :
  ~ has_char c run -> stops_at c rest ->
  span_not c (run ++ rest) = (run, rest).
Proof.
  intros Hno Hrest. induction run as [|x run IH]; str_simpl.
  - destruct Hrest as [->|[r ->]]; [reflexivity|].
    simpl. now rewrite Ascii.eqb_refl.
  - destruct (Ascii.eqb_spec x c) as [->|_].
    + exfalso. apply Hno. now left.
    + rewrite IH; [reflexivity|]. intros H. apply Hno. now right.
Qed.

Lemma span_not_split c s :
  s = ((span_not c s).1 ++ (span_not c s).2)%string
  /\ ~ has_char c (span_not c s).1 /\ stops_at c (span_not c s).2.
Proof.
  induction s as [|a s (E & Hno & Hrest)]; str_simpl.
  - split; [reflexivity|]. split; [intros []|now left].
  - destruct (Ascii.eqb_spec a c) as [->|Hne]; str_simpl.
    + split; [reflexivity|]. split; [intros []|right; eauto].
    + destruct (span_not c s) as [run rest]; simpl in *.
      split; [rewrite str_app_cons; now f_equal|]. split; [|exact Hrest].
      intros [H|H]; [congruence | now apply Hno].
Qed.

(** A continuation that fails before every character other than [c]
    gets the whole run: giving characters back does not help. *)
Lemma star_not_run {A} c (k : string -> string -> option A) acc s :
  (forall m a s', a <> c -> k m (String a s') = None) ->
  Re.star_not c k acc s
  = k (acc ++ (span_not c s).1)%string (span_not c s).2.
Proof.
  intros Hk. revert acc. induction s as [|a s IH]; intros acc; str_simpl.
  - now rewrite str_app_nil_r.
  - destruct (Ascii.eqb_spec a c) as [->|Hne]; str_simpl.
    + now rewrite str_app_nil_r.
    + rewrite IH. destruct (span_not c s) as [run rest]; str_simpl.
      rewrite str_app_assoc. str_simpl.
      destruct (k (acc ++ String a run)%string rest); [reflexivity|].
      now apply Hk.
Qed.

Lemma plus_not_run {A} c (k : string -> string -> option A) s r :
  (forall m a s', a <> c -> k m (String a s') = None) ->
  Re.plus_not c k s = Some r <->
  (span_not c s).1 <> EmptyString
  /\ k (span_not c s).1 (span_not c s).2 = Some r.
Proof.
  intros Hk. destruct s as [|a s]; str_simpl.
  - split; [discriminate | now intros [[] _]].
  - destruct (Ascii.eqb_spec a c) as [->|Hne]; str_simpl.
    + split; [discriminate | now intros [[] _]].
    + rewrite star_not_run by exact Hk.
      destruct (span_not c s) as [run rest]; str_simpl.
      split; [intros H; split; [discriminate | exact H] | now intros [_ H]].
Qed.

Lemma lit_char_Some c s r :
  Re.lit (String c EmptyString) s = Some r <-> s = String c r.
Proof.
  destruct s as [|a s]; str_simpl; [split; discriminate|].
  destruct (Ascii.eqb_spec c a) as [->|Hne].
  - split; [now intros [= ->] | now intros [= ->]].
  - split; [discriminate | intros [= -> _]; congruence].
Qed.

Lemma lit_char_None c a s' :
  a <> c -> Re.lit (String c EmptyString) (String a s') = None.
Proof.
  intros Hne. simpl. destruct (Ascii.eqb_spec c a); [congruence | reflexivity].
Qed.

Lemma lit_Some l s r : Re.lit l s = Some r <-> s = (l ++ r)%string.
Proof.
  revert s. induction l as [|a l IH]; intros s; str_simpl.
  - split; [now intros [= ->] | now intros ->].
  - destruct s as [|b s]; [split; discriminate|].
    destruct (Ascii.eqb_spec a b) as [->|Hne].
    + rewrite IH. split; [now intros -> | now intros [= ->]].
    + split; [discriminate | intros [= -> _]; congruence].
Qed.

Lemma startswith_app l r : startswith (l ++ r) l = true.
Proof.
  unfold startswith. induction l as [|a l IH].
  - now destruct r.
  - rewrite str_app_cons. simpl.
    destruct (ascii_dec a a); [exact IH | congruence].
Qed.

Lemma span_nonempty c s :
  s <> EmptyString -> ~ has_char c s -> exists a s', s = String a s' /\ a <> c.
Proof.
  intros Hne Hno. destruct s as [|a s']; [congruence|].
  exists a, s'. split; [reflexivity|]. intros ->. apply Hno. now left.
Qed.

(** X14: the account name is found exactly in the paths of the form
    [abfss://<container>@<account>.<rest>] with a container that is not
    empty and has no [@] and an account that is not empty and has no
    dot, and it is that account: the text between the first [@] and the
    first dot behind it.  So the name is never empty, and a path of
    another form, an [az://] one or a local one, has none. *)
Theorem extract_azure_account_name_form (table_path account : string) :
  _extract_azure_account_name table_path = Some account <->
  exists container rest : string,
    table_path
    = ("abfss://" ++ container ++ "@" ++ account ++ "." ++ rest)%string
    /\ container <> EmptyString /\ ~ has_char "@" container
    /\ account <> EmptyString /\ ~ has_char "." account.
Proof.
  set (k2 := fun (account s : string) =>
               _ ← Re.lit "." s; Some account).
  set (k1 := fun (_ s : string) =>
               s ← Re.lit "@" s; Re.plus_not "." k2 s).
  assert (Hk2 : forall m a s', a <> "."%char -> k2 m (String a s') = None).
  { intros m a s' Hne. unfold k2. now rewrite lit_char_None. }
  assert (Hk1 : forall m a s', a <> "@"%char -> k1 m (String a s') = None).
  { intros m a s' Hne. unfold k1. now rewrite lit_char_None. }
  assert (Hpat : forall s, account_pattern ("abfss://" ++ s) = Some account <->
            Re.plus_not "@" k1 s = Some account).
  { intros s. unfold account_pattern.
    replace (Re.lit "abfss://" ("abfss://" ++ s)) with (Some s)
      by (symmetry; now apply lit_Some).
    reflexivity. }
  split.
  - unfold _extract_azure_account_name. intros H.
    destruct (startswith table_path "abfss://") eqn:Ep; [|discriminate].
    destruct (account_pattern table_path) as [g|] eqn:Eg; [|discriminate].
    injection H as ->.
    assert (exists s, table_path = ("abfss://" ++ s)%string) as [s ->].
    { unfold account_pattern in Eg.
      destruct (Re.lit "abfss://" table_path) as [s|] eqn:El;
        [|cbn [mbind option_bind] in Eg; discriminate].
      exists s. now apply lit_Some. }
    apply Hpat in Eg. apply plus_not_run in Eg as [Hc Eg]; [|exact Hk1].
    destruct (span_not_split "@" s) as (Es & Hno & _).
    destruct (span_not "@" s) as [container s2]; cbn [fst snd] in *.
    unfold k1 in Eg. destruct (Re.lit "@" s2) as [s3|] eqn:E3;
      cbn [mbind option_bind] in Eg; [|discriminate].
    apply lit_char_Some in E3.
    apply plus_not_run in Eg as [Ha Eg]; [|exact Hk2].
    destruct (span_not_split "." s3) as (Es3 & Hno3 & _).
    destruct (span_not "." s3) as [acc s4]; cbn [fst snd] in *.
    unfold k2 in Eg. destruct (Re.lit "." s4) as [rest|] eqn:E4;
      cbn [mbind option_bind] in Eg; [|discriminate].
    apply lit_char_Some in E4. injection Eg as ->.
    exists container, rest. subst. repeat split; assumption.
  - intros (container & rest & -> & Hc & Hno & Ha & Hno').
    unfold _extract_azure_account_name. rewrite startswith_app.
    assert (E : account_pattern
                  ("abfss://" ++ container ++ "@" ++ account ++ "." ++ rest)
                = Some account); [|now rewrite E].
    apply Hpat. apply plus_not_run; [exact Hk1|].
    rewrite span_not_app; [|exact Hno|right; eauto]. str_simpl.
    split; [exact Hc|]. unfold k1.
    replace (Re.lit "@" (String "@" (account ++ String "." rest)))
      with (Some (account ++ String "." rest)%string)
      by (symmetry; now apply lit_char_Some).
    simpl. apply plus_not_run; [exact Hk2|].
    rewrite span_not_app; [|exact Hno'|right; eauto]. str_simpl.
    split; [exact Ha|]. unfold k2.
    replace (Re.lit "." (String "." rest)) with (Some rest)
      by (symmetry; now apply lit_char_Some).
    reflexivity.
Qed.

(** * Paging through the history *)

Lemma page_history_take {A} (l : list A) (page page_size : Z) :
  0 <= page -> 0 < page_size ->
  page_history l page page_size
  = take (Z.to_nat page_size) (drop (Z.to_nat (page * page_size)) l).
Proof.
  intros Hp Hs. unfold page_history, slice, slice_bound, len.
  set (n := Z.of_nat (length l)).
  assert (Ha : 0 <= page * page_size) by nia.
  destruct (Z.ltb_spec (page * page_size) 0) as [?|_]; [lia|].
  destruct (Z.ltb_spec (Z.min (page * page_size + page_size) n) 0)
    as [?|_]; [lia|].
  destruct (Z.le_gt_cases (page * page_size) n) as [Hle|Hgt].
  - rewrite (Z.min_l (page * page_size) n) by lia.
    destruct (Z.le_gt_cases (page * page_size + page_size) n) as [Hle'|Hgt'].
    + rewrite Z.min_l by lia. f_equal. lia.
    + rewrite Z.min_r by lia.
      rewrite !take_ge; [reflexivity| |]; rewrite length_drop; lia.
  - rewrite (Z.min_r (page * page_size) n) by lia.
    rewrite Z.min_r by lia. rewrite Z.sub_diag. cbn [Z.to_nat take].
    rewrite (drop_ge l (Z.to_nat (page * page_size))) by lia.
    now rewrite take_nil.
Qed.

Lemma page_history_nonempty {A} (l : list A) (page page_size : Z) :
  0 <= page -> 0 < page_size -> page * page_size < len l ->
  page_history l page page_size <> []
  /\ (length (page_history l page page_size) <= Z.to_nat page_size)%nat.
Proof.
  intros Hp Hs Hlt. rewrite page_history_take by assumption. split.
  - intros H. apply (f_equal length) in H.
    rewrite length_take, length_drop in H. unfold len in Hlt.
    cbn [length] in H. lia.
  - rewrite length_take. lia.
Qed.

Lemma pages_concat {A} (l : list A) (k m : nat) :
  concat ((fun i => take k (drop (i * k) l)) <$> seq 0 m) = take (m * k) l.
Proof.
  induction m as [|m IH]; [reflexivity|].
  rewrite seq_S, fmap_app, concat_app, IH. cbn [fmap list_fmap concat].
  rewrite app_nil_r, take_take_drop. f_equal. lia.
Qed.

Lemma floordiv_pos a b : 0 < b -> floordiv a b = Ok (a / b).
Proof.
  intros H. unfold floordiv. destruct (Z.eqb_spec b 0); [lia | reflexivity].
Qed.

Lemma in_range_pages n page page_size :
  0 < page_size -> (page < (n - 1) / page_size + 1 <-> page * page_size < n).
Proof.
  intros Hs. split; intros H.
  - assert (page <= (n - 1) / page_size) by lia.
    pose proof (Z.mul_div_le (n - 1) page_size Hs). nia.
  - assert (page <= (n - 1) / page_size); [|lia].
    apply Z.div_le_lower_bound; [lia | nia].
Qed.

(** X15: with a positive page size the pages of a history are its
    segments of that many entries, the last one with the rest: there are
    [(len - 1) // page_size + 1] of them, one after the other they give
    the history, entry for entry, and no entry lies on two pages; a page
    behind the last one is empty. *)
Theorem pages_partition_history {A} (history : list A) (page_size : Z) :
  0 < page_size ->
  exists pages,
    HistoryViewer.total_pages history page_size = Ok pages
    /\ concat ((fun page => page_history history page page_size)
                 <$> seqZ 0 pages) = history
    /\ (forall page, 0 <= page < pages - 1 ->
          length (page_history history page page_size) = Z.to_nat page_size)
    /\ (forall page, pages <= page ->
          page_history history page page_size = []).
Proof.
  intros Hs. unfold HistoryViewer.total_pages.
  rewrite floordiv_pos by exact Hs. cbn [mbind result_bind].
  set (n := len history). set (pages := (n - 1) / page_size + 1).
  assert (Hn : 0 <= n) by (subst n; unfold len; lia).
  assert (Hpages : 0 <= pages).
  { subst pages. assert (-1 <= (n - 1) / page_size); [|lia].
    apply Z.div_le_lower_bound; lia. }
  exists pages. split; [reflexivity|]. split; [|split].
  - unfold seqZ. rewrite <- list_fmap_compose.
    erewrite (list_fmap_ext _ (fun i => take (Z.to_nat page_size)
                (drop (i * Z.to_nat page_size) history))).
    + rewrite pages_concat. apply take_ge.
      assert (~ pages < (n - 1) / page_size + 1) as Hnot by (subst pages; lia).
      rewrite in_range_pages in Hnot by exact Hs.
      subst n. unfold len in Hnot. nia.
    + intros i x Hi. cbn. rewrite page_history_take by lia.
      do 2 f_equal. lia.
  - intros page [Hp Hlt]. rewrite page_history_take by lia.
    rewrite length_take, length_drop.
    assert (page + 1 < (n - 1) / page_size + 1) as Hin by (subst pages; lia).
    rewrite in_range_pages in Hin by exact Hs.
    subst n. unfold len in Hin. nia.
  - intros page Hge. rewrite page_history_take by lia.
    rewrite drop_ge; [now rewrite take_nil|].
    assert (~ page < (n - 1) / page_size + 1) as Hnot by (subst pages; lia).
    rewrite in_range_pages in Hnot by exact Hs.
    subst n. unfold len in Hnot. nia.
Qed.

(** ** The history viewer *)

Lemma handle_in_range {A} (history : list A) page_size v command v' :
  0 < page_size ->
  in_range history page_size v ->
  HistoryViewer.handle ((len history - 1) / page_size + 1) v command
    = Some v' ->
  in_range history page_size v'.
Proof.
  intros Hs [H0 Hlt] H. unfold HistoryViewer.handle in H.
  repeat case_bool_decide; try discriminate.
  - destruct (Z.ltb_spec (HistoryViewer.current_page v)
                ((len history - 1) / page_size + 1 - 1)) as [Hn|_];
      injection H as <-; [|now split].
    split; cbn; [lia|]. apply in_range_pages; [exact Hs | lia].
  - destruct (Z.ltb_spec 0 (HistoryViewer.current_page v)) as [Hn|_];
      injection H as <-; [|now split].
    split; cbn; [lia | nia].
  - injection H as <-. split; cbn; lia.
  - injection H as <-. now split.
Qed.

Lemma len_rev {A} (l : list A) : len (rev l) = len l.
Proof. unfold len. now rewrite length_rev. Qed.

Lemma turns_in_range {A} (history : list A) page_size v commands :
  0 < page_size ->
  in_range history page_size v ->
  Forall (fun shown =>
            exists page (reversed : bool),
              (0 <= page /\ page * page_size < len history)
              /\ shown = page_history
                           (if reversed then rev history else history)
                           page page_size)
         (HistoryViewer.turns history page_size
            ((len history - 1) / page_size + 1) v commands).
Proof.
  intros Hs. revert v. induction commands as [|c cs IH]; intros v Hv;
    cbn [HistoryViewer.turns].
  - repeat constructor.
    exists (HistoryViewer.current_page v), (HistoryViewer.reverse_mode v).
    split; [exact Hv | reflexivity].
  - constructor.
    + exists (HistoryViewer.current_page v), (HistoryViewer.reverse_mode v).
      split; [exact Hv | reflexivity].
    + destruct (HistoryViewer.handle _ v c) as [v'|] eqn:E; [|constructor].
      apply IH. eapply handle_in_range; eassumption.
Qed.

(** X16: the viewer of a history that is not empty, with a positive page
    size, shows at every turn a page of the range [0 .. pages - 1] of the
    history or of the reversed history, so one that is not empty and has
    at most [page_size] entries, whatever the commands are; it shows
    nothing for an empty history, and a page size of 0 raises
    [ZeroDivisionError] before anything is shown. *)
Theorem history_viewer_stays_in_range {A} (history : list A)
    (page_size : Z) (commands : list string) :
  (history = [] ->
   HistoryViewer.display_history_interactive history page_size commands
     = Ok [])
  /\ (history <> [] -> page_size = 0 ->
      HistoryViewer.display_history_interactive history page_size commands
        = Raise ZeroDivisionError)
  /\ (history <> [] -> 0 < page_size ->
      exists pages turns,
        HistoryViewer.total_pages history page_size = Ok pages
        /\ HistoryViewer.display_history_interactive
             history page_size commands = Ok turns
        /\ turns <> []
        /\ Forall (fun shown =>
             shown <> []
             /\ (length shown <= Z.to_nat page_size)%nat
             /\ exists page (reversed : bool),
                  0 <= page < pages
                  /\ shown = page_history
                               (if reversed then rev history else history)
                               page page_size) turns).
Proof.
  split; [|split].
  - now intros ->.
  - intros Hne ->. destruct history as [|x l]; [congruence|]. reflexivity.
  - intros Hne Hs. exists ((len history - 1) / page_size + 1).
    unfold HistoryViewer.display_history_interactive,
      HistoryViewer.total_pages.
    rewrite floordiv_pos by exact Hs. cbn [mbind result_bind].
    destruct history as [|x l]; [congruence|].
    set (history := x :: l) in *.
    eexists. split; [reflexivity|]. split; [reflexivity|].
    split; [destruct commands; discriminate|].
    eapply Forall_impl.
    + apply turns_in_range; [exact Hs|].
      split; cbn; [lia|]. unfold len, history. cbn [length]. lia.
    + cbn beta. intros shown (page & reversed & [H0 Hlt] & ->).
      assert (Hlt' : page * page_size
                     < len (if reversed then rev history else history))
        by (destruct reversed; [rewrite len_rev|]; exact Hlt).
      destruct (page_history_nonempty _ page page_size H0 Hs Hlt')
        as [Hn Hl].
      split; [exact Hn|]. split; [exact Hl|].
      exists page, reversed. split; [|reflexivity].
      split; [exact H0|]. now apply in_range_pages.
Qed.

(** ** The history tab and the keys of the application *)

Import Tui.





Lemma tabs_cases (P : string -> Prop) active :
  active ∈ tabs ->
  P "overview-tab" -> P "history-tab" -> P "insights-tab" ->
  P "config-tab" -> P "timeline-tab" -> P active.
Proof.
  unfold tabs. intros H. repeat (apply elem_of_cons in H as [->|H]; [tauto|]).
  now apply elem_of_nil in H.
Qed.






(** X18: on the five tabs the keys for the next and the previous tab undo
    each other and go round: behind the last tab comes the first, before
    the first the last, and five steps come back to the same tab.  With
    an active tab that is none of the five the next tab is the history
    tab and the previous one the timeline tab, as from the overview. *)
Theorem tab_keys_round_trip (app : App) :
  (active app ∈ tabs ->
   action_next_tab app ≫= action_prev_tab = Ok app
   /\ action_prev_tab app ≫= action_next_tab = Ok app
   /\ foldlM press app (replicate 5 KeyRight) = Ok app
   /\ foldlM press app (replicate 5 KeyLeft) = Ok app)
  /\ (active app ∉ tabs ->
      action_next_tab app = Ok (with_active app "history-tab")
      /\ action_prev_tab app = Ok (with_active app "timeline-tab")).
Proof.
  destruct app as [a tab]. cbn [active]. split.
  - intros Hin.
    apply (tabs_cases (fun a =>
             let app := {| active := a; history_tab := tab |} in
             action_next_tab app ≫= action_prev_tab = Ok app
             /\ action_prev_tab app ≫= action_next_tab = Ok app
             /\ foldlM press app (replicate 5 KeyRight) = Ok app
             /\ foldlM press app (replicate 5 KeyLeft) = Ok app) a Hin);
      repeat split; vm_compute; reflexivity.
  - intros Hout. unfold action_next_tab, action_prev_tab, current_index.
    cbn [active]. rewrite bool_decide_eq_false_2 by exact Hout.
    split; reflexivity.
Qed.

Import Timeline.

(** * The timeline of the operations *)

Lemma map_sum_insert (m : gmap string Z) k v :
  m !! k = None -> map_sum (<[k := v]> m) = v + map_sum m.
Proof.
  intros H. unfold map_sum.
  rewrite map_fold_insert_L; [reflexivity | intros; lia | exact H].
Qed.

Lemma map_sum_update (m : gmap string Z) k v :
  map_sum (<[k := v]> m) = v + map_sum m - default 0 (m !! k).
Proof.
  destruct (m !! k) as [c|] eqn:E; cbn [default]; unfold id.
  - assert (Hm : map_sum m = c + map_sum (delete k m)).
    { rewrite <- (insert_delete_id m k c E) at 1.
      apply map_sum_insert, lookup_delete_eq. }
    rewrite <- insert_delete_eq, map_sum_insert by apply lookup_delete_eq.
    lia.
  - rewrite map_sum_insert by exact E. lia.
Qed.


Lemma count_operations_spec (pre l : list CommitEntry) (m : gmap string Z) :
  (forall op, m !! op
     = let n := len (filter (fun e => op_type_of e = op) pre) in
       if n =? 0 then None else Some n) ->
  map_sum m = len pre ->
  (forall op, foldl count_operation m l !! op
     = let n := len (filter (fun e => op_type_of e = op) (pre ++ l)%list) in
       if n =? 0 then None else Some n)
  /\ map_sum (foldl count_operation m l) = len (pre ++ l)%list.
Proof.
  revert pre m. induction l as [|e l IH]; intros pre m Hm Hsum.
  - rewrite app_nil_r. now split.
  - cbn [foldl].
    replace (pre ++ e :: l)%list with ((pre ++ [e]) ++ l)%list
      by now rewrite <- app_assoc.
    apply IH.
    + intros op. unfold count_operation. cbn zeta.
      rewrite filter_app, filter_cons, filter_nil.
      unfold len. rewrite length_app.
      destruct (decide (op_type_of e = op)) as [E|Hne].
      * rewrite E, lookup_insert_eq, Hm. cbn zeta. cbn [length].
        unfold len.
        generalize (length (filter (fun e0 => op_type_of e0 = op) pre)).
        intros k. destruct (Z.eqb_spec (Z.of_nat k) 0) as [E0|?];
          destruct (Z.eqb_spec (Z.of_nat (k + 1)) 0); try lia;
          cbn [default]; unfold id; f_equal; lia.
      * rewrite lookup_insert_ne by exact Hne. rewrite Hm. cbn zeta.
        cbn [length]. unfold len. now rewrite Nat.add_0_r.
    + unfold count_operation. cbn zeta. rewrite map_sum_update, Hsum.
      rewrite Hm. cbn zeta. unfold len. rewrite length_app. cbn [length].
      generalize (length (filter (fun e0 => op_type_of e0 = op_type_of e)
                            pre)).
      intros k. destruct (Z.eqb_spec (Z.of_nat k) 0);
        cbn [default]; unfold id; lia.
Qed.

Section TimelineProperties.

Variable fromtimestamp : float -> result datetime.
Variable strftime_day : datetime -> string.

#[local] Abbreviation day_key_of :=
  (Timeline.day_key_of fromtimestamp strftime_day).
#[local] Abbreviation group_by_day :=
  (Timeline.group_by_day fromtimestamp strftime_day).
#[local] Abbreviation get_timeline_analysis :=
  (Timeline.get_timeline_analysis fromtimestamp strftime_day).
#[local] Abbreviation on_day := (on_day fromtimestamp strftime_day).

Lemma group_of_None {A} (g : list A) : group_of g = None -> g = [].
Proof. now destruct g. Qed.

Lemma group_of_Some {A} (g h : list A) :
  group_of g = Some h -> g = h /\ g <> [].
Proof. destruct g; [discriminate|]. now intros [= <-]. Qed.

Lemma group_of_snoc {A} (g : list A) x :
  group_of (g ++ [x])%list = Some (g ++ [x])%list.
Proof. now destruct g. Qed.

Lemma group_by_day_spec (pre l : list CommitEntry) m m' :
  (forall day, m !! day = group_of (List.filter (on_day day) pre)) ->
  foldlM group_by_day m l = Ok m' ->
  (forall day,
     m' !! day = group_of (List.filter (on_day day) (pre ++ l)%list))
  /\ Forall (fun e => exists day, day_key_of e = Ok day) l.
Proof.
  revert pre m. induction l as [|e l IH]; intros pre m Hm H.
  - injection H as <-. rewrite app_nil_r. now split.
  - cbn [foldlM] in H. apply bind_Ok in H as (m1 & H1 & H).
    unfold Timeline.group_by_day in H1.
    apply bind_Ok in H1 as (d0 & Hd0 & H1). injection H1 as <-.
    replace (pre ++ e :: l)%list with ((pre ++ [e]) ++ l)%list
      by now rewrite <- app_assoc.
    eapply IH in H as [Hl Hall].
    + split; [exact Hl|]. constructor; [eauto | exact Hall].
    + intros day. rewrite List.filter_app. cbn [List.filter].
      unfold on_day at 2. rewrite Hd0.
      destruct (String.eqb_spec d0 day) as [->|Hne].
      * rewrite lookup_alter_eq.
        destruct (m !! day) as [g|] eqn:Eg.
        -- rewrite Eg. cbn [fmap option_fmap option_map].
           rewrite Hm in Eg. apply group_of_Some in Eg as [-> _].
           now rewrite group_of_snoc.
        -- rewrite lookup_insert_eq. cbn [fmap option_fmap option_map].
           rewrite Hm in Eg. apply group_of_None in Eg. now rewrite Eg.
      * rewrite lookup_alter_ne by exact Hne. rewrite app_nil_r.
        destruct (m !! d0); [apply Hm|].
        rewrite lookup_insert_ne by exact Hne. apply Hm.
Qed.

Lemma timeline_inv table t latest older :
  dt_history table = latest :: older ->
  get_timeline_analysis table = Ok t ->
  exists by_day days rate patterns,
    foldlM group_by_day ∅ (latest :: older) = Ok by_day
    /\ 1 <= days
    /\ int_truediv (len (latest :: older)) days = Ok rate
    /\ DeltaTableInspector._analyze_write_patterns (latest :: older)
       = Ok patterns
    /\ t = {| total_operations := len (latest :: older);
              operations_by_type :=
                foldl count_operation ∅ (latest :: older);
              operations_by_day := by_day;
              version_creation_rate := NFloat rate;
              write_patterns := patterns;
              first_operation := Some (List.last older latest);
              latest_operation := Some latest |}.
Proof.
  intros Eh H. unfold Timeline.get_timeline_analysis in H.
  rewrite Eh in H. cbv zeta in H.
  apply bind_Ok in H as (by_day & Hd & H).
  apply bind_Ok in H as (first_time & _ & H).
  apply bind_Ok in H as (last_time & _ & H).
  apply bind_Ok in H as (rate & Hr & H).
  apply bind_Ok in H as (patterns & Hp & H).
  injection H as <-.
  exists by_day. eexists. exists rate, patterns.
  split; [exact Hd|]. split; [|split; [exact Hr|]].
  - apply Z.le_max_l.
  - split; [exact Hp | reflexivity].
Qed.

(** X19: in a timeline that the analysis returns, the count of an
    operation type is the number of entries of the history with that
    type, an entry without an operation counting as UNKNOWN; a type that
    no entry has is no key.  So the counts add up to the total, which is
    the length of the history. *)
Theorem timeline_counts_by_type table t :
  get_timeline_analysis table = Ok t ->
  total_operations t = len (dt_history table)
  /\ map_sum (operations_by_type t) = total_operations t
  /\ forall op,
       operations_by_type t !! op
       = let n := len (filter (fun e => op_type_of e = op)
                              (dt_history table)) in
         if n =? 0 then None else Some n.
Proof.
  intros H. destruct (dt_history table) as [|latest older] eqn:Eh.
  - unfold Timeline.get_timeline_analysis in H. rewrite Eh in H.
    injection H as <-. cbn. split; [reflexivity|]. split; [reflexivity|].
    intros op. apply lookup_empty.
  - destruct (timeline_inv _ _ _ _ Eh H)
      as (by_day & days & rate & patterns & _ & _ & _ & _ & ->).
    cbn [total_operations operations_by_type].
    destruct (count_operations_spec [] (latest :: older) ∅) as [Hc Hs].
    + intros op. cbn. apply lookup_empty.
    + reflexivity.
    + split; [reflexivity|]. split; [exact Hs | exact Hc].
Qed.

(** X20: in a timeline that the analysis returns, the group of a day holds
    the entries of the history that fall on that day, in the order of
    the history, and a day on which no entry falls is no key; every entry
    of the history has a day, so it is in the group of its day and in no
    other. *)
Theorem timeline_groups_by_day table t :
  get_timeline_analysis table = Ok t ->
  (forall day,
     operations_by_day t !! day
     = group_of (List.filter (on_day day) (dt_history table)))
  /\ Forall (fun e => exists day, day_key_of e = Ok day) (dt_history table).
Proof.
  intros H. destruct (dt_history table) as [|latest older] eqn:Eh.
  - unfold Timeline.get_timeline_analysis in H. rewrite Eh in H.
    injection H as <-. cbn. split; [|constructor].
    intros day. apply lookup_empty.
  - destruct (timeline_inv _ _ _ _ Eh H)
      as (by_day & days & rate & patterns & Hd & _ & _ & _ & ->).
    cbn [operations_by_day].
    apply (group_by_day_spec [] (latest :: older) ∅ by_day); [|exact Hd].
    intros day. cbn. apply lookup_empty.
Qed.

Lemma min_by_In {A} (key : A -> Z) (x : A) (l : list A) :
  In (min_by key x l) (x :: l).
Proof.
  unfold min_by. revert x. induction l as [|y l IH]; intros x; cbn [foldl].
  - now left.
  - destruct (IH (if key y <? key x then y else x)) as [H|H].
    + rewrite <- H. destruct (key y <? key x); [right; now left | now left].
    + right. now right.
Qed.

Lemma max_by_In {A} (key : A -> Z) (x : A) (l : list A) :
  In (max_by key x l) (x :: l).
Proof.
  unfold max_by. revert x. induction l as [|y l IH]; intros x; cbn [foldl].
  - now left.
  - destruct (IH (if key x <? key y then y else x)) as [H|H].
    + rewrite <- H. destruct (key x <? key y); [right; now left | now left].
    + right. now right.
Qed.

Lemma List_last_cons {A} (l : list A) (x d : A) :
  List.last (x :: l) d = List.last l x.
Proof.
  revert x d. induction l as [|y l IH]; intros x d; [reflexivity|].
  change (List.last (x :: y :: l) d) with (List.last (y :: l) d).
  now rewrite (IH y d), (IH y x).
Qed.

Lemma last_cons_last {A} (x : A) (l : list A) :
  last (x :: l) = Some (List.last l x).
Proof.
  revert x. induction l as [|y l IH]; intros x; [reflexivity|].
  now rewrite last_cons_cons, IH, List_last_cons.
Qed.

Lemma rate_at_most_len n days rate :
  0 < n < 2 ^ 53 -> 1 <= days -> int_truediv n days = Ok rate ->
  fgt_int rate n = false.
Proof.
  intros Hn Hd H. unfold fgt_int, gtQ.
  rewrite (int_truediv_pos n days rate (inject_Z n)) by (lia || exact H).
  assert (Hle : (round_pos n days <= inject_Z n)%Q).
  { eapply Qle_trans; [apply (round_pos_le n days n 1); nia|].
    pose proof (round_pos_exact n 0 Hn ltac:(lia)) as E.
    change (2 ^ 0) with 1 in E. rewrite E. apply Qle_refl. }
  destruct (round_pos n days ?= inject_Z n)%Q eqn:E; try reflexivity.
  rewrite <- Qgt_alt in E. lra.
Qed.

(** X21: the analysis of an empty history is the empty summary, without a
    first or latest operation.  For a history that is not empty the
    latest operation is its first entry and the first operation its last
    one, and the creation rate is the length of the history divided by a
    number of days that is at least 1, so never by zero; below 2^53
    operations the rate does not exceed their number.  The analysis
    returns for every history that fits 64 bits, if the platform's
    [fromtimestamp] converts every finite timestamp. *)
Theorem timeline_rate_and_ends table :
  (dt_history table = [] -> get_timeline_analysis table = Ok empty_timeline)
  /\ (forall t,
        get_timeline_analysis table = Ok t -> dt_history table <> [] ->
        latest_operation t = head (dt_history table)
        /\ first_operation t = last (dt_history table)
        /\ exists days rate,
             1 <= days
             /\ int_truediv (len (dt_history table)) days = Ok rate
             /\ version_creation_rate t = NFloat rate
             /\ (len (dt_history table) < 2 ^ 53 ->
                 fgt_int rate (len (dt_history table)) = false))
  /\ ((forall x, finite x -> exists d, fromtimestamp x = Ok d) ->
      storable_history (dt_history table) ->
      exists t, get_timeline_analysis table = Ok t).
Proof.
  split; [|split].
  - intros E. unfold Timeline.get_timeline_analysis. now rewrite E.
  - intros t H Hne.
    destruct (dt_history table) as [|latest older] eqn:Eh; [congruence|].
    destruct (timeline_inv _ _ _ _ Eh H)
      as (by_day & days & rate & patterns & _ & Hd & Hr & _ & ->).
    cbn [latest_operation first_operation version_creation_rate].
    split; [reflexivity|]. split; [now rewrite last_cons_last|].
    exists days, rate. split; [exact Hd|]. split; [exact Hr|].
    split; [reflexivity|]. intros Hlen.
    apply (rate_at_most_len _ days); [|exact Hd | exact Hr].
    split; [unfold len; cbn [length]; lia | exact Hlen].
  - intros Hfrom Hst. unfold Timeline.get_timeline_analysis.
    destruct (dt_history table) as [|latest older] eqn:Eh; [eauto|].
    cbv zeta. pose proof Hst as [Hall Hlen].
    assert (Hts : forall e, In e (latest :: older) ->
              exists d, of_millis fromtimestamp (timestamp_of e) = Ok d).
    { intros e He. apply of_millis_returns; [exact Hfrom|].
      rewrite Forall_forall in Hall.
      apply (Hall e). now apply list_elem_of_In. }
    destruct (foldlM_returns group_by_day (latest :: older) ∅)
      as (by_day & ->).
    { intros m e He. unfold Timeline.group_by_day, Timeline.day_key_of.
      destruct (Hts e He) as (d & ->). cbn [mbind result_bind]. eauto. }
    cbn [mbind result_bind].
    destruct (Hts _ (min_by_In timestamp_of latest older)) as (t1 & ->).
    destruct (Hts _ (max_by_In timestamp_of latest older)) as (t2 & ->).
    cbn [mbind result_bind].
    set (days := Z.max 1 _).
    destruct (int_truediv_bound (len (latest :: older)) days 63)
      as (rate & -> & _); [lia | unfold int64 in Hlen; lia | lia |].
    cbn [mbind result_bind].
    destruct (write_patterns_returns_on _ Hst) as (patterns & ->).
    cbn [mbind result_bind]. eauto.
Qed.

End TimelineProperties.

(** * The table of the files *)

Lemma slice_prefix {A} (l : list A) (stop : Z) :
  slice l 0 stop
  = take (Z.to_nat (if stop <? 0 then Z.max (stop + len l) 0
                    else Z.min stop (len l))) l.
Proof.
  unfold slice, slice_bound. cbn [Z.ltb Z.compare].
  rewrite (Z.min_l 0 (len l)) by (unfold len; lia).
  rewrite Z.sub_0_r. reflexivity.
Qed.

Lemma sorted_take_drop {A} (key : A -> Z) (l : list A) (n : nat) :
  Sorted (fun x y => key x <= key y) l ->
  forall x y, In x (take n l) -> In y (drop n l) -> key x <= key y.
Proof.
  intros Hs. apply Sorted_StronglySorted in Hs; [|intros x y z; lia].
  revert n. induction Hs as [|a l Hl IH Ha]; intros n x y Hx Hy.
  - now rewrite take_nil in Hx.
  - destruct n as [|n]; [now cbn in Hx|].
    cbn [take drop] in Hx, Hy. destruct Hx as [<-|Hx].
    + rewrite Forall_forall in Ha. apply Ha.
      apply list_elem_of_In in Hy.
      eapply elem_of_sublist; [exact Hy | apply sublist_drop].
    + now apply (IH n).
Qed.

Lemma sorted_take {A} (key : A -> Z) (l : list A) (n : nat) :
  Sorted (fun x y => key x <= key y) l ->
  Sorted (fun x y => key x <= key y) (take n l).
Proof.
  intros Hs. apply StronglySorted_Sorted.
  apply Sorted_StronglySorted in Hs; [|intros x y z; lia].
  revert n. induction Hs as [|a l Hl IH Ha]; intros n.
  - rewrite take_nil. constructor.
  - destruct n as [|n]; [constructor|]. cbn [take].
    constructor; [apply IH|].
    rewrite Forall_forall in *. intros x Hx. apply Ha.
    eapply elem_of_sublist; [exact Hx | apply sublist_take].
Qed.

(** X22: for a limit that is not negative the table of the files has as
    many rows as its title says, the least of the limit and the number
    of files; the rows are files of the table, each once, the largest
    first, and no file that is left out is larger than one that is
    shown.  A negative limit leaves out that many of the smallest files
    instead, while the title gives the negative number. *)
Theorem files_table_shows_largest (stats : TableStatistics) (limit : Z) :
  let shown := Display.sorted_files stats limit in
  (exists rest,
     Permutation (files stats) (shown ++ rest)%list
     /\ (forall f g, In f shown -> In g rest ->
           size_bytes g <= size_bytes f))
  /\ Sorted (fun f g => size_bytes g <= size_bytes f) shown
  /\ (0 <= limit -> len shown = Display.title_showing stats limit)
  /\ (limit < 0 ->
      len shown = Z.max 0 (len (files stats) + limit)
      /\ Display.title_showing stats limit = limit).
Proof.
  intros shown. unfold Display.sorted_files, Display.sorted_reverse in shown.
  set (sorted := sort_by (fun x => - size_bytes x) (files stats)) in *.
  assert (Hperm : Permutation (files stats) sorted) by apply sort_by_perm.
  assert (Hsorted : Sorted (fun x y => - size_bytes x <= - size_bytes y)
                           sorted) by apply sort_by_sorted.
  assert (Hlen : len sorted = len (files stats)).
  { unfold len. now rewrite (Permutation_length Hperm). }
  subst shown. rewrite slice_prefix.
  set (n := Z.to_nat _).
  split; [|split; [|split]].
  - exists (drop n sorted). split.
    + now rewrite take_drop.
    + intros f g Hf Hg.
      pose proof (sorted_take_drop _ _ n Hsorted f g Hf Hg) as Hk.
      cbn beta in Hk. lia.
  - pose proof (sorted_take _ _ n Hsorted) as Hs.
    clear -Hs. induction Hs as [|a l Hl IH Ha]; constructor; [exact IH|].
    destruct Ha; constructor. lia.
  - intros H0. subst n. unfold Display.title_showing, len in *.
    rewrite length_take. destruct (Z.ltb_spec limit 0); lia.
  - intros H0. subst n. unfold Display.title_showing, len in *.
    rewrite length_take. destruct (Z.ltb_spec limit 0); lia.
Qed.

Lemma length_append (a b : string) :
  String.length (a ++ b) = (String.length a + String.length b)%nat.
Proof.
  induction a as [|c a IH]; [reflexivity|].
  change (String c a ++ b)%string with (String c (a ++ b)).
  cbn [String.length]. now rewrite IH.
Qed.

Lemma substring_rest (s : string) (n : nat) :
  (n <= String.length s)%nat ->
  exists pre,
    s = (pre ++ String.substring n (String.length s - n) s)%string
    /\ String.length pre = n.
Proof.
  revert n. induction s as [|c s IH]; intros n Hn.
  - destruct n; [|cbn in Hn; lia]. now exists EmptyString.
  - destruct n as [|n].
    + exists EmptyString. split; [|reflexivity].
      change ("" ++ ?x)%string with x.
      cbn [String.length Nat.sub String.substring]. f_equal.
      clear. induction s as [|c s IH]; [reflexivity|].
      cbn [String.length String.substring]. now rewrite <- IH.
    + cbn [String.length] in Hn. destruct (IH n ltac:(lia)) as (pre & E & L).
      exists (String c pre). split; [|cbn [String.length]; now rewrite L].
      change (String c pre ++ ?x)%string with (String c (pre ++ x)).
      cbn [String.length Nat.sub String.substring]. now f_equal.
Qed.

(** X23: the path of a row has at most 60 characters: a path of up to 60
    characters is shown as it is, a longer one as three dots and its last
    57 characters. *)
Theorem row_path_fits (path : string) :
  (String.length (Display.row_path path) <= 60)%nat
  /\ ((String.length path <= 60)%nat -> Display.row_path path = path)
  /\ ((60 < String.length path)%nat ->
      exists front ending,
        path = (front ++ ending)%string
        /\ String.length ending = 57%nat
        /\ Display.row_path path = ("..." ++ ending)%string).
Proof.
  unfold Display.row_path.
  destruct (Z.ltb_spec 60 (Z.of_nat (String.length path))) as [Hlong|Hshort].
  - assert (Hfrom : exists front ending,
              path = (front ++ ending)%string
              /\ String.length ending = 57%nat
              /\ Display.str_from path (-57) = ending).
    { unfold Display.str_from, slice_bound. cbn [Z.ltb Z.compare].
      rewrite Z.max_l by lia.
      destruct (substring_rest path (String.length path - 57) ltac:(lia))
        as (pre & E & L).
      replace (String.length path - (String.length path - 57))%nat
        with 57%nat in E by lia.
      exists pre, (String.substring (String.length path - 57) 57 path).
      split; [exact E|]. split.
      - apply (f_equal String.length) in E.
        rewrite length_append, L in E. lia.
      - f_equal; lia. }
    destruct Hfrom as (front & ending & E & L & ->).
    split; [|split].
    + rewrite length_append, L. cbn. lia.
    + lia.
    + intros _. exists front, ending. now split.
  - split; [lia|]. split; [reflexivity | lia].
Qed.

(** * Retention durations that are read *)

Lemma digit_code c d :
  digit_value c = Some d -> (48 <= code c <= 57)%N.
Proof.
  unfold digit_value. cbv zeta.
  destruct (N.leb_spec 48 (code c)); destruct (N.leb_spec (code c) 57);
    cbn [andb]; try discriminate. intros _. lia.
Qed.

Lemma digit_not_space c d : digit_value c = Some d -> is_space c = false.
Proof.
  intros H. apply digit_code in H. unfold is_space. cbv zeta.
  repeat match goal with
         | |- context [(?a <=? ?b)%N] => destruct (N.leb_spec a b)
         | |- context [(?a =? ?b)%N] => destruct (N.eqb_spec a b)
         end; cbn; try reflexivity; lia.
Qed.

Lemma digit_not_int_space c d :
  digit_value c = Some d -> is_int_space c = false.
Proof.
  intros H. apply digit_code in H. unfold is_int_space. cbv zeta.
  repeat match goal with
         | |- context [(?a <=? ?b)%N] => destruct (N.leb_spec a b)
         | |- context [(?a =? ?b)%N] => destruct (N.eqb_spec a b)
         end; cbn; try reflexivity; lia.
Qed.

Lemma digit_not_char c d (x : ascii) :
  digit_value c = Some d -> (code x < 48 \/ 57 < code x)%N -> x <> c.
Proof. intros H Hx ->. apply digit_code in H. lia. Qed.

Lemma all_digits_cons c s :
  all_digits (String c s) = true ->
  (exists d, digit_value c = Some d) /\ all_digits s = true.
Proof. cbn. destruct (digit_value c); [eauto | discriminate]. Qed.

Lemma replace_hours_digits ds rest :
  all_digits ds = true ->
  replace_from 0 "hours" "" (ds ++ rest)
  = (ds ++ replace_from 0 "hours" "" rest)%string.
Proof.
  induction ds as [|c ds IH]; intros H; [reflexivity|].
  apply all_digits_cons in H as [[d Hd] H].
  change (String c ds ++ ?x)%string with (String c (ds ++ x)).
  cbn [replace_from].
  assert (E : String.prefix "hours" (String c (ds ++ rest)) = false).
  { cbn [String.prefix]. destruct (ascii_dec "h" c) as [E|_]; [|reflexivity].
    exfalso. revert E. eapply digit_not_char; [exact Hd|]. cbn. lia. }
  rewrite E, IH by exact H. reflexivity.
Qed.

Lemma lstrip_digits ds : all_digits ds = true -> lstrip ds = ds.
Proof.
  destruct ds as [|c ds]; [reflexivity|]. intros H.
  apply all_digits_cons in H as [[d Hd] _].
  cbn [lstrip]. now rewrite (digit_not_space c d Hd).
Qed.

Lemma rstrip_digits ds :
  all_digits ds = true ->
  rstrip ds = ds /\ rstrip (ds ++ " ") = ds.
Proof.
  induction ds as [|c ds IH]; intros H; [split; reflexivity|].
  apply all_digits_cons in H as [[d Hd] H]. destruct (IH H) as [E1 E2].
  change (String c ds ++ ?x)%string with (String c (ds ++ x)).
  cbn [rstrip]. rewrite E1, E2, (digit_not_space c d Hd).
  destruct ds; split; reflexivity.
Qed.

Lemma int_lstrip_digits ds : all_digits ds = true -> int_lstrip ds = ds.
Proof.
  destruct ds as [|c ds]; [reflexivity|]. intros H.
  apply all_digits_cons in H as [[d Hd] _].
  cbn [int_lstrip]. now rewrite (digit_not_int_space c d Hd).
Qed.

Lemma int_rstrip_digits ds : all_digits ds = true -> int_rstrip ds = ds.
Proof.
  induction ds as [|c ds IH]; intros H; [reflexivity|].
  apply all_digits_cons in H as [[d Hd] H].
  cbn [int_rstrip]. rewrite (IH H), (digit_not_int_space c d Hd).
  now destruct ds.
Qed.

Lemma int_digits_decimal ds prev acc n :
  all_digits ds = true -> (ds <> EmptyString \/ prev = true) ->
  int_digits ds prev acc n
  = Some (decimal_from acc ds, (n + String.length ds)%nat).
Proof.
  revert prev acc n. induction ds as [|c ds IH]; intros prev acc n H Hne.
  - destruct Hne as [?| ->]; [congruence|]. cbn. now rewrite Nat.add_0_r.
  - apply all_digits_cons in H as [[d Hd] H].
    cbn [int_digits decimal_from String.length]. rewrite Hd.
    rewrite IH by (exact H || now right). cbn [default]. unfold id.
    do 2 f_equal. lia.
Qed.

Lemma py_int_decimal ds : is_decimal ds -> py_int ds = Ok (decimal_value ds).
Proof.
  intros (Hne & H & Hlen). unfold py_int.
  rewrite int_lstrip_digits, int_rstrip_digits by exact H.
  destruct ds as [|c ds]; [congruence|].
  destruct (all_digits_cons _ _ H) as [[d Hd] _].
  pose proof (digit_code _ _ Hd) as Hc.
  destruct (N.eqb_spec (code c) 45); [lia|].
  destruct (N.eqb_spec (code c) 43); [lia|].
  rewrite int_digits_decimal by (exact H || now left).
  cbn [Nat.add].
  destruct (Nat.ltb_spec int_max_str_digits (String.length (String c ds)));
    [lia | reflexivity].
Qed.

(** X24: a retention duration written as a decimal number, alone or
    followed by [hours] with or without a blank before it, is read as
    that number of hours, if the count of the indexed columns is read as
    well. *)
Theorem retention_hours_read config protocol ds unit cols :
  is_decimal ds ->
  unit ∈ [""; " hours"; "hours"] ->
  config !! retention_key = Some (ds ++ unit)%string ->
  py_int (indexed_cols_text config) = Ok cols ->
  exists report,
    _detect_advanced_features config protocol = Ok report
    /\ vacuum_retention_hours report = decimal_value ds
    /\ ds_num_indexed_cols (data_skipping report) = cols.
Proof.
  intros Hd Hu Hc Hcols.
  assert (Ht : retention_text config = ds).
  { unfold retention_text, config_get. rewrite Hc. cbn [default]. unfold id.
    pose proof Hd as (Hne & H & _). unfold replace.
    rewrite replace_hours_digits by exact H.
    destruct (rstrip_digits ds H) as [E1 E2].
    assert (Hr : replace_from 0 "hours" "" unit = ""
                 \/ replace_from 0 "hours" "" unit = " ").
    { repeat (apply elem_of_cons in Hu as [->|Hu]; [now (left + right)|]).
      now apply elem_of_nil in Hu. }
    unfold strip.
    destruct Hr as [-> | ->].
    - rewrite str_app_nil_r. now rewrite lstrip_digits.
    - destruct ds as [|c ds]; [congruence|].
      rewrite <- E2 at 2. f_equal.
      change (String c ds ++ " ")%string with (String c (ds ++ " ")).
      apply all_digits_cons in H as [[d Hdv] _].
      cbn [lstrip]. now rewrite (digit_not_space c d Hdv). }
  unfold _detect_advanced_features.
  fold indexed_cols_key retention_key.
  fold (indexed_cols_text config). fold (retention_text config).
  rewrite Hcols, Ht, (py_int_decimal ds Hd). cbn [mbind result_bind].
  eexists. split; [reflexivity|]. split; reflexivity.
Qed.

(** * The type names of the schema *)

Import SchemaDict.

Lemma contains_cons c s sub :
  contains (String c s) sub = String.prefix sub (String c s) || contains s sub.
Proof. reflexivity. Qed.

Lemma split_from_skip k sep cur a b :
  String.length a = k ->
  split_from k sep cur (a ++ b) = split_from 0 sep cur b.
Proof.
  revert k. induction a as [|c a IH]; intros k E.
  - cbn in E. subst k. reflexivity.
  - cbn [String.length] in E. subst k.
    change (String c a ++ b)%string with (String c (a ++ b)).
    cbn [split_from]. now apply IH.
Qed.

Lemma split_from_none sep cur s :
  contains s sep = false -> split_from 0 sep cur s = [(cur ++ s)%string].
Proof.
  revert cur. induction s as [|c s IH]; intros cur H.
  - cbn. now rewrite str_app_nil_r.
  - rewrite contains_cons in H. apply orb_false_iff in H as [Hp Hc].
    cbn [split_from]. rewrite Hp, IH by exact Hc.
    now rewrite str_app_assoc.
Qed.

Lemma split_from_two sep cur s :
  sep <> EmptyString -> contains s sep = true ->
  (2 <= length (split_from 0 sep cur s))%nat.
Proof.
  intros Hsep. revert cur. induction s as [|c s IH]; intros cur H.
  - destruct sep; [congruence | discriminate].
  - rewrite contains_cons in H. cbn [split_from].
    destruct (String.prefix sep (String c s)) eqn:Hp.
    + cbn [length].
      assert (1 <= length (split_from (String.length sep - 1) sep "" s))%nat;
        [|lia].
      clear. generalize (String.length sep - 1)%nat, EmptyString.
      induction s as [|c s IH]; intros k cur; [cbn; lia|].
      cbn [split_from]. destruct k; [|apply IH].
      destruct (String.prefix sep (String c s)); [cbn; lia | apply IH].
    + apply IH. exact H.
Qed.

Lemma prefix_before_char (sep x : string) (c : ascii) :
  ~ In c (list_ascii_of_string sep) ->
  String.prefix sep (x ++ String c EmptyString) = true ->
  String.prefix sep x = true.
Proof.
  revert x. induction sep as [|a sep IH]; intros x Hno H.
  - now destruct x.
  - destruct x as [|b x].
    + change ("" ++ ?y)%string with y in H. cbn [String.prefix] in H.
      destruct (ascii_dec a c) as [->|]; [|discriminate].
      exfalso. apply Hno. now left.
    + change (String b x ++ ?y)%string with (String b (x ++ y)) in H.
      cbn [String.prefix] in *.
      destruct (ascii_dec a b); [|discriminate].
      apply IH; [|exact H]. intros Hin. apply Hno. now right.
Qed.

Lemma contains_before_char (sep x : string) (c : ascii) :
  sep <> EmptyString -> ~ In c (list_ascii_of_string sep) ->
  contains x sep = false ->
  contains (x ++ String c EmptyString) sep = false.
Proof.
  intros Hsep Hno. induction x as [|b x IH]; intros H.
  - change ("" ++ ?y)%string with y. cbn.
    destruct sep as [|a sep]; [congruence|]. cbn.
    destruct (ascii_dec a c) as [->|]; [|now destruct sep].
    exfalso. apply Hno. now left.
  - rewrite contains_cons in H. apply orb_false_iff in H as [Hp Hc].
    change (String b x ++ ?y)%string with (String b (x ++ y)).
    rewrite contains_cons, (IH Hc), orb_false_r.
    destruct (String.prefix sep (String b (x ++ String c ""))) eqn:E;
      [|reflexivity].
    apply (prefix_before_char sep (String b x) c Hno) in E. congruence.
Qed.

Lemma contains_prefix (s sub : string) :
  String.prefix sub s = true -> contains s sub = true.
Proof. intros H. destruct s; cbn [contains]; now rewrite H. Qed.

Lemma endswith_char_snoc (s : string) (c : ascii) :
  endswith_char (s ++ String c EmptyString) c = true.
Proof.
  induction s as [|a s IH].
  - cbn. apply Ascii.eqb_refl.
  - change (String a s ++ ?y)%string with (String a (s ++ y)).
    cbn [endswith_char]. destruct (s ++ String c "")%string eqn:E; [|exact IH].
    destruct s; discriminate.
Qed.

Lemma str_to_snoc (s : string) (c : ascii) :
  str_to (s ++ String c EmptyString) (-1) = s.
Proof.
  unfold str_to, slice_bound. cbn [Z.ltb Z.compare Z.opp].
  rewrite length_append. cbn [String.length].
  replace (Z.to_nat _) with (String.length s) by lia.
  induction s as [|a s IH]; [reflexivity|].
  change (String a s ++ ?y)%string with (String a (s ++ y)).
  cbn [String.length String.substring]. now rewrite IH.
Qed.

Lemma split_from_sep c sep rest cur :
  split_from 0 (String c sep) cur (String c sep ++ rest)
  = cur :: split_from 0 (String c sep) "" rest.
Proof.
  pose proof (startswith_app (String c sep) rest) as Hp.
  unfold startswith in Hp.
  change (String c sep ++ rest)%string with (String c (sep ++ rest)) in *.
  cbn [split_from]. rewrite Hp. f_equal.
  apply split_from_skip. cbn [String.length]. lia.
Qed.

Lemma clean_type_returns type_str : exists name, clean_type type_str = Ok name.
Proof.
  unfold clean_type. cbv zeta.
  destruct (contains (strip type_str) "DataType<") eqn:Ec; cbn [andb];
    [|eauto].
  destruct (endswith_char (strip type_str) ">"); [|eauto].
  pose proof (split_from_two "DataType<" "" (strip type_str)
                ltac:(discriminate) Ec) as Hlen.
  unfold split, getitem. cbn [Z.ltb Z.compare Z.to_nat Pos.to_nat
                               Pos.iter_op Nat.add].
  unfold index.
  destruct (split_from 0 "DataType<" "" (strip type_str)) as [|p0 [|p1 ps]];
    cbn [length] in Hlen; try lia.
  cbn. eauto.
Qed.

(** X25: a type whose text, the surrounding whitespace apart, is
    [DataType<T>] gets the name [T], if [T] has no [DataType<] in it; a
    text without [DataType<], or one that does not end with [>], is
    only stripped of its whitespace.  No text makes the cleaning raise,
    so the schema always gets its dict. *)
Theorem schema_type_names (type_str : string) :
  (forall T,
     strip type_str = ("DataType<" ++ T ++ ">")%string ->
     contains T "DataType<" = false ->
     clean_type type_str = Ok T)
  /\ (contains (strip type_str) "DataType<" = false
      \/ endswith_char (strip type_str) ">" = false ->
      clean_type type_str = Ok (strip type_str))
  /\ (exists name, clean_type type_str = Ok name)
  /\ (forall fields, exists d, get_schema_dict fields = Ok d).
Proof.
  split; [|split; [|split]].
  - intros T Es HT. unfold clean_type. cbv zeta. rewrite Es.
    assert (Ec : contains ("DataType<" ++ T ++ ">") "DataType<" = true).
    { apply contains_prefix. apply (startswith_app "DataType<" (T ++ ">")). }
    assert (Ee : endswith_char ("DataType<" ++ T ++ ">") ">" = true).
    { rewrite <- str_app_assoc. apply endswith_char_snoc. }
    rewrite Ec, Ee. cbn [andb]. unfold split.
    rewrite (split_from_sep "D" "ataType<" (T ++ ">") "").
    rewrite split_from_none
      by (apply contains_before_char;
          [discriminate | cbn; intuition discriminate | exact HT]).
    change (getitem [""; ("" ++ (T ++ ">"))%string] 1)
      with (Ok (A:=string) (T ++ ">")%string).
    cbn [mbind result_bind]. now rewrite str_to_snoc.
  - intros H. unfold clean_type. cbv zeta.
    destruct H as [-> | ->]; [reflexivity|].
    now rewrite andb_false_r.
  - apply clean_type_returns.
  - intros fields. unfold get_schema_dict. apply foldlM_returns.
    intros d field _. destruct (clean_type_returns field.2) as (t & ->).
    cbn [mbind result_bind]. eauto.
Qed.

(** * The insights tab *)

Lemma of_severity_none sev (l : list Insight) :
  Forall (fun i => severity i <> sev) l -> InsightsTab.of_severity sev l = [].
Proof.
  induction 1 as [|i l Hi _ IH]; [reflexivity|].
  unfold InsightsTab.of_severity in *. cbn [List.filter].
  destruct (String.eqb_spec (severity i) sev); [congruence | exact IH].
Qed.

Lemma rank_of_severity i :
  severity i ∈ ["critical"; "warning"; "info"; "good"] ->
  (severity i = "critical" /\ severity_rank i = 0)
  \/ (severity i = "warning" /\ severity_rank i = 1)
  \/ (severity i = "info" /\ severity_rank i = 2)
  \/ (severity i = "good" /\ severity_rank i = 3).
Proof.
  unfold severity_rank. rewrite !elem_of_cons, elem_of_nil.
  intros [E|[E|[E|[E|[]]]]]; rewrite E; vm_compute; tauto.
Qed.

Lemma of_severity_cons sev x (l : list Insight) :
  InsightsTab.of_severity sev (x :: l)
  = if String.eqb (severity x) sev
    then x :: InsightsTab.of_severity sev l
    else InsightsTab.of_severity sev l.
Proof. reflexivity. Qed.

Lemma sorted_sections (l : list Insight) :
  StronglySorted (fun x y => severity_rank x <= severity_rank y) l ->
  Forall (fun i => severity i ∈ ["critical"; "warning"; "info"; "good"]) l ->
  (InsightsTab.of_severity "critical" l
   ++ InsightsTab.of_severity "warning" l
   ++ InsightsTab.of_severity "info" l
   ++ InsightsTab.of_severity "good" l)%list = l.
Proof.
  induction 1 as [|x l Hl IH Hx]; intros Hsev; [reflexivity|].
  apply Forall_cons in Hsev as [Hs Hsev]. specialize (IH Hsev).
  assert (Hlow : forall sev r,
            severity_order !! sev = Some r ->
            r < severity_rank x ->
            InsightsTab.of_severity sev l = []).
  { intros sev r Hr Hlt. apply of_severity_none.
    rewrite Forall_forall in *. intros i Hi E.
    specialize (Hx i Hi). cbn beta in Hx.
    unfold severity_rank at 2 in Hx. rewrite E, Hr in Hx.
    cbn [default] in Hx. unfold id in Hx. lia. }
  rewrite !of_severity_cons.
  destruct (rank_of_severity x Hs) as [[E R]|[[E R]|[[E R]|[E R]]]];
    rewrite E;
    repeat match goal with
           | |- context [String.eqb ?a ?b] =>
               let c := eval vm_compute in (String.eqb a b) in
               change (String.eqb a b) with c
           end; cbv iota.
  - cbn [app]. now rewrite IH.
  - rewrite (Hlow "critical" 0) in * by (reflexivity || lia).
    cbn [app] in *. now rewrite IH.
  - rewrite (Hlow "critical" 0), (Hlow "warning" 1) in *
      by (reflexivity || lia).
    cbn [app] in *. now rewrite IH.
  - rewrite (Hlow "critical" 0), (Hlow "warning" 1), (Hlow "info" 2) in *
      by (reflexivity || lia).
    cbn [app] in *. now rewrite IH.
Qed.

Lemma analyze_severities now stats l :
  analyze now stats = Ok l ->
  Forall (fun i => severity i ∈ ["critical"; "warning"; "info"; "good"]) l.
Proof.
  intros H. apply analyze_Ok in H as (pre & Hpre & ->).
  apply collect_Ok in Hpre as (rs & Hrs & ->).
  pose proof (run_rules_severity _ _ _ Hrs) as Hsev.
  rewrite Forall_forall. intros i Hi.
  apply list_elem_of_In in Hi.
  apply (Permutation_in _ (Permutation_sym (sort_by_perm severity_rank _)))
    in Hi.
  apply in_app_or in Hi as [Hi|Hi].
  - rewrite Forall_forall in Hsev.
    specialize (Hsev i ltac:(now apply list_elem_of_In)).
    unfold rule_severity in Hsev. set_solver.
  - destruct (existsb has_issue rs); [destruct Hi|].
    destruct Hi as [<-|[]]. cbn. set_solver.
Qed.

(** X26: the insights tab shows what [analyze] returned: never the note of
    an empty list, since the list has an entry, and in its four sections,
    one after the other, every insight of the list once and in the order
    of the list.  The three counts of the summary and the number of the
    good entries add up to the length of the list. *)
Theorem insights_tab_shows_analysis now stats l :
  analyze now stats = Ok l ->
  exists shown,
    InsightsTab._create_insights l = Some shown
    /\ concat (InsightsTab.sections shown) = l
    /\ let '(critical, warnings, info) := InsightsTab.summary shown in
       critical + warnings + info
       + len (InsightsTab.of_severity "good" l) = len l.
Proof.
  intros H.
  assert (Hcat : (InsightsTab.of_severity "critical" l
                  ++ InsightsTab.of_severity "warning" l
                  ++ InsightsTab.of_severity "info" l
                  ++ InsightsTab.of_severity "good" l)%list = l).
  { apply sorted_sections; [|exact (analyze_severities _ _ _ H)].
    apply analyze_Ok in H as (pre & _ & ->).
    apply Sorted_StronglySorted; [intros x y z; lia|].
    apply sort_by_sorted. }
  assert (Hne : l <> []).
  { apply analyze_Ok in H as (pre & Hpre & ->).
    apply collect_Ok in Hpre as (rs & _ & ->).
    intros E. apply (f_equal (@length _)) in E.
    rewrite <- (Permutation_length (sort_by_perm severity_rank _)) in E.
    rewrite length_app in E.
    destruct (existsb has_issue rs) eqn:Ei; cbn [length] in E; [|lia].
    apply existsb_exists in Ei as (i & Hi & _).
    destruct rs; [destruct Hi | cbn [length] in E; lia]. }
  unfold InsightsTab._create_insights.
  destruct l as [|i l]; [congruence|].
  eexists. split; [reflexivity|].
  cbn [InsightsTab.sections InsightsTab.summary concat].
  rewrite app_nil_r. split; [exact Hcat|].
  rewrite <- Hcat at 5. unfold len. rewrite !length_app. lia.
Qed.

(** * The further properties on sample inputs *)

Lemma analyze_between_1_and_8_witness :
  exists l,
    analyze 0 busy_stats = Ok l /\ (1 <= length l <= 8)%nat
    /\ length l = 8%nat.
Proof.
  eexists. split; [vm_compute; reflexivity|].
  split; [|reflexivity].
  apply (analyze_between_1_and_8 0 busy_stats). vm_compute. reflexivity.
Defined.

Lemma looks_good_comes_last_witness :
  exists l,
    analyze 0 rewritten_stats = Ok l
    /\ exists rs,
         run_rules 0 rewritten_stats = Ok rs
         /\ l = (rs ++ [looks_good])%list
         /\ Forall (fun i => severity i = "info"%string) rs.
Proof.
  eexists. split; [vm_compute; reflexivity|].
  apply (looks_good_comes_last 0 rewritten_stats).
  - vm_compute. reflexivity.
  - right. left. reflexivity.
Defined.

Lemma regular_optimization_rule_witness :
  exists l,
    analyze 0 busy_stats = Ok l
    /\ emits l "info" "Consider Regular Optimization"
    /\ emits l "warning" "High File Count".
Proof.
  eexists. split; [vm_compute; reflexivity|].
  match goal with
  | |- emits ?l _ _ /\ _ =>
      destruct (regular_optimization_rule 0 busy_stats l
                  ltac:(vm_compute; reflexivity)) as [Hiff Himp]
  end.
  assert (H : 20 < total_versions busy_stats /\ 1000 < num_files busy_stats)
    by (split; reflexivity).
  apply Hiff in H. split; [exact H | exact (Himp H)].
Defined.

Lemma many_small_writes_rule_witness :
  exists l,
    analyze 0 busy_stats = Ok l
    /\ emits l "info" "Many Small Writes Detected".
Proof.
  eexists. split; [vm_compute; reflexivity|].
  match goal with
  | |- emits ?l _ _ =>
      apply (many_small_writes_rule 0 busy_stats l
               ltac:(vm_compute; reflexivity)
               ltac:(vm_compute; discriminate))
  end.
  split; reflexivity.
Defined.

Lemma analyze_titles_unique_witness :
  exists l, analyze 0 busy_stats = Ok l /\ NoDup (title <$> l).
Proof.
  eexists. split; [vm_compute; reflexivity|].
  apply (analyze_titles_unique 0 busy_stats). vm_compute. reflexivity.
Defined.

Lemma analyze_exclusive_findings_witness :
  exists l,
    analyze 0 busy_stats = Ok l
    /\ emits l "critical" "Small Files Problem Detected"
    /\ ~ emits l "warning" "Some Small Files Detected".
Proof.
  eexists. split; [vm_compute; reflexivity|].
  match goal with
  | |- emits ?l _ _ /\ _ =>
      destruct (analyze_exclusive_findings 0 busy_stats l
                  ltac:(vm_compute; reflexivity)) as [Hx _]
  end.
  match goal with
  | |- ?P /\ _ =>
      assert (Hc : P)
        by (eexists; split; [left; reflexivity|]; split; reflexivity)
  end.
  split; [exact Hc|]. intros Hw. apply Hx. split; [exact Hc | exact Hw].
Defined.


Lemma equal_sizes_no_skew_witness :
  exists l,
    analyze 0 equal_stats = Ok l
    /\ ~ emits l "warning" "Data Skew Detected".
Proof.
  eexists. split; [vm_compute; reflexivity|].
  apply (equal_sizes_no_skew 0 equal_stats 4096).
  - repeat constructor.
  - vm_compute. reflexivity.
Defined.

Lemma format_bytes_units_witness :
  _format_bytes 1536 = Ok "1.50 KB"
  /\ exists v,
       dyadic v 1536 (10 * Z.of_nat (unit_index 1536))
       /\ _format_bytes 1536
          = Ok (format_fixed 2 v ++ " " ++ unit_name (unit_index 1536))%string.
Proof.
  split; [vm_compute; reflexivity|].
  apply (format_bytes_units 1536). split; [lia | reflexivity].
Defined.

Lemma get_statistics_mirrors_batch_witness :
  exists stats,
    get_statistics utc_fromtimestamp "/data/table" sample_table = Ok stats
    /\ path <$> files stats = ["region=eu/0.parquet"; "region=us/1.parquet"]
    /\ size_bytes <$> files stats = [1200; 0].
Proof.
  eexists. split; [vm_compute; reflexivity|].
  apply (get_statistics_mirrors_batch utc_fromtimestamp "/data/table"
           sample_table).
  vm_compute. reflexivity.
Defined.

Lemma get_statistics_without_sizes_witness :
  exists e,
    get_statistics utc_fromtimestamp "/data/table" sizeless_table = Raise e.
Proof.
  destruct (get_statistics_without_sizes utc_fromtimestamp "/data/table"
              sizeless_table eq_refl) as [_ H].
  apply H. cbn. lia.
Defined.

Lemma oldest_version_is_minimum_witness :
  exists stats,
    get_statistics utc_fromtimestamp "/data/table" two_days_table = Ok stats
    /\ Forall (fun v => oldest_version stats <= v) [2; 1; 0]
    /\ oldest_version stats = 0.
Proof.
  eexists. split; [vm_compute; reflexivity|].
  split; [|reflexivity].
  apply (oldest_version_is_minimum utc_fromtimestamp "/data/table"
           two_days_table).
  vm_compute. reflexivity.
Defined.

Lemma last_vacuum_is_most_recent_witness :
  exists stats,
    get_statistics utc_fromtimestamp "/data/table" vacuumed_table = Ok stats
    /\ last_vacuum stats = Some 3000000
    /\ exists newer e older,
         dt_history vacuumed_table = (newer ++ e :: older)%list
         /\ Forall (fun e' => ce_operation e' <> Some "VACUUM"%string) newer
         /\ ce_operation e = Some "VACUUM"%string
         /\ of_millis utc_fromtimestamp (default 0 (ce_timestamp e))
            = Ok 3000000.
Proof.
  eexists. split; [vm_compute; reflexivity|].
  match goal with
  | |- last_vacuum ?stats = _ /\ _ =>
      pose proof (last_vacuum_is_most_recent utc_fromtimestamp "/data/table"
                    vacuumed_table stats ltac:(vm_compute; reflexivity)) as H
  end.
  split; [reflexivity | exact H].
Defined.

Lemma extract_azure_account_name_form_witness :
  _extract_azure_account_name
    "abfss://landing-zone@stpdatalake44dk98.dfs.core.windows.net/sharepoint"
  = Some "stpdatalake44dk98".
Proof.
  apply extract_azure_account_name_form.
  exists "landing-zone", "dfs.core.windows.net/sharepoint".
  split; [reflexivity|]. split; [discriminate|].
  split; [cbn; intuition discriminate|]. split; [discriminate|].
  cbn. intuition discriminate.
Defined.

Lemma pages_partition_history_witness :
  exists pages,
    HistoryViewer.total_pages (seqZ 0 25) 10 = Ok pages
    /\ pages = 3
    /\ concat ((fun page => page_history (seqZ 0 25) page 10)
                 <$> seqZ 0 pages) = seqZ 0 25.
Proof.
  destruct (pages_partition_history (seqZ 0 25) 10 ltac:(lia))
    as (pages & Hp & Hc & _).
  exists pages. split; [exact Hp|]. split; [|exact Hc].
  vm_compute in Hp. injection Hp as <-. reflexivity.
Defined.

Lemma history_viewer_stays_in_range_witness :
  exists turns,
    HistoryViewer.display_history_interactive (seqZ 0 25) 10
      ["n"; "n"; "n"; "r"; "p"; "q"; "n"] = Ok turns
    /\ turns = [ seqZ 0 10; seqZ 10 10; seqZ 20 5; seqZ 20 5;
                 rev (seqZ 15 10); rev (seqZ 15 10) ]
    /\ Forall (fun shown => shown <> [] /\ (length shown <= 10)%nat) turns.
Proof.
  destruct (history_viewer_stays_in_range (seqZ 0 25) 10
              ["n"; "n"; "n"; "r"; "p"; "q"; "n"]) as (_ & _ & H).
  destruct (H ltac:(discriminate) ltac:(lia))
    as (pages & turns & _ & Ht & _ & Hall).
  exists turns. split; [exact Ht|]. split.
  - vm_compute in Ht. injection Ht as <-. reflexivity.
  - eapply Forall_impl; [exact Hall|]. cbn beta.
    intros shown (Hne & Hlen & _). split; [exact Hne | exact Hlen].
Defined.


Lemma tab_keys_round_trip_witness :
  action_next_tab {| active := "timeline-tab";
                     history_tab := new_history_tab [] |}
  ≫= action_prev_tab
  = Ok {| active := "timeline-tab"; history_tab := new_history_tab [] |}.
Proof.
  apply (tab_keys_round_trip
           {| active := "timeline-tab"; history_tab := new_history_tab [] |}).
  cbn. set_solver.
Defined.

Lemma two_days_timeline :
  exists t,
    get_timeline_analysis utc_fromtimestamp day_number two_days_table = Ok t
    /\ version_creation_rate t = NFloat (Ffin 3).
Proof. eexists. split; [vm_compute; reflexivity | reflexivity]. Qed.

Lemma timeline_counts_by_type_witness :
  exists t,
    get_timeline_analysis utc_fromtimestamp day_number two_days_table = Ok t
    /\ total_operations t = 3
    /\ map_sum (operations_by_type t) = 3
    /\ operations_by_type t !! "WRITE" = Some 2
    /\ operations_by_type t !! "OPTIMIZE" = Some 1
    /\ operations_by_type t !! "VACUUM" = None.
Proof.
  destruct two_days_timeline as (t & Ht & _). exists t.
  destruct (timeline_counts_by_type utc_fromtimestamp day_number
              two_days_table t Ht) as (Hn & Hs & Hc).
  split; [exact Ht|]. split; [exact Hn|]. split; [rewrite Hs; exact Hn|].
  split; [|split]; rewrite Hc; reflexivity.
Defined.

Lemma timeline_groups_by_day_witness :
  exists t,
    get_timeline_analysis utc_fromtimestamp day_number two_days_table = Ok t
    /\ operations_by_day t !! "1" = Some [commit 2 90000000 "OPTIMIZE" 0]
    /\ operations_by_day t !! "0"
       = Some [commit 1 3600000 "WRITE" 10; commit 0 0 "WRITE" 100]
    /\ operations_by_day t !! "2" = None.
Proof.
  destruct two_days_timeline as (t & Ht & _). exists t.
  destruct (timeline_groups_by_day utc_fromtimestamp day_number
              two_days_table t Ht) as (Hg & _).
  split; [exact Ht|].
  split; [|split]; rewrite Hg; vm_compute; reflexivity.
Defined.

Lemma timeline_rate_and_ends_witness :
  exists t,
    get_timeline_analysis utc_fromtimestamp day_number two_days_table = Ok t
    /\ latest_operation t = Some (commit 2 90000000 "OPTIMIZE" 0)
    /\ first_operation t = Some (commit 0 0 "WRITE" 100)
    /\ version_creation_rate t = NFloat (Ffin 3).
Proof.
  destruct two_days_timeline as (t & Ht & Hr). exists t.
  destruct (timeline_rate_and_ends utc_fromtimestamp day_number
              two_days_table) as (_ & Hends & _).
  destruct (Hends t Ht ltac:(discriminate)) as (Hl & Hf & _).
  split; [exact Ht|]. split; [exact Hl|]. split; [exact Hf | exact Hr].
Defined.

Lemma files_table_shows_largest_witness :
  Display.sorted_files busy_stats 2
  = [sample_file "2.parquet" 1000 ∅; sample_file "0.parquet" 1 ∅]
  /\ len (Display.sorted_files busy_stats 2) = Display.title_showing busy_stats 2
  /\ Display.title_showing busy_stats 2 = 2.
Proof.
  split; [vm_compute; reflexivity|]. split; [|reflexivity].
  destruct (files_table_shows_largest busy_stats 2) as (_ & _ & H & _).
  apply H. lia.
Defined.

Lemma row_path_fits_witness :
  Display.row_path long_path
  = "...s/region=eu/part-00000-0123456789abcdef0123456789.parquet"
  /\ (String.length (Display.row_path long_path) <= 60)%nat.
Proof.
  split; [vm_compute; reflexivity|]. apply (row_path_fits long_path).
Defined.

Lemma retention_hours_read_witness :
  exists report,
    _detect_advanced_features {[ retention_key := "720 hours" ]}
                              plain_protocol = Ok report
    /\ vacuum_retention_hours report = 720
    /\ ds_num_indexed_cols (data_skipping report) = 32.
Proof.
  apply (retention_hours_read {[ retention_key := "720 hours" ]}
           plain_protocol "720" " hours" 32).
  - split; [discriminate|]. split; [reflexivity|]. vm_compute. lia.
  - set_solver.
  - reflexivity.
  - reflexivity.
Defined.

Lemma schema_type_names_witness :
  clean_type " DataType<Int64> " = Ok "Int64"
  /\ clean_type "timestamp[us, tz=UTC]" = Ok "timestamp[us, tz=UTC]".
Proof.
  split.
  - apply (schema_type_names " DataType<Int64> "); reflexivity.
  - apply (schema_type_names "timestamp[us, tz=UTC]"). left. reflexivity.
Defined.

Lemma insights_tab_shows_analysis_witness :
  exists l shown,
    analyze 0 busy_stats = Ok l
    /\ InsightsTab._create_insights l = Some shown
    /\ concat (InsightsTab.sections shown) = l
    /\ InsightsTab.summary shown = (1, 4, 3).
Proof.
  eexists. 
  match goal with
  | |- exists shown, analyze _ _ = Ok ?l /\ _ =>
      assert (Hl : analyze 0 busy_stats = Ok l) by (vm_compute; reflexivity);
      destruct (insights_tab_shows_analysis 0 busy_stats l Hl)
        as (shown & Hs & Hc & _)
  end.
  exists shown. split; [exact Hl|]. split; [exact Hs|].
  split; [exact Hc|].
  vm_compute in Hs. injection Hs as <-. reflexivity.
Defined.
